(* ===== verification/_CoqProject ===== *)
-Q . S2P
Prelude.v
Types.v
Platform.v
OrderBook.v
BookSpec.v
BookLinks.v
BookView.v
BookRep.v
BookMatch.v
BookRefinement.v
BookInvariant.v
BookPriority.v
BookDebug.v
BookSnapshot.v
BookFeed.v
BookTheorems.v
Codec.v
Payloads.v
Protocol.v
SpscQueue.v
Connection.v
ConnectionRead.v
ConnectionWrite.v
ConnectionBytes.v
ConnectionWire.v
Exchange.v
ExchangeCalls.v
ExchangeEvents.v
ExchangeSession.v
ExchangeFeed.v
ExchangeReplies.v
ExchangeTheorems.v
ExchangeLife.v
ExchangeAccept.v
Server.v
ServerTheorems.v
ServerStall.v
OrderFlow.v
Logger.v
LoggerTheorems.v
ShadowBook.v
ShadowTheorems.v
Doubles.v
DoublesExact.v
DoublesValue.v
DoublesRound.v
DoublesRange.v
DoublesNear.v
DoublesInterval.v
Pcg32.v
Pcg32Theorems.v
CmathRange.v
Pcg32Range.v
OrderManager.v
OrderManagerTheorems.v
OrderManagerRuns.v
MarketState.v
MarketDynamics.v
MarketTheorems.v
MarketRange.v
DynamicsTheorems.v
DynamicsRange.v
OrderManagerRange.v
Simulator.v
SimulatorTheorems.v
MarketFeed.v
Trader.v
TraderTheorems.v
SimulatorRange.v
TraderRuns.v
FairFeed.v
Application.v
