(* ===== verification/Prelude.v ===== *)
(** * A verified model of the exchange and of its market simulator

    The program is an exchange for one instrument and a simulator that trades on
    it.  Clients connect over TCP and send framed messages; the exchange runs a
    limit order book with price-time priority, answers its clients, publishes
    numbered market data to subscribers and logs the public events.  The simulator
    is a client: it keeps a copy of the book, derives indicators from it, inserts
    random orders at random times and cancels them later.

    This library translates that code into executable functions and proves what it
    guarantees.  File names of the code are relative to [src/].

    ** How the code is translated

    A value of an integer type is the [Z] it denotes; [u16], [u32], [u64] wrap
    where the C++ operation can leave the range, and [in_i64] is undefined where a
    signed operation overflows.  A function that can fail gives an [outcome]:
    [Done], [Undefined] for undefined behaviour (a null or dangling pointer, an
    access outside an array, signed overflow, a conversion out of range), or
    [OutOfFuel].  A C array is an [array]; an [Order*] is its slot in the pool; an
    object that several handlers change is a record that each handler takes and
    gives back.  Calls to the outside (callbacks, messages, timers, posted tasks,
    bytes for a file) are values a function returns, in the order of the calls;
    readings of the clock are arguments.  A [double] is an IEEE 754 binary64 with
    the operations of [SpecFloat], rounded to nearest, without contraction.

    ** The files

    - [Prelude], [Types]: machine integers, outcomes, arrays, lemmas shared by all
      ([machine] hints for ranges, [wrap] rewriting, [run_bind]); [src/types.hpp].
    - [Platform] ([src/time.cpp], [src/logging.hpp], [src/error.hpp]): the clock, the
      levels of the text log, [atoi].
    - [OrderBook]: the matching engine ([src/order.hpp], [src/pricelevel.hpp],
      [src/callbacks.hpp], [src/order_book.hpp], [src/order_book.cpp]): the pool
      with its free list, the intrusive linked lists of the levels, the two sides,
      submission, matching, cancel, amend, snapshot.  [BookDebug]: the checks and
      listings of the debug build.
    - [BookSpec]: what the engine promises, without pointers: queues of orders per
      price.  [BookLinks], [BookView], [BookRep]: how the linked structure
      represents it.  [BookMatch], [BookRefinement]: every operation implements it.
      [BookInvariant], [BookPriority], [BookFeed], [BookSnapshot]: what follows on
      the abstract book.  [BookTheorems]: the guarantees, stated on the engine.
    - [Codec], [Payloads], [Protocol] ([src/protocol.hpp]): packed little-endian
      layouts, the payload structs, writing and parsing of messages.
    - [SpscQueue] ([src/spsc_queue.hpp]): the ring buffer, as operations and as
      single loads and stores of two threads.
    - [Connection] ([src/connectivity.hpp], [src/connectivity.cpp]): framing,
      reading, writing.  [ConnectionRead], [ConnectionWrite]: their guarantees.
      [ConnectionBytes]: the bytes of queued messages, as frames.  [ConnectionWire]:
      the batches and the large writes of one connection, on one socket.
    - [Exchange] ([src/exchange.hpp], [src/exchange.cpp]): dispatch, callbacks,
      subscriptions, the table of connections.  [ExchangeCalls], [ExchangeEvents],
      [ExchangeSession], [ExchangeFeed], [ExchangeReplies]: lemmas on one message,
      one event, a session, a feed, a reply.  [ExchangeTheorems]: the guarantees.
      [ExchangeLife]: the lifetime of connections across two strands.
      [ExchangeAccept]: the acceptor, its errors, and the closing of sockets.
    - [Server]: the exchange composed with its connections: one step is a read that
      completes, or a posted task, with the hooks it calls.  [ServerTheorems]: what
      holds of every interleaving.  [ServerStall]: what a full inbox does.
      [OrderFlow]: from a client's connection to the book.
    - [Logger] ([src/binary_logger.hpp]): the queues, sinks and writer thread of
      the event log.  [LoggerTheorems]: its guarantees.
    - [ShadowBook] ([apps/market_simulator/shadow_order_book.hpp]): the simulator's
      copy of the book.  [ShadowTheorems]: its guarantees, among them that the
      exchange's feed makes it the exchange's book.
    - [Doubles], [DoublesExact]: binary64, and where it is exact.  [DoublesValue],
      [DoublesRound], [DoublesRange], [DoublesNear], [DoublesInterval]: the rational
      value of a number, rounding as a monotone function and to the nearest, and
      intervals of values computed with proof by reflection (hints [intervals]).
    - [Pcg32] ([apps/market_simulator/pcg32.hpp], [apps/market_simulator/rng.hpp]):
      the generator and the draws; [RNG] is the abstract class as a type class and
      [PCGRNG_RNG] its implementation.  [Pcg32Theorems]: its guarantees.
      [CmathRange]: ranges of [exp], [log], [log1p], [tanh] as the class
      [LibmRanges].  [Pcg32Range]: what a generator promises, as the class
      [LawfulRNG], and that PCG keeps it.
    - [OrderManager] ([apps/market_simulator/order_manager.hpp]): the scheduling of
      cancels.  The delay of a timer is the outcome of converting seconds to
      nanoseconds, which its action carries and [Trader] evaluates.  [std::priority_queue] is the class [PriorityQueue], with the laws of
      [LawfulQueue] and a list that implements it; every theorem holds for any
      lawful queue.  [OrderManagerTheorems]: one handler; [OrderManagerRuns]:
      histories of handlers with their timers, and the guarantees.
      [OrderManagerRange]: hazards, rates and clock in their ranges, and hence that
      every delay fits.
    - [MarketState] ([apps/market_simulator/state.hpp]), [MarketDynamics]
      ([apps/market_simulator/market_dynamics.hpp]): the derived state, and the
      decision to insert, part by part.  [MarketTheorems], [DynamicsTheorems]:
      their guarantees.  [MarketRange], [DynamicsRange]: that their numbers stay in
      range, so that no conversion is undefined.
    - [Simulator] ([apps/market_simulator/simulator.hpp]): the handlers, drains and
      ticks that compose these parts.  [SimulatorTheorems]: their guarantees.
    - [MarketFeed]: the exchange, its connection, the byte stream, the simulator's
      connection and queue and the shadow book, composed.
    - [Trader]: the simulator with its connection and socket, as steps in any order.
      [TraderTheorems]: what it sends, and that the exchange executes it.
      [SimulatorRange]: every handler returns, and its numbers stay in range.
      [TraderRuns]: hence no run is ever stuck.  [FairFeed]: the exchange sends the
      prices this relies on.
    - [Application] ([src/application.hpp], [src/application.cpp], the two [main.cpp]):
      the pool of threads around the exchange, signals, and the command lines.

    ** How the parts interact

    [Connection.handle_read_] pushes messages to an [SpscQueue]; the engine strand
    pops them and calls [Exchange.dispatch_], which decodes the payload
    ([Payloads]), runs the order book and turns each [Event] of the book into
    messages ([callback]); [Connection.send_message] queues them for
    [drain_writes_].  The simulator has the other end: [on_message] decodes what it
    pops into [ShadowBook], [MarketState] and [OrderManager]; [tick] synchronises
    the state, updates the rates and sends the decisions of [MarketDynamics].

    Three compositions join the ends.  [Server] lets the connections of all clients
    and the engine take steps in any order: [complete_read] runs [handle_read_] of
    one client on the shared inbox, [run_ready] the task that wakes the engine, a
    drain [engine_drain].  [MarketFeed] follows one subscriber from the engine to
    its shadow book, and [OrderFlow] one client's requests to the engine; [Trader]
    lets the simulator's handlers, reads and writes take steps in any order.

    ** What is proved

    - Engine: every history of requests is executed and refines the abstract book
      ([engine_refines], [represents_observable]); while the totals stay in range
      the invariant holds ([healthy_invariant], [best_prices_and_spread]), trades
      follow price-time priority ([price_time_priority]) and the level updates are
      a complete feed ([level_feed_exact]); each request does what it should, on
      every branch ([submission_accounted], [cancel_removes], [amend_outcomes],
      [only_owner_acts], [submit_cancel_roundtrip], [snapshot_top_levels]).
      [amend_worse_level_crosses_book] and [level_total_wraps] show two ways out of
      the healthy histories.
    - Protocol and queue: round trips ([message_roundtrip], which also says that
      [parse_message_full] rejects price-level updates, and [parse_reencode]); the
      queue is a bounded FIFO, also between two threads ([queue_is_bounded_fifo],
      [spsc_interleaving_safe]).
    - Connection: the stream is reassembled however it is cut
      ([stream_reassembly], [framing_roundtrip]); output is in order, complete and
      makes progress ([output_stream], [output_drains]).  Large messages do not
      wait for a batch: kept apart, everything arrives ([separate_writes_arrive]),
      and otherwise frames can be torn ([unbuffered_write_mixes]).
    - Exchange: any bytes are safe ([any_bytes_are_safe]); the feed has no gap and
      shows the book ([feed_gapless], [market_data_exact], [subscription_snapshot]);
      requests are answered, to their client only, and fills are sent to the owner of
      the order that rested ([requests_answered], [disconnected_is_silent]); no connection is used after it is destroyed, as
      long as it is published first ([no_use_after_free];
      [early_departure_dangles] is the other order); one accept is outstanding
      while the acceptor is open ([always_accepting]).
    - Exchange with its connections: while the inbox has room, any interleaving of
      clients is a sequential session over their streams, each client's messages in
      order and its disconnection once and last ([exchange_serves_connections]); the
      engine is always woken and needs at most three tasks to catch up
      ([engine_catches_up]); what a client's connection wrote is what the book is
      asked ([orders_arrive]).  Without room it can stop for ever
      ([burst_stalls_engine]).
    - Application: a signal ends in [std::terminate] ([signal_terminates]); a second
      start runs nothing ([restart_runs_nothing]); the port and the number of
      threads are in range whatever the command line ([configuration]).
    - Log: nothing accepted is lost or reordered ([log_complete]) and the writer
      ends with everything written ([writer_terminates]).
    - Simulator: the shadow book is well typed and follows the exchange
      ([shadow_well_typed], [shadow_follows_engine], [shadow_from_snapshot]), also
      through the connections and queues between them, however the bytes are cut
      and the drains interleaved ([market_data_arrives]); the
      generator is PCG-XSH-RR and its draws stay in (0, 1) ([next_uint_reference],
      [uniform_open_interval]); orders are cancelled when due, once, and none is
      forgotten ([due_orders_cancelled], [cancels_accounted],
      [no_open_order_forgotten]); the liquidity it sees is exact
      ([liquidity_exact]), its indicators, prices, sizes and rates are in range
      ([indicators_in_range], [regime_prices], [decisions_bounded],
      [rates_positive]); its derived state stays finite for ever
      ([state_stays_finite]), every decision returns ([decisions_return]) and the
      two rates are in range ([rates_in_range]); messages are handled in order ([inbound_drained_in_order])
      and insertion follows the outbound queue ([tick_backpressure]).  Whatever it
      reads and draws, it sends typed orders and cancels only, and the exchange
      executes exactly these ([simulator_orders_execute]); and as long as the prices
      it is sent are those of the exchange and its clock is steady and moves on
      between two ticks, it is never stuck, whatever the order of its handlers, and
      the delays of its timers fit ([simulator_never_stuck]); the exchange sends no
      other prices ([exchange_is_fair]).

    ** Bounds and fuel

    The theorems on the engine and on the exchange speak of fewer than 2{^32}
    requests, since order ids and handles are 32-bit counters.  A loop gets as fuel
    a bound on its iterations that is proved enough: the number of resting orders
    for matching (an iteration that goes on retires one), the number of levels for
    a scan, the pool for a walk of a list, the bytes of the accumulator for
    parsing, the bytes of a batch for draining, 64 doublings for a buffer, the
    entries of the priority queue for pruning and firing, the queued items for the
    writer of the log, two calls for [normal_cdf].

    ** Parameters

    [Libm] (the functions of [cmath] that C++ leaves to the implementation) and
    [Distributions] (the algorithms of [random], likewise) are parameters.  Most of
    what is proved holds whatever they give.  The theorems of [MarketRange],
    [DynamicsRange] and [TraderRuns] suppose [LibmRanges], that [exp], [log],
    [log1p] and [tanh] give numbers in the ranges of the mathematical functions,
    coarsely, and [LawfulDistributions], that the Poisson distribution, given a
    positive mean as the standard demands, leaves a generator of 64-bit words; [decisions_return] also that the fair value is at most
    2{^50} and [simulator_never_stuck] that its logarithm is at most 34.5 when a tick
    comes: the random walk of the code has no bound of its own.

    ** What is not modelled

    The sockets, the scheduler and the event loop of the I/O library: completions,
    posted tasks and timers are steps whose order is arbitrary ([Server],
    [ConnectionWire], [ConnectionWrite], [ExchangeAccept], [ExchangeLife],
    [OrderManagerRuns], [LoggerTheorems]).  The readings of the system clock, the
    macros that declare the loggers of the text log and the names of log files' time
    stamps.  Weak memory: the queue is checked under sequential consistency, and in
    [Server] the pushes of different connections to the inbox are handlers that do
    not overlap (with several threads in the pool they can).  Commented-out metrics
    of the simulator.

    ** What is left

    The destruction of a connection whose tasks are still posted is in
    [ExchangeLife] and [ExchangeAccept], not in [Server].  [Server], [MarketFeed]
    and [Trader] are three compositions, not one system: the bytes that leave one
    are what another is given. *)

From stdpp Require Export base gmap list numbers fin_maps strings.
From Stdlib Require Export ZArith Lia.

#[global] Open Scope Z_scope.

(** ** Machine integers

    A value of an unsigned C++ type is the [Z] it denotes; every operation
    whose C++ result can leave the range is wrapped explicitly. *)

Definition u8 (z : Z) : Z := z mod 2 ^ 8.
Definition u16 (z : Z) : Z := z mod 2 ^ 16.
Definition u32 (z : Z) : Z := z mod 2 ^ 32.
Definition u64 (z : Z) : Z := z mod 2 ^ 64.

(** Two's-complement reading of the low 64 bits ([int64_t]). *)
Definition i64 (z : Z) : Z := (z + 2 ^ 63) mod 2 ^ 64 - 2 ^ 63.

Definition is_u32 (z : Z) : Prop := 0 <= z < 2 ^ 32.

Lemma u32_small z : 0 <= z < 2 ^ 32 → u32 z = z.
Proof. apply Z.mod_small. Qed.

Lemma u64_small z : 0 <= z < 2 ^ 64 → u64 z = z.
Proof. apply Z.mod_small. Qed.

Lemma u32_range z : 0 <= u32 z < 2 ^ 32.
Proof. apply Z.mod_pos_bound. lia. Qed.

Lemma u32_add_l a b : u32 (u32 a + b) = u32 (a + b).
Proof. apply Z.add_mod_idemp_l. lia. Qed.

Lemma u64_add_l a b : u64 (u64 a + b) = u64 (a + b).
Proof. apply Z.add_mod_idemp_l. lia. Qed.

Lemma u32_sub_l a b : u32 (u32 a - b) = u32 (a - b).
Proof. apply Zminus_mod_idemp_l. Qed.

Definition is_i64 (z : Z) : Prop := - 2 ^ 63 <= z < 2 ^ 63.

Lemma is_u32_u32 z : is_u32 (u32 z).
Proof. apply u32_range. Qed.

Lemma u64_range z : 0 <= u64 z < 2 ^ 64.
Proof. apply Z.mod_pos_bound. lia. Qed.

(** Counting up with wrap-around. *)
Lemma wrap_seqZ a n : map u32 (seqZ (u32 a) n) = map u32 (seqZ a n).
Proof.
  unfold seqZ. change (u32 <$> ((λ i, Z.of_nat i + u32 a) <$> seq 0 (Z.to_nat n)) =
    u32 <$> ((λ i, Z.of_nat i + a) <$> seq 0 (Z.to_nat n))).
  rewrite <- !list_fmap_compose. apply list_fmap_ext. intros _ i _. cbn.
  by rewrite !(Z.add_comm (Z.of_nat i)), u32_add_l.
Qed.

(** Ranges of machine integers. *)
Create HintDb machine.
#[export] Hint Resolve is_u32_u32 u32_range u64_range : machine.
Create Rewrite HintDb wrap.
#[export] Hint Rewrite u32_add_l u64_add_l u32_sub_l : wrap.

#[global] Opaque u8 u16 u32 u64 i64.

(** ** Outcomes

    [Undefined] is undefined behaviour (a null dereference or an access
    outside an array); [OutOfFuel] is a loop that did not finish within the
    fuel given to its model. *)

Inductive outcome (A : Type) : Type :=
  | Done (a : A)
  | Undefined
  | OutOfFuel.
Arguments Done {A} a.
Arguments Undefined {A}.
Arguments OutOfFuel {A}.

#[global] Instance outcome_ret : MRet outcome := λ A a, Done a.
#[global] Instance outcome_bind : MBind outcome := λ A B f m,
  match m with
  | Done a => f a
  | Undefined => Undefined
  | OutOfFuel => OutOfFuel
  end.

(** One step of a computation of which the head is known. *)
Tactic Notation "run_bind" := cbn [mbind outcome_bind].
Tactic Notation "run_bind" "in" "*" := cbn [mbind outcome_bind] in *.

Lemma Done_pair {A B} (a a' : A) (b b' : B) : Done (a, b) = Done (a', b') → a = a' ∧ b = b'.
Proof. by intros [= <- <-]. Qed.

(** The result of an [int64_t] operation; signed overflow is undefined. *)
Definition in_i64 (z : Z) : outcome Z :=
  if (- 2 ^ 63 <=? z) && (z <? 2 ^ 63) then Done z else Undefined.

Lemma in_i64_ok z : is_i64 z → in_i64 z = Done z.
Proof.
  intros [H1%Z.leb_le H2%Z.ltb_lt]. unfold in_i64. by rewrite H1, H2.
Qed.

(** Dereference of a pointer that may be null. *)
Definition deref {A} (p : option A) : outcome A :=
  match p with Some a => Done a | None => Undefined end.

(** ** Fixed-size arrays

    A C array of [arr_size] cells: the value each cell got from the
    constructor that filled it, and the cells written since.  Reading or
    writing outside [0 .. arr_size) is [Undefined]. *)

Record array (A : Type) : Type := MkArray {
  arr_size : Z;
  arr_ctor : Z → A;
  arr_written : gmap Z A
}.
Arguments MkArray {A}.
Arguments arr_size {A}.
Arguments arr_ctor {A}.
Arguments arr_written {A}.

Section arrays.
Context {A : Type}.
Implicit Types (a : array A) (i j : Z) (v : A).

Definition arr_make (n : Z) (f : Z → A) : array A := MkArray n f ∅.

Definition in_bounds a i : bool := (0 <=? i) && (i <? arr_size a).

(** The content of a cell, and the array after a store. *)
Definition arr_at a i : A := default (arr_ctor a i) (arr_written a !! i).
Definition arr_put a i v : array A :=
  MkArray (arr_size a) (arr_ctor a) (<[i := v]> (arr_written a)).

(** The checked accesses the translated code performs. *)
Definition arr_get a i : outcome A :=
  if in_bounds a i then Done (arr_at a i) else Undefined.
Definition arr_set a i v : outcome (array A) :=
  if in_bounds a i then Done (arr_put a i v) else Undefined.

Lemma in_bounds_true a i : 0 <= i < arr_size a → in_bounds a i = true.
Proof. unfold in_bounds. lia. Qed.

Lemma arr_get_ok a i : 0 <= i < arr_size a → arr_get a i = Done (arr_at a i).
Proof. intros H. unfold arr_get. by rewrite in_bounds_true. Qed.

Lemma arr_set_ok a i v : 0 <= i < arr_size a → arr_set a i v = Done (arr_put a i v).
Proof. intros H. unfold arr_set. by rewrite in_bounds_true. Qed.

Lemma arr_at_put_eq a i v : arr_at (arr_put a i v) i = v.
Proof. unfold arr_at, arr_put. cbn. by rewrite lookup_insert_eq. Qed.

Lemma arr_at_put_ne a i j v : i ≠ j → arr_at (arr_put a i v) j = arr_at a j.
Proof. intros H. unfold arr_at, arr_put. cbn. by rewrite lookup_insert_ne. Qed.

Lemma arr_at_put a i j v :
  arr_at (arr_put a i v) j = if decide (i = j) then v else arr_at a j.
Proof. case_decide; subst; [apply arr_at_put_eq | by apply arr_at_put_ne]. Qed.

Lemma arr_size_put a i v : arr_size (arr_put a i v) = arr_size a.
Proof. done. Qed.

Lemma arr_at_make n f i : arr_at (arr_make n f) i = f i.
Proof. unfold arr_at, arr_make. cbn. by rewrite lookup_empty. Qed.
End arrays.

#[global] Opaque arr_at arr_put.

(** ** Lists *)

Lemma list_filter_ext_in {A} (P Q : A → Prop) `{!∀ x, Decision (P x), !∀ x, Decision (Q x)} (l : list A) :
  (∀ x, x ∈ l → P x ↔ Q x) → filter P l = filter Q l.
Proof.
  induction l as [|x l IH]; intros HPQ; [done|]. rewrite !filter_cons.
  rewrite IH by (intros y Hy; apply HPQ; by apply list_elem_of_further).
  specialize (HPQ x (list_elem_of_here _ _)).
  destruct (decide (P x)), (decide (Q x)); tauto.
Qed.

Lemma NoDup_reverse {A} (l : list A) : NoDup (reverse l) ↔ NoDup l.
Proof. by rewrite reverse_Permutation. Qed.

Lemma filter_head_split {A} (P : A → Prop) `{!∀ x, Decision (P x)} (l : list A) x r :
  filter P l = x :: r → ∃ pre post, l = pre ++ x :: post ∧ filter P pre = [] ∧
                          filter P post = r ∧ P x.
Proof.
  induction l as [|y l IH]; [done|]. rewrite filter_cons. case_decide as HP.
  - intros [= -> <-]. by exists [], l.
  - intros (pre & post & -> & Hpre & Hpost & Hx)%IH. exists (y :: pre), post.
    by rewrite filter_cons_False.
Qed.

Lemma filter_none {A} (P : A → Prop) `{!∀ x, Decision (P x)} (l : list A) :
  (∀ x, x ∈ l → ¬ P x) → filter P l = [].
Proof.
  induction l as [|x l IH]; intros Hn; [done|].
  rewrite filter_cons_False by (apply Hn; set_solver). apply IH. set_solver.
Qed.
