(* ===== verification/Types.v ===== *)
(** Constants and enumerations of [src/types.hpp], shared by every component. *)

From S2P Require Import Prelude.

(** The integer aliases of [types.hpp].  Values are the integers they denote;
    widths are made explicit where an operation can wrap. *)
Abbreviation Id_t := Z (only parsing).
Abbreviation Price_t := Z (only parsing).
Abbreviation Volume_t := Z (only parsing).
Abbreviation Time_t := Z (only parsing).
Abbreviation Message_t := Z (only parsing).

Definition MAX_ORDERS : Z := 100000.
Definition MINIMUM_BID : Price_t := 1.
Definition MAXIMUM_ASK : Price_t := 10000.
Definition NUM_BOOK_LEVELS : Z := MAXIMUM_ASK - MINIMUM_BID + 1.
Definition ORDER_BOOK_MESSAGE_DEPTH : Z := 10.
Definition ERROR_TEXT_LEN : Z := 32.

Inductive Lifespan := FILL_AND_KILL | GOOD_FOR_DAY.
Inductive Side := SELL | BUY.

Inductive ErrorType :=
  | ORDER_BOOK_FULL
  | INVALID_VOLUME
  | ORDER_NOT_FOUND
  | UNAUTHORISED
  | INVALID_PRICE.

(** [static_cast<uint16_t>(ErrorType)] *)
Definition error_code (e : ErrorType) : Z :=
  match e with
  | ORDER_BOOK_FULL => 1
  | INVALID_VOLUME => 2
  | ORDER_NOT_FOUND => 3
  | UNAUTHORISED => 4
  | INVALID_PRICE => 5
  end.

(** The underlying [uint8_t] values of the two enumerations. *)
Definition Lifespan_to_u8 (l : Lifespan) : Z :=
  match l with FILL_AND_KILL => 0 | GOOD_FOR_DAY => 1 end.
Definition Side_to_u8 (s : Side) : Z :=
  match s with SELL => 0 | BUY => 1 end.

#[global] Instance Lifespan_eq_dec : EqDecision Lifespan.
Proof. solve_decision. Defined.
#[global] Instance Side_eq_dec : EqDecision Side.
Proof. solve_decision. Defined.
#[global] Instance ErrorType_eq_dec : EqDecision ErrorType.
Proof. solve_decision. Defined.

(** [is_bid ? Side::BUY : Side::SELL] *)
Definition side_of (is_bid : bool) : Side := if is_bid then BUY else SELL.

Lemma num_book_levels_val : NUM_BOOK_LEVELS = 10000.
Proof. reflexivity. Qed.

Lemma max_orders_val : MAX_ORDERS = 100000.
Proof. reflexivity. Qed.

(** The sizes are used through the two equations above. *)
#[global] Opaque MAX_ORDERS NUM_BOOK_LEVELS.
