(* ===== verification/Platform.v ===== *)
(** The clock, the levels of the text log and the errors ([time.cpp],
    [logging.hpp], [error.hpp]), and the reading of numbers from the command line. *)

From stdpp Require Import strings.
From Stdlib Require Import Ascii.
From S2P Require Import Prelude Types.

(** ** The clock *)

(** [utc_now_ns] on Linux and macOS: [timespec] of [CLOCK_REALTIME]. *)
Definition utc_now_ns (tv_sec tv_nsec : Z) : Time_t := u64 (u64 tv_sec * 1000000000 + u64 tv_nsec).

(** [utc_now_ns] on Windows: the two halves of a [FILETIME], in units of 100 ns
    since the year 1601. *)
Definition utc_now_ns_windows (dwHighDateTime dwLowDateTime : Z) : Time_t :=
  u64 (u64 (Z.lor (Z.shiftl dwHighDateTime 32) dwLowDateTime) * 100).

(** ** Levels of the text log *)

Inductive LogLevel := LL_DEBUG | LL_INFO | LL_WARNING | LL_ERROR | LL_FATAL.

#[global] Instance LogLevel_eq_dec : EqDecision LogLevel.
Proof. solve_decision. Defined.

Definition LogLevel_to_u8 (l : LogLevel) : Z :=
  match l with LL_DEBUG => 0 | LL_INFO => 1 | LL_WARNING => 2 | LL_ERROR => 3 | LL_FATAL => 4 end.

(** [TG_COMPILED_LOG_LEVEL], with and without [NDEBUG]. *)
Definition TG_COMPILED_LOG_LEVEL (ndebug : bool) : LogLevel := if ndebug then LL_WARNING else LL_DEBUG.

Definition log_level_enabled (ndebug : bool) (lvl : LogLevel) : bool :=
  LogLevel_to_u8 (TG_COMPILED_LOG_LEVEL ndebug) <=? LogLevel_to_u8 lvl.

Definition LOG_LEVEL_NAMES : list string := ["DEBUG"; "INFO"; "WARNING"; "ERROR"; "FATAL"]%string.

(** [operator<<]; an access outside the array of names is undefined. *)
Definition print_level (lvl : LogLevel) : outcome string :=
  deref (LOG_LEVEL_NAMES !! Z.to_nat (LogLevel_to_u8 lvl)).

(** [RLOG], with the run-time filter [main] installs: what is written. *)
Definition RLOG (ndebug : bool) (lvl : LogLevel) (text : string) : list (LogLevel * string) :=
  if log_level_enabled ndebug lvl
  then if LogLevel_to_u8 LL_ERROR <=? LogLevel_to_u8 lvl then [(lvl, text)] else []
  else [].

(** [TGError] carries the message of [std::runtime_error]. *)
Record TGError := MkTGError { what : string }.

(** ** Numbers *)

(** [isspace] and [isdigit] of the C locale. *)
Definition is_space (c : ascii) : bool :=
  let n := Z.of_nat (nat_of_ascii c) in (n =? 32) || ((9 <=? n) && (n <=? 13)).
Definition digit_of (c : ascii) : option Z :=
  let n := Z.of_nat (nat_of_ascii c) in if (48 <=? n) && (n <=? 57) then Some (n - 48) else None.

Fixpoint skip_spaces (s : string) : string :=
  match s with
  | String c rest => if is_space c then skip_spaces rest else s
  | EmptyString => s
  end.

(** The digits at the start, most significant first. *)
Fixpoint read_digits (acc : Z) (s : string) : Z :=
  match s with
  | String c rest => match digit_of c with Some d => read_digits (10 * acc + d) rest | None => acc end
  | EmptyString => acc
  end.

(** [std::atoi]; a value outside [int] is undefined behaviour. *)
Definition atoi (s : string) : outcome Z :=
  let s := skip_spaces s in
  let '(negative, s) := match s with
                        | String "-" rest => (true, rest)
                        | String "+" rest => (false, rest)
                        | _ => (false, s)
                        end in
  let n := read_digits 0 s in
  let n := if negative : bool then - n else n in
  if (- 2 ^ 31 <=? n) && (n <? 2 ^ 31) then Done n else Undefined.

Example atoi_port : atoi " 16001x" = Done 16001. Proof. reflexivity. Qed.
Example atoi_word : atoi "port" = Done 0. Proof. reflexivity. Qed.
Example atoi_huge : atoi "99999999999" = Undefined. Proof. reflexivity. Qed.

(** ** What is relied on *)

(** A valid reading of the clock before the year 2554 does not wrap, and later
    readings are later. *)
Theorem clock_monotone sec nsec sec' nsec' :
  0 <= sec → 0 <= nsec < 1000000000 → sec' < 2 ^ 64 / 1000000000 → 0 <= nsec' < 1000000000 →
  sec < sec' ∨ sec = sec' ∧ nsec <= nsec' →
  utc_now_ns sec nsec = sec * 1000000000 + nsec ∧ utc_now_ns sec nsec <= utc_now_ns sec' nsec'.
Proof.
  intros Hs Hn Hs' Hn' Hle. change (2 ^ 64 / 1000000000) with 18446744073 in Hs'. unfold utc_now_ns.
  rewrite !u64_small by (rewrite ?u64_small; lia). lia.
Qed.

Lemma clock_monotone_witness :
  utc_now_ns 1700000000 5 = 1700000000000000005 ∧ utc_now_ns 1700000000 5 <= utc_now_ns 1700000001 0.
Proof. apply (clock_monotone 1700000000 5 1700000001 0); vm_compute; try (split; congruence); try congruence. left. reflexivity. Defined.

(** Every level has a name; in a release build the messages below a warning are
    compiled out, and what is written is enabled. *)
Lemma levels_named lvl : ∃ name, print_level lvl = Done name.
Proof. destruct lvl; by eexists. Qed.

Lemma rlog_enabled ndebug lvl text : RLOG ndebug lvl text ≠ [] ↔ lvl = LL_ERROR ∨ lvl = LL_FATAL.
Proof. destruct ndebug, lvl; unfold RLOG; cbn; naive_solver. Qed.
