(* ===== verification/OrderBook.v ===== *)
(** The matching engine: [src/order.hpp], [src/pricelevel.hpp],
    [src/callbacks.hpp], [src/order_book.hpp] and [src/order_book.cpp].

    An [Order*] is modelled by the slot it points at: links inside a side
    ([next_], [previous_], [first_], [last_], [next_free_]) all point into that
    side's own pool, so they are [option Z] (nullptr or [&pool_[i]]); the
    entries of [order_by_handle_] point into either pool and carry the pool
    they belong to.  The calls the engine makes through [OrderBookCallbacks]
    are the list of events an operation returns, in call order. *)

From S2P Require Import Prelude Types.

(** ** order.hpp *)
Module Order.
Record t := Make {
  next_ : option Z;
  previous_ : option Z;
  client_id_ : Id_t;
  order_id_ : Id_t;
  order_handle_ : Id_t;
  price_ : Price_t;
  quantity_ : Volume_t;
  quantity_remaining_ : Volume_t;
  quantity_cumulative_ : Volume_t;
  is_bid_ : bool
}.

Definition set_next (o : t) (n : option Z) : t :=
  Make n o.(previous_) o.(client_id_) o.(order_id_) o.(order_handle_) o.(price_)
    o.(quantity_) o.(quantity_remaining_) o.(quantity_cumulative_) o.(is_bid_).
Definition set_previous (o : t) (p : option Z) : t :=
  Make o.(next_) p o.(client_id_) o.(order_id_) o.(order_handle_) o.(price_)
    o.(quantity_) o.(quantity_remaining_) o.(quantity_cumulative_) o.(is_bid_).
Definition set_quantities (o : t) (total remaining cumulative : Volume_t) : t :=
  Make o.(next_) o.(previous_) o.(client_id_) o.(order_id_) o.(order_handle_) o.(price_)
    total remaining cumulative o.(is_bid_).
End Order.

(** The fields of an [Order] other than its links and its slot: what a callback
    that receives [const Order&] reads. *)
Record OrderData := MkOrderData {
  od_client_id : Id_t;
  od_order_id : Id_t;
  od_price : Price_t;
  od_quantity : Volume_t;
  od_remaining : Volume_t;
  od_cumulative : Volume_t;
  od_is_bid : bool
}.

Definition order_data (o : Order.t) : OrderData :=
  MkOrderData o.(Order.client_id_) o.(Order.order_id_) o.(Order.price_) o.(Order.quantity_)
    o.(Order.quantity_remaining_) o.(Order.quantity_cumulative_) o.(Order.is_bid_).

Module OrderPool.
Record t := Make {
  pool_ : array Order.t;
  next_free_ : option Z
}.

(** [OrderPool::OrderPool()]: slot [i] links to slot [i + 1], the last one to
    nullptr, and every slot knows its own index.  The remaining fields are
    left uninitialised by the constructor and are overwritten by [add_order]
    before anything reads them. *)
Definition initial_order (i : Z) : Order.t :=
  Order.Make (if i <? MAX_ORDERS - 1 then Some (i + 1) else None) None
    0 0 i 0 0 0 0 false.

Definition OrderPool : t :=
  Make (arr_make MAX_ORDERS initial_order) (Some 0).

Definition allocate (p : t) : outcome (option Z * t) :=
  match p.(next_free_) with
  | None => Done (None, p)
  | Some i =>
      order ← arr_get p.(pool_) i;
      pool' ← arr_set p.(pool_) i (Order.set_next order None);
      Done (Some i, Make pool' order.(Order.next_))
  end.

Definition deallocate (p : t) (i : Z) : outcome t :=
  order ← arr_get p.(pool_) i;
  pool' ← arr_set p.(pool_) i (Order.set_next order p.(next_free_));
  Done (Make pool' (Some i)).
End OrderPool.

(** ** pricelevel.hpp *)
Module PriceLevel.
Record t := Make {
  first_ : option Z;
  last_ : option Z;
  total_quantity_ : Volume_t;
  price_ : Price_t;
  idx_ : Z
}.

Definition set_first (l : t) (p : option Z) : t :=
  Make p l.(last_) l.(total_quantity_) l.(price_) l.(idx_).
Definition set_last (l : t) (p : option Z) : t :=
  Make l.(first_) p l.(total_quantity_) l.(price_) l.(idx_).
Definition set_total (l : t) (q : Volume_t) : t :=
  Make l.(first_) l.(last_) q l.(price_) l.(idx_).
End PriceLevel.

(** ** callbacks.hpp: one constructor per virtual method. *)
Inductive Event :=
  | on_trade (maker_order : OrderData) (taker_client_id taker_order_id : Id_t)
      (price : Price_t) (taker_total_quantity taker_cumulative_quantity traded_quantity : Volume_t)
      (timestamp : Time_t)
  | on_order_inserted (client_request_id : Id_t) (order : OrderData) (timestamp : Time_t)
  | on_order_cancelled (client_request_id : Id_t) (order : OrderData) (timestamp : Time_t)
  | on_order_amended (client_request_id : Id_t) (quantity_old : Volume_t) (order : OrderData)
      (timestamp : Time_t)
  | on_level_update (side : Side) (level_price : Price_t) (level_total_quantity : Volume_t)
      (timestamp : Time_t)
  | on_error (client_id client_request_id : Id_t) (code : ErrorType) (message : string)
      (timestamp : Time_t).

Definition level_event (side : Side) (level : PriceLevel.t) (now : Time_t) : Event :=
  on_level_update side level.(PriceLevel.price_) level.(PriceLevel.total_quantity_) now.

(** ** order_book.hpp / order_book.cpp: one side of the book *)
Module OrderBookSide.
Record t := Make {
  levels_ : array PriceLevel.t;
  pool_ : OrderPool.t;
  is_bid_ : bool;
  best_price_index_ : Z
}.

Definition set_pool (s : t) (p : OrderPool.t) : t :=
  Make s.(levels_) p s.(is_bid_) s.(best_price_index_).
Definition set_best (s : t) (i : Z) : t :=
  Make s.(levels_) s.(pool_) s.(is_bid_) i.

Definition initial_level (i : Z) : PriceLevel.t :=
  PriceLevel.Make None None 0 (MINIMUM_BID + i) i.

(** [OrderBookSide::OrderBookSide(bool is_bid)] *)
Definition OrderBookSide (is_bid : bool) : t :=
  Make (arr_make NUM_BOOK_LEVELS initial_level) OrderPool.OrderPool is_bid NUM_BOOK_LEVELS.

(** The signed subtraction, undefined when it overflows, and the cast of its
    result to [size_t]. *)
Definition price_to_index (price : Price_t) : outcome Z :=
  d ← in_i64 (price - MINIMUM_BID); Done (u64 d).

(** Loads and stores through an [Order*] of this side and through
    [levels_[i]]. *)
Definition get_order (s : t) (i : Z) : outcome Order.t :=
  arr_get s.(pool_).(OrderPool.pool_) i.
Definition put_order (s : t) (i : Z) (o : Order.t) : outcome t :=
  pool' ← arr_set s.(pool_).(OrderPool.pool_) i o;
  Done (set_pool s (OrderPool.Make pool' s.(pool_).(OrderPool.next_free_))).
Definition get_level (s : t) (i : Z) : outcome PriceLevel.t := arr_get s.(levels_) i.
Definition put_level (s : t) (i : Z) (l : PriceLevel.t) : outcome t :=
  levels' ← arr_set s.(levels_) i l;
  Done (Make levels' s.(pool_) s.(is_bid_) s.(best_price_index_)).

Definition update_best_bid_after_order (s : t) (price_idx : Z) : t :=
  if (s.(best_price_index_) =? NUM_BOOK_LEVELS) || (s.(best_price_index_) <? price_idx)
  then set_best s price_idx else s.

Definition update_best_ask_after_order (s : t) (price_idx : Z) : t :=
  if (s.(best_price_index_) =? NUM_BOOK_LEVELS) || (price_idx <? s.(best_price_index_))
  then set_best s price_idx else s.

(** [for (size_t i = old_idx; i-- > 0;)]: the first level with volume below
    [n], going down. *)
Fixpoint scan_down (levels : array PriceLevel.t) (n : nat) : outcome Z :=
  match n with
  | O => Done NUM_BOOK_LEVELS
  | S m =>
      level ← arr_get levels (Z.of_nat m);
      if 0 <? level.(PriceLevel.total_quantity_) then Done (Z.of_nat m)
      else scan_down levels m
  end.

(** [for (size_t i = old_idx + 1; i < NUM_BOOK_LEVELS; ++i)] with [n] the
    iterations left. *)
Fixpoint scan_up (levels : array PriceLevel.t) (n : nat) (i : Z) : outcome Z :=
  match n with
  | O => Done NUM_BOOK_LEVELS
  | S m =>
      level ← arr_get levels i;
      if 0 <? level.(PriceLevel.total_quantity_) then Done i
      else scan_up levels m (i + 1)
  end.

Definition update_best_bid_after_empty (s : t) : outcome t :=
  i ← scan_down s.(levels_) (Z.to_nat s.(best_price_index_));
  Done (set_best s i).

Definition update_best_ask_after_empty (s : t) : outcome t :=
  let old_idx := s.(best_price_index_) in
  i ← scan_up s.(levels_) (Z.to_nat (NUM_BOOK_LEVELS - (old_idx + 1))) (old_idx + 1);
  Done (set_best s i).

(** [OrderBookSide::add_order]: the new slot (nullptr when the pool is
    exhausted), the side after it and the callbacks. *)
Definition add_order (s : t) (price : Price_t) (quantity quantity_remaining : Volume_t)
    (order_id client_id client_request_id : Id_t) (now : Time_t)
    : outcome (option Z * t * list Event) :=
  idx ← price_to_index price;
  '(slot, pool') ← OrderPool.allocate s.(pool_);
  let s := set_pool s pool' in
  match slot with
  | None =>
      Done (None, s,
        [on_error client_id client_request_id ORDER_BOOK_FULL "Order book is full." now])
  | Some order =>
      level ← get_level s idx;
      let last := level.(PriceLevel.last_) in
      o ← get_order s order;
      s ← put_order s order
            (Order.Make None last client_id order_id o.(Order.order_handle_) price
               quantity quantity_remaining (u32 (quantity - quantity_remaining)) s.(is_bid_));
      '(s, level) ←
        match last with
        | Some l =>
            lo ← get_order s l;
            s ← put_order s l (Order.set_next lo (Some order));
            Done (s, level)
        | None => Done (s, PriceLevel.set_first level (Some order))
        end;
      let level := PriceLevel.set_last level (Some order) in
      let level := PriceLevel.set_total level
            (u32 (level.(PriceLevel.total_quantity_) + quantity_remaining)) in
      s ← put_level s idx level;
      let ev := level_event (side_of s.(is_bid_)) level now in
      let s := if s.(is_bid_) then update_best_bid_after_order s idx
               else update_best_ask_after_order s idx in
      Done (Some order, s, [ev])
  end.

(** What [match_loop] works on: the side it belongs to and the two indexes of
    the book it receives by reference. *)
Record MatchState := MkMatchState {
  ms_side : t;
  order_by_handle : array (option (bool * Z));
  order_id_to_handle : gmap Z Z
}.

Definition encoded_handle (o : Order.t) : Z :=
  u32 (u32 (o.(Order.order_handle_) * 2) + (if o.(Order.is_bid_) then 0 else 1)).

Section match_loop.
Context (crosses : Price_t → Price_t → bool) (advance_best : t → outcome t).
Context (incoming_price : Price_t) (total_incoming_quantity : Volume_t).
Context (order_id client_id : Id_t) (maker_side : Side) (now : Time_t).

(** The part of the inner loop's body under
    [if (maker->quantity_remaining_ == 0)]: unlink the first order of the
    level and give its slot back. *)
Definition retire_maker (st : MatchState) (lvl mk : Z) (maker : Order.t)
    : outcome MatchState :=
  level ← get_level st.(ms_side) lvl;
  let next := maker.(Order.next_) in
  let level := PriceLevel.set_first level next in
  side ←
    match next with
    | Some n =>
        s ← put_level st.(ms_side) lvl level;
        no ← get_order s n;
        put_order s n (Order.set_previous no None)
    | None =>
        s ← put_level st.(ms_side) lvl (PriceLevel.set_last level None);
        advance_best s
    end;
  by_handle ← arr_set st.(order_by_handle) (encoded_handle maker) None;
  pool' ← OrderPool.deallocate side.(pool_) mk;
  Done (MkMatchState (set_pool side pool') by_handle
          (delete maker.(Order.order_id_) st.(order_id_to_handle))).

(** One iteration of the inner loop on the first order [mk] of level
    [lvl]. *)
Definition match_one (st : MatchState) (lvl mk : Z) (incoming_quantity : Volume_t)
    : outcome (MatchState * Volume_t * Event) :=
  maker ← get_order st.(ms_side) mk;
  level ← get_level st.(ms_side) lvl;
  let trade_quantity := Z.min maker.(Order.quantity_remaining_) incoming_quantity in
  let maker := Order.set_quantities maker maker.(Order.quantity_)
        (u32 (maker.(Order.quantity_remaining_) - trade_quantity))
        (u32 (maker.(Order.quantity_cumulative_) + trade_quantity)) in
  side ← put_order st.(ms_side) mk maker;
  let incoming_quantity := u32 (incoming_quantity - trade_quantity) in
  side ← put_level side lvl
        (PriceLevel.set_total level
           (u32 (level.(PriceLevel.total_quantity_) - trade_quantity)));
  let st := MkMatchState side st.(order_by_handle) st.(order_id_to_handle) in
  let ev := on_trade (order_data maker) client_id order_id maker.(Order.price_)
        total_incoming_quantity (u32 (total_incoming_quantity - incoming_quantity))
        trade_quantity now in
  if maker.(Order.quantity_remaining_) =? 0 then
    st ← retire_maker st lvl mk maker;
    Done (st, incoming_quantity, ev)
  else Done (st, incoming_quantity, ev).

(** [while (incoming_quantity > 0 && level->first_)] *)
Fixpoint match_level (fuel : nat) (st : MatchState) (lvl : Z) (incoming_quantity : Volume_t)
    : outcome (MatchState * Volume_t * list Event) :=
  level ← get_level st.(ms_side) lvl;
  match level.(PriceLevel.first_) with
  | Some mk =>
      if 0 <? incoming_quantity then
        match fuel with
        | O => OutOfFuel
        | S fuel =>
            '(st, incoming_quantity, ev) ← match_one st lvl mk incoming_quantity;
            '(st, incoming_quantity, evs) ← match_level fuel st lvl incoming_quantity;
            Done (st, incoming_quantity, ev :: evs)
        end
      else Done (st, incoming_quantity, [])
  | None => Done (st, incoming_quantity, [])
  end.

(** [while (incoming_quantity > 0)] *)
Fixpoint match_levels (fuel : nat) (st : MatchState) (incoming_quantity : Volume_t)
    : outcome (MatchState * Volume_t * list Event) :=
  if 0 <? incoming_quantity then
    let best := st.(ms_side).(best_price_index_) in
    if best =? NUM_BOOK_LEVELS then Done (st, incoming_quantity, [])
    else
      level ← get_level st.(ms_side) best;
      if negb (crosses level.(PriceLevel.price_) incoming_price)
      then Done (st, incoming_quantity, [])
      else
        match fuel with
        | O => OutOfFuel
        | S fuel' =>
            '(st, incoming_quantity, evs) ← match_level fuel st best incoming_quantity;
            level ← get_level st.(ms_side) best;
            '(st, incoming_quantity, evs') ← match_levels fuel' st incoming_quantity;
            Done (st, incoming_quantity, evs ++ level_event maker_side level now :: evs')
        end
  else Done (st, incoming_quantity, []).
End match_loop.

(** [match_loop].  Every iteration of either loop that leaves quantity to
    match retires an order, and a retired order leaves
    [order_id_to_handle]: its size bounds the iterations of both loops. *)
Definition match_loop (crosses : Price_t → Price_t → bool) (advance_best : t → outcome t)
    (maker_side : Side) (st : MatchState)
    (incoming_price : Price_t) (incoming_quantity : Volume_t) (order_id client_id : Id_t)
    (now : Time_t) : outcome (MatchState * Volume_t * list Event) :=
  match_levels crosses advance_best incoming_price incoming_quantity order_id client_id
    maker_side now (S (size st.(order_id_to_handle))) st incoming_quantity.

Definition match_buy :=
  match_loop (λ level_price incoming, level_price <=? incoming) update_best_ask_after_empty SELL.

Definition match_sell :=
  match_loop (λ level_price incoming, incoming <=? level_price) update_best_bid_after_empty BUY.
End OrderBookSide.

(** ** order_book.hpp / order_book.cpp: the book *)
Module OrderBook.
Record t := Make {
  bids : OrderBookSide.t;
  asks : OrderBookSide.t;
  order_id_ : Id_t;
  trade_id_ : Id_t;
  order_by_handle_ : array (option (bool * Z));
  order_id_to_handle_ : gmap Z Z
}.

(** [OrderBook::OrderBook()] *)
Definition OrderBook : t :=
  Make (OrderBookSide.OrderBookSide true) (OrderBookSide.OrderBookSide false) 0 0
    (arr_make (2 * MAX_ORDERS) (λ _, None)) ∅.

Definition get_side (b : t) (is_bid : bool) : OrderBookSide.t :=
  if is_bid then b.(bids) else b.(asks).
Definition put_side (b : t) (is_bid : bool) (s : OrderBookSide.t) : t :=
  if is_bid
  then Make s b.(asks) b.(order_id_) b.(trade_id_) b.(order_by_handle_) b.(order_id_to_handle_)
  else Make b.(bids) s b.(order_id_) b.(trade_id_) b.(order_by_handle_) b.(order_id_to_handle_).

(** The state [match_buy]/[match_sell] work on when called on one side of the
    book, and the book after they return. *)
Definition match_state (b : t) (is_bid : bool) : OrderBookSide.MatchState :=
  OrderBookSide.MkMatchState (get_side b is_bid) b.(order_by_handle_) b.(order_id_to_handle_).
Definition after_match (b : t) (is_bid : bool) (st : OrderBookSide.MatchState) : t :=
  let b := put_side b is_bid st.(OrderBookSide.ms_side) in
  Make b.(bids) b.(asks) b.(order_id_) b.(trade_id_)
    st.(OrderBookSide.order_by_handle) st.(OrderBookSide.order_id_to_handle).

(** [if (remaining > 0) { Order* resting_order = side.add_order(...); ... }],
    the tail of both branches of [submit_order].
    [unordered_map::emplace] keeps the entry of a key already present. *)
Definition rest_order (b : t) (is_bid : bool) (price : Price_t) (quantity remaining : Volume_t)
    (order_id client_id client_request_id : Id_t) (now now_add : Time_t)
    : outcome (t * list Event) :=
  '(resting, s, evs) ← OrderBookSide.add_order (get_side b is_bid) price quantity remaining
                         order_id client_id client_request_id now_add;
  let b := put_side b is_bid s in
  match resting with
  | None => Done (b, evs)
  | Some slot =>
      resting_order ← OrderBookSide.get_order s slot;
      let encoded_handle :=
        u32 (u32 (resting_order.(Order.order_handle_) * 2) + (if is_bid then 0 else 1)) in
      by_handle ← arr_set b.(order_by_handle_) encoded_handle (Some (is_bid, slot));
      let id_to_handle :=
        match b.(order_id_to_handle_) !! order_id with
        | Some _ => b.(order_id_to_handle_)
        | None => <[order_id := encoded_handle]> b.(order_id_to_handle_)
        end in
      Done (Make b.(bids) b.(asks) b.(order_id_) b.(trade_id_) by_handle id_to_handle,
            evs ++ [on_order_inserted client_request_id (order_data resting_order) now])
  end.

(** [OrderBook::submit_order].  [now], [now_match] and [now_add] are what the
    three calls of [utc_now_ns] return (here, in [match_loop] and in
    [add_order]). *)
Definition submit_order (b : t) (price : Price_t) (quantity : Volume_t) (is_bid : bool)
    (client_id client_request_id : Id_t) (now now_match now_add : Time_t)
    : outcome (t * list Event) :=
  if quantity =? 0 then
    Done (b, [on_error client_id client_request_id INVALID_VOLUME "Invalid order size." now])
  else if (price <? MINIMUM_BID) || (MAXIMUM_ASK <? price) then
    Done (b, [on_error client_id client_request_id INVALID_PRICE "Invalid price." now])
  else
    let order_id := b.(order_id_) in
    let b := Make b.(bids) b.(asks) (u32 (b.(order_id_) + 1)) b.(trade_id_)
               b.(order_by_handle_) b.(order_id_to_handle_) in
    '(st, remaining, evs) ←
      (if is_bid then OrderBookSide.match_buy else OrderBookSide.match_sell)
        (match_state b (negb is_bid)) price quantity order_id client_id now_match;
    let b := after_match b (negb is_bid) st in
    if 0 <? remaining then
      '(b, evs') ← rest_order b is_bid price quantity remaining order_id client_id
                     client_request_id now now_add;
      Done (b, evs ++ evs')
    else Done (b, evs).

(** The relinking half of [OrderBook::remove_order]: the order's neighbours,
    or the ends of its level, are joined around it. *)
Definition unlink_order (s : OrderBookSide.t) (order : Order.t) (idx : Z)
    : outcome OrderBookSide.t :=
  s ← match order.(Order.previous_) with
      | Some p =>
          po ← OrderBookSide.get_order s p;
          OrderBookSide.put_order s p (Order.set_next po order.(Order.next_))
      | None =>
          level ← OrderBookSide.get_level s idx;
          OrderBookSide.put_level s idx (PriceLevel.set_first level order.(Order.next_))
      end;
  match order.(Order.next_) with
  | Some n =>
      no ← OrderBookSide.get_order s n;
      OrderBookSide.put_order s n (Order.set_previous no order.(Order.previous_))
  | None =>
      level ← OrderBookSide.get_level s idx;
      OrderBookSide.put_level s idx (PriceLevel.set_last level order.(Order.previous_))
  end.

(** [OrderBook::remove_order] on the order at [slot], whose level of [side]
    is the one at index [idx]. *)
Definition remove_order (b : t) (side_is_bid : bool) (slot idx : Z) : outcome t :=
  order ← OrderBookSide.get_order (get_side b side_is_bid) slot;
  s ← unlink_order (get_side b side_is_bid) order idx;
  by_handle ← arr_set b.(order_by_handle_) (OrderBookSide.encoded_handle order) None;
  pool' ← OrderPool.deallocate s.(OrderBookSide.pool_) slot;
  let b := put_side b side_is_bid (OrderBookSide.set_pool s pool') in
  Done (Make b.(bids) b.(asks) b.(order_id_) b.(trade_id_) by_handle
          (delete order.(Order.order_id_) b.(order_id_to_handle_))).

Definition update_best_after_empty (s : OrderBookSide.t) (is_bid : bool)
    : outcome OrderBookSide.t :=
  if is_bid then OrderBookSide.update_best_bid_after_empty s
  else OrderBookSide.update_best_ask_after_empty s.

(** The lookup and the ownership check [cancel_order] and [amend_order] start
    with: the order they go on with, or the error they report.  Both go on
    with [order->is_bid_ ? bids : asks]; an order stored in the pool of the
    other side would be outside this model, which is [Undefined] there. *)
Definition find_owned (b : t) (client_id client_request_id order_id : Id_t) (now : Time_t)
    : outcome (Z * Order.t + Event) :=
  match b.(order_id_to_handle_) !! order_id with
  | None =>
      Done (inr (on_error client_id client_request_id ORDER_NOT_FOUND "Order ID not found." now))
  | Some order_handle =>
      entry ← arr_get b.(order_by_handle_) order_handle;
      match entry with
      | None =>
          Done (inr (on_error client_id client_request_id ORDER_NOT_FOUND
                       "Order ID not found." now))
      | Some (pool_is_bid, slot) =>
          order ← OrderBookSide.get_order (get_side b pool_is_bid) slot;
          if negb (order.(Order.client_id_) =? client_id) then
            Done (inr (on_error client_id client_request_id UNAUTHORISED
                         "Unauthorised request." now))
          else if xorb pool_is_bid order.(Order.is_bid_) then Undefined
          else Done (inl (slot, order))
      end
  end.

(** [OrderBook::cancel_order] *)
Definition cancel_order (b : t) (client_id client_request_id order_id : Id_t) (now : Time_t)
    : outcome (t * list Event) :=
  found ← find_owned b client_id client_request_id order_id now;
  match found with
  | inr err => Done (b, [err])
  | inl (slot, order) =>
      let is_bid := order.(Order.is_bid_) in
      idx ← OrderBookSide.price_to_index order.(Order.price_);
      level ← OrderBookSide.get_level (get_side b is_bid) idx;
      s ← OrderBookSide.put_level (get_side b is_bid) idx
            (PriceLevel.set_total level
               (u32 (level.(PriceLevel.total_quantity_) - order.(Order.quantity_remaining_))));
      let order_snapshot := order_data order in
      b ← remove_order (put_side b is_bid s) is_bid slot idx;
      level ← OrderBookSide.get_level (get_side b is_bid) idx;
      s ← match level.(PriceLevel.first_) with
          | None =>
              if (get_side b is_bid).(OrderBookSide.best_price_index_) =? level.(PriceLevel.idx_)
              then update_best_after_empty (get_side b is_bid) is_bid
              else Done (get_side b is_bid)
          | Some _ => Done (get_side b is_bid)
          end;
      let b := put_side b is_bid s in
      Done (b, [level_event (side_of is_bid) level now;
                on_order_cancelled client_request_id order_snapshot now])
  end.

(** The part of [amend_order] after its checks: store the new quantities, take
    the difference off the level, move the best index if the level's total is
    now 0, and remove the order if nothing remains of it. *)
Definition apply_amend (b : t) (client_request_id : Id_t) (slot : Z) (order : Order.t)
    (quantity_new quantity_new_remaining delta : Volume_t) (now : Time_t)
    : outcome (t * list Event) :=
  let quantity_old_total := order.(Order.quantity_) in
  let is_bid := order.(Order.is_bid_) in
  idx ← OrderBookSide.price_to_index order.(Order.price_);
  level ← OrderBookSide.get_level (get_side b is_bid) idx;
  let order := Order.set_quantities order quantity_new quantity_new_remaining
                 order.(Order.quantity_cumulative_) in
  s ← OrderBookSide.put_order (get_side b is_bid) slot order;
  let level := PriceLevel.set_total level
                 (u32 (level.(PriceLevel.total_quantity_) - delta)) in
  s ← OrderBookSide.put_level s idx level;
  s ← (if level.(PriceLevel.total_quantity_) =? 0
       then update_best_after_empty s is_bid else Done s);
  let b := put_side b is_bid s in
  let evs := [on_order_amended client_request_id quantity_old_total (order_data order) now;
              level_event (side_of is_bid) level now] in
  if quantity_new_remaining =? 0 then
    b ← remove_order b is_bid slot idx;
    Done (b, evs)
  else Done (b, evs).

(** [OrderBook::amend_order] *)
Definition amend_order (b : t) (client_id client_request_id order_id : Id_t)
    (quantity_new : Volume_t) (now : Time_t) : outcome (t * list Event) :=
  found ← find_owned b client_id client_request_id order_id now;
  match found with
  | inr err => Done (b, [err])
  | inl (slot, order) =>
      if quantity_new <? order.(Order.quantity_cumulative_) then
        Done (b, [on_error client_id client_request_id INVALID_VOLUME "Invalid order size." now])
      else
        let quantity_old_total := order.(Order.quantity_) in
        let quantity_old_remaining := order.(Order.quantity_remaining_) in
        let quantity_new_remaining := u32 (quantity_new - order.(Order.quantity_cumulative_)) in
        if quantity_old_remaining <? quantity_new_remaining then
          Done (b, [on_error client_id client_request_id INVALID_VOLUME
                      "Invalid order size." now])
        else
          let delta := u32 (quantity_old_remaining - quantity_new_remaining) in
          if quantity_new_remaining =? quantity_old_remaining then
            Done (b, [on_order_amended client_request_id quantity_old_total
                        (order_data order) now])
          else
            apply_amend b client_request_id slot order quantity_new quantity_new_remaining
              delta now
  end.

(** [OrderBook::build_snapshot]: the two arrays of one side, filled from the
    best level on.  The bid loop goes down from [n] (and stops after level 0),
    the ask loop goes up from [idx] while [n] levels are left. *)
Definition SnapshotSide : Type := array Volume_t * array Price_t.

Definition empty_snapshot : SnapshotSide :=
  (arr_make ORDER_BOOK_MESSAGE_DEPTH (λ _, 0), arr_make ORDER_BOOK_MESSAGE_DEPTH (λ _, 0)).

Definition snapshot_level (level : PriceLevel.t) (depth : Z) (out : SnapshotSide)
    : outcome (Z * SnapshotSide) :=
  if 0 <? level.(PriceLevel.total_quantity_) then
    prices ← arr_set out.2 depth level.(PriceLevel.price_);
    volumes ← arr_set out.1 depth level.(PriceLevel.total_quantity_);
    Done (depth + 1, (volumes, prices))
  else Done (depth, out).

Fixpoint snapshot_bids (levels : array PriceLevel.t) (n : nat) (depth : Z) (out : SnapshotSide)
    : outcome SnapshotSide :=
  if (Z.of_nat n <? NUM_BOOK_LEVELS) && (depth <? ORDER_BOOK_MESSAGE_DEPTH) then
    level ← arr_get levels (Z.of_nat n);
    '(depth, out) ← snapshot_level level depth out;
    match n with
    | O => Done out
    | S m => snapshot_bids levels m depth out
    end
  else Done out.

Fixpoint snapshot_asks (levels : array PriceLevel.t) (n : nat) (idx depth : Z)
    (out : SnapshotSide) : outcome SnapshotSide :=
  match n with
  | O => Done out
  | S m =>
      if depth <? ORDER_BOOK_MESSAGE_DEPTH then
        level ← arr_get levels idx;
        '(depth, out) ← snapshot_level level depth out;
        snapshot_asks levels m (idx + 1) depth out
      else Done out
  end.

Definition build_snapshot (b : t) : outcome (SnapshotSide * SnapshotSide) :=
  bid ← snapshot_bids b.(bids).(OrderBookSide.levels_)
          (Z.to_nat b.(bids).(OrderBookSide.best_price_index_)) 0 empty_snapshot;
  let idx := b.(asks).(OrderBookSide.best_price_index_) in
  ask ← snapshot_asks b.(asks).(OrderBookSide.levels_)
          (Z.to_nat (NUM_BOOK_LEVELS - idx)) idx 0 empty_snapshot;
  Done (bid, ask).

(** A request to the engine and its execution; the three clock readings are
    the ones [submit_order] makes (the others make one). *)
Inductive Request :=
  | Submit (price : Price_t) (quantity : Volume_t) (is_bid : bool)
      (client_id client_request_id : Id_t)
  | Cancel (client_id client_request_id order_id : Id_t)
  | Amend (client_id client_request_id order_id : Id_t) (quantity_new : Volume_t).

Definition run_request (b : t) (r : Request) (now now_match now_add : Time_t)
    : outcome (t * list Event) :=
  match r with
  | Submit price quantity is_bid client req =>
      submit_order b price quantity is_bid client req now now_match now_add
  | Cancel client req id => cancel_order b client req id now
  | Amend client req id quantity_new => amend_order b client req id quantity_new now
  end.

(** A history: requests in the order the engine executes them, each with its
    clock readings. *)
Fixpoint run (b : t) (rs : list (Request * (Time_t * Time_t * Time_t)))
    : outcome (t * list Event) :=
  match rs with
  | [] => Done (b, [])
  | (r, (now, now_match, now_add)) :: rs =>
      '(b, evs) ← run_request b r now now_match now_add;
      '(b, evs') ← run b rs;
      Done (b, evs ++ evs')
  end.
End OrderBook.
