(* ===== verification/BookSpec.v ===== *)
(** What the matching engine promises, without pools, pointers or handles: a
    side of the book is a queue of orders per price level and the index of its
    best level; matching walks the queues.  [BookRefinement] proves that
    [OrderBook] implements these definitions. *)

From stdpp Require Import functions.
From S2P Require Import Prelude Types OrderBook.

Record ASide := MkASide {
  a_queue : Z → list OrderData;
  a_best : Z
}.

Record ABook := MkABook {
  a_bids : ASide;
  a_asks : ASide;
  a_next_id : Id_t
}.

Definition a_side (a : ABook) (is_bid : bool) : ASide :=
  if is_bid then a.(a_bids) else a.(a_asks).
Definition a_put_side (a : ABook) (is_bid : bool) (s : ASide) : ABook :=
  if is_bid then MkABook s a.(a_asks) a.(a_next_id) else MkABook a.(a_bids) s a.(a_next_id).

Definition empty_side : ASide := MkASide (λ _, []) NUM_BOOK_LEVELS.
Definition empty_book : ABook := MkABook empty_side empty_side 0.

(** The price of level [k] and the level of a price. *)
Definition level_price (k : Z) : Price_t := MINIMUM_BID + k.
Definition price_level (p : Price_t) : Z := p - MINIMUM_BID.

(** The volume resting at a level, and what its 32-bit counter shows of it. *)
Definition queue_sum (q : list OrderData) : Z := foldr (λ o n, od_remaining o + n) 0 q.
Definition queue_total (q : list OrderData) : Volume_t := u32 (queue_sum q).

(** The levels less aggressive than [k], closest first. *)
Definition worse_levels (is_bid : bool) (k : Z) : list Z :=
  if is_bid then reverse (seqZ 0 k) else seqZ (k + 1) (NUM_BOOK_LEVELS - (k + 1)).

(** Those of them a scan stops at. *)
Definition shown_levels (is_bid : bool) (queue : Z → list OrderData) (k : Z) : list Z :=
  filter (λ i, 0 < queue_total (queue i)) (worse_levels is_bid k).

Definition next_best (is_bid : bool) (queue : Z → list OrderData) (k : Z) : Z :=
  default NUM_BOOK_LEVELS (head (shown_levels is_bid queue k)).

(** The levels matching can reach, in the order it reaches them. *)
Definition visible (is_bid : bool) (s : ASide) : list Z :=
  if s.(a_best) =? NUM_BOOK_LEVELS then []
  else s.(a_best) :: shown_levels is_bid s.(a_queue) s.(a_best).

(** Prices at which an incoming order trades with a resting one. *)
Definition crosses (maker_is_bid : bool) (maker_price incoming_price : Price_t) : bool :=
  if maker_is_bid then incoming_price <=? maker_price else maker_price <=? incoming_price.

Definition fill (o : OrderData) (n : Volume_t) : OrderData :=
  MkOrderData o.(od_client_id) o.(od_order_id) o.(od_price) o.(od_quantity)
    (o.(od_remaining) - n) (o.(od_cumulative) + n) o.(od_is_bid).

(** A trade: the maker after it, the quantity, what is left of the taker. *)
Record Trade := MkTrade {
  tr_maker : OrderData;
  tr_quantity : Volume_t;
  tr_left : Volume_t
}.

(** Match [incoming] against a queue, oldest order first. *)
Fixpoint fill_queue (incoming : Volume_t) (q : list OrderData)
    : list Trade * list OrderData * Volume_t :=
  match q with
  | [] => ([], [], incoming)
  | o :: q' =>
      if incoming <=? 0 then ([], q, incoming)
      else if od_remaining o <=? incoming then
        let lft := incoming - od_remaining o in
        let '(ts, q'', rest) := fill_queue lft q' in
        (MkTrade (fill o (od_remaining o)) (od_remaining o) lft :: ts, q'', rest)
      else ([MkTrade (fill o incoming) incoming 0], fill o incoming :: q', 0)
  end.

Section sweep.
Context (maker_is_bid : bool) (incoming_price : Price_t) (total : Volume_t).
Context (order_id client_id : Id_t) (now : Time_t).

Definition trade_event (t : Trade) : Event :=
  on_trade t.(tr_maker) client_id order_id (od_price t.(tr_maker)) total
    (total - t.(tr_left)) t.(tr_quantity) now.

Definition update_event (k : Z) (q : list OrderData) : Event :=
  on_level_update (side_of maker_is_bid) (level_price k) (queue_total q) now.

(** Match against the levels of [path], best first, until the quantity, the
    crossing levels or the path is exhausted.  Returns the callbacks, the
    queues, the path that remains and the quantity that remains. *)
Fixpoint sweep (path : list Z) (queue : Z → list OrderData) (incoming : Volume_t)
    : list Event * (Z → list OrderData) * list Z * Volume_t :=
  match path with
  | [] => ([], queue, [], incoming)
  | k :: path' =>
      if incoming <=? 0 then ([], queue, path, incoming)
      else if negb (crosses maker_is_bid (level_price k) incoming_price)
      then ([], queue, path, incoming)
      else
        let '(ts, q, lft) := fill_queue incoming (queue k) in
        let evs := map trade_event ts ++ [update_event k q] in
        let queue' := <[k := q]> queue in
        match q with
        | [] =>
            let '(evs', queue'', path'', rest) := sweep path' queue' lft in
            (evs ++ evs', queue'', path'', rest)
        | _ :: _ => (evs, queue', path, lft)
        end
  end.
End sweep.

(** Matching on one side of the book. *)
Definition a_match (maker_is_bid : bool) (s : ASide) (incoming_price : Price_t)
    (quantity : Volume_t) (order_id client_id : Id_t) (now : Time_t)
    : list Event * ASide * Volume_t :=
  let '(evs, queue, path, rest) :=
    sweep maker_is_bid incoming_price quantity order_id client_id now
      (visible maker_is_bid s) s.(a_queue) quantity in
  (evs, MkASide queue (default NUM_BOOK_LEVELS (head path)), rest).

(** The orders resting on a side. *)
Definition side_orders (s : ASide) : list OrderData :=
  concat (map s.(a_queue) (seqZ 0 NUM_BOOK_LEVELS)).

Definition improves (is_bid : bool) (k best : Z) : bool :=
  (best =? NUM_BOOK_LEVELS) || (if is_bid then best <? k else k <? best).

(** Queue an order at the back of its level. *)
Definition a_rest (is_bid : bool) (s : ASide) (o : OrderData) : ASide :=
  let k := price_level (od_price o) in
  MkASide (<[k := s.(a_queue) k ++ [o]]> s.(a_queue))
    (if improves is_bid k s.(a_best) then k else s.(a_best)).

(** [submit_order]: the two rejections, then matching, then queueing what is
    left unless the side is full. *)
Definition a_submit (a : ABook) (price : Price_t) (quantity : Volume_t) (is_bid : bool)
    (client_id client_request_id : Id_t) (now now_match now_add : Time_t)
    : ABook * list Event :=
  if quantity =? 0 then
    (a, [on_error client_id client_request_id INVALID_VOLUME "Invalid order size." now])
  else if (price <? MINIMUM_BID) || (MAXIMUM_ASK <? price) then
    (a, [on_error client_id client_request_id INVALID_PRICE "Invalid price." now])
  else
    let id := a.(a_next_id) in
    let '(evs, maker, lft) :=
      a_match (negb is_bid) (a_side a (negb is_bid)) price quantity id client_id now_match in
    let a' := a_put_side (MkABook a.(a_bids) a.(a_asks) (u32 (id + 1))) (negb is_bid) maker in
    if lft <=? 0 then (a', evs)
    else if MAX_ORDERS <=? Z.of_nat (length (side_orders (a_side a is_bid))) then
      (a', evs ++ [on_error client_id client_request_id ORDER_BOOK_FULL "Order book is full."
                     now_add])
    else
      let o := MkOrderData client_id id price quantity lft (quantity - lft) is_bid in
      let s := a_rest is_bid (a_side a is_bid) o in
      let k := price_level price in
      (a_put_side a' is_bid s,
       evs ++ [on_level_update (side_of is_bid) price (queue_total (s.(a_queue) k)) now_add;
               on_order_inserted client_request_id o now]).

(** Order [o] rests on side [is_bid], at level [k], behind [before]. *)
Definition resting (a : ABook) (is_bid : bool) (k : Z) (before : list OrderData) (o : OrderData)
    (after : list OrderData) : Prop :=
  0 <= k < NUM_BOOK_LEVELS ∧ (a_side a is_bid).(a_queue) k = before ++ o :: after.

Definition no_such_order (a : ABook) (id : Id_t) : Prop :=
  ∀ is_bid k before o after, resting a is_bid k before o after → od_order_id o ≠ id.

Definition with_quantity (o : OrderData) (quantity : Volume_t) : OrderData :=
  MkOrderData o.(od_client_id) o.(od_order_id) o.(od_price) quantity
    (quantity - o.(od_cumulative)) o.(od_cumulative) o.(od_is_bid).

(** The best index after a level was emptied by a cancel: it moves only when
    the emptied level was the best one. *)
Definition best_after_cancel (is_bid : bool) (queue : Z → list OrderData) (k best : Z) : Z :=
  match queue k with
  | [] => if best =? k then next_best is_bid queue best else best
  | _ :: _ => best
  end.

(** The best index after an amend: it moves whenever the amended level shows no
    volume, whichever level it is. *)
Definition best_after_amend (is_bid : bool) (queue : Z → list OrderData) (k best : Z) : Z :=
  if queue_total (queue k) =? 0 then next_best is_bid queue best else best.

(** One request, as a step of the book.  One rule per way a request can end. *)
Inductive book_step (a : ABook) (now now_match now_add : Time_t)
    : OrderBook.Request → ABook → list Event → Prop :=
  | step_submit price quantity is_bid client req a' evs :
      a_submit a price quantity is_bid client req now now_match now_add = (a', evs) →
      book_step a now now_match now_add (OrderBook.Submit price quantity is_bid client req) a' evs
  | step_cancel_unknown client req id :
      no_such_order a id →
      book_step a now now_match now_add (OrderBook.Cancel client req id) a
        [on_error client req ORDER_NOT_FOUND "Order ID not found." now]
  | step_cancel_unauthorised client req id is_bid k before o after :
      resting a is_bid k before o after → od_order_id o = id → od_client_id o ≠ client →
      book_step a now now_match now_add (OrderBook.Cancel client req id) a
        [on_error client req UNAUTHORISED "Unauthorised request." now]
  | step_cancel client req id is_bid k before o after queue :
      resting a is_bid k before o after → od_order_id o = id → od_client_id o = client →
      queue = <[k := before ++ after]> (a_side a is_bid).(a_queue) →
      book_step a now now_match now_add (OrderBook.Cancel client req id)
        (a_put_side a is_bid
           (MkASide queue (best_after_cancel is_bid queue k (a_side a is_bid).(a_best))))
        [on_level_update (side_of is_bid) (level_price k) (queue_total (before ++ after)) now;
         on_order_cancelled req o now]
  | step_amend_unknown client req id quantity :
      no_such_order a id →
      book_step a now now_match now_add (OrderBook.Amend client req id quantity) a
        [on_error client req ORDER_NOT_FOUND "Order ID not found." now]
  | step_amend_unauthorised client req id quantity is_bid k before o after :
      resting a is_bid k before o after → od_order_id o = id → od_client_id o ≠ client →
      book_step a now now_match now_add (OrderBook.Amend client req id quantity) a
        [on_error client req UNAUTHORISED "Unauthorised request." now]
  | step_amend_invalid client req id quantity is_bid k before o after :
      resting a is_bid k before o after → od_order_id o = id → od_client_id o = client →
      quantity < od_cumulative o ∨ od_quantity o < quantity →
      book_step a now now_match now_add (OrderBook.Amend client req id quantity) a
        [on_error client req INVALID_VOLUME "Invalid order size." now]
  | step_amend_same client req id is_bid k before o after :
      resting a is_bid k before o after → od_order_id o = id → od_client_id o = client →
      book_step a now now_match now_add (OrderBook.Amend client req id (od_quantity o)) a
        [on_order_amended req (od_quantity o) o now]
  | step_amend_reduce client req id quantity is_bid k before o after queue :
      resting a is_bid k before o after → od_order_id o = id → od_client_id o = client →
      od_cumulative o < quantity < od_quantity o →
      queue = <[k := before ++ with_quantity o quantity :: after]> (a_side a is_bid).(a_queue) →
      book_step a now now_match now_add (OrderBook.Amend client req id quantity)
        (a_put_side a is_bid
           (MkASide queue (best_after_amend is_bid queue k (a_side a is_bid).(a_best))))
        [on_order_amended req (od_quantity o) (with_quantity o quantity) now;
         on_level_update (side_of is_bid) (level_price k) (queue_total (queue k)) now]
  | step_amend_close client req id is_bid k before o after queue :
      resting a is_bid k before o after → od_order_id o = id → od_client_id o = client →
      queue = <[k := before ++ after]> (a_side a is_bid).(a_queue) →
      book_step a now now_match now_add (OrderBook.Amend client req id (od_cumulative o))
        (a_put_side a is_bid
           (MkASide queue (best_after_amend is_bid queue k (a_side a is_bid).(a_best))))
        [on_order_amended req (od_quantity o) (with_quantity o (od_cumulative o)) now;
         on_level_update (side_of is_bid) (level_price k) (queue_total (before ++ after)) now].

(** A history of requests with their clock readings, executed one by one. *)
Inductive book_run : ABook → list (OrderBook.Request * (Time_t * Time_t * Time_t)) →
    ABook → list Event → Prop :=
  | run_nil a : book_run a [] a []
  | run_cons a r now now_match now_add a' evs rs a'' evs' :
      book_step a now now_match now_add r a' evs → book_run a' rs a'' evs' →
      book_run a ((r, (now, now_match, now_add)) :: rs) a'' (evs ++ evs').

(** Requests as they arrive: quantities are 32-bit. *)
Definition valid_request (r : OrderBook.Request) : bool :=
  match r with
  | OrderBook.Submit _ quantity _ _ _ => (0 <=? quantity) && (quantity <? 2 ^ 32)
  | OrderBook.Cancel _ _ _ => true
  | OrderBook.Amend _ _ _ quantity => (0 <=? quantity) && (quantity <? 2 ^ 32)
  end.
