(* ===== verification/BookLinks.v ===== *)
(** The linked structure of one side of the book: which slots each level's
    doubly linked list holds, in order, which slots the free list holds, and how
    the link updates of [order_book.cpp] act on them.

    [shape P L nf ls fl lim] says that, with pool contents [P], levels [L] and
    [next_free_ = nf], level [k] links exactly the slots [ls k], the free list
    links exactly [fl], and the slots of [lim] are in neither (allocated but not
    yet queued, or unlinked but not yet given back); together they are the whole
    pool, each slot once. *)

From stdpp Require Import functions.
From S2P Require Import Prelude Types OrderBook BookSpec.

Implicit Types (P : Z → Order.t) (L : Z → PriceLevel.t) (ls : Z → list Z) (fl lim l : list Z).

(** ** Segments *)

Definition head_or (l : list Z) (d : option Z) : option Z :=
  match l with [] => d | i :: _ => Some i end.

(** [l] is linked both ways; [prev] precedes its first node, [nxt] follows its
    last. *)
Fixpoint dseg P (prev : option Z) (l : list Z) (nxt : option Z) : Prop :=
  match l with
  | [] => True
  | i :: l' =>
      (P i).(Order.previous_) = prev ∧
      (P i).(Order.next_) = head_or l' nxt ∧
      dseg P (Some i) l' nxt
  end.

Definition last_or (prev : option Z) (l : list Z) : option Z :=
  match last l with Some i => Some i | None => prev end.

(** The free list: singly linked through [next_]. *)
Fixpoint fseg P (l : list Z) (start : option Z) : Prop :=
  match l with
  | [] => start = None
  | i :: l' => start = Some i ∧ fseg P l' (P i).(Order.next_)
  end.

Lemma head_or_app l1 l2 d : head_or (l1 ++ l2) d = head_or l1 (head_or l2 d).
Proof. by destruct l1. Qed.

Lemma head_or_none l : head_or l None = head l.
Proof. by destruct l. Qed.

Lemma last_or_none l : last_or None l = last l.
Proof. unfold last_or. by destruct (last l). Qed.

Lemma last_or_cons i l prev : last_or prev (i :: l) = last_or (Some i) l.
Proof. unfold last_or. rewrite last_cons. by destruct (last l). Qed.

Lemma last_or_snoc l i prev : last_or prev (l ++ [i]) = Some i.
Proof. unfold last_or. by rewrite last_snoc. Qed.

Lemma head_snoc_app l x l' : head ((l ++ [x]) ++ l') = head (l ++ [x]).
Proof. by destruct l. Qed.

Lemma last_app_cons l x l' : last (l ++ x :: l') = last (x :: l').
Proof. rewrite last_app. by destruct (last (x :: l')) eqn:E; [|apply last_None in E]. Qed.

Lemma dseg_app P l1 l2 prev nxt :
  dseg P prev (l1 ++ l2) nxt ↔
  dseg P prev l1 (head_or l2 nxt) ∧ dseg P (last_or prev l1) l2 nxt.
Proof.
  revert prev. induction l1 as [|i l1 IH]; intros prev; cbn; [tauto|].
  rewrite IH, head_or_app, last_or_cons. tauto.
Qed.

(** A segment only depends on the links of its own nodes. *)
Lemma dseg_frame P P' l prev nxt :
  (∀ i, i ∈ l → (P' i).(Order.next_) = (P i).(Order.next_) ∧
                (P' i).(Order.previous_) = (P i).(Order.previous_)) →
  dseg P prev l nxt → dseg P' prev l nxt.
Proof.
  revert prev. induction l as [|i l IH]; intros prev Heq; cbn; [done|].
  intros (? & ? & ?). destruct (Heq i) as [-> ->]; [set_solver|].
  repeat split; try done. apply IH; set_solver.
Qed.

Lemma fseg_frame P P' l start :
  (∀ i, i ∈ l → (P' i).(Order.next_) = (P i).(Order.next_)) →
  fseg P l start → fseg P' l start.
Proof.
  revert start. induction l as [|i l IH]; intros start Heq; cbn; [done|].
  intros [? ?]. split; [done|]. rewrite Heq by set_solver. apply IH; set_solver.
Qed.

(** Redirecting the last node's [next_], or the first node's [previous_]. *)
Lemma dseg_set_nxt P P' l prev nxt nxt' :
  NoDup l →
  (∀ i, i ∈ l → (P' i).(Order.previous_) = (P i).(Order.previous_)) →
  (∀ i, i ∈ l → last l ≠ Some i → (P' i).(Order.next_) = (P i).(Order.next_)) →
  (∀ i, last l = Some i → (P' i).(Order.next_) = nxt') →
  dseg P prev l nxt → dseg P' prev l nxt'.
Proof.
  revert prev. induction l as [|i l IH]; intros prev Hnd Hp Hn Hl; cbn; [done|].
  apply NoDup_cons in Hnd as [Hi Hnd]. intros (? & Hnx & Hseg).
  split; [rewrite Hp; set_solver|]. destruct l as [|j l].
  - split; [by apply Hl | done].
  - rewrite last_cons_cons in *. split.
    + rewrite Hn; [done | set_solver |]. intros ?%last_Some_elem_of. done.
    + apply IH; [done | set_solver | | done | done].
      intros x Hx. apply Hn. set_solver.
Qed.

Lemma dseg_set_prev P P' l prev prev' nxt :
  NoDup l →
  (∀ i, i ∈ l → (P' i).(Order.next_) = (P i).(Order.next_)) →
  (∀ i, i ∈ l → head l ≠ Some i → (P' i).(Order.previous_) = (P i).(Order.previous_)) →
  (∀ i, head l = Some i → (P' i).(Order.previous_) = prev') →
  dseg P prev l nxt → dseg P' prev' l nxt.
Proof.
  destruct l as [|i l]; cbn; [done|]. intros Hnd Hn Hp Hh (_ & ? & Hseg).
  apply NoDup_cons in Hnd as [Hi Hnd].
  split; [by apply Hh|]. split; [rewrite Hn; set_solver|].
  eapply dseg_frame; [|done]. intros j Hj. split; [apply Hn; set_solver|].
  apply Hp; [set_solver|]. intros [= ->]. done.
Qed.

(** Appending a node: the old last node points at it, it points back. *)
Lemma dseg_snoc P P' l i :
  NoDup l →
  (∀ j, j ∈ l → last l ≠ Some j → P' j = P j) →
  (∀ j, last l = Some j → P' j = Order.set_next (P j) (Some i)) →
  (P' i).(Order.next_) = None → (P' i).(Order.previous_) = last l →
  dseg P None l None → dseg P' None (l ++ [i]) None.
Proof.
  intros Hnd Ho Hl Hn Hp Hd. rewrite dseg_app. cbn. rewrite last_or_none.
  split; [|by repeat split]. eapply dseg_set_nxt, Hd; [done | | |].
  - intros j Hj. destruct (decide (last l = Some j)) as [E|E];
      [by rewrite (Hl j E) | by rewrite Ho].
  - intros j Hj E. by rewrite Ho.
  - intros j E. by rewrite (Hl j E).
Qed.

(** Removing a node: its neighbours are joined around it. *)
Lemma dseg_delete P P' l1 i l2 :
  NoDup (l1 ++ i :: l2) →
  (∀ j, j ∈ l1 → (P' j).(Order.previous_) = (P j).(Order.previous_)) →
  (∀ j, j ∈ l1 → last l1 ≠ Some j → (P' j).(Order.next_) = (P j).(Order.next_)) →
  (∀ j, last l1 = Some j → (P' j).(Order.next_) = head l2) →
  (∀ j, j ∈ l2 → (P' j).(Order.next_) = (P j).(Order.next_)) →
  (∀ j, j ∈ l2 → head l2 ≠ Some j → (P' j).(Order.previous_) = (P j).(Order.previous_)) →
  (∀ j, head l2 = Some j → (P' j).(Order.previous_) = last l1) →
  dseg P None (l1 ++ i :: l2) None → dseg P' None (l1 ++ l2) None.
Proof.
  intros Hnd H1p H1n H1l H2n H2p H2h. rewrite !dseg_app. cbn.
  intros (H1 & _ & _ & H2). rewrite head_or_none, last_or_none in *.
  apply NoDup_app in Hnd as (Hnd1 & _ & [_ Hnd2]%NoDup_cons).
  split; [by eapply dseg_set_nxt, H1 | by eapply dseg_set_prev, H2].
Qed.

(** ** Every slot is in exactly one place *)

Record slots ls fl lim : Prop := MkSlots {
  sl_nodup k : NoDup (ls k);
  sl_nodup_free : NoDup (fl ++ lim);
  sl_once k k' i : i ∈ ls k → i ∈ ls k' → k = k';
  sl_unused k i : i ∈ ls k → i ∉ fl ++ lim;
  sl_range i : 0 <= i < MAX_ORDERS ↔ i ∈ fl ++ lim ∨ ∃ k, i ∈ ls k
}.

Lemma slots_limbo ls fl i k : slots ls fl [i] → i ∉ ls k.
Proof. intros [] Hi. apply (sl_unused0 k i Hi). set_solver. Qed.

Lemma slots_alloc ls i fl : slots ls (i :: fl) [] ↔ slots ls fl [i].
Proof.
  assert (i :: fl ≡ₚ fl ++ [i]) as Hp by apply Permutation_cons_append.
  split; intros []; rewrite ?app_nil_r in *; split; try done; rewrite ?app_nil_r.
  - by rewrite <- Hp.
  - intros k j Hj. rewrite <- Hp. eauto.
  - intros j. by rewrite <- Hp, sl_range0.
  - by rewrite Hp.
  - intros k j Hj. rewrite Hp. eauto.
  - intros j. by rewrite Hp, sl_range0.
Qed.

(** Moving the limbo slot into a level's list, at any position, and back. *)
Lemma slots_insert ls fl i k l1 l2 :
  slots ls fl [i] → ls k = l1 ++ l2 → slots (<[k := l1 ++ i :: l2]> ls) fl [].
Proof.
  intros HS Hk. assert (∀ k', i ∉ ls k') as Hnk by (intros; by eapply slots_limbo).
  destruct HS. assert (l1 ++ i :: l2 ≡ₚ i :: ls k) as Hp by (by rewrite Hk, Permutation_middle).
  split; unfold insert, fn_insert; rewrite ?app_nil_r.
  - intros k'. case_decide; [|done]. rewrite Hp. by apply NoDup_cons.
  - by apply NoDup_app in sl_nodup_free0 as [? _].
  - intros k1 k2 j. repeat case_decide; subst; rewrite ?Hp, ?elem_of_cons; naive_solver.
  - intros k' j Hj Hjf. case_decide; subst.
    + rewrite Hp, elem_of_cons in Hj. destruct Hj as [->|Hj].
      * apply NoDup_app in sl_nodup_free0. set_solver.
      * specialize (sl_unused0 _ _ Hj). set_solver.
    + specialize (sl_unused0 _ _ Hj). set_solver.
  - intros j. rewrite sl_range0, elem_of_app, list_elem_of_singleton. split.
    + intros [[?| -> ]|[k' ?]]; [by left | right; exists k | right; exists k'];
        case_decide; subst; try done; rewrite Hp; set_solver.
    + intros [?|[k' Hj]]; [by left; left|]. case_decide; subst; [|eauto].
      rewrite Hp in Hj. set_solver.
Qed.

Lemma slots_remove ls fl i k l1 l2 :
  slots ls fl [] → ls k = l1 ++ i :: l2 → slots (<[k := l1 ++ l2]> ls) fl [i].
Proof.
  intros [] Hk. assert (ls k ≡ₚ i :: (l1 ++ l2)) as Hp by (by rewrite Hk, Permutation_middle).
  rewrite app_nil_r in *.
  assert ((i ∉ l1 ++ l2) ∧ NoDup (l1 ++ l2)) as [Hi Hnd]
    by (apply NoDup_cons; rewrite <- Hp; apply sl_nodup0).
  assert (i ∈ ls k) as Hik by (rewrite Hp; set_solver).
  assert (∀ j, j ∈ l1 ++ l2 → j ∈ ls k) as Hsub by (intros; rewrite Hp; set_solver).
  split; unfold insert, fn_insert.
  - intros k'. by case_decide.
  - apply NoDup_app. split; [done|]. split; [set_solver | apply NoDup_singleton].
  - intros k1 k2 j. repeat case_decide; subst; eauto.
  - intros k' j Hj Hjf. case_decide; subst.
    + apply Hsub in Hj as Hj'. specialize (sl_unused0 _ _ Hj'). set_solver.
    + apply elem_of_app in Hjf as [Hjf|Hjf%list_elem_of_singleton]; [by eapply sl_unused0|].
      subst j. specialize (sl_once0 _ _ _ Hj Hik). congruence.
  - intros j. rewrite sl_range0, elem_of_app, list_elem_of_singleton. split.
    + intros [?|[k' Hj]]; [by left; left|]. destruct (decide (k' = k)) as [->|Hne].
      * rewrite Hp, elem_of_cons in Hj. destruct Hj as [->|Hj]; [by left; right|].
        right. exists k. by case_decide.
      * right. exists k'. by case_decide; subst.
    + intros [[?| -> ]|[k' Hj]]; [by left | eauto |]. case_decide; subst; eauto.
Qed.

(** ** The shape of a side *)

Record shape P L (nf : option Z) ls fl lim : Prop := MkShape {
  sh_level k : 0 <= k < NUM_BOOK_LEVELS →
    (L k).(PriceLevel.first_) = head (ls k) ∧ (L k).(PriceLevel.last_) = last (ls k) ∧
    (L k).(PriceLevel.price_) = level_price k ∧ (L k).(PriceLevel.idx_) = k;
  sh_outside k : ¬ 0 <= k < NUM_BOOK_LEVELS → ls k = [];
  sh_links k : dseg P None (ls k) None;
  sh_free : fseg P fl nf;
  sh_handle i : 0 <= i < MAX_ORDERS → (P i).(Order.order_handle_) = i;
  sh_slots : slots ls fl lim
}.

(** Facts about a slot found in a level's list. *)
Lemma shape_slot P L nf ls fl lim k i :
  shape P L nf ls fl lim → i ∈ ls k → 0 <= i < MAX_ORDERS ∧ 0 <= k < NUM_BOOK_LEVELS.
Proof.
  intros [] Hi. split.
  - apply (sl_range _ _ _ sh_slots0). eauto.
  - destruct (decide (0 <= k < NUM_BOOK_LEVELS)) as [|Hk]; [done|].
    rewrite (sh_outside0 k Hk) in Hi. set_solver.
Qed.

Lemma shape_neighbours P L nf ls fl lim k l1 i l2 :
  shape P L nf ls fl lim → ls k = l1 ++ i :: l2 →
  (P i).(Order.previous_) = last l1 ∧ (P i).(Order.next_) = head l2.
Proof.
  intros HS Hk. pose proof (sh_links _ _ _ _ _ _ HS k) as Hd.
  rewrite Hk, dseg_app in Hd. cbn in Hd. destruct Hd as (_ & -> & -> & _).
  by rewrite last_or_none, head_or_none.
Qed.

(** Updates that keep links and handles keep the shape. *)
Lemma shape_frame P P' L L' nf ls fl lim :
  (∀ i, (P' i).(Order.next_) = (P i).(Order.next_) ∧
        (P' i).(Order.previous_) = (P i).(Order.previous_) ∧
        (P' i).(Order.order_handle_) = (P i).(Order.order_handle_)) →
  (∀ k, (L' k).(PriceLevel.first_) = (L k).(PriceLevel.first_) ∧
        (L' k).(PriceLevel.last_) = (L k).(PriceLevel.last_) ∧
        (L' k).(PriceLevel.price_) = (L k).(PriceLevel.price_) ∧
        (L' k).(PriceLevel.idx_) = (L k).(PriceLevel.idx_)) →
  shape P L nf ls fl lim → shape P' L' nf ls fl lim.
Proof.
  intros HP HL []. split; try done.
  - intros k Hk. destruct (HL k) as (-> & -> & -> & ->). auto.
  - intros k. eapply dseg_frame, sh_links0. intros i _. by destruct (HP i) as (-> & -> & _).
  - eapply fseg_frame, sh_free0. intros i _. by destruct (HP i) as (-> & _).
  - intros i Hi. destruct (HP i) as (_ & _ & ->). auto.
Qed.

(** [allocate]: the head of the free list goes into limbo. *)
Lemma shape_alloc P P' L ls i fl :
  shape P L (Some i) ls (i :: fl) [] →
  (∀ j, j ≠ i → P' j = P j) →
  (P' i).(Order.order_handle_) = (P i).(Order.order_handle_) →
  shape P' L (P i).(Order.next_) ls fl [i].
Proof.
  intros [] HP Hi. apply slots_alloc in sh_slots0.
  assert (∀ k, i ∉ ls k) as Hnk by (intros; by eapply slots_limbo).
  assert (i ∉ fl) as Hnf
    by (pose proof (sl_nodup_free _ _ _ sh_slots0) as H; apply NoDup_app in H; set_solver).
  split; try done.
  - intros k. eapply dseg_frame, sh_links0. intros j Hj.
    by rewrite HP by (intros ->; by apply (Hnk k)).
  - cbn in sh_free0. destruct sh_free0 as [_ Hfs]. eapply fseg_frame, Hfs.
    intros j Hj. by rewrite HP by (intros ->; done).
  - intros j Hj. destruct (decide (j = i)) as [->|]; [rewrite Hi | rewrite HP by done]; auto.
Qed.

(** [deallocate]: the limbo slot becomes the head of the free list. *)
Lemma shape_dealloc P P' L nf ls i fl :
  shape P L nf ls fl [i] →
  (∀ j, j ≠ i → P' j = P j) →
  (P' i).(Order.order_handle_) = (P i).(Order.order_handle_) →
  (P' i).(Order.next_) = nf →
  shape P' L (Some i) ls (i :: fl) [].
Proof.
  intros [] HP Hh Hi. assert (∀ k, i ∉ ls k) as Hnk by (intros; by eapply slots_limbo).
  assert (i ∉ fl) as Hnf
    by (pose proof (sl_nodup_free _ _ _ sh_slots0) as H; apply NoDup_app in H; set_solver).
  split; try done.
  - intros k. eapply dseg_frame, sh_links0. intros j Hj.
    by rewrite HP by (intros ->; by apply (Hnk k)).
  - cbn. split; [done|]. rewrite Hi. eapply fseg_frame, sh_free0.
    intros j Hj. by rewrite HP by (intros ->; done).
  - intros j Hj. destruct (decide (j = i)) as [->|]; [rewrite Hh | rewrite HP by done]; auto.
  - by apply slots_alloc.
Qed.

(** Changing one level and the links of its nodes: the other levels and the
    free list keep theirs. *)
Lemma shape_relink P P' L L' nf ls fl lim lim' k l :
  shape P L nf ls fl lim →
  0 <= k < NUM_BOOK_LEVELS →
  (∀ j, j ∉ ls k → j ∉ lim → P' j = P j) →
  (∀ j, (P' j).(Order.order_handle_) = (P j).(Order.order_handle_)) →
  (∀ j, j ≠ k → L' j = L j) →
  L' k = PriceLevel.Make (head l) (last l) (L' k).(PriceLevel.total_quantity_)
           (L k).(PriceLevel.price_) (L k).(PriceLevel.idx_) →
  dseg P' None l None →
  slots (<[k := l]> ls) fl lim' →
  shape P' L' nf (<[k := l]> ls) fl lim'.
Proof.
  intros [] Hk HP Hh HLo HLk Hd Hs. destruct sh_slots0. split; try done.
  - intros k' Hk'. destruct (decide (k' = k)) as [->|Hne].
    + rewrite fn_lookup_insert, HLk. cbn. destruct (sh_level0 k Hk). naive_solver.
    + rewrite fn_lookup_insert_ne, HLo by done. auto.
  - intros k' Hk'. rewrite fn_lookup_insert_ne by naive_solver. auto.
  - intros k'. destruct (decide (k' = k)) as [->|Hne]; [by rewrite fn_lookup_insert|].
    rewrite fn_lookup_insert_ne by done. eapply dseg_frame, sh_links0. intros j Hj.
    rewrite HP; [done | |].
    + intros Hj'. by apply Hne, (sl_once0 k' k j).
    + intros Hj'. apply (sl_unused0 k' j Hj). set_solver.
  - eapply fseg_frame, sh_free0. intros j Hj. rewrite HP; [done | |].
    + intros Hj'. apply (sl_unused0 k j Hj'). set_solver.
    + intros Hj'. apply NoDup_app in sl_nodup_free0. set_solver.
  - intros j Hj. rewrite Hh. auto.
Qed.
