(* ===== verification/BookView.v ===== *)
(** How the primitive operations of one side of the book act on its shape, its
    order data, its level totals and its best index: loads and stores, the pool,
    the best-price scans, linking and unlinking.  Every lemma also says that the
    operation is defined ([Done]) on a well-formed side. *)

From stdpp Require Import functions.
From S2P Require Import Prelude Types OrderBook BookSpec BookLinks.
Import OrderBookSide.

(** The contents of the arrays of a side. *)
Definition slot_at (s : t) (i : Z) : Order.t := arr_at s.(pool_).(OrderPool.pool_) i.
Definition level_at (s : t) (k : Z) : PriceLevel.t := arr_at s.(levels_) k.

(** [s] has the shape [ls]/[fl]/[lim], the orders [D] in its slots, the level
    totals [T], the best index [best] and the side [bid]. *)
Record sview (s : t) (ls : Z → list Z) (fl lim : list Z) (D : Z → OrderData) (T : Z → Z)
    (best : Z) (bid : bool) : Prop := MkView {
  sv_levels : arr_size s.(levels_) = NUM_BOOK_LEVELS;
  sv_pool : arr_size s.(pool_).(OrderPool.pool_) = MAX_ORDERS;
  sv_shape : shape (slot_at s) (level_at s) s.(pool_).(OrderPool.next_free_) ls fl lim;
  sv_data i : order_data (slot_at s i) = D i;
  sv_total k : (level_at s k).(PriceLevel.total_quantity_) = T k;
  sv_best : s.(best_price_index_) = best;
  sv_bid : s.(is_bid_) = bid
}.

(** The level record a well-formed side holds at [k]. *)
Definition level_of (ls : Z → list Z) (T : Z → Z) (k : Z) : PriceLevel.t :=
  PriceLevel.Make (head (ls k)) (last (ls k)) (T k) (level_price k) k.

Section views.
Context {s : t} {ls : Z → list Z} {fl lim : list Z} {D : Z → OrderData} {T : Z → Z}.
Context {best : Z} {bid : bool}.
Implicit Types (i k : Z).

Lemma sview_get_level k :
  sview s ls fl lim D T best bid → 0 <= k < NUM_BOOK_LEVELS →
  get_level s k = Done (level_of ls T k).
Proof.
  intros [] Hk. unfold get_level. rewrite arr_get_ok by (rewrite sv_levels0; done).
  f_equal. fold (level_at s k). destruct sv_shape0.
  destruct (sh_level k Hk) as (E1 & E2 & E3 & E4). specialize (sv_total0 k).
  unfold level_of. destruct (level_at s k). cbn in *. congruence.
Qed.

Lemma sview_get_order i :
  sview s ls fl lim D T best bid → 0 <= i < MAX_ORDERS →
  get_order s i = Done (slot_at s i) ∧ (slot_at s i).(Order.order_handle_) = i ∧
  order_data (slot_at s i) = D i.
Proof.
  intros [] Hi. unfold get_order. rewrite arr_get_ok by (rewrite sv_pool0; done).
  destruct sv_shape0. auto.
Qed.

(** Storing an order with other quantities. *)
Lemma sview_put_quantities i q r c :
  sview s ls fl lim D T best bid → 0 <= i < MAX_ORDERS →
  ∃ s', put_order s i (Order.set_quantities (slot_at s i) q r c) = Done s' ∧
    slot_at s' i = Order.set_quantities (slot_at s i) q r c ∧
    sview s' ls fl lim
      (<[i := order_data (Order.set_quantities (slot_at s i) q r c)]> D) T best bid.
Proof.
  intros [] Hi. unfold put_order. rewrite arr_set_ok by (rewrite sv_pool0; done). cbn.
  eexists. split; [reflexivity|]. split; [apply arr_at_put_eq|].
  split; try done; cbn.
  - eapply shape_frame, sv_shape0; [|done]. intros j. unfold slot_at. cbn.
    rewrite arr_at_put. case_decide; [|done]. by subst.
  - intros j. unfold slot_at, insert, fn_insert. cbn. rewrite arr_at_put.
    repeat case_decide; subst; done || apply sv_data0.
Qed.

(** Storing a level with another total. *)
Lemma sview_put_total k q :
  sview s ls fl lim D T best bid → 0 <= k < NUM_BOOK_LEVELS →
  ∃ s', put_level s k (PriceLevel.set_total (level_of ls T k) q) = Done s' ∧
    (∀ i, slot_at s' i = slot_at s i) ∧
    sview s' ls fl lim D (<[k := q]> T) best bid.
Proof.
  intros HV Hk. pose proof (sview_get_level k HV Hk) as HG. destruct HV.
  unfold get_level in HG. unfold put_level. rewrite arr_set_ok by (rewrite sv_levels0; done).
  rewrite arr_get_ok in HG by (rewrite sv_levels0; done). injection HG as HG. cbn.
  eexists. split; [reflexivity|]. split; [done|]. split; try done; cbn.
  - eapply shape_frame, sv_shape0; [done|]. intros j. unfold level_at. cbn.
    rewrite arr_at_put. case_decide; [|done]. subst. by rewrite HG.
  - intros j. unfold level_at, insert, fn_insert. cbn. rewrite arr_at_put.
    repeat case_decide; subst; done || apply sv_total0.
Qed.

Lemma sview_set_best best' :
  sview s ls fl lim D T best bid → sview (set_best s best') ls fl lim D T best' bid.
Proof. by intros []. Qed.

(** [OrderPool::allocate] *)
Lemma sview_alloc_none :
  sview s ls [] [] D T best bid →
  OrderPool.allocate s.(pool_) = Done (None, s.(pool_)).
Proof. intros []. destruct sv_shape0. unfold OrderPool.allocate. by rewrite sh_free. Qed.

(** [OrderPool::deallocate] *)
Lemma sview_dealloc i :
  sview s ls fl [i] D T best bid →
  ∃ p, OrderPool.deallocate s.(pool_) i = Done p ∧
    sview (set_pool s p) ls (i :: fl) [] D T best bid.
Proof.
  intros []. assert (0 <= i < MAX_ORDERS) as Hi.
  { destruct sv_shape0, sh_slots. apply sl_range. set_solver. }
  unfold OrderPool.deallocate. rewrite arr_get_ok by (rewrite sv_pool0; done). cbn.
  rewrite arr_set_ok by (rewrite sv_pool0; done). cbn. eexists. split; [reflexivity|].
  split; try done; cbn.
  - eapply shape_dealloc; [exact sv_shape0 | | |]; unfold slot_at; cbn;
      [intros; by rewrite arr_at_put_ne | by rewrite arr_at_put_eq ..].
  - intros j. unfold slot_at. cbn. rewrite arr_at_put. case_decide; subst; apply sv_data0.
Qed.
End views.

(** Allocation from a non-empty free list. *)
Lemma sview_alloc s ls i fl D T best bid :
  sview s ls (i :: fl) [] D T best bid →
  ∃ p, OrderPool.allocate s.(pool_) = Done (Some i, p) ∧
    sview (set_pool s p) ls fl [i] D T best bid.
Proof.
  intros []. assert (s.(pool_).(OrderPool.next_free_) = Some i) as Hnf
    by (destruct sv_shape0; cbn in *; tauto).
  assert (0 <= i < MAX_ORDERS) as Hi.
  { destruct sv_shape0, sh_slots. apply sl_range. set_solver. }
  unfold OrderPool.allocate. rewrite Hnf.
  rewrite arr_get_ok by (rewrite sv_pool0; done). cbn.
  rewrite arr_set_ok by (rewrite sv_pool0; done). cbn. eexists. split; [reflexivity|]. split; try done; cbn.
  - rewrite Hnf in sv_shape0.
    eapply shape_alloc; [exact sv_shape0 | |]; unfold slot_at; cbn;
      [intros; by rewrite arr_at_put_ne | by rewrite arr_at_put_eq].
  - intros j. unfold slot_at. cbn. rewrite arr_at_put. case_decide; subst; apply sv_data0.
Qed.

(** ** The best-price scans *)

Section scans.
Context (levels : array PriceLevel.t) (queue : Z → list OrderData).
Hypothesis Hsize : arr_size levels = NUM_BOOK_LEVELS.
Hypothesis Htotal : ∀ k, 0 <= k < NUM_BOOK_LEVELS →
  (arr_at levels k).(PriceLevel.total_quantity_) = queue_total (queue k).

Lemma scan_down_spec n :
  Z.of_nat n <= NUM_BOOK_LEVELS →
  scan_down levels n = Done (next_best true queue (Z.of_nat n)).
Proof.
  unfold next_best, shown_levels, worse_levels. induction n as [|n IH]; intros Hn; [done|].
  cbn [scan_down]. rewrite arr_get_ok by (rewrite Hsize; lia). cbn.
  rewrite Htotal by lia.
  rewrite seqZ_S, reverse_snoc, Z.add_0_l.
  rewrite filter_cons. destruct (0 <? queue_total (queue (Z.of_nat n))) eqn:E.
  - rewrite decide_True by lia. done.
  - rewrite decide_False by lia. apply IH. lia.
Qed.

Lemma scan_up_spec n i :
  0 <= i → i + Z.of_nat n = NUM_BOOK_LEVELS →
  scan_up levels n i = Done (next_best false queue (i - 1)).
Proof.
  unfold next_best, shown_levels, worse_levels. revert i.
  induction n as [|n IH]; intros i Hi Hn.
  - replace (NUM_BOOK_LEVELS - (i - 1 + 1)) with 0 by lia. done.
  - cbn [scan_up]. rewrite arr_get_ok by (rewrite Hsize; lia). cbn.
    rewrite Htotal by lia. replace (i - 1 + 1) with i by lia.
    rewrite seqZ_cons by lia. rewrite filter_cons.
    destruct (0 <? queue_total (queue i)) eqn:E.
    + rewrite decide_True by lia. done.
    + rewrite decide_False by lia. rewrite IH by lia.
      replace (Z.succ i - 1) with i by lia. replace (i + 1 - 1 + 1) with (Z.succ i) by lia.
      by replace (Z.pred (NUM_BOOK_LEVELS - i)) with (NUM_BOOK_LEVELS - Z.succ i) by lia.
Qed.

(** Scanning up from beyond the last level finds nothing. *)
Lemma next_best_ask_end i : NUM_BOOK_LEVELS <= i + 1 → next_best false queue i = NUM_BOOK_LEVELS.
Proof.
  intros Hi. unfold next_best, shown_levels, worse_levels.
  rewrite seqZ_nil by lia. done.
Qed.
End scans.

(** [update_best_bid_after_empty] / [update_best_ask_after_empty] *)
Lemma update_best_spec s ls fl lim D T best bid is_bid queue :
  sview s ls fl lim D T best bid →
  (∀ k, 0 <= k < NUM_BOOK_LEVELS → T k = queue_total (queue k)) →
  0 <= best <= NUM_BOOK_LEVELS →
  OrderBook.update_best_after_empty s is_bid = Done (set_best s (next_best is_bid queue best)).
Proof.
  intros [] HT Hb. unfold OrderBook.update_best_after_empty.
  assert (∀ k, 0 <= k < NUM_BOOK_LEVELS →
    (arr_at s.(levels_) k).(PriceLevel.total_quantity_) = queue_total (queue k)) as HL.
  { intros k Hk. rewrite <- HT by done. apply sv_total0. }
  destruct is_bid.
  - unfold update_best_bid_after_empty. rewrite sv_best0.
    rewrite (scan_down_spec _ queue) by (done || lia). by rewrite Z2Nat.id by lia.
  - unfold update_best_ask_after_empty. rewrite sv_best0.
    destruct (decide (best + 1 <= NUM_BOOK_LEVELS)) as [Hle|Hgt].
    + rewrite (scan_up_spec _ queue) by (done || lia).
      by replace (best + 1 - 1) with best by lia.
    + replace (Z.to_nat (NUM_BOOK_LEVELS - (best + 1))) with 0%nat by lia.
      rewrite next_best_ask_end by lia. done.
Qed.

(** ** Linking and unlinking *)

(** What joining the neighbours [l1] and [l2] of a removed slot does to the
    pool and to the level. *)
Record joined (s s' : t) (k : Z) (l1 l2 : list Z) : Prop := MkJoined {
  jn_slot j : slot_at s' j =
    (let o := if decide (last l1 = Some j) then Order.set_next (slot_at s j) (head l2)
              else slot_at s j in
     if decide (head l2 = Some j) then Order.set_previous o (last l1) else o);
  jn_other j : j ≠ k → level_at s' j = level_at s j;
  jn_level : level_at s' k =
    PriceLevel.Make (head (l1 ++ l2)) (last (l1 ++ l2))
      (level_at s k).(PriceLevel.total_quantity_) (level_at s k).(PriceLevel.price_)
      (level_at s k).(PriceLevel.idx_);
  jn_sizes : arr_size s'.(levels_) = arr_size s.(levels_) ∧
    arr_size s'.(pool_).(OrderPool.pool_) = arr_size s.(pool_).(OrderPool.pool_);
  jn_rest : s'.(pool_).(OrderPool.next_free_) = s.(pool_).(OrderPool.next_free_) ∧
    s'.(best_price_index_) = s.(best_price_index_) ∧ s'.(is_bid_) = s.(is_bid_)
}.

Lemma sview_joined s s' ls fl D T best bid k l1 i l2 :
  sview s ls fl [] D T best bid → ls k = l1 ++ i :: l2 → 0 <= k < NUM_BOOK_LEVELS →
  joined s s' k l1 l2 →
  slot_at s' i = slot_at s i ∧
  sview s' (<[k := l1 ++ l2]> ls) fl [i] D T best bid.
Proof.
  intros [] Hk Hkr [Hslot Hother Hlevel [Hs1 Hs2] (Hf & Hb & Hd)].
  pose proof (sl_nodup _ _ _ (sh_slots _ _ _ _ _ _ sv_shape0) k) as Hnd. rewrite Hk in Hnd.
  assert (∀ j, last l1 = Some j → j ∈ l1) as Hl1 by (intros; by apply last_Some_elem_of).
  assert (∀ j, head l2 = Some j → j ∈ l2) as Hl2 by (intros; by apply head_Some_elem_of).
  apply NoDup_app in Hnd as Hnd'. destruct Hnd' as (_ & Hdis & [Hi2 _]%NoDup_cons).
  split.
  { assert (head l2 ≠ Some i) by (intros E; by apply Hi2, Hl2).
    assert (last l1 ≠ Some i) by (intros E; apply (Hdis i); [by apply Hl1 | set_solver]).
    rewrite Hslot. cbn. by rewrite !decide_False. }
  split; try congruence.
  - rewrite Hf. eapply shape_relink; [exact sv_shape0 | done | | | done | | |].
    + intros j Hj _. rewrite Hslot. cbn. rewrite Hk in Hj.
      rewrite !decide_False; [done | |]; intros E; apply Hj; set_solver.
    + intros j. rewrite Hslot. cbn. by repeat case_decide.
    + by rewrite Hlevel.
    + pose proof (sh_links _ _ _ _ _ _ sv_shape0 k) as Hseg. rewrite Hk in Hseg.
      eapply dseg_delete; [done | | | | | | | exact Hseg]; intros j Hj; rewrite Hslot; cbn.
      * rewrite (decide_False (P := head l2 = Some j)) by (intros E; apply (Hdis j); set_solver).
        by case_decide.
      * intros E. rewrite (decide_False _ _ E). by case_decide.
      * rewrite (decide_True _ _ Hj). by case_decide.
      * rewrite (decide_False (P := last l1 = Some j)) by (intros E; apply (Hdis j); set_solver).
        by case_decide.
      * intros E. rewrite (decide_False _ _ E). by case_decide.
      * by rewrite (decide_True _ _ Hj).
    + eapply slots_remove; [apply (sh_slots _ _ _ _ _ _ sv_shape0) | done].
  - intros j. rewrite Hslot, <- sv_data0. cbn. by repeat case_decide.
  - intros j. rewrite <- sv_total0. destruct (decide (j = k)) as [->|Hne].
    + by rewrite Hlevel.
    + by rewrite Hother.
Qed.

(** Symbolic execution of loads and stores whose bounds are known. *)
Ltac run_access :=
  unfold get_order, put_order, get_level, put_level;
  repeat (cbn;
          first
            [ rewrite arr_get_ok by (cbn; rewrite ?arr_size_put; lia)
            | rewrite arr_set_ok by (cbn; rewrite ?arr_size_put; lia) ]);
  cbn.

Ltac case_slots :=
  repeat first
    [ rewrite arr_at_put
    | case_decide
    | progress simplify_eq ].

Lemma unlink_joined s ls fl D T best bid k l1 i l2 :
  sview s ls fl [] D T best bid → ls k = l1 ++ i :: l2 → 0 <= k < NUM_BOOK_LEVELS →
  ∃ s', OrderBook.unlink_order s (slot_at s i) k = Done s' ∧ joined s s' k l1 l2.
Proof.
  intros HV Hk Hkr. destruct HV.
  destruct (shape_neighbours _ _ _ _ _ _ _ _ _ _ sv_shape0 Hk) as [Hp Hn].
  destruct (sh_level _ _ _ _ _ _ sv_shape0 k Hkr) as (HLf & HLl & _).
  assert (∀ j, j ∈ l1 ++ l2 → 0 <= j < MAX_ORDERS) as Hr.
  { intros j Hj. eapply (shape_slot _ _ _ _ _ _ k j sv_shape0). rewrite Hk. set_solver. }
  rewrite Hk in HLf, HLl.
  unfold OrderBook.unlink_order. rewrite Hp, Hn.
  destruct l1 as [|x l1 _] using rev_ind; [|rewrite last_snoc in *];
    destruct l2 as [|y l2]; cbn [head last];
    try (assert (0 <= x < MAX_ORDERS) by (apply Hr; set_solver));
    try (assert (0 <= y < MAX_ORDERS) by (apply Hr; set_solver));
    run_access; (eexists; split; [reflexivity|]); split; try done; unfold slot_at, level_at in *; cbn.
  all: try (intros j; case_slots; rewrite ?last_snoc in *; cbn in *; simplify_eq; congruence).
  all: case_slots; cbn [app] in *; rewrite ?last_cons_cons, ?last_app_cons, ?head_snoc_app, ?app_nil_r,
         ?last_snoc in *; unfold PriceLevel.set_first, PriceLevel.set_last;
         destruct (arr_at (levels_ s) k); cbn in *; congruence.
Qed.

(** [remove_order]'s relinking on a slot of level [k]. *)
Lemma sview_unlink s ls fl D T best bid k l1 i l2 :
  sview s ls fl [] D T best bid → ls k = l1 ++ i :: l2 → 0 <= k < NUM_BOOK_LEVELS →
  ∃ s', OrderBook.unlink_order s (slot_at s i) k = Done s' ∧
    slot_at s' i = slot_at s i ∧
    sview s' (<[k := l1 ++ l2]> ls) fl [i] D T best bid.
Proof.
  intros HV Hk Hkr. destruct (unlink_joined _ _ _ _ _ _ _ _ _ _ _ HV Hk Hkr) as (s' & E & HJ).
  exists s'. split; [done|]. by eapply sview_joined.
Qed.

(** The same for the first order of a level, as [match_loop] does it.  The
    advance of the best index that follows when the level becomes empty only
    changes the best index. *)
Definition pop_first (s : t) (k : Z) (next : option Z) : outcome t :=
  level ← get_level s k;
  let level := PriceLevel.set_first level next in
  match next with
  | Some n =>
      s ← put_level s k level;
      no ← get_order s n;
      put_order s n (Order.set_previous no None)
  | None => put_level s k (PriceLevel.set_last level None)
  end.

Lemma pop_first_joined s ls fl D T best bid k i l2 :
  sview s ls fl [] D T best bid → ls k = i :: l2 → 0 <= k < NUM_BOOK_LEVELS →
  ∃ s', pop_first s k (slot_at s i).(Order.next_) = Done s' ∧ joined s s' k [] l2.
Proof.
  intros HV Hk Hkr. destruct HV.
  destruct (shape_neighbours _ _ _ _ _ _ k [] _ _ sv_shape0 Hk) as [Hp Hn].
  destruct (sh_level _ _ _ _ _ _ sv_shape0 k Hkr) as (HLf & HLl & _).
  rewrite Hk in HLf, HLl. unfold pop_first. rewrite Hn.
  destruct l2 as [|y l2]; cbn [head];
    try (assert (0 <= y < MAX_ORDERS)
           by (eapply (shape_slot _ _ _ _ _ _ k y sv_shape0); rewrite Hk; set_solver));
    run_access; (eexists; split; [reflexivity|]); split; try done;
    unfold slot_at, level_at in *; cbn.
  all: try (intros j; case_slots; cbn in *; simplify_eq; congruence).
  all: case_slots; rewrite ?last_cons_cons in *;
         unfold PriceLevel.set_first, PriceLevel.set_last; destruct (arr_at (levels_ s) k); cbn in *;
         congruence.
Qed.

Lemma sview_pop s ls fl D T best bid k i l2 :
  sview s ls fl [] D T best bid → ls k = i :: l2 → 0 <= k < NUM_BOOK_LEVELS →
  ∃ s', pop_first s k (slot_at s i).(Order.next_) = Done s' ∧
    slot_at s' i = slot_at s i ∧
    sview s' (<[k := l2]> ls) fl [i] D T best bid.
Proof.
  intros HV Hk Hkr. destruct (pop_first_joined _ _ _ _ _ _ _ _ _ _ HV Hk Hkr) as (s' & E & HJ).
  exists s'. split; [done|]. by eapply (sview_joined _ _ _ _ _ _ _ _ _ []).
Qed.

(** ** add_order *)

Lemma price_to_index_ok price :
  MINIMUM_BID <= price <= MAXIMUM_ASK → price_to_index price = Done (price_level price).
Proof.
  unfold MINIMUM_BID, MAXIMUM_ASK, price_to_index, price_level. intros H.
  rewrite in_i64_ok by (unfold is_i64, MINIMUM_BID; lia). run_bind. f_equal.
  apply u64_small. unfold MINIMUM_BID. lia.
Qed.

(** Storing a fresh order in the limbo slot [i] and queueing it at level [k]:
    the part of [add_order] between the allocation and the best-index update. *)
Definition link_last (s : t) (k i : Z) (o : Order.t) (level : PriceLevel.t) (q : Volume_t)
    : outcome t :=
  s ← put_order s i o;
  '(s, level) ←
    match o.(Order.previous_) with
    | Some l =>
        lo ← get_order s l;
        s ← put_order s l (Order.set_next lo (Some i));
        Done (s, level)
    | None => Done (s, PriceLevel.set_first level (Some i))
    end;
  put_level s k (PriceLevel.set_total (PriceLevel.set_last level (Some i)) q).

Lemma sview_link s ls fl i D T best bid k q o :
  sview s ls fl [i] D T best bid → 0 <= k < NUM_BOOK_LEVELS →
  o.(Order.next_) = None → o.(Order.previous_) = last (ls k) →
  o.(Order.order_handle_) = i →
  ∃ s', link_last s k i o (level_of ls T k) q = Done s' ∧ slot_at s' i = o ∧
    sview s' (<[k := ls k ++ [i]]> ls) fl [] (<[i := order_data o]> D) (<[k := q]> T) best bid.
Proof.
  intros [] Hk Hn Hp Hh.
  pose proof (sh_slots _ _ _ _ _ _ sv_shape0) as Hsl.
  assert (∀ j, j ∈ ls k → 0 <= j < MAX_ORDERS ∧ j ≠ i) as Hin.
  { intros j Hj. split; [by eapply shape_slot|]. intros ->. by eapply slots_limbo. }
  assert (0 <= i < MAX_ORDERS) as Hi by (apply (sl_range _ _ _ Hsl); set_solver).
  destruct (sh_level _ _ _ _ _ _ sv_shape0 k Hk) as (HLf & HLl & HLp & HLi).
  assert (∃ s', link_last s k i o (level_of ls T k) q = Done s' ∧
    arr_size s'.(levels_) = NUM_BOOK_LEVELS ∧
    arr_size s'.(pool_).(OrderPool.pool_) = MAX_ORDERS ∧
    s'.(pool_).(OrderPool.next_free_) = s.(pool_).(OrderPool.next_free_) ∧
    s'.(best_price_index_) = best ∧ s'.(is_bid_) = bid ∧
    (∀ j, slot_at s' j = if decide (j = i) then o else if decide (last (ls k) = Some j)
            then Order.set_next (slot_at s j) (Some i) else slot_at s j) ∧
    (∀ j, level_at s' j = if decide (j = k)
            then PriceLevel.Make (head (ls k ++ [i])) (Some i) q (level_price k) k
            else level_at s j)) as (s' & E & Hs1 & Hs2 & Hnf & Hb & Hd & Hslot & Hlevel).
  { unfold link_last. rewrite Hp. unfold level_of.
    destruct (ls k) as [|x l _] eqn:El using rev_ind; [|rewrite last_snoc in *];
      try (destruct (Hin x) as [Hx Hne]; [set_solver|]);
      run_access; (eexists; split; [reflexivity|]);
      repeat split; try (by rewrite ?arr_size_put); intros j; unfold slot_at, level_at; cbn;
      case_slots; rewrite ?head_snoc_app in *; try done; try congruence. }
  exists s'. split; [done|]. split; [rewrite Hslot; by rewrite decide_True|].
  split; try done.
  - rewrite Hnf. eapply shape_relink; [exact sv_shape0 | done | | | | | |].
    + intros j Hj Hji. rewrite Hslot, !decide_False; [done | | set_solver].
      intros ?%last_Some_elem_of. done.
    + intros j. rewrite Hslot. case_decide as Ej; [|by case_decide].
      by rewrite Ej, (sh_handle _ _ _ _ _ _ sv_shape0).
    + intros j Hj. by rewrite Hlevel, decide_False.
    + by rewrite Hlevel, decide_True, HLp, HLi, last_snoc.
    + eapply dseg_snoc; [apply (sl_nodup _ _ _ Hsl) | | | | |
        apply (sh_links _ _ _ _ _ _ sv_shape0 k)].
      * intros j Hj Hl. rewrite Hslot, !decide_False; [done | done | by apply Hin].
      * intros j Hl. rewrite Hslot, decide_False, decide_True; [done | done |].
        by apply Hin, last_Some_elem_of.
      * by rewrite Hslot, decide_True.
      * by rewrite Hslot, decide_True.
    + apply (slots_insert _ _ i k (ls k) []); [done | by rewrite app_nil_r].
  - intros j. rewrite Hslot. unfold insert, fn_insert. rewrite <- sv_data0.
    repeat case_decide; congruence || done.
  - intros j. rewrite Hlevel. unfold insert, fn_insert. rewrite <- sv_total0.
    repeat case_decide; congruence || done.
Qed.

(** [OrderBookSide::add_order] with a slot to allocate. *)
Lemma sview_add_order s ls i fl D T best bid price quantity remaining id client req now :
  sview s ls (i :: fl) [] D T best bid →
  MINIMUM_BID <= price <= MAXIMUM_ASK →
  let k := price_level price in
  let total := u32 (T k + remaining) in
  ∃ s', add_order s price quantity remaining id client req now =
          Done (Some i, s', [on_level_update (side_of bid) price total now]) ∧
    sview s' (<[k := ls k ++ [i]]> ls) fl []
      (<[i := MkOrderData client id price quantity remaining (u32 (quantity - remaining)) bid]> D)
      (<[k := total]> T) (if improves bid k best then k else best) bid.
Proof.
  intros HV Hp k total. unfold add_order. rewrite price_to_index_ok by done. run_bind. fold k.
  assert (0 <= k < NUM_BOOK_LEVELS) as Hk.
  { unfold k, price_level. rewrite num_book_levels_val. unfold MINIMUM_BID, MAXIMUM_ASK in *. lia. }
  assert (level_price k = price) as Hlp by (unfold level_price, k, price_level; lia).
  destruct (sview_alloc _ _ _ _ _ _ _ _ HV) as (p & -> & HV1). run_bind.
  rewrite (sview_get_level k HV1 Hk). run_bind.
  assert (0 <= i < MAX_ORDERS) as Hi.
  { destruct HV, sv_shape0, sh_slots. apply sl_range. set_solver. }
  destruct (sview_get_order i HV1 Hi) as (-> & Hh & _). run_bind.
  rewrite Hh. set (s1 := set_pool s p) in *. rewrite (sv_bid _ _ _ _ _ _ _ _ HV1).
  set (o := Order.Make _ _ _ _ _ _ _ _ _ _).
  destruct (sview_link s1 ls fl i D T best bid k total o HV1 Hk) as (s' & E & _ & HV2);
    [done..|].
  assert (∀ s2, s2.(is_bid_) = bid → s2.(best_price_index_) = best →
    (if s2.(is_bid_) then update_best_bid_after_order s2 k else update_best_ask_after_order s2 k)
    = if improves bid k best then set_best s2 k else s2) as Hbest.
  { intros s2 <- <-. unfold improves, update_best_bid_after_order, update_best_ask_after_order.
    by destruct (is_bid_ s2). }
  exists (if improves bid k best then set_best s' k else s').
  split; [|destruct (improves bid k best); [by eapply sview_set_best | done]].
  unfold link_last in E. cbn [Order.previous_ o] in E.
  destruct HV2. rewrite <- (Hbest s') by done.
  unfold level_of in *. cbn [PriceLevel.last_] in *. rewrite <- Hlp at 1.
  destruct (put_order s1 i o) as [s2| |]; [|done..]. run_bind in *.
  destruct (last (ls k)) as [l|].
  - destruct (get_order s2 l) as [lo| |]; [|done..]. run_bind in *.
    destruct (put_order s2 l _) as [s3| |]; [|done..]. run_bind in *.
    fold total. cbn in E |- *. fold total. rewrite E. cbn. rewrite sv_bid0. done.
  - cbn in E |- *. fold total. rewrite E. cbn. rewrite sv_bid0. done.
Qed.

(** [add_order] on an exhausted pool. *)
Lemma sview_add_order_full s ls D T best bid price quantity remaining id client req now :
  sview s ls [] [] D T best bid → MINIMUM_BID <= price <= MAXIMUM_ASK →
  add_order s price quantity remaining id client req now =
    Done (None, s, [on_error client req ORDER_BOOK_FULL "Order book is full." now]).
Proof.
  intros HV Hp. unfold add_order. rewrite price_to_index_ok by done. run_bind.
  rewrite (sview_alloc_none HV). cbn. by destruct s.
Qed.

Lemma sview_ext s ls fl lim D D' T T' best bid :
  (∀ i, D i = D' i) → (∀ k, T k = T' k) →
  sview s ls fl lim D T best bid → sview s ls fl lim D' T' best bid.
Proof. intros HD HT []. split; try done; intros; [rewrite <- HD | rewrite <- HT]; auto. Qed.
