(* ===== verification/BookRep.v ===== *)
(** The representation of an abstract book by the engine's data: every side is
    well formed and holds the abstract queues, the two indexes
    [order_by_handle_] and [order_id_to_handle_] hold exactly the resting
    orders, and ids are fresh. *)

From stdpp Require Import functions.
From S2P Require Import Prelude Types OrderBook BookSpec BookLinks BookView.
Import OrderBookSide.

(** ** Arithmetic of level totals *)

Lemma queue_sum_app q1 q2 : queue_sum (q1 ++ q2) = queue_sum q1 + queue_sum q2.
Proof.
  unfold queue_sum. induction q1 as [|o q1 IH]; cbn; [done|].
  fold (queue_sum q2) in *. lia.
Qed.

Lemma queue_sum_cons o q : queue_sum (o :: q) = od_remaining o + queue_sum q.
Proof. done. Qed.

Lemma queue_total_snoc q o : u32 (queue_total q + od_remaining o) = queue_total (q ++ [o]).
Proof.
  unfold queue_total. rewrite u32_add_l, queue_sum_app. cbn. f_equal. lia.
Qed.

(** Taking [n] off the order between [q1] and [q2]. *)
Lemma queue_total_sub q1 q2 o o' n :
  od_remaining o' = od_remaining o - n →
  u32 (queue_total (q1 ++ o :: q2) - n) = queue_total (q1 ++ o' :: q2).
Proof.
  intros E. unfold queue_total. rewrite u32_sub_l, !queue_sum_app, !queue_sum_cons.
  f_equal. lia.
Qed.

Lemma queue_total_delete q1 q2 o :
  u32 (queue_total (q1 ++ o :: q2) - od_remaining o) = queue_total (q1 ++ q2).
Proof.
  unfold queue_total. rewrite u32_sub_l, !queue_sum_app, !queue_sum_cons. f_equal. lia.
Qed.

Lemma queue_total_zero q1 q2 o :
  od_remaining o = 0 → queue_total (q1 ++ o :: q2) = queue_total (q1 ++ q2).
Proof.
  intros E. unfold queue_total. rewrite !queue_sum_app, !queue_sum_cons. f_equal. lia.
Qed.

(** ** Orders *)

Record good_data (bid : bool) (k : Z) (o : OrderData) : Prop := MkGood {
  gd_price : od_price o = level_price k;
  gd_side : od_is_bid o = bid;
  gd_remaining : 0 < od_remaining o;
  gd_cumulative : 0 <= od_cumulative o;
  gd_quantity : od_remaining o + od_cumulative o = od_quantity o;
  gd_width : od_quantity o < 2 ^ 32
}.

(** ** One side *)

Definition totals (ls : Z → list Z) (D : Z → OrderData) (k : Z) : Z :=
  queue_total (map D (ls k)).

Record rep_side (s : t) (ls : Z → list Z) (fl : list Z) (D : Z → OrderData) (bid : bool)
    (A : ASide) : Prop := MkRepSide {
  rp_view : sview s ls fl [] D (totals ls D) A.(a_best) bid;
  rp_queue k : A.(a_queue) k = map D (ls k);
  rp_good k i : i ∈ ls k → good_data bid k (D i);
  rp_best : A.(a_best) = NUM_BOOK_LEVELS ∨
            0 <= A.(a_best) < NUM_BOOK_LEVELS ∧ ls A.(a_best) ≠ []
}.

Lemma rep_side_best_range s ls fl D bid A :
  rep_side s ls fl D bid A → 0 <= A.(a_best) <= NUM_BOOK_LEVELS.
Proof. intros []. rewrite num_book_levels_val in *. lia. Qed.

Lemma rep_side_ext s ls fl D bid A A' :
  (∀ k, A.(a_queue) k = A'.(a_queue) k) → A.(a_best) = A'.(a_best) →
  rep_side s ls fl D bid A → rep_side s ls fl D bid A'.
Proof. intros HQ HB []. rewrite HB in *. split; try done. intros k. by rewrite <- HQ. Qed.

(** Updating the data of a slot outside a list does not show in the list. *)
Lemma map_insert_fresh (D : Z → OrderData) i o l : i ∉ l → map (<[i := o]> D) l = map D l.
Proof.
  intros Hi. apply map_ext_in. intros j Hj%list_elem_of_In.
  apply fn_lookup_insert_ne. by intros ->.
Qed.

Lemma map_insert_middle (D : Z → OrderData) i o l1 l2 :
  NoDup (l1 ++ i :: l2) →
  map (<[i := o]> D) (l1 ++ i :: l2) = map D l1 ++ o :: map D l2.
Proof.
  intros (_ & Hd & [Hi _]%NoDup_cons)%NoDup_app. rewrite map_app. cbn.
  rewrite fn_lookup_insert, !map_insert_fresh; [done | done |]. intros ?. apply (Hd i); set_solver.
Qed.

Lemma map_insert_first (D : Z → OrderData) i o l :
  NoDup (i :: l) → map (<[i := o]> D) (i :: l) = o :: map D l.
Proof. intros H. apply (map_insert_middle D i o [] l H). Qed.

(** Assembling the representation after slot [i] left level [k], whatever
    happened to its own data on the way. *)
Lemma rep_side_removed s s' ls fl D D' bid A k l1 i l2 T best :
  rep_side s ls fl D bid A → ls k = l1 ++ i :: l2 →
  (∀ j, j ≠ i → D' j = D j) →
  sview s' (<[k := l1 ++ l2]> ls) (i :: fl) [] D' T best bid →
  let queue := <[k := map D (l1 ++ l2)]> A.(a_queue) in
  (∀ k', T k' = queue_total (queue k')) →
  best = NUM_BOOK_LEVELS ∨ 0 <= best < NUM_BOOK_LEVELS ∧ queue best ≠ [] →
  rep_side s' (<[k := l1 ++ l2]> ls) (i :: fl) D' bid (MkASide queue best).
Proof.
  intros [HV HQ HG _] Hk HD HV' queue HT Hbest.
  pose proof (sh_slots _ _ _ _ _ _ (sv_shape _ _ _ _ _ _ _ _ HV)) as Hsl.
  pose proof (slots_remove _ _ _ _ _ _ Hsl Hk) as Hsl'.
  assert (∀ k', queue k' = map D' (<[k := l1 ++ l2]> ls k')) as Hqueue.
  { intros k'. transitivity (map D (<[k := l1 ++ l2]> ls k')).
    - unfold queue, insert, fn_insert. case_decide; [done | apply HQ].
    - apply map_ext_in. intros j Hj%list_elem_of_In. symmetry. apply HD. intros ->.
      by eapply slots_limbo. }
  split; cbn [a_queue a_best].
  - eapply sview_ext, HV'; [done|]. intros k'. by rewrite HT, Hqueue.
  - done.
  - intros k' j Hj. rewrite HD by (intros ->; by eapply slots_limbo).
    apply HG. unfold insert, fn_insert in Hj. case_decide; [subst k'|done]. rewrite Hk. set_solver.
  - destruct Hbest as [|[? Hne]]; [by left | right]. split; [done|]. intros E.
    apply Hne. by rewrite Hqueue, E.
Qed.

(** The queues after only the data of the order of slot [i] changed. *)
Lemma queue_modified s ls fl D bid A k l1 i l2 o k' :
  rep_side s ls fl D bid A → ls k = l1 ++ i :: l2 →
  (<[k := map D l1 ++ o :: map D l2]> A.(a_queue)) k' = map (<[i := o]> D) (ls k').
Proof.
  intros [HV HQ _ _] Hk.
  pose proof (sh_slots _ _ _ _ _ _ (sv_shape _ _ _ _ _ _ _ _ HV)) as Hsl.
  destruct (decide (k' = k)) as [->|Hne].
  - rewrite fn_lookup_insert, Hk, map_insert_middle; [done|]. rewrite <- Hk. apply Hsl.
  - rewrite fn_lookup_insert_ne, map_insert_fresh; [apply HQ | | done].
    intros Hi'. apply Hne, (sl_once _ _ _ Hsl k' k i); [done|]. rewrite Hk. set_solver.
Qed.

(** Assembling the representation after such a change. *)
Lemma rep_side_modified s s' ls fl D bid A k l1 i l2 o best :
  rep_side s ls fl D bid A → ls k = l1 ++ i :: l2 → good_data bid k o →
  sview s' ls fl [] (<[i := o]> D) (totals ls (<[i := o]> D)) best bid →
  let queue := <[k := map D l1 ++ o :: map D l2]> A.(a_queue) in
  best = NUM_BOOK_LEVELS ∨ 0 <= best < NUM_BOOK_LEVELS ∧ queue best ≠ [] →
  rep_side s' ls fl (<[i := o]> D) bid (MkASide queue best).
Proof.
  intros HR Hk Hgood HV' queue Hbest. pose proof HR as [HV _ HG _].
  pose proof (sh_slots _ _ _ _ _ _ (sv_shape _ _ _ _ _ _ _ _ HV)) as Hsl.
  assert (i ∈ ls k) as Hi by (rewrite Hk; set_solver).
  split; cbn [a_queue a_best].
  - done.
  - intros k'. by eapply queue_modified.
  - intros k' j Hj. unfold insert, fn_insert. case_decide; [subst j | by apply HG].
    by rewrite (sl_once _ _ _ Hsl k' k i Hj Hi).
  - destruct Hbest as [|[? Hne]]; [by left | right]. split; [done|]. intros E.
    apply Hne. unfold queue. by erewrite queue_modified, E.
Qed.

(** Assembling it after an order was queued. *)
Lemma rep_side_pushed s s' ls i fl D bid A o :
  rep_side s ls (i :: fl) D bid A →
  let k := price_level (od_price o) in
  good_data bid k o → 0 <= k < NUM_BOOK_LEVELS →
  sview s' (<[k := ls k ++ [i]]> ls) fl [] (<[i := o]> D)
    (<[k := u32 (totals ls D k + od_remaining o)]> (totals ls D))
    (if improves bid k A.(a_best) then k else A.(a_best)) bid →
  rep_side s' (<[k := ls k ++ [i]]> ls) fl (<[i := o]> D) bid (a_rest bid A o).
Proof.
  intros [HV HQ HG HB] k Hgood Hkr HV'.
  pose proof (sh_slots _ _ _ _ _ _ (sv_shape _ _ _ _ _ _ _ _ HV)) as Hsl.
  apply slots_alloc in Hsl.
  assert (∀ k', map (<[i := o]> D) (ls k') = map D (ls k')) as Hmap
    by (intros; apply map_insert_fresh; by eapply slots_limbo).
  assert (∀ k', a_queue (a_rest bid A o) k' = map (<[i := o]> D) (<[k := ls k ++ [i]]> ls k'))
    as Hqueue.
  { intros k'. cbn. fold k. unfold insert at 1 3, fn_insert at 1 3. case_decide; [subst k'|].
    - rewrite map_app, Hmap, HQ. cbn. by rewrite fn_lookup_insert.
    - by rewrite Hmap, HQ. }
  split.
  - eapply sview_ext, HV'; [done|]. intros k'. unfold totals at 3. rewrite <- Hqueue.
    cbn. fold k. unfold insert, fn_insert. case_decide; [subst k'|].
    + unfold totals. by rewrite queue_total_snoc, HQ.
    + unfold totals. by rewrite HQ.
  - done.
  - intros k' j Hj. unfold insert at 1, fn_insert at 1. case_decide as Ej; [subst j|].
    + unfold insert, fn_insert in Hj. case_decide; [by subst k'|].
      exfalso. by eapply slots_limbo.
    + apply HG. unfold insert, fn_insert in Hj. case_decide; [subst k'|done]. set_solver.
  - cbn. fold k. destruct (improves bid k (a_best A)) eqn:E.
    + right. split; [done|]. rewrite fn_lookup_insert. by destruct (ls k).
    + destruct HB as [HB|[? HB]].
      * unfold improves in E. rewrite HB, Z.eqb_refl in E. done.
      * right. split; [done|]. unfold insert, fn_insert. case_decide; [by destruct (ls k)|done].
Qed.

(** ** The two indexes *)

Definition enc (bid : bool) (i : Z) : Z := 2 * i + (if bid then 0 else 1).

Lemma enc_inj bid i bid' i' : enc bid i = enc bid' i' → bid = bid' ∧ i = i'.
Proof. unfold enc. destruct bid, bid'; intros; split; lia || done. Qed.

Lemma enc_range bid i : 0 <= i < MAX_ORDERS → 0 <= enc bid i < 2 * MAX_ORDERS.
Proof. unfold enc. destruct bid; lia. Qed.

Lemma encoded_handle_ok o i bid :
  0 <= i < MAX_ORDERS → o.(Order.order_handle_) = i → o.(Order.is_bid_) = bid →
  encoded_handle o = enc bid i.
Proof.
  rewrite max_orders_val. unfold encoded_handle, enc. intros Hi -> ->.
  rewrite (u32_small (i * 2)) by lia. rewrite u32_small by (destruct bid; lia).
  destruct bid; lia.
Qed.

Record rep_maps (bh : array (option (bool * Z))) (m : gmap Z Z) (ls : bool → Z → list Z)
    (D : bool → Z → OrderData) : Prop := MkRepMaps {
  rm_size : arr_size bh = 2 * MAX_ORDERS;
  rm_handle h bid i : arr_at bh h = Some (bid, i) ↔ h = enc bid i ∧ ∃ k, i ∈ ls bid k;
  rm_id id h : m !! id = Some h ↔
    ∃ bid k i, i ∈ ls bid k ∧ od_order_id (D bid i) = id ∧ h = enc bid i
}.

Lemma rep_maps_ids bh m ls D bid k i bid' k' i' :
  rep_maps bh m ls D → i ∈ ls bid k → i' ∈ ls bid' k' →
  od_order_id (D bid i) = od_order_id (D bid' i') → bid = bid' ∧ i = i'.
Proof.
  intros HM Hi Hi' E. apply enc_inj.
  assert (m !! od_order_id (D bid i) = Some (enc bid i)) as H1 by (eapply rm_id; eauto 10).
  assert (m !! od_order_id (D bid i) = Some (enc bid' i')) as H2 by (eapply rm_id; eauto 10).
  congruence.
Qed.

Lemma rep_maps_data bh m ls D D' :
  (∀ bid k i, i ∈ ls bid k → od_order_id (D' bid i) = od_order_id (D bid i)) →
  rep_maps bh m ls D → rep_maps bh m ls D'.
Proof.
  intros HD []. split; try done. intros id h. rewrite rm_id0.
  split; intros (bid & k & i & Hi & <- & ->); eauto 10 using eq_sym.
Qed.

Lemma rep_maps_remove bh m ls D bid k l1 i l2 fl :
  rep_maps bh m ls D → slots (ls bid) fl [] → ls bid k = l1 ++ i :: l2 →
  rep_maps (arr_put bh (enc bid i) None) (delete (od_order_id (D bid i)) m)
    (<[bid := <[k := l1 ++ l2]> (ls bid)]> ls) D.
Proof.
  intros HM HS Hk.
  assert (i ∈ ls bid k) as Hik by (rewrite Hk; set_solver).
  pose proof (slots_remove _ _ _ _ _ _ HS Hk) as HS'.
  assert (∀ bid' k' i', i' ∈ <[bid := <[k := l1 ++ l2]> (ls bid)]> ls bid' k' ↔
    i' ∈ ls bid' k' ∧ (bid', i') ≠ (bid, i)) as Hin.
  { intros bid' k' i'. unfold insert at 1, fn_insert at 1. case_decide as Eb; [subst bid'|].
    - split.
      + intros Hi'. split; [|intros [= ->]; by eapply slots_limbo].
        unfold insert, fn_insert in Hi'. case_decide; subst; [|done]. rewrite Hk. set_solver.
      + intros [Hi' Hne]. unfold insert, fn_insert. case_decide; subst; [|done].
        rewrite Hk in Hi'. set_solver.
    - split; [intros; split; [done | congruence] | tauto]. }
  destruct HM. split.
  - done.
  - intros h bid' i'. rewrite arr_at_put. setoid_rewrite Hin. case_decide as Eh.
    + split; [done|]. intros (-> & k' & _ & Hne). apply enc_inj in Eh as [-> ->]. done.
    + rewrite rm_handle0. split; intros (-> & k' & Hi'); split; try done; exists k'.
      * split; [done|]. by intros [= -> ->].
      * tauto.
  - intros id h. setoid_rewrite Hin. rewrite lookup_delete. case_decide as Eid.
    + split; [done|]. intros (bid' & k' & i' & [Hi' Hne] & Ei & _). subst id.
      edestruct (rep_maps_ids bh m ls D bid' k' i' bid k i) as [-> ->]; [by split|done..].
    + rewrite rm_id0. split; intros (bid' & k' & i' & Hi' & Ei & ->);
        exists bid', k', i'; repeat split; try tauto. by intros [= -> ->].
Qed.

Lemma rep_maps_push bh m ls D bid k i o fl :
  rep_maps bh m ls D → slots (ls bid) fl [i] → m !! od_order_id o = None →
  rep_maps (arr_put bh (enc bid i) (Some (bid, i))) (<[od_order_id o := enc bid i]> m)
    (<[bid := <[k := ls bid k ++ [i]]> (ls bid)]> ls) (<[bid := <[i := o]> (D bid)]> D).
Proof.
  intros [] HS Hid.
  assert (∀ bid' k' i', i' ∈ <[bid := <[k := ls bid k ++ [i]]> (ls bid)]> ls bid' k' ↔
    i' ∈ ls bid' k' ∨ bid' = bid ∧ k' = k ∧ i' = i) as Hin.
  { intros bid' k' i'. unfold insert, fn_insert. repeat case_decide; subst; set_solver. }
  assert (∀ bid' k' i', i' ∈ ls bid' k' → (<[bid := <[i := o]> (D bid)]> D) bid' i' = D bid' i')
    as HD.
  { intros bid' k' i' Hi'. unfold insert, fn_insert. repeat case_decide; subst; try done.
    exfalso. by eapply slots_limbo. }
  assert (<[bid:=<[i:=o]> (D bid)]> D bid i = o) as HDi by (by rewrite !fn_lookup_insert).
  split; [done | |].
  - intros h bid' i'. rewrite arr_at_put. setoid_rewrite Hin. case_decide as Eh.
    + split; [intros [= <- <-]; eauto 10|]. intros (E & _). subst h.
      by apply enc_inj in E as [-> ->].
    + rewrite rm_handle0. split; [intros (? & k' & ?); eauto|].
      intros (-> & k' & [?|(-> & -> & ->)]); [eauto | done].
  - intros id h. setoid_rewrite Hin. rewrite lookup_insert. case_decide as Eid.
    + split.
      * intros [= <-]. exists bid, k, i. rewrite HDi. auto.
      * intros (bid' & k' & i' & [Hi'|(-> & -> & ->)] & Ei & ->); [|done].
        rewrite (HD _ _ _ Hi') in Ei. rewrite Eid, <- Ei in Hid.
        assert (m !! od_order_id (D bid' i') = Some (enc bid' i')) by (apply rm_id0; eauto 10).
        congruence.
    + rewrite rm_id0. split.
      * intros (bid' & k' & i' & Hi' & Ei & ->). exists bid', k', i'.
        by rewrite (HD _ _ _ Hi'); auto.
      * intros (bid' & k' & i' & [Hi'|(-> & -> & ->)] & Ei & ->);
          [rewrite (HD _ _ _ Hi') in Ei; eauto 10 | congruence].
Qed.

Lemma delete_size (m : gmap Z Z) id h : m !! id = Some h → S (size (delete id m)) = size m.
Proof.
  intros H. rewrite <- (insert_delete_id m id h H) at 2.
  by rewrite map_size_insert_None by apply lookup_delete_eq.
Qed.

(** The orders of a level are all in the id index. *)
Lemma rep_maps_size bh m ls D bid k fl lim :
  rep_maps bh m ls D → slots (ls bid) fl lim → (length (ls bid k) <= size m)%nat.
Proof.
  intros HM HS. rewrite <- (length_map (λ i, od_order_id (D bid i)) (ls bid k)).
  rewrite <- size_dom. rewrite <- (size_list_to_set (C := gset Z)).
  - apply subseteq_size. intros id. rewrite elem_of_list_to_set, list_elem_of_fmap, elem_of_dom.
    intros (i & -> & Hi). exists (enc bid i). apply (rm_id _ _ _ _ HM). eauto 10.
  - apply NoDup_fmap_2_strong; [|apply HS].
    intros i j Hi Hj E. by edestruct (rep_maps_ids bh m ls D bid k i bid k j).
Qed.
