(* ===== verification/BookMatch.v ===== *)
(** [match_loop] implements [a_match]: it is defined, it terminates within its
    fuel, it makes the callbacks of the abstract sweep and leaves a side that
    represents the abstract result. *)

From stdpp Require Import functions.
From S2P Require Import Prelude Types OrderBook BookSpec BookLinks BookView BookRep.
Import OrderBookSide.

(** ** The path of a sweep *)

Lemma worse_levels_spec bid k i :
  -1 <= k <= NUM_BOOK_LEVELS →
  i ∈ worse_levels bid k ↔ 0 <= i < NUM_BOOK_LEVELS ∧ (if bid then i < k else k < i).
Proof.
  intros Hk. unfold worse_levels. destruct bid; rewrite ?elem_of_reverse, elem_of_seqZ; lia.
Qed.

Lemma shown_levels_ext bid queue queue' k :
  (∀ i, i ∈ worse_levels bid k → queue i = queue' i) →
  shown_levels bid queue k = shown_levels bid queue' k.
Proof.
  intros H. unfold shown_levels. apply list_filter_ext_in. intros i Hi. by rewrite H.
Qed.

(** Emptying or refilling a level does not change what is shown beyond it. *)
Lemma shown_levels_insert bid queue k q :
  -1 <= k <= NUM_BOOK_LEVELS →
  shown_levels bid (<[k := q]> queue) k = shown_levels bid queue k.
Proof.
  intros Hk. apply shown_levels_ext. intros i Hi.
  rewrite worse_levels_spec in Hi by lia. rewrite fn_lookup_insert_ne; [done|].
  destruct bid; lia.
Qed.

(** Past a level [j] worse than [k], the worse levels are those of [j]. *)
Lemma worse_levels_split bid k j :
  -1 <= k <= NUM_BOOK_LEVELS → j ∈ worse_levels bid k →
  ∃ pre, worse_levels bid k = pre ++ j :: worse_levels bid j ∧
         (∀ i, i ∈ pre → i ∉ j :: worse_levels bid j).
Proof.
  intros Hk Hj. pose proof Hj as Hj'. rewrite worse_levels_spec in Hj' by done.
  assert (NoDup (worse_levels bid k)) as Hnd.
  { unfold worse_levels. destruct bid; rewrite ?NoDup_reverse; apply NoDup_seqZ. }
  assert (∃ pre, worse_levels bid k = pre ++ j :: worse_levels bid j) as [pre E].
  { unfold worse_levels. destruct bid.
    - exists (reverse (seqZ (j + 1) (k - (j + 1)))).
      assert (seqZ 0 k = seqZ 0 j ++ j :: seqZ (j + 1) (k - (j + 1))) as ->.
      { replace k with (j + (k - j)) at 1 by lia. rewrite seqZ_app by lia. f_equal.
        rewrite seqZ_cons by lia. f_equal. f_equal; lia. }
      by rewrite reverse_app, reverse_cons, <- app_assoc.
    - exists (seqZ (k + 1) (j - (k + 1))).
      replace (NUM_BOOK_LEVELS - (k + 1)) with ((j - (k + 1)) + (NUM_BOOK_LEVELS - j)) by lia.
      rewrite seqZ_app by lia. f_equal.
      replace (k + 1 + (j - (k + 1))) with j by lia. rewrite seqZ_cons by lia. f_equal.
      f_equal; lia. }
  exists pre. split; [done|]. intros i Hi Hi'. rewrite E in Hnd. apply NoDup_app in Hnd.
  naive_solver.
Qed.

(** The levels shown beyond [k] are the path from the next best level. *)
Lemma visible_next bid queue k :
  -1 <= k <= NUM_BOOK_LEVELS →
  visible bid (MkASide queue (next_best bid queue k)) = shown_levels bid queue k.
Proof.
  intros Hk. unfold visible, next_best. cbn.
  destruct (shown_levels bid queue k) as [|j r] eqn:E; cbn; [by rewrite Z.eqb_refl|].
  unfold shown_levels in E. pose proof E as E'.
  apply filter_head_split in E as (pre & post & Ew & Hpre & Hpost & Hj).
  assert (j ∈ worse_levels bid k) as Hin by (rewrite Ew; set_solver).
  pose proof Hin as Hr. rewrite worse_levels_spec in Hr by done.
  destruct (j =? NUM_BOOK_LEVELS) eqn:En; [lia|]. f_equal.
  destruct (worse_levels_split bid k j Hk Hin) as (pre' & Ew' & Hd).
  rewrite Ew', filter_app, filter_cons_True in E' by done.
  destruct (filter _ pre') as [|y ys] eqn:Ef.
  - by injection E' as E'.
  - exfalso. injection E' as -> _. apply (Hd j); [|set_solver].
    apply (list_elem_of_filter (λ i, 0 < queue_total (queue i))). rewrite Ef. set_solver.
Qed.

Lemma next_best_ext bid queue queue' k :
  (∀ i, queue i = queue' i) → next_best bid queue k = next_best bid queue' k.
Proof. intros H. unfold next_best. by rewrite (shown_levels_ext bid queue queue') by auto. Qed.

Lemma next_best_insert bid queue k q :
  -1 <= k <= NUM_BOOK_LEVELS → next_best bid (<[k := q]> queue) k = next_best bid queue k.
Proof. intros Hk. unfold next_best. by rewrite shown_levels_insert. Qed.

(** The next best index is a level with orders, or none. *)
Lemma next_best_nonempty bid queue k :
  -1 <= k <= NUM_BOOK_LEVELS →
  next_best bid queue k = NUM_BOOK_LEVELS ∨
  0 <= next_best bid queue k < NUM_BOOK_LEVELS ∧ queue (next_best bid queue k) ≠ [].
Proof.
  intros Hk. unfold next_best. destruct (shown_levels bid queue k) as [|j r] eqn:E; [by left|].
  right. cbn. assert (j ∈ shown_levels bid queue k) as Hj by (rewrite E; set_solver).
  unfold shown_levels in Hj. apply list_elem_of_filter in Hj as [Hq Hj].
  rewrite worse_levels_spec in Hj by done. split; [tauto|]. intros Hn. by rewrite Hn in Hq.
Qed.

(** ** One trade *)

Record rep_match (st : MatchState) (bid : bool) (ls : bool → Z → list Z) (fl : list Z)
    (D : bool → Z → OrderData) (A : ASide) : Prop := MkRepMatch {
  rk_side : rep_side st.(ms_side) (ls bid) fl (D bid) bid A;
  rk_maps : rep_maps st.(order_by_handle) st.(order_id_to_handle) ls D
}.

Lemma rep_match_ext st bid ls fl D A queue best :
  (∀ k, A.(a_queue) k = queue k) → A.(a_best) = best →
  rep_match st bid ls fl D A → rep_match st bid ls fl D (MkASide queue best).
Proof. intros HQ HB []. split; [|done]. by eapply rep_side_ext; [..|done]. Qed.

(** What matching does not touch: the slots and orders of the other side; and it
    only ever takes orders out of the id index. *)
Definition side_only (bid : bool) (st st' : MatchState) (ls ls' : bool → Z → list Z)
    (D D' : bool → Z → OrderData) : Prop :=
  ls' (negb bid) = ls (negb bid) ∧ D' (negb bid) = D (negb bid) ∧
  st'.(order_id_to_handle) ⊆ st.(order_id_to_handle).

Lemma side_only_refl bid st ls D : side_only bid st st ls ls D D.
Proof. by repeat split. Qed.

Lemma side_only_trans bid st1 st2 st3 ls1 ls2 ls3 D1 D2 D3 :
  side_only bid st1 st2 ls1 ls2 D1 D2 → side_only bid st2 st3 ls2 ls3 D2 D3 →
  side_only bid st1 st3 ls1 ls3 D1 D3.
Proof.
  unfold side_only. intros (-> & -> & H12) (-> & -> & H23). repeat split; [done..|].
  by transitivity (order_id_to_handle st2).
Qed.

Lemma side_only_insert bid st st' ls D lsb Db :
  st'.(order_id_to_handle) ⊆ st.(order_id_to_handle) →
  side_only bid st st' ls (<[bid := lsb]> ls) D (<[bid := Db]> D).
Proof. intros Hm. repeat split; [rewrite fn_lookup_insert_ne; done || by destruct bid..|done]. Qed.

Lemma side_only_data bid st st' ls D Db :
  st'.(order_id_to_handle) ⊆ st.(order_id_to_handle) →
  side_only bid st st' ls ls D (<[bid := Db]> D).
Proof. intros Hm. repeat split; [rewrite fn_lookup_insert_ne; done || by destruct bid|done]. Qed.

Section matching.
Context (advance_best : t → outcome t) (bid : bool).
Hypothesis Hadvance : ∀ s, advance_best s = OrderBook.update_best_after_empty s bid.
Context (total : Volume_t) (order_id client_id : Id_t) (now : Time_t).

Lemma retire_maker_pop st k i maker :
  retire_maker advance_best st k i maker =
  (side ← (s ← pop_first st.(ms_side) k maker.(Order.next_);
           match maker.(Order.next_) with
           | Some _ => Done s
           | None => advance_best s
           end);
   by_handle ← arr_set st.(order_by_handle) (encoded_handle maker) None;
   pool' ← OrderPool.deallocate side.(pool_) i;
   Done (MkMatchState (set_pool side pool') by_handle
           (delete maker.(Order.order_id_) st.(order_id_to_handle)))).
Proof.
  unfold retire_maker, pop_first. destruct (get_level (ms_side st) k) as [lv| |]; [|done..].
  run_bind. destruct (Order.next_ maker); [|done].
  destruct (put_level _ _ _) as [s| |]; [|done..]. run_bind.
  destruct (get_order _ _) as [no| |]; [|done..]. run_bind.
  by destruct (put_order _ _ _).
Qed.

(** The first half of an iteration: the quantities of the maker and of the
    level change by the traded quantity. *)
Lemma trade_quantities s ls fl D A k i l2 n :
  rep_side s ls fl D bid A → ls k = i :: l2 → 0 <= k < NUM_BOOK_LEVELS →
  0 <= n <= od_remaining (D i) →
  let maker := Order.set_quantities (slot_at s i) (slot_at s i).(Order.quantity_)
        (u32 ((slot_at s i).(Order.quantity_remaining_) - n))
        (u32 ((slot_at s i).(Order.quantity_cumulative_) + n)) in
  order_data maker = fill (D i) n ∧
  ∃ s1 s2,
    put_order s i maker = Done s1 ∧
    put_level s1 k (PriceLevel.set_total (level_of ls (totals ls D) k)
                      (u32 (totals ls D k - n))) = Done s2 ∧
    slot_at s2 i = maker ∧
    let D' := <[i := fill (D i) n]> D in
    sview s2 ls fl [] D' (totals ls D') A.(a_best) bid.
Proof.
  intros HR Hk Hkr Hn maker. pose proof HR as [HV HQ HG HB].
  assert (i ∈ ls k) as Hi by (rewrite Hk; set_solver).
  destruct (HG k i Hi). destruct (shape_slot _ _ _ _ _ _ k i (sv_shape _ _ _ _ _ _ _ _ HV) Hi).
  assert (order_data maker = fill (D i) n) as Hm.
  { unfold maker, fill. rewrite <- (sv_data _ _ _ _ _ _ _ _ HV i) in *.
    unfold order_data in *. cbn in *. by rewrite !u32_small by lia. }
  split; [done|].
  destruct (sview_put_quantities i (slot_at s i).(Order.quantity_)
    (u32 ((slot_at s i).(Order.quantity_remaining_) - n))
    (u32 ((slot_at s i).(Order.quantity_cumulative_) + n)) HV) as (s1 & E1 & Hs1 & HV1); [done|].
  destruct (sview_put_total k (u32 (totals ls D k - n)) HV1 Hkr) as (s2 & E2 & Hs2 & HV2).
  exists s1, s2. split; [done|]. split; [done|]. split; [by rewrite Hs2|].
  fold maker in HV2. rewrite Hm in HV2. eapply sview_ext, HV2; [done|].
  pose proof (sv_shape _ _ _ _ _ _ _ _ HV) as HS. pose proof (sh_slots _ _ _ _ _ _ HS) as Hsl.
  intros k'. unfold totals. rewrite <- (queue_modified _ _ _ _ _ _ _ [] i l2 _ k' HR Hk).
  unfold insert, fn_insert. case_decide; [|by rewrite HQ]. subst k'.
  rewrite Hk. apply (queue_total_sub [] (map D l2)). done.
Qed.

Lemma match_one_partial st ls fl D A k i l2 incoming :
  rep_match st bid ls fl D A → A.(a_best) = k → ls bid k = i :: l2 →
  0 < incoming < od_remaining (D bid i) → incoming <= total < 2 ^ 32 →
  let o := fill (D bid i) incoming in
  ∃ st' D',
    match_one advance_best total order_id client_id now st k i incoming =
      Done (st', 0, trade_event total order_id client_id now (MkTrade o incoming 0)) ∧
    rep_match st' bid ls fl D'
      (MkASide (<[k := o :: map (D bid) l2]> A.(a_queue)) k) ∧
    side_only bid st st' ls ls D D' ∧
    size st'.(order_id_to_handle) = size st.(order_id_to_handle).
Proof.
  intros [HR HM] Hb Hk Hin Htot o. pose proof HR as [HV HQ HG HB].
  assert (i ∈ ls bid k) as Hi by (rewrite Hk; set_solver).
  destruct (shape_slot _ _ _ _ _ _ k i (sv_shape _ _ _ _ _ _ _ _ HV) Hi) as [Hir Hkr].
  destruct (HG k i Hi).
  destruct (trade_quantities _ _ _ _ _ _ _ _ incoming HR Hk Hkr) as
    (Hm & s1 & s2 & E1 & E2 & Hs2 & HV2); [lia|].
  destruct (sview_get_order i HV Hir) as (G1 & Hh & HD).
  assert ((slot_at st.(ms_side) i).(Order.quantity_remaining_) = od_remaining (D bid i)) as Hrem
    by (by rewrite <- HD).
  assert ((slot_at st.(ms_side) i).(Order.price_) = od_price (D bid i)) as Hprice
    by (by rewrite <- HD).
  assert (Z.min (od_remaining (D bid i)) incoming = incoming) as Hmin by lia.
  exists (MkMatchState s2 st.(order_by_handle) st.(order_id_to_handle)),
    (<[bid := <[i := o]> (D bid)]> D).
  split; [|split; [split|split]].
  - unfold match_one. rewrite G1. run_bind.
    rewrite (sview_get_level k HV Hkr). run_bind.
    rewrite Hrem, Hmin. rewrite Hrem in E1, Hm. rewrite E1. run_bind.
    cbn [PriceLevel.total_quantity_ level_of]. rewrite E2. run_bind.
    rewrite Hm. cbn [Order.set_quantities Order.quantity_remaining_ Order.price_].
    rewrite u32_small, Z.sub_diag by lia.
    destruct (od_remaining (D bid i) - incoming =? 0) eqn:E; [lia|].
    unfold trade_event. cbn [tr_maker tr_left tr_quantity od_price fill].
    rewrite Hprice, (u32_small 0), u32_small by lia. done.
  - rewrite fn_lookup_insert. rewrite Hb in HV2.
    eapply (rep_side_modified _ _ _ _ _ _ _ _ [] i l2); [exact HR | exact Hk | | exact HV2 |].
    + split; cbn; done || lia.
    + right. split; [done|]. by rewrite fn_lookup_insert.
  - eapply rep_maps_data, HM. intros bid' k' j _. unfold insert, fn_insert.
    repeat case_decide; subst; done.
  - by apply side_only_data.
  - done.
Qed.

(** Retiring the first order of the best level. *)
Lemma retire_maker_ok st ls fl D T k i l2 queue :
  sview st.(ms_side) ls fl [] D T k bid → ls k = i :: l2 → 0 <= k < NUM_BOOK_LEVELS →
  od_is_bid (D i) = bid → arr_size st.(order_by_handle) = 2 * MAX_ORDERS →
  (∀ k', 0 <= k' < NUM_BOOK_LEVELS → T k' = queue_total (queue k')) →
  ∃ st', retire_maker advance_best st k i (slot_at st.(ms_side) i) = Done st' ∧
    sview st'.(ms_side) (<[k := l2]> ls) (i :: fl) [] D T
      (match l2 with [] => next_best bid queue k | _ => k end) bid ∧
    st'.(order_by_handle) = arr_put st.(order_by_handle) (enc bid i) None ∧
    st'.(order_id_to_handle) = delete (od_order_id (D i)) st.(order_id_to_handle).
Proof.
  intros HV Hk Hkr Hbid Hsz HT.
  assert (i ∈ ls k) as Hi by (rewrite Hk; set_solver).
  destruct (shape_slot _ _ _ _ _ _ k i (sv_shape _ _ _ _ _ _ _ _ HV) Hi) as [Hir _].
  destruct (sview_get_order i HV Hir) as (_ & Hh & HD).
  destruct (shape_neighbours _ _ _ _ _ _ k [] i l2 (sv_shape _ _ _ _ _ _ _ _ HV) Hk) as [_ Hn].
  rewrite retire_maker_pop.
  destruct (sview_pop _ _ _ _ _ _ _ _ _ _ HV Hk Hkr) as (s3 & -> & _ & HV3).
  run_bind. rewrite Hn.
  assert (∃ s4, (match head l2 with Some _ => Done s3 | None => advance_best s3 end) = Done s4 ∧
    sview s4 (<[k := l2]> ls) fl [i] D T
      (match l2 with [] => next_best bid queue k | _ => k end) bid) as (s4 & -> & HV4).
  { destruct l2 as [|j l2]; cbn [head]; [|by exists s3].
    eexists. rewrite Hadvance, (update_best_spec _ _ _ _ _ _ _ _ _ queue HV3 HT) by lia.
    split; [done|]. by eapply sview_set_best. }
  run_bind.
  rewrite (encoded_handle_ok _ i bid) by (done || by rewrite <- Hbid, <- HD).
  rewrite arr_set_ok by (rewrite Hsz; by apply enc_range). run_bind.
  destruct (sview_dealloc i HV4) as (p & -> & HV5). run_bind.
  eexists. split; [reflexivity|]. cbn. by rewrite <- HD.
Qed.

(** After a complete fill the totals are those without the filled order. *)
Lemma totals_filled s ls fl D A k i l2 k' :
  rep_side s ls fl D bid A → ls k = i :: l2 →
  totals ls (<[i := fill (D i) (od_remaining (D i))]> D) k' =
  queue_total ((<[k := map D l2]> A.(a_queue)) k').
Proof.
  intros HR Hk. unfold totals.
  rewrite <- (queue_modified _ _ _ _ _ _ _ [] i l2 _ k' HR Hk).
  unfold insert, fn_insert. case_decide; [|done]. apply (queue_total_zero []). cbn. lia.
Qed.

(** The tables after the first order of a level is filled and retired. *)
Lemma rep_maps_retired bh m ls fl D k i l2 q :
  rep_maps bh m ls D → slots (ls bid) fl [] → ls bid k = i :: l2 →
  rep_maps (arr_put bh (enc bid i) None) (delete (od_order_id (D bid i)) m)
    (<[bid := <[k := l2]> (ls bid)]> ls) (<[bid := <[i := fill (D bid i) q]> (D bid)]> D).
Proof.
  intros HM Hsl Hk. eapply rep_maps_data; [|by eapply (rep_maps_remove _ _ _ D bid k [] i l2)].
  intros bid' k' j _. unfold insert, fn_insert. repeat case_decide; subst; done.
Qed.

Lemma match_one_full st ls fl D A k i l2 incoming :
  rep_match st bid ls fl D A → A.(a_best) = k → ls bid k = i :: l2 →
  od_remaining (D bid i) <= incoming → incoming <= total < 2 ^ 32 →
  let o := D bid i in
  let rest := incoming - od_remaining o in
  ∃ st' ls' fl' D',
    match_one advance_best total order_id client_id now st k i incoming =
      Done (st', rest, trade_event total order_id client_id now
                         (MkTrade (fill o (od_remaining o)) (od_remaining o) rest)) ∧
    rep_match st' bid ls' fl' D'
      (MkASide (<[k := map (D bid) l2]> A.(a_queue))
         (match l2 with [] => next_best bid A.(a_queue) k | _ => k end)) ∧
    side_only bid st st' ls ls' D D' ∧ ls' bid k = l2 ∧
    S (size st'.(order_id_to_handle)) = size st.(order_id_to_handle).
Proof.
  intros [HR HM] Hb Hk Hin Htot o rest. pose proof HR as [HV HQ HG HB].
  pose proof (sv_shape _ _ _ _ _ _ _ _ HV) as HS. pose proof (sh_slots _ _ _ _ _ _ HS) as Hsl.
  assert (i ∈ ls bid k) as Hi by (rewrite Hk; set_solver).
  destruct (shape_slot _ _ _ _ _ _ k i HS Hi) as [Hir Hkr]. destruct (HG k i Hi).
  destruct (trade_quantities _ _ _ _ _ _ _ _ (od_remaining o) HR Hk Hkr) as
    (Hm & s1 & s2 & E1 & E2 & Hs2 & HV2); [unfold o; lia|].
  destruct (sview_get_order i HV Hir) as (G1 & Hh & HD).
  assert ((slot_at st.(ms_side) i).(Order.quantity_remaining_) = od_remaining o) as Hrem
    by (unfold o; by rewrite <- HD).
  assert ((slot_at st.(ms_side) i).(Order.price_) = od_price o) as Hprice
    by (unfold o; by rewrite <- HD).
  assert (0 < od_remaining o <= incoming) as Ho by (unfold o; lia).
  assert (Z.min (od_remaining o) incoming = od_remaining o) as Hmin by lia.
  set (D1 := <[i := fill o (od_remaining o)]> (D bid)) in *.
  set (queue' := <[k := map (D bid) l2]> A.(a_queue)).
  assert (∀ k', totals (ls bid) D1 k' = queue_total (queue' k')) as Hqueue
    by (intros; by eapply totals_filled).
  set (st2 := MkMatchState s2 st.(order_by_handle) st.(order_id_to_handle)).
  destruct (retire_maker_ok st2 (ls bid) fl D1 (totals (ls bid) D1) k i l2 queue') as
    (st' & E3 & HV3 & Hbh & Hmp); try done.
  { by rewrite <- Hb. }
  { unfold D1. by rewrite fn_lookup_insert. }
  { apply HM. }
  exists st', (<[bid := <[k := l2]> (ls bid)]> ls), (i :: fl), (<[bid := D1]> D).
  split; [|split; [split|split; [|split]]].
  - unfold match_one. rewrite G1. run_bind.
    rewrite (sview_get_level k HV Hkr). run_bind.
    rewrite Hrem, Hmin. rewrite Hrem in E1, Hm, Hs2. rewrite E1. run_bind.
    cbn [PriceLevel.total_quantity_ level_of]. rewrite E2. run_bind.
    rewrite Hm. unfold st2 in E3. cbn [ms_side] in E3. rewrite Hs2 in E3.
    cbn [Order.set_quantities Order.quantity_remaining_ Order.price_] in E3 |- *.
    rewrite Z.sub_diag in *. rewrite (u32_small 0) in * by lia. cbn [Z.eqb].
    rewrite E3. run_bind.
    unfold trade_event. cbn [tr_maker tr_left tr_quantity od_price fill].
    rewrite Hprice, (u32_small (incoming - od_remaining o)) by lia.
    fold rest. rewrite (u32_small (total - rest)) by lia. done.
  - rewrite !fn_lookup_insert.
    rewrite <- (next_best_insert bid (a_queue A) k (map (D bid) l2)) by lia.
    eapply (rep_side_removed _ _ _ _ _ _ _ _ _ [] i l2); [exact HR | exact Hk | | exact HV3 | |].
    + intros j Hj. unfold D1. by rewrite fn_lookup_insert_ne.
    + done.
    + destruct l2 as [|j l2]; [apply next_best_nonempty; lia | right; split; [done|]].
      by rewrite fn_lookup_insert.
  - assert (od_order_id (D1 i) = od_order_id (D bid i)) as Hid
      by (unfold D1; by rewrite fn_lookup_insert).
    rewrite Hbh, Hmp, Hid. by eapply rep_maps_retired.
  - apply side_only_insert. rewrite Hmp. apply delete_subseteq.
  - by rewrite !fn_lookup_insert.
  - rewrite Hmp. eapply delete_size, (rm_id _ _ _ _ HM). exists bid, k, i.
    unfold D1. by rewrite fn_lookup_insert.
Qed.

(** With nothing left to match the loop ends. *)
Lemma match_level_zero fuel s ls fl lm D T best k by_handle ids :
  sview s ls fl lm D T best bid → 0 <= k < NUM_BOOK_LEVELS →
  let st := MkMatchState s by_handle ids in
  match_level advance_best total order_id client_id now fuel st k 0 = Done (st, 0, []).
Proof.
  intros HV Hkr st. destruct fuel; cbn [match_level ms_side st];
    rewrite (sview_get_level k HV Hkr); run_bind; by destruct (PriceLevel.first_ _).
Qed.

(** The queue of a level is what it was. *)
Lemma rep_match_same st ls fl D A k :
  rep_match st bid ls fl D A → rep_match st bid ls fl D (MkASide (<[k := map (D bid) (ls bid k)]> A.(a_queue)) A.(a_best)).
Proof.
  intros HR. eapply rep_match_ext, HR; [|done]. intros k'. unfold insert, fn_insert.
  case_decide; [|done]. subst. destruct HR as [HRs _]. by rewrite (rp_queue _ _ _ _ _ _ HRs).
Qed.

(** The inner loop, on the best level while it has orders. *)
Lemma match_level_ok l fuel st ls fl D A k incoming ts q rest :
  rep_match st bid ls fl D A → ls bid k = l → 0 <= k < NUM_BOOK_LEVELS →
  (l ≠ [] → A.(a_best) = k) → 0 <= incoming <= total → total < 2 ^ 32 →
  (length l <= fuel)%nat → fill_queue incoming (A.(a_queue) k) = (ts, q, rest) →
  ∃ st' ls' fl' D',
    match_level advance_best total order_id client_id now fuel st k incoming =
      Done (st', rest, map (trade_event total order_id client_id now) ts) ∧
    rep_match st' bid ls' fl' D'
      (MkASide (<[k := q]> A.(a_queue))
         (match q, l with [], _ :: _ => next_best bid A.(a_queue) k | _, _ => A.(a_best) end)) ∧
    side_only bid st st' ls ls' D D' ∧ 0 <= rest <= incoming ∧
    (size st'.(order_id_to_handle) + length l = size st.(order_id_to_handle) + length q)%nat.
Proof.
  revert fuel st ls fl D A incoming ts q rest.
  induction l as [|i l2 IH]; intros fuel st ls fl D A incoming ts q rest HR Hk Hkr Hb Hin Htot
    Hfuel HF; pose proof HR as [HRs HM]; pose proof (rp_view _ _ _ _ _ _ HRs) as HV;
    rewrite (rp_queue _ _ _ _ _ _ HRs), Hk in HF;
    (destruct fuel as [|fuel]; cbn [match_level];
     rewrite (sview_get_level k HV Hkr); cbn [mbind outcome_bind level_of PriceLevel.first_];
     rewrite Hk; cbn [head]).
  1,2: injection HF as <- <- <-; exists st, ls, fl, D;
    (split; [done|]); (split; [|split; [apply side_only_refl|]; split; [lia | cbn; lia]]);
    pose proof (rep_match_same _ _ _ _ _ k HR) as HR'; by rewrite Hk in HR'.
  { cbn in Hfuel. lia. }
  cbn [fill_queue map] in HF. specialize (Hb ltac:(done)).
  destruct (rp_good _ _ _ _ _ _ HRs k i ltac:(rewrite Hk; set_solver)).
  destruct (0 <? incoming) eqn:Ein.
  2: { destruct (incoming <=? 0) eqn:E; [|lia]. injection HF as <- <- <-.
       exists st, ls, fl, D. split; [done|].
       split; [|split; [apply side_only_refl|]; split; [lia | cbn; rewrite length_map; lia]].
       pose proof (rep_match_same _ _ _ _ _ k HR) as HR'. by rewrite Hk in HR'. }
  destruct (incoming <=? 0) eqn:E; [lia|]. clear E.
  destruct (od_remaining (D bid i) <=? incoming) eqn:Er.
  - destruct (match_one_full st ls fl D A k i l2 incoming HR Hb Hk) as
      (st1 & ls1 & fl1 & D1 & E1 & HR1 & HS1 & Hk1 & Hsz1); [lia..|].
    rewrite E1. run_bind.
    destruct (fill_queue _ (map (D bid) l2)) as [[ts1 q1] rest1] eqn:EF.
    injection HF as <- <- <-.
    specialize (IH fuel _ _ _ _ _ (incoming - od_remaining (D bid i)) ts1 q1 rest1 HR1 Hk1 Hkr).
    cbn [a_queue a_best] in IH. rewrite fn_lookup_insert in IH.
    destruct IH as (st2 & ls2 & fl2 & D2 & E2 & HR2 & HS2 & Hrest & Hsz2);
      [by destruct l2 | lia | done | cbn in Hfuel; lia | done |].
    exists st2, ls2, fl2, D2. rewrite E2. cbn [mbind outcome_bind a_queue a_best] in *.
    split; [done|]. split; [|split; [by eapply side_only_trans|]; split; [lia | cbn; lia]].
    eapply rep_match_ext, HR2; cbn.
    + intros k'. unfold insert, fn_insert. by case_decide.
    + rewrite next_best_insert by lia. destruct q1; destruct l2; cbn in *; congruence.
  - injection HF as <- <- <-.
    destruct (match_one_partial st ls fl D A k i l2 incoming HR Hb Hk) as
      (st1 & D1 & E1 & HR1 & HS1 & Hsz1); [lia..|].
    rewrite E1. run_bind.
    assert (match_level advance_best total order_id client_id now fuel st1 k 0 = Done (st1, 0, [])) as ->.
    { destruct HR1 as [[HV1 _ _ _] _], st1. by eapply match_level_zero. }
    run_bind. exists st1, ls, fl, D1. cbn. rewrite length_map, Hb.
    split; [done|]. split; [done|]. split; [done|]. split; [lia | lia].
Qed.
End matching.

(** Nothing is left of the incoming quantity when the queue is not used up. *)
Lemma fill_queue_left incoming q ts o q' rest :
  fill_queue incoming q = (ts, o :: q', rest) → rest <= 0.
Proof.
  revert incoming ts. induction q as [|x q IH]; intros incoming ts; cbn; [done|].
  destruct (incoming <=? 0) eqn:E; [intros [= <- <- <- <-]; lia|].
  destruct (od_remaining x <=? incoming).
  - destruct (fill_queue _ q) as [[ts1 q1] rest1] eqn:EF. intros [= <- -> <-]. eauto.
  - intros [= <- <- <- <-]. lia.
Qed.

(** Closes a case in which matching changes nothing. *)
Ltac by_same HR :=
  match type of HR with
  | rep_match ?st _ ?ls ?fl ?D _ =>
      exists st, ls, fl, D; (split; [done|]);
      (split; [eapply rep_match_ext, HR; [done|]; cbn; lia | split; [apply side_only_refl | lia]])
  end.

Section levels.
Context (advance_best : t → outcome t) (crosses_fn : Price_t → Price_t → bool) (bid : bool).
Hypothesis Hadvance : ∀ s, advance_best s = OrderBook.update_best_after_empty s bid.
Hypothesis Hcrosses : ∀ p incoming, crosses_fn p incoming = crosses bid p incoming.
Context (price : Price_t) (total : Volume_t) (order_id client_id : Id_t) (now : Time_t).
Hypothesis Htotal : total < 2 ^ 32.

(** The update that is published for a level. *)
Lemma level_event_queue s ls fl D A k :
  rep_side s ls fl D bid A → level_event (side_of bid) (level_of ls (totals ls D) k) now = update_event bid now k (a_queue A k).
Proof.
  intros HR. unfold level_event, update_event, totals, level_of. cbn. f_equal. by rewrite <- (rp_queue _ _ _ _ _ _ HR).
Qed.

(** Both loops. *)
Lemma match_levels_ok fuel st ls fl D A incoming evs queue path rest :
  rep_match st bid ls fl D A → 0 <= incoming <= total →
  (size st.(order_id_to_handle) <= fuel)%nat →
  sweep bid price total order_id client_id now (visible bid A) A.(a_queue) incoming =
    (evs, queue, path, rest) →
  ∃ st' ls' fl' D',
    match_levels crosses_fn advance_best price total order_id client_id (side_of bid) now
      fuel st incoming = Done (st', rest, evs) ∧
    rep_match st' bid ls' fl' D' (MkASide queue (default NUM_BOOK_LEVELS (head path))) ∧
    side_only bid st st' ls ls' D D' ∧ 0 <= rest <= incoming.
Proof.
  revert st ls fl D A incoming evs queue path rest.
  induction fuel as [|fuel IH]; intros st ls fl D A incoming evs queue path rest HR Hin Hfuel HS;
    pose proof HR as [HRs HM]; pose proof HRs as [HV HQ HG HB];
    pose proof (sh_slots _ _ _ _ _ _ (sv_shape _ _ _ _ _ _ _ _ HV)) as Hsl;
    cbn [match_levels]; rewrite (sv_best _ _ _ _ _ _ _ _ HV); unfold visible in HS.
  1,2: destruct (0 <? incoming) eqn:Ein.
  2, 4: destruct (a_best A =? NUM_BOOK_LEVELS) eqn:Eb; cbn [sweep] in HS;
    [|destruct (incoming <=? 0) eqn:E; [|lia]]; injection HS as <- <- <- <-;
    by_same HR.
  1,2: destruct (a_best A =? NUM_BOOK_LEVELS) eqn:Eb;
    [injection HS as <- <- <- <-; by_same HR|].
  1,2: assert (0 <= a_best A < NUM_BOOK_LEVELS ∧ ls bid (a_best A) ≠ []) as [Hb Hne]
    by (destruct HB; [lia|done]);
    rewrite (sview_get_level _ HV Hb); cbn [mbind outcome_bind level_of PriceLevel.price_];
    rewrite Hcrosses; cbn [sweep] in HS; destruct (incoming <=? 0) eqn:E; [lia|]; clear E;
    destruct (crosses bid (level_price (a_best A)) price) eqn:Ec; cbn [negb] in *;
    [|injection HS as <- <- <- <-; by_same HR].
  { pose proof (rep_maps_size _ _ _ _ _ (a_best A) _ _ HM Hsl).
    destruct (ls bid (a_best A)); [done|]. cbn in *. lia. }
  pose proof (rep_maps_size _ _ _ _ _ (a_best A) _ _ HM Hsl) as Hlen.
  destruct (fill_queue incoming (a_queue A (a_best A))) as [[ts q] left1] eqn:EF.
  destruct (match_level_ok advance_best bid Hadvance total order_id client_id now _ (S fuel)
    st ls fl D A (a_best A) incoming ts q left1 HR eq_refl Hb) as
    (st1 & ls1 & fl1 & D1 & E1 & HR1 & HS1 & Hrest & Hsz); [done | lia | done | lia | done |].
  rewrite E1. run_bind. pose proof HR1 as [HRs1 _].
  rewrite (sview_get_level _ (rp_view _ _ _ _ _ _ HRs1) Hb). run_bind.
  rewrite (level_event_queue _ _ _ _ _ _ HRs1). cbn [a_queue]. rewrite fn_lookup_insert.
  destruct q as [|o q].
  - destruct (ls bid (a_best A)) as [|i l] eqn:El; [done|].
    destruct (sweep _ _ _ _ _ _ (shown_levels _ _ _) _ left1) as [[[evs1 queue1] path1] rest1]
      eqn:ES. injection HS as <- <- <- <-.
    rewrite <- (next_best_insert bid (a_queue A) (a_best A) []) in HR1 by lia.
    destruct (IH _ _ _ _ _ left1 evs1 queue1 path1 rest1 HR1) as
      (st2 & ls2 & fl2 & D2 & E2 & HR2 & HS2 & Hrest2); [lia | cbn in Hsz; lia | |].
    { cbn [a_queue]. rewrite visible_next, shown_levels_insert by lia. exact ES. }
    exists st2, ls2, fl2, D2. rewrite E2. run_bind.
    split; [by rewrite <- app_assoc|]. split; [done|].
    split; [by eapply side_only_trans | lia].
  - injection HS as <- <- <- <-.
    assert (left1 = 0) as -> by (apply fill_queue_left in EF; lia).
    assert (match_levels crosses_fn advance_best price total order_id client_id (side_of bid)
      now fuel st1 0 = Done (st1, 0, [])) as -> by (by destruct fuel).
    exists st1, ls1, fl1, D1. split; [done|]. split; [done|]. split; [done | lia].
Qed.
End levels.

(** [match_loop]: [match_buy] on the asks, [match_sell] on the bids. *)
Lemma match_loop_ok (is_bid : bool) st ls fl D A price quantity order_id client_id now
    evs A' rest :
  let maker := negb is_bid in
  rep_match st maker ls fl D A → 0 <= quantity < 2 ^ 32 →
  a_match maker A price quantity order_id client_id now = (evs, A', rest) →
  ∃ st' ls' fl' D',
    (if is_bid then match_buy else match_sell) st price quantity order_id client_id now =
      Done (st', rest, evs) ∧
    rep_match st' maker ls' fl' D' A' ∧ side_only maker st st' ls ls' D D' ∧ 0 <= rest <= quantity.
Proof.
  intros maker HR Hq. unfold a_match.
  destruct (sweep _ _ _ _ _ _ _ _ _) as [[[evs1 queue] path] rest1] eqn:ES.
  intros [= <- <- <-].
  destruct is_bid; cbn in maker; subst maker.
  - eapply (match_levels_ok update_best_ask_after_empty (λ l i, l <=? i) false);
      [done | done | lia | exact HR | lia | lia | exact ES].
  - eapply (match_levels_ok update_best_bid_after_empty (λ l i, i <=? l) true);
      [done | done | lia | exact HR | lia | lia | exact ES].
Qed.
