(* ===== verification/BookRefinement.v ===== *)
(** The engine implements [BookSpec]: from a book that represents an abstract
    book, every request is executed without undefined behaviour and within its
    fuel, makes the callbacks of a [book_step] and leaves a book that represents
    the abstract result. *)

From stdpp Require Import functions.
From S2P Require Import Prelude Types OrderBook BookSpec BookLinks BookView BookRep BookMatch.
Import OrderBookSide.

Record rep_book (b : OrderBook.t) (ls : bool → Z → list Z) (fl : bool → list Z)
    (D : bool → Z → OrderData) (A : ABook) : Prop := MkRepBook {
  rb_side bid : rep_side (OrderBook.get_side b bid) (ls bid) (fl bid) (D bid) bid (a_side A bid);
  rb_maps : rep_maps b.(OrderBook.order_by_handle_) b.(OrderBook.order_id_to_handle_) ls D;
  rb_fresh id h : b.(OrderBook.order_id_to_handle_) !! id = Some h →
    0 <= id < b.(OrderBook.order_id_);
  rb_next : A.(a_next_id) = b.(OrderBook.order_id_);
  rb_width : 0 <= b.(OrderBook.order_id_) < 2 ^ 32
}.

(** [b] represents the abstract book [A]. *)
Definition represents (b : OrderBook.t) (A : ABook) : Prop := ∃ ls fl D, rep_book b ls fl D A.

(** ** The constructor *)

Lemma initial_free_list n i :
  0 <= i → i + Z.of_nat n = MAX_ORDERS →
  fseg OrderPool.initial_order (seqZ i (Z.of_nat n))
    (if i <? MAX_ORDERS then Some i else None).
Proof.
  revert i. induction n as [|n IH]; intros i Hi Hn.
  - destruct (i <? MAX_ORDERS) eqn:E; [lia | done].
  - rewrite seqZ_cons by lia. destruct (i <? MAX_ORDERS) eqn:E; [|lia].
    cbn [fseg]. split; [done|].
    replace (Z.pred (Z.of_nat (S n))) with (Z.of_nat n) by lia.
    replace (Order.next_ (OrderPool.initial_order i))
      with (if Z.succ i <? MAX_ORDERS then Some (Z.succ i) else None).
    { apply IH; lia. }
    unfold OrderPool.initial_order. cbn [Order.next_].
    destruct (Z.succ i <? MAX_ORDERS) eqn:E1, (i <? MAX_ORDERS - 1) eqn:E2;
      done || (unfold Z.succ in *; exfalso; lia).
Qed.

Lemma initial_slots : slots (λ _, []) (seqZ 0 MAX_ORDERS) [].
Proof.
  generalize (elem_of_seqZ 0 MAX_ORDERS) (NoDup_seqZ 0 MAX_ORDERS).
  generalize (seqZ 0 MAX_ORDERS). intros fl Hin Hnd.
  split; [constructor | by rewrite app_nil_r | set_solver | set_solver |].
  intros i. rewrite app_nil_r, Hin. split; [intros; left; lia|].
  intros [?|[k Hk]]; [lia | set_solver].
Qed.

Lemma initial_side bid :
  rep_side (OrderBookSide bid) (λ _, []) (seqZ 0 MAX_ORDERS)
    (λ i, order_data (OrderPool.initial_order i)) bid empty_side.
Proof.
  pose proof (initial_free_list (Z.to_nat MAX_ORDERS) 0 ltac:(lia) ltac:(rewrite max_orders_val; lia))
    as Hfree. rewrite Z2Nat.id in Hfree by (rewrite max_orders_val; lia).
  pose proof initial_slots as Hslots. revert Hfree Hslots. generalize (seqZ 0 MAX_ORDERS).
  intros fl Hfree Hslots.
  split; [|done | set_solver | by left].
  split; [done | done | | | | done | done].
  - split; [|done | done | | | done].
    + intros k Hk. unfold level_at. cbn. by rewrite arr_at_make.
    + eapply fseg_frame, Hfree. intros i _. unfold slot_at. cbn. by rewrite arr_at_make.
    + intros i Hi. unfold slot_at. cbn. by rewrite arr_at_make.
  - intros i. unfold slot_at. cbn. by rewrite arr_at_make.
  - intros k. unfold level_at. cbn. by rewrite arr_at_make.
Qed.

Lemma initial_maps D :
  rep_maps (arr_make (2 * MAX_ORDERS) (λ _, None)) ∅ (λ _ _, []) D.
Proof.
  split; [done | |].
  - intros h bid i. rewrite arr_at_make. split; [done|]. intros (_ & k & Hk). set_solver.
  - intros id h. rewrite lookup_empty. split; [done|].
    intros (bid & k & i & Hi & _). set_solver.
Qed.

Lemma initial_book : represents OrderBook.OrderBook empty_book.
Proof.
  exists (λ _ _, []), (λ _, seqZ 0 MAX_ORDERS), (λ _ i, order_data (OrderPool.initial_order i)).
  split.
  - intros []; apply initial_side.
  - apply initial_maps.
  - intros id h. cbn. by rewrite lookup_empty.
  - done.
  - cbn. lia.
Qed.

(** ** Counting: the pool of a side is exhausted exactly when it holds
    [MAX_ORDERS] orders. *)

Lemma NoDup_concat_levels (ls : Z → list Z) (ks : list Z) :
  NoDup ks → (∀ k, NoDup (ls k)) → (∀ k k' i, i ∈ ls k → i ∈ ls k' → k = k') →
  NoDup (concat (map ls ks)).
Proof.
  intros Hks Hnd Honce. induction Hks as [|k ks Hk _ IH]; cbn; [constructor|].
  apply NoDup_app. split; [done|]. split; [|done]. intros i Hi Hi'.
  apply list_elem_of_In, in_concat in Hi' as (l & Hl & Hil%list_elem_of_In).
  apply in_map_iff in Hl as (k' & <- & Hk'%list_elem_of_In).
  apply Hk. by rewrite (Honce k k' i).
Qed.

Lemma side_count s ls fl D bid A :
  rep_side s ls fl D bid A → Z.of_nat (length (side_orders A)) + Z.of_nat (length fl) = MAX_ORDERS.
Proof.
  intros [HV HQ _ _]. pose proof (sv_shape _ _ _ _ _ _ _ _ HV) as HS.
  pose proof (sh_slots _ _ _ _ _ _ HS) as [Hnd Hndf Honce Hunused Hrange].
  set (live := concat (map ls (seqZ 0 NUM_BOOK_LEVELS))).
  assert (∀ i, i ∈ live ↔ ∃ k, i ∈ ls k) as Hlive.
  { intros i. unfold live. rewrite list_elem_of_In, in_concat. split.
    - intros (l & Hl & Hi%list_elem_of_In). apply in_map_iff in Hl as (k & <- & _). eauto.
    - intros [k Hi]. exists (ls k). split; [|by apply list_elem_of_In]. apply in_map_iff.
      exists k. split; [done|]. apply list_elem_of_In, elem_of_seqZ.
      destruct (shape_slot _ _ _ _ _ _ k i HS Hi). lia. }
  assert (live ++ fl ≡ₚ seqZ 0 MAX_ORDERS) as Hp.
  { rewrite app_nil_r in Hndf. apply NoDup_Permutation.
    - apply NoDup_app. split; [|split; [|done]].
      + apply NoDup_concat_levels; [apply NoDup_seqZ | done..].
      + intros i [k Hi]%Hlive Hf. apply (Hunused k i Hi). set_solver.
    - apply NoDup_seqZ.
    - intros i. rewrite elem_of_seqZ, elem_of_app, Hlive, Z.add_0_l, Hrange, app_nil_r. tauto. }
  assert (length (side_orders A) = length live) as ->.
  { unfold side_orders, live. rewrite !length_concat, !map_map. f_equal. apply map_ext.
    intros k. by rewrite HQ, length_map. }
  apply Permutation_length in Hp. rewrite length_app, length_seqZ in Hp.
  rewrite max_orders_val in *. lia.
Qed.

(** ** submit_order *)

Lemma a_side_put_eq A bid s : a_side (a_put_side A bid s) bid = s.
Proof. by destruct bid. Qed.

Lemma a_side_put_ne A bid s : a_side (a_put_side A bid s) (negb bid) = a_side A (negb bid).
Proof. by destruct bid. Qed.

Lemma get_side_put_eq b bid s : OrderBook.get_side (OrderBook.put_side b bid s) bid = s.
Proof. by destruct bid. Qed.

Lemma get_side_put_ne b bid s :
  OrderBook.get_side (OrderBook.put_side b bid s) (negb bid) = OrderBook.get_side b (negb bid).
Proof. by destruct bid. Qed.

Lemma bool_side (bid bid' : bool) : bid' = bid ∨ bid' = negb bid.
Proof. destruct bid, bid'; auto. Qed.

(** Assembling the representation of a book of which one side changed. *)
Lemma rep_book_side b b' ls ls' fl fls D D' A bid s Aside id :
  rep_book b ls fl D A →
  OrderBook.get_side b' bid = s → OrderBook.get_side b' (negb bid) = OrderBook.get_side b (negb bid) →
  ls' (negb bid) = ls (negb bid) → D' (negb bid) = D (negb bid) →
  rep_side s (ls' bid) fls (D' bid) bid Aside →
  rep_maps b'.(OrderBook.order_by_handle_) b'.(OrderBook.order_id_to_handle_) ls' D' →
  (∀ i h, b'.(OrderBook.order_id_to_handle_) !! i = Some h → 0 <= i < id) →
  b'.(OrderBook.order_id_) = id → 0 <= id < 2 ^ 32 →
  rep_book b' ls' (<[bid := fls]> fl) D'
    (a_put_side (MkABook A.(a_bids) A.(a_asks) id) bid Aside).
Proof.
  intros [HS HM HF HN HW] Hs Hs' Hls HD HR HM' HF' Hid Hw. subst id. split; try done.
  - intros bid'. destruct (bool_side bid bid') as [-> | ->].
    + by rewrite Hs, a_side_put_eq, fn_lookup_insert.
    + rewrite Hs', a_side_put_ne, Hls, HD, fn_lookup_insert_ne by (by destruct bid).
      specialize (HS (negb bid)). by destruct bid.
  - by destruct bid.
Qed.

(** The tail of [submit_order]: queueing the remainder. *)
Lemma rest_order_full b ls fl D A is_bid price quantity remaining id client req now now_add :
  rep_book b ls fl D A → fl is_bid = [] → MINIMUM_BID <= price <= MAXIMUM_ASK →
  OrderBook.rest_order b is_bid price quantity remaining id client req now now_add =
    Done (b, [on_error client req ORDER_BOOK_FULL "Order book is full." now_add]).
Proof.
  intros HR Hfl Hp. destruct (rb_side _ _ _ _ _ HR is_bid) as [HV _ _ _]. rewrite Hfl in HV.
  unfold OrderBook.rest_order. rewrite (sview_add_order_full _ _ _ _ _ _ _ _ _ _ _ _ _ HV Hp).
  cbn. by destruct is_bid, b.
Qed.

Lemma rest_order_ok b ls fl D A is_bid price quantity remaining id client req now now_add i fl' :
  rep_book b ls fl D A → fl is_bid = i :: fl' →
  MINIMUM_BID <= price <= MAXIMUM_ASK → 0 < remaining <= quantity → quantity < 2 ^ 32 →
  b.(OrderBook.order_id_to_handle_) !! id = None → 0 <= id < b.(OrderBook.order_id_) →
  let o := MkOrderData client id price quantity remaining (quantity - remaining) is_bid in
  let s := a_rest is_bid (a_side A is_bid) o in
  ∃ b' ls' fl'' D',
    OrderBook.rest_order b is_bid price quantity remaining id client req now now_add =
      Done (b', [on_level_update (side_of is_bid) price
                   (queue_total (s.(a_queue) (price_level price))) now_add;
                 on_order_inserted req o now]) ∧
    rep_book b' ls' fl'' D' (a_put_side A is_bid s).
Proof.
  intros HR Hfl Hp Hrem Hq Hid Hfresh o s. pose proof HR as [HS HM HF HN HW].
  pose proof (HS is_bid) as HRs. rewrite Hfl in HRs. pose proof HRs as [HV HQ HG HB].
  set (k := price_level price).
  assert (0 <= k < NUM_BOOK_LEVELS) as Hk.
  { unfold k, price_level. rewrite num_book_levels_val. unfold MINIMUM_BID, MAXIMUM_ASK in *. lia. }
  destruct (sview_add_order _ _ _ _ _ _ _ _ price quantity remaining id client req now_add HV Hp)
    as (s' & E & HV'). fold k in E, HV'. rewrite u32_small in HV' by lia. fold o in HV'.
  pose proof (rep_side_pushed _ s' _ _ _ _ _ _ o HRs) as HRs'. cbn [od_price o] in HRs'.
  fold k in HRs'. specialize (HRs' ltac:(split; cbn; try done || lia;
    unfold k, level_price, price_level; lia) Hk HV'). fold s in HRs'.
  assert (0 <= i < MAX_ORDERS) as Hi.
  { apply (sl_range _ _ _ (sh_slots _ _ _ _ _ _ (sv_shape _ _ _ _ _ _ _ _ HV))). set_solver. }
  destruct (sview_get_order i HV' Hi) as (G & Hh & HD). rewrite fn_lookup_insert in HD.
  unfold OrderBook.rest_order. rewrite E. run_bind. cbv zeta. rewrite G.
  run_bind. rewrite Hh.
  assert (u32 (u32 (i * 2) + (if is_bid then 0 else 1)) = enc is_bid i) as ->.
  { apply (encoded_handle_ok (Order.Make None None 0 0 i 0 0 0 0 is_bid)); done. }
  replace (OrderBook.order_by_handle_ (OrderBook.put_side b is_bid s'))
    with (OrderBook.order_by_handle_ b) by (by destruct is_bid).
  replace (OrderBook.order_id_to_handle_ (OrderBook.put_side b is_bid s'))
    with (OrderBook.order_id_to_handle_ b) by (by destruct is_bid).
  rewrite arr_set_ok by (rewrite (rm_size _ _ _ _ HM); by apply enc_range).
  run_bind. rewrite Hid, HD.
  eexists _, (<[is_bid := <[k := ls is_bid k ++ [i]]> (ls is_bid)]> ls), (<[is_bid := fl']> fl),
    (<[is_bid := <[i := o]> (D is_bid)]> D). split.
  - f_equal. f_equal. cbn [app]. f_equal. f_equal. unfold s. cbn. fold k.
    rewrite fn_lookup_insert. rewrite HQ. apply (queue_total_snoc _ o).
  - replace A with (MkABook (a_bids A) (a_asks A) (OrderBook.order_id_ b)) at 1
      by (rewrite <- HN; by destruct A).
    eapply (rep_book_side b _ ls _ fl fl' D _ A is_bid s'); [exact HR | | | | | | | | |].
    + by destruct is_bid.
    + by destruct is_bid.
    + rewrite fn_lookup_insert_ne; done || by destruct is_bid.
    + rewrite fn_lookup_insert_ne; done || by destruct is_bid.
    + rewrite !fn_lookup_insert. exact HRs'.
    + eapply (rep_maps_push _ _ _ _ is_bid k i o fl'); [exact HM | | exact Hid].
      apply slots_alloc, (sh_slots _ _ _ _ _ _ (sv_shape _ _ _ _ _ _ _ _ HV)).
    + intros j h. cbn. rewrite lookup_insert. case_decide; [subst j; done | apply HF].
    + by destruct is_bid.
    + done.
Qed.

(** The book between matching and queueing. *)
Lemma matched_book b ls fl D A is_bid price quantity client now evs A1 rest :
  let maker := negb is_bid in
  let id := b.(OrderBook.order_id_) in
  let b1 := OrderBook.Make b.(OrderBook.bids) b.(OrderBook.asks) (u32 (id + 1))
              b.(OrderBook.trade_id_) b.(OrderBook.order_by_handle_)
              b.(OrderBook.order_id_to_handle_) in
  rep_book b ls fl D A → 0 <= quantity < 2 ^ 32 → id + 1 < 2 ^ 32 →
  a_match maker (a_side A maker) price quantity id client now = (evs, A1, rest) →
  ∃ st ls' fls D',
    (if is_bid then match_buy else match_sell) (OrderBook.match_state b1 maker) price quantity
      id client now = Done (st, rest, evs) ∧
    rep_book (OrderBook.after_match b1 maker st) ls' (<[maker := fls]> fl) D'
      (a_put_side (MkABook A.(a_bids) A.(a_asks) (u32 (id + 1))) maker A1) ∧
    (OrderBook.after_match b1 maker st).(OrderBook.order_id_to_handle_) !! id = None ∧
    0 <= rest <= quantity.
Proof.
  intros maker id b1 HR Hq Hid EM. pose proof HR as [HS HM HF HN HW]. fold id in HF, HW.
  assert (u32 (id + 1) = id + 1) as Hid1 by (apply u32_small; lia).
  assert (OrderBook.get_side b1 maker = OrderBook.get_side b maker) as Hb1 by (by destruct is_bid).
  assert (rep_match (OrderBook.match_state b1 maker) maker ls (fl maker) D (a_side A maker)) as HRm.
  { split; cbn; [rewrite Hb1; apply HS | exact HM]. }
  destruct (match_loop_ok is_bid _ _ _ _ _ _ _ _ _ _ _ _ _ HRm Hq EM) as
    (st & ls' & fls & D' & E & [HRs HRmaps] & (Hls & HD & Hm) & Hrest).
  assert (∀ j h, order_id_to_handle st !! j = Some h → 0 <= j < id) as Hfresh.
  { intros j h Hj. apply (HF j h), (lookup_weaken _ _ _ _ Hj Hm). }
  exists st, ls', fls, D'. split; [done|]. split; [|split; [|done]].
  - rewrite Hid1. eapply (rep_book_side b _ ls _ fl fls D _ A maker st.(ms_side)); try done.
    + by destruct is_bid.
    + by destruct is_bid.
    + unfold OrderBook.after_match. cbn. intros j h Hj. specialize (Hfresh j h Hj). lia.
    + unfold OrderBook.after_match, b1. cbn. by destruct is_bid; cbn; rewrite Hid1.
    + lia.
  - unfold OrderBook.after_match. cbn. destruct (order_id_to_handle st !! id) eqn:Ej; [|done].
    apply Hfresh in Ej. lia.
Qed.

Lemma submit_refines b ls fl D A price quantity is_bid client req now now_match now_add A' evs :
  rep_book b ls fl D A → 0 <= quantity < 2 ^ 32 → b.(OrderBook.order_id_) + 1 < 2 ^ 32 →
  a_submit A price quantity is_bid client req now now_match now_add = (A', evs) →
  ∃ b' ls' fl' D',
    OrderBook.submit_order b price quantity is_bid client req now now_match now_add =
      Done (b', evs) ∧
    rep_book b' ls' fl' D' A'.
Proof.
  intros HR Hq Hid. unfold a_submit, OrderBook.submit_order.
  destruct (quantity =? 0) eqn:Eq; [intros [= <- <-]; eauto 10|].
  destruct ((price <? MINIMUM_BID) || (MAXIMUM_ASK <? price)) eqn:Ep;
    [intros [= <- <-]; eauto 10|].
  rewrite (rb_next _ _ _ _ _ HR).
  destruct (a_match _ _ _ _ _ _ _) as [[evs1 A1] rest] eqn:EM.
  destruct (matched_book b ls fl D A is_bid price quantity client now_match evs1 A1 rest HR Hq Hid EM)
    as (st & ls1 & fls & D1 & -> & HR1 & Hfresh & Hrest).
  run_bind. cbv zeta. set (b1 := OrderBook.after_match _ _ st) in *.
  set (A2 := a_put_side _ (negb is_bid) A1) in *.
  destruct (rest <=? 0) eqn:Er; destruct (0 <? rest) eqn:Er'; try lia.
  { intros [= <- <-]. eauto 10. }
  assert (a_side A2 is_bid = a_side A is_bid) as HA2 by (unfold A2; by destruct is_bid).
  assert (<[negb is_bid:=fls]> fl is_bid = fl is_bid) as Hfl
    by (rewrite fn_lookup_insert_ne; [done | by destruct is_bid]).
  pose proof (side_count _ _ _ _ _ _ (rb_side _ _ _ _ _ HR is_bid)) as Hcount.
  destruct (fl is_bid) as [|i fl'] eqn:Efl.
  - destruct (MAX_ORDERS <=? Z.of_nat (length (side_orders (a_side A is_bid)))) eqn:Ec;
      [|cbn in Hcount; lia].
    intros [= <- <-]. rewrite (rest_order_full _ _ _ _ _ _ _ _ _ _ _ _ _ _ HR1 Hfl) by lia.
    run_bind. eauto 10.
  - destruct (MAX_ORDERS <=? Z.of_nat (length (side_orders (a_side A is_bid)))) eqn:Ec;
      [cbn in Hcount; lia|].
    intros [= <- <-]. rewrite <- HA2. pose proof (rb_width _ _ _ _ _ HR).
    edestruct (rest_order_ok b1 ls1 _ D1 A2 is_bid price quantity rest
      (OrderBook.order_id_ b) client req now now_add i fl' HR1 Hfl) as
      (b' & ls' & fl'' & D' & -> & HR'); [lia.. | done | |].
    { unfold b1, OrderBook.after_match. cbn. rewrite (u32_small (_ + 1)) by lia.
      destruct is_bid; cbn; lia. }
    run_bind. exists b', ls', fl'', D'. by split.
Qed.

(** ** Finding, and removing, a resting order *)

(** Slot [i] of side [bid] holds the order of level [k] between [l1] and [l2]. *)
Record located (ls : bool → Z → list Z) (D : bool → Z → OrderData) (id : Id_t) (bid : bool)
    (k : Z) (l1 : list Z) (i : Z) (l2 : list Z) : Prop := MkLocated {
  lc_level : 0 <= k < NUM_BOOK_LEVELS;
  lc_slot : 0 <= i < MAX_ORDERS;
  lc_queue : ls bid k = l1 ++ i :: l2;
  lc_id : od_order_id (D bid i) = id;
  lc_good : good_data bid k (D bid i)
}.

Lemma located_resting b ls fl D A id bid k l1 i l2 :
  rep_book b ls fl D A → located ls D id bid k l1 i l2 →
  resting A bid k (map (D bid) l1) (D bid i) (map (D bid) l2).
Proof.
  intros HR []. split; [done|]. rewrite (rp_queue _ _ _ _ _ _ (rb_side _ _ _ _ _ HR bid) k).
  by rewrite lc_queue0, map_app.
Qed.

Lemma rep_book_located b ls fl D A bid k i :
  rep_book b ls fl D A → i ∈ ls bid k →
  ∃ l1 l2, located ls D (od_order_id (D bid i)) bid k l1 i l2.
Proof.
  intros HR Hi. pose proof (rb_side _ _ _ _ _ HR bid) as [HV _ HG _].
  destruct (shape_slot _ _ _ _ _ _ k i (sv_shape _ _ _ _ _ _ _ _ HV) Hi) as [? ?].
  destruct (list_elem_of_split _ _ Hi) as (l1 & l2 & E). exists l1, l2. split; auto.
Qed.

Lemma unknown_id b ls fl D A id :
  rep_book b ls fl D A → b.(OrderBook.order_id_to_handle_) !! id = None → no_such_order A id.
Proof.
  intros HR Hid bid k before o after [_ Hq] Ho.
  rewrite (rp_queue _ _ _ _ _ _ (rb_side _ _ _ _ _ HR bid) k) in Hq.
  assert (o ∈ map (D bid) (ls bid k)) as (i & -> & Hi)%list_elem_of_fmap by (rewrite Hq; set_solver).
  assert (b.(OrderBook.order_id_to_handle_) !! id = Some (enc bid i)) as E
    by (apply (rm_id _ _ _ _ (rb_maps _ _ _ _ _ HR)); eauto 10).
  congruence.
Qed.

Lemma find_owned_ok b ls fl D A client req id now :
  rep_book b ls fl D A →
  (no_such_order A id ∧ OrderBook.find_owned b client req id now =
     Done (inr (on_error client req ORDER_NOT_FOUND "Order ID not found." now))) ∨
  ∃ bid k l1 i l2, located ls D id bid k l1 i l2 ∧
    OrderBook.find_owned b client req id now =
      Done (if od_client_id (D bid i) =? client
            then inl (i, slot_at (OrderBook.get_side b bid) i)
            else inr (on_error client req UNAUTHORISED "Unauthorised request." now)).
Proof.
  intros HR. unfold OrderBook.find_owned. pose proof (rb_maps _ _ _ _ _ HR) as HM.
  destruct (_ !! id) as [h|] eqn:Eid; [right | left; split; [by eapply unknown_id | done]].
  apply (rm_id _ _ _ _ HM) in Eid as (bid & k & i & Hi & <- & ->).
  destruct (rep_book_located _ _ _ _ _ _ _ _ HR Hi) as (l1 & l2 & HL).
  exists bid, k, l1, i, l2. split; [done|]. destruct HL.
  rewrite arr_get_ok by (rewrite (rm_size _ _ _ _ HM); by apply enc_range). run_bind.
  assert (arr_at (OrderBook.order_by_handle_ b) (enc bid i) = Some (bid, i)) as ->
    by (apply (rm_handle _ _ _ _ HM); eauto).
  destruct (sview_get_order i (rp_view _ _ _ _ _ _ (rb_side _ _ _ _ _ HR bid)) lc_slot0)
    as (-> & _ & HD). run_bind.
  assert (Order.client_id_ (slot_at (OrderBook.get_side b bid) i) = od_client_id (D bid i)) as ->
    by (by rewrite <- HD).
  assert (Order.is_bid_ (slot_at (OrderBook.get_side b bid) i) = bid) as ->
    by (pose proof (gd_side _ _ _ lc_good0) as E; by rewrite <- HD in E).
  rewrite xorb_nilpotent. by destruct (_ =? client).
Qed.

Lemma remove_order_ok b bid ls fl D T best k l1 i l2 :
  sview (OrderBook.get_side b bid) ls fl [] D T best bid → ls k = l1 ++ i :: l2 →
  0 <= k < NUM_BOOK_LEVELS → 0 <= i < MAX_ORDERS → od_is_bid (D i) = bid →
  arr_size b.(OrderBook.order_by_handle_) = 2 * MAX_ORDERS →
  ∃ s', OrderBook.remove_order b bid i k =
      Done (let b' := OrderBook.put_side b bid s' in
            OrderBook.Make b'.(OrderBook.bids) b'.(OrderBook.asks) b.(OrderBook.order_id_)
              b.(OrderBook.trade_id_) (arr_put b.(OrderBook.order_by_handle_) (enc bid i) None)
              (delete (od_order_id (D i)) b.(OrderBook.order_id_to_handle_))) ∧
    sview s' (<[k := l1 ++ l2]> ls) (i :: fl) [] D T best bid.
Proof.
  intros HV Hk Hkr Hi Hbid Hsize. unfold OrderBook.remove_order.
  destruct (sview_get_order i HV Hi) as (-> & Hh & HD). run_bind.
  destruct (sview_unlink _ _ _ _ _ _ _ _ _ _ _ HV Hk Hkr) as (s1 & -> & _ & HV1).
  run_bind.
  rewrite (encoded_handle_ok _ i bid Hi Hh) by (by rewrite <- HD in Hbid).
  rewrite arr_set_ok by (rewrite Hsize; by apply enc_range). run_bind.
  destruct (sview_dealloc i HV1) as (p & -> & HV2). run_bind.
  exists (set_pool s1 p). split; [|done].
  replace (Order.order_id_ (slot_at (OrderBook.get_side b bid) i)) with (od_order_id (D i))
    by (by rewrite <- HD).
  by destruct bid.
Qed.

(** The representation after the order of slot [i] left the book. *)
Lemma rep_book_removed b ls fl D A id bid k l1 i l2 s' Db T best :
  rep_book b ls fl D A → located ls D id bid k l1 i l2 →
  (∀ j, j ≠ i → Db j = D bid j) →
  sview s' (<[k := l1 ++ l2]> (ls bid)) (i :: fl bid) [] Db T best bid →
  let queue := <[k := map (D bid) l1 ++ map (D bid) l2]> (a_side A bid).(a_queue) in
  (∀ k', T k' = queue_total (queue k')) →
  best = NUM_BOOK_LEVELS ∨ 0 <= best < NUM_BOOK_LEVELS ∧ queue best ≠ [] →
  represents
    (let b' := OrderBook.put_side b bid s' in
     OrderBook.Make b'.(OrderBook.bids) b'.(OrderBook.asks) b.(OrderBook.order_id_)
       b.(OrderBook.trade_id_) (arr_put b.(OrderBook.order_by_handle_) (enc bid i) None)
       (delete id b.(OrderBook.order_id_to_handle_)))
    (a_put_side A bid (MkASide queue best)).
Proof.
  intros HR HL HDb HV queue HT Hbest. pose proof HR as [HS HM HF HN HW]. destruct HL.
  assert (rep_side s' (<[k := l1 ++ l2]> (ls bid)) (i :: fl bid) Db bid (MkASide queue best)) as HRs.
  { unfold queue in *. rewrite <- map_app in *. eapply rep_side_removed; done || apply HS. }
  exists (<[bid := <[k := l1 ++ l2]> (ls bid)]> ls), (<[bid := i :: fl bid]> fl),
    (<[bid := Db]> D).
  replace A with (MkABook (a_bids A) (a_asks A) (OrderBook.order_id_ b)) at 1
    by (rewrite <- HN; by destruct A).
  eapply (rep_book_side b _ ls _ fl _ D _ A bid s'); [exact HR | by destruct bid | by destruct bid |
    rewrite fn_lookup_insert_ne; done || by destruct bid |
    rewrite fn_lookup_insert_ne; done || by destruct bid |
    by rewrite !fn_lookup_insert | | | done | done].
  - eapply rep_maps_data.
    2:{ cbn. rewrite <- lc_id0. eapply rep_maps_remove; [exact HM | | exact lc_queue0].
        apply (sh_slots _ _ _ _ _ _ (sv_shape _ _ _ _ _ _ _ _ (rp_view _ _ _ _ _ _ (HS bid)))). }
    intros bid' k' j Hj. unfold insert at 1, fn_insert at 1. case_decide; [subst bid'|done].
    rewrite HDb; [done|]. intros ->. rewrite fn_lookup_insert in Hj.
    eapply slots_limbo, Hj. eapply slots_remove; [|exact lc_queue0].
    apply (sh_slots _ _ _ _ _ _ (sv_shape _ _ _ _ _ _ _ _ (rp_view _ _ _ _ _ _ (HS bid)))).
  - cbn. intros j h. rewrite lookup_delete. case_decide; [done | apply HF].
Qed.

(** The level index of a located order, as [cancel_order] and [amend_order]
    compute it. *)
Lemma located_index b ls fl D A id bid k l1 i l2 :
  rep_book b ls fl D A → located ls D id bid k l1 i l2 →
  let o := slot_at (OrderBook.get_side b bid) i in
  order_data o = D bid i ∧ o.(Order.is_bid_) = bid ∧ price_to_index o.(Order.price_) = Done k.
Proof.
  intros HR [Hk Hi _ _ Hgood] o.
  destruct (sview_get_order i (rp_view _ _ _ _ _ _ (rb_side _ _ _ _ _ HR bid)) Hi) as (_ & _ & HD).
  fold o in HD. destruct Hgood as [Hp Hb _ _ _ _]. rewrite <- HD in Hp, Hb. cbn in Hp, Hb.
  split; [done|]. split; [done|]. rewrite Hp. unfold level_price in *.
  rewrite num_book_levels_val in Hk.
  rewrite price_to_index_ok; unfold price_level, MINIMUM_BID, MAXIMUM_ASK; [f_equal|]; lia.
Qed.

Lemma located_price b ls fl D A id bid k l1 i l2 :
  located ls D id bid k l1 i l2 → rep_book b ls fl D A →
  (slot_at (OrderBook.get_side b bid) i).(Order.price_) - MINIMUM_BID = k.
Proof.
  intros HL HR. destruct (located_index _ _ _ _ _ _ _ _ _ _ _ HR HL) as (HD & _).
  destruct HL as [_ _ _ _ [Hp _ _ _ _ _]]. rewrite <- HD in Hp. cbn in Hp.
  rewrite Hp. unfold level_price, price_level. lia.
Qed.

(** The totals of a side once the order between [l1] and [l2] is taken off its
    level's total. *)
Lemma totals_removed s ls fl D bid A k l1 i l2 n k' :
  rep_side s ls fl D bid A → ls k = l1 ++ i :: l2 → n = od_remaining (D i) →
  (<[k := u32 (totals ls D k - n)]> (totals ls D)) k' =
    queue_total ((<[k := map D l1 ++ map D l2]> A.(a_queue)) k').
Proof.
  intros HR Hk ->. unfold insert, fn_insert. case_decide.
  - unfold totals. rewrite Hk, map_app. apply queue_total_delete.
  - unfold totals. by rewrite (rp_queue _ _ _ _ _ _ HR).
Qed.

(** The best index of a side still has orders after another level changed. *)
Lemma best_kept s ls fl D bid A k q :
  rep_side s ls fl D bid A → A.(a_best) ≠ k ∨ q ≠ [] →
  let queue := <[k := q]> A.(a_queue) in
  A.(a_best) = NUM_BOOK_LEVELS ∨
  0 <= A.(a_best) < NUM_BOOK_LEVELS ∧ queue A.(a_best) ≠ [].
Proof.
  intros [_ HQ _ HB] Hor queue. destruct HB as [|[Hr Hne]]; [by left|]. right. split; [done|].
  unfold queue, insert, fn_insert. case_decide; [naive_solver|]. rewrite HQ.
  by destruct (ls (a_best A)).
Qed.

Lemma best_after_cancel_ok s ls fl D bid A k q :
  rep_side s ls fl D bid A →
  let queue := <[k := q]> A.(a_queue) in
  let best := best_after_cancel bid queue k A.(a_best) in
  best = NUM_BOOK_LEVELS ∨ 0 <= best < NUM_BOOK_LEVELS ∧ queue best ≠ [].
Proof.
  intros HR queue best. pose proof (rep_side_best_range _ _ _ _ _ _ HR).
  assert (queue k = q) as Hk by apply fn_lookup_insert.
  unfold best, best_after_cancel. rewrite Hk.
  destruct q as [|o q]; [|by eapply best_kept; [|right]].
  destruct (a_best A =? k) eqn:E; [apply next_best_nonempty; lia|].
  eapply best_kept; [done | left; lia].
Qed.

Lemma best_after_amend_ok s ls fl D bid A k q :
  rep_side s ls fl D bid A →
  let queue := <[k := q]> A.(a_queue) in
  let best := best_after_amend bid queue k A.(a_best) in
  best = NUM_BOOK_LEVELS ∨ 0 <= best < NUM_BOOK_LEVELS ∧ queue best ≠ [].
Proof.
  intros HR queue best. pose proof (rep_side_best_range _ _ _ _ _ _ HR).
  assert (queue k = q) as Hk by apply fn_lookup_insert.
  unfold best, best_after_amend. rewrite Hk.
  destruct (queue_total q =? 0) eqn:E; [apply next_best_nonempty; lia|].
  eapply best_kept; [done|]. right. by intros ->.
Qed.

(** Moving the best index at the end of [cancel_order]. *)
Lemma cancel_best_ok s ls fl D T best bid k l queue :
  sview s (<[k := l]> ls) fl [] D T best bid → (∀ k', T k' = queue_total (queue k')) →
  queue k = map D l → 0 <= best <= NUM_BOOK_LEVELS →
  match head (<[k := l]> ls k) with
  | None => if s.(best_price_index_) =? k then OrderBook.update_best_after_empty s bid else Done s
  | Some _ => Done s
  end = Done (set_best s (best_after_cancel bid queue k best)).
Proof.
  intros HV HT Hq Hb. rewrite fn_lookup_insert. unfold best_after_cancel. rewrite Hq.
  assert (set_best s best = s) as Es by (destruct s; cbn; by rewrite <- (sv_best _ _ _ _ _ _ _ _ HV)).
  rewrite (sv_best _ _ _ _ _ _ _ _ HV). destruct l as [|j l]; cbn; [|by rewrite Es].
  destruct (best =? k); [|by rewrite Es]. eapply update_best_spec; naive_solver.
Qed.

(** Every cancel is a step of the specification. *)
Lemma cancel_refines b A client req id now now_match now_add :
  represents b A →
  ∃ b' A' evs, OrderBook.cancel_order b client req id now = Done (b', evs) ∧
    book_step A now now_match now_add (OrderBook.Cancel client req id) A' evs ∧
    represents b' A'.
Proof.
  intros (ls & fl & D & HR). unfold OrderBook.cancel_order.
  destruct (find_owned_ok b ls fl D A client req id now HR)
    as [[Hno ->] | (bid & k & l1 & i & l2 & HL & ->)]; run_bind.
  { exists b, A. eexists. split; [done|]. split; [by constructor | by exists ls, fl, D]. }
  pose proof (located_resting _ _ _ _ _ _ _ _ _ _ _ HR HL) as Hrest.
  destruct (od_client_id (D bid i) =? client) eqn:Ec.
  2:{ exists b, A. eexists. split; [done|]. split; [|by exists ls, fl, D].
      eapply step_cancel_unauthorised; [done | apply HL | lia]. }
  destruct (located_index _ _ _ _ _ _ _ _ _ _ _ HR HL) as (HD & Hb & Hidx).
  rewrite Hb, Hidx. run_bind. pose proof HL as [Hk Hi Hq Hid Hgood].
  pose proof (rb_side _ _ _ _ _ HR bid) as HRs. pose proof (rp_view _ _ _ _ _ _ HRs) as HV.
  rewrite (sview_get_level k HV Hk). run_bind.
  assert (Order.quantity_remaining_ (slot_at (OrderBook.get_side b bid) i) = od_remaining (D bid i))
    as -> by (by rewrite <- HD).
  cbn [level_of PriceLevel.total_quantity_].
  edestruct (sview_put_total k (u32 (totals (ls bid) (D bid) k - od_remaining (D bid i))) HV Hk)
    as (s1 & -> & _ & HV1). run_bind.
  rewrite <- (get_side_put_eq b bid s1) in HV1.
  destruct (remove_order_ok (OrderBook.put_side b bid s1) _ _ _ _ _ _ _ _ _ _ HV1 Hq Hk Hi
    (gd_side _ _ _ Hgood)) as (s2 & -> & HV2).
  { destruct bid; apply (rm_size _ _ _ _ (rb_maps _ _ _ _ _ HR)). }
  run_bind. cbv zeta. set (b2 := OrderBook.Make _ _ _ _ _ _).
  assert (OrderBook.get_side b2 bid = s2) as -> by (unfold b2; by destruct bid).
  rewrite (sview_get_level k HV2 Hk). cbn [mbind outcome_bind level_of PriceLevel.first_ PriceLevel.idx_].
  set (queue := <[k := map (D bid) l1 ++ map (D bid) l2]> (a_side A bid).(a_queue)).
  pose proof (λ k', totals_removed _ _ _ _ _ _ _ _ _ _ _ k' HRs Hq eq_refl) as HT.
  fold queue in HT.
  assert (∀ s, OrderBook.put_side b2 bid s = let b' := OrderBook.put_side b bid s in
     OrderBook.Make b'.(OrderBook.bids) b'.(OrderBook.asks) b.(OrderBook.order_id_)
       b.(OrderBook.trade_id_) (arr_put b.(OrderBook.order_by_handle_) (enc bid i) None)
       (delete id b.(OrderBook.order_id_to_handle_))) as Hb2
    by (intros s; unfold b2; rewrite <- Hid; by destruct bid).
  rewrite (cancel_best_ok _ _ _ _ _ _ _ _ _ queue HV2 HT); [|by rewrite map_app; apply fn_lookup_insert
    | by eapply rep_side_best_range].
  run_bind. rewrite HD, Hb2. do 3 eexists. split; [reflexivity|]. split.
  - unfold level_event. cbn [level_of PriceLevel.price_ PriceLevel.total_quantity_].
    rewrite HT. unfold queue at 2. rewrite fn_lookup_insert.
    eapply step_cancel; [done | done | lia | done].
  - eapply (rep_book_removed _ _ _ _ _ _ _ _ _ _ _ _ (D bid)); [done | done | done | | done |].
    + eapply sview_set_best, HV2.
    + by eapply best_after_cancel_ok.
Qed.

(** The stores of [amend_order] and the move of the best index after them, for
    any queues that show the totals it leaves. *)
Lemma amend_stores s ls fl D bid A k l1 i l2 q r c total queue :
  rep_side s ls fl D bid A → ls k = l1 ++ i :: l2 → 0 <= k < NUM_BOOK_LEVELS → 0 <= i < MAX_ORDERS →
  (∀ k', (<[k := total]> (totals ls D)) k' = queue_total (queue k')) →
  let o := order_data (Order.set_quantities (slot_at s i) q r c) in
  ∃ s1 s2 s', put_order s i (Order.set_quantities (slot_at s i) q r c) = Done s1 ∧
    put_level s1 k (PriceLevel.set_total (level_of ls (totals ls D) k) total) = Done s2 ∧
    (if total =? 0 then OrderBook.update_best_after_empty s2 bid else Done s2) = Done s' ∧
    sview s' ls fl [] (<[i := o]> D) (<[k := total]> (totals ls D))
      (best_after_amend bid queue k A.(a_best)) bid.
Proof.
  intros HR Hq Hk Hi HT o. pose proof (rp_view _ _ _ _ _ _ HR) as HV.
  destruct (sview_put_quantities i q r c HV Hi) as (s1 & E1 & _ & HV1).
  destruct (sview_put_total k total HV1 Hk) as (s2 & E2 & _ & HV2).
  unfold best_after_amend. rewrite <- HT, fn_lookup_insert.
  destruct (total =? 0) eqn:E; [|by exists s1, s2, s2].
  exists s1, s2. eexists. split; [done|]. split; [done|]. split; [eapply update_best_spec; [done | naive_solver | by eapply rep_side_best_range]|].
  by eapply sview_set_best.
Qed.

(** The totals after the remaining quantity of a resting order went down to
    that of [o']. *)
Lemma totals_amended s ls fl D bid A k l1 i l2 o' k' :
  rep_side s ls fl D bid A → ls k = l1 ++ i :: l2 →
  (<[k := u32 (totals ls D k - (od_remaining (D i) - od_remaining o'))]> (totals ls D)) k' =
    queue_total ((<[k := map D l1 ++ o' :: map D l2]> A.(a_queue)) k').
Proof.
  intros HR Hk. unfold insert, fn_insert. case_decide.
  - unfold totals. rewrite Hk, map_app. apply queue_total_sub. lia.
  - unfold totals. by rewrite (rp_queue _ _ _ _ _ _ HR).
Qed.

(** The representation after the order of slot [i] became [o]. *)
Lemma rep_book_amended b ls fl D A id bid k l1 i l2 s' o T best :
  rep_book b ls fl D A → located ls D id bid k l1 i l2 →
  good_data bid k o → od_order_id o = id →
  sview s' (ls bid) (fl bid) [] (<[i := o]> (D bid)) T best bid →
  let queue := <[k := map (D bid) l1 ++ o :: map (D bid) l2]> (a_side A bid).(a_queue) in
  (∀ k', T k' = queue_total (queue k')) →
  best = NUM_BOOK_LEVELS ∨ 0 <= best < NUM_BOOK_LEVELS ∧ queue best ≠ [] →
  represents (OrderBook.put_side b bid s') (a_put_side A bid (MkASide queue best)).
Proof.
  intros HR HL Hgood Hid HV queue HT Hbest. pose proof HR as [HS HM HF HN HW]. destruct HL.
  assert (rep_side s' (ls bid) (fl bid) (<[i := o]> (D bid)) bid (MkASide queue best)) as HRs.
  { eapply rep_side_modified; [apply HS | done | done | | done]. eapply sview_ext, HV; [done|].
    intros k'. rewrite HT. unfold totals, queue. by erewrite queue_modified. }
  exists ls, (<[bid := fl bid]> fl), (<[bid := <[i := o]> (D bid)]> D).
  replace A with (MkABook (a_bids A) (a_asks A) (OrderBook.order_id_ b)) at 1
    by (rewrite <- HN; by destruct A).
  eapply (rep_book_side b _ ls _ fl _ D _ A bid s'); [exact HR | by destruct bid | by destruct bid |
    done | rewrite fn_lookup_insert_ne; done || by destruct bid |
    by rewrite !fn_lookup_insert | | | by destruct bid | done].
  - replace (OrderBook.order_by_handle_ (OrderBook.put_side b bid s'))
      with (OrderBook.order_by_handle_ b) by (by destruct bid).
    replace (OrderBook.order_id_to_handle_ (OrderBook.put_side b bid s'))
      with (OrderBook.order_id_to_handle_ b) by (by destruct bid).
    eapply rep_maps_data, HM. intros bid' k' j Hj. unfold insert, fn_insert.
    repeat case_decide; subst; done.
  - intros j h. replace (OrderBook.order_id_to_handle_ (OrderBook.put_side b bid s'))
      with (OrderBook.order_id_to_handle_ b) by (by destruct bid). apply HF.
Qed.

Lemma good_data_amended bid k o q :
  good_data bid k o → od_cumulative o < q < od_quantity o → good_data bid k (with_quantity o q).
Proof. intros [] H. split; cbn; try done; lia. Qed.

(** What [apply_amend] does to a located order [o]. *)
Lemma apply_amend_ok b ls fl D A id bid k l1 i l2 req q now :
  rep_book b ls fl D A → located ls D id bid k l1 i l2 →
  let o := D bid i in
  od_cumulative o <= q < od_quantity o →
  let q' := (if q =? od_cumulative o then map (D bid) l1 ++ map (D bid) l2
             else map (D bid) l1 ++ with_quantity o q :: map (D bid) l2) in
  let queue := <[k := q']> (a_side A bid).(a_queue) in
  ∃ b', OrderBook.apply_amend b req i (slot_at (OrderBook.get_side b bid) i) q
          (q - od_cumulative o) (od_remaining o - (q - od_cumulative o)) now =
      Done (b', [on_order_amended req (od_quantity o) (with_quantity o q) now;
                 on_level_update (side_of bid) (level_price k) (queue_total (queue k)) now]) ∧
    represents b' (a_put_side A bid
      (MkASide queue (best_after_amend bid queue k (a_side A bid).(a_best)))).
Proof.
  intros HR HL o Hqr q' queue.
  destruct (located_index _ _ _ _ _ _ _ _ _ _ _ HR HL) as (HD & Hb & Hidx).
  pose proof HL as [Hk Hi Hq Hid Hgood]. pose proof (rb_side _ _ _ _ _ HR bid) as HRs.
  set (so := slot_at (OrderBook.get_side b bid) i) in *.
  pose proof (gd_quantity _ _ _ Hgood) as Hrc. fold o in Hrc, Hid, HD.
  unfold OrderBook.apply_amend. rewrite Hb, Hidx. run_bind.
  rewrite (sview_get_level k (rp_view _ _ _ _ _ _ HRs) Hk).
  run_bind.
  change (PriceLevel.total_quantity_ (level_of _ (totals (ls bid) (D bid)) k))
    with (totals (ls bid) (D bid) k).
  assert (order_data (Order.set_quantities so q (q - od_cumulative o) (Order.quantity_cumulative_ so))
          = with_quantity o q) as Ho by (by rewrite <- HD).
  assert (∀ k', (<[k := u32 (totals (ls bid) (D bid) k - (od_remaining o - (q - od_cumulative o)))]>
    (totals (ls bid) (D bid))) k' = queue_total (queue k')) as HT.
  { intros k'. unfold queue, q'. destruct (q =? od_cumulative o) eqn:E.
    - eapply totals_removed; [done | done | fold o; lia].
    - apply (totals_amended _ _ _ _ _ _ _ _ _ _ (with_quantity o q) k' HRs Hq). }
  edestruct (amend_stores _ _ _ _ _ _ _ _ _ _ q (q - od_cumulative o)
    (Order.quantity_cumulative_ so) _ queue HRs Hq Hk Hi HT) as (s1 & s2 & s3 & E1 & E2 & E3 & HV).
  fold so in E1, HV. rewrite Ho in HV. rewrite E1. run_bind.
  rewrite E2. run_bind. cbn [PriceLevel.set_total PriceLevel.total_quantity_].
  rewrite E3. run_bind. rewrite Ho.
  assert (Order.quantity_ so = od_quantity o) as -> by (by rewrite <- HD).
  unfold level_event. cbn [PriceLevel.price_ PriceLevel.total_quantity_ PriceLevel.set_total level_of].
  rewrite <- HT, fn_lookup_insert.
  pose proof (best_after_amend_ok _ _ _ _ _ _ k q' HRs) as Hbest. cbv zeta in Hbest. fold queue in Hbest.
  destruct (q - od_cumulative o =? 0) eqn:E0; destruct (q =? od_cumulative o) eqn:Eq; try lia.
  - rewrite <- (get_side_put_eq b bid s3) in HV.
    destruct (remove_order_ok (OrderBook.put_side b bid s3) _ _ _ _ _ _ _ _ _ _ HV Hq Hk Hi)
      as (s4 & -> & HV4).
    { rewrite fn_lookup_insert. apply (gd_side _ _ _ Hgood). }
    { destruct bid; apply (rm_size _ _ _ _ (rb_maps _ _ _ _ _ HR)). }
    run_bind. eexists. split; [reflexivity|].
    rewrite fn_lookup_insert. cbn [od_order_id with_quantity]. rewrite Hid.
    replace (OrderBook.put_side (OrderBook.put_side b bid s3) bid s4)
      with (OrderBook.put_side b bid s4) by (by destruct bid).
    epose proof (rep_book_removed _ _ _ _ _ _ _ _ _ _ _ _ _ _ _ HR HL _ HV4 HT Hbest) as HRep.
    by destruct bid.
  - eexists. split; [done|].
    eapply rep_book_amended; [done | done | | done | exact HV | done | done].
    apply good_data_amended; [done | fold o; lia].
Unshelve. intros j Hj. by apply fn_lookup_insert_ne.
Qed.

(** Every amend is a step of the specification. *)
Lemma amend_refines b A client req id quantity now now_match now_add :
  represents b A → 0 <= quantity < 2 ^ 32 →
  ∃ b' A' evs, OrderBook.amend_order b client req id quantity now = Done (b', evs) ∧
    book_step A now now_match now_add (OrderBook.Amend client req id quantity) A' evs ∧
    represents b' A'.
Proof.
  intros (ls & fl & D & HR) Hw. unfold OrderBook.amend_order.
  destruct (find_owned_ok b ls fl D A client req id now HR)
    as [[Hno ->] | (bid & k & l1 & i & l2 & HL & ->)]; run_bind.
  { exists b, A. eexists. split; [done|]. split; [by constructor | by exists ls, fl, D]. }
  pose proof (located_resting _ _ _ _ _ _ _ _ _ _ _ HR HL) as Hrest.
  destruct (od_client_id (D bid i) =? client) eqn:Ec.
  2:{ exists b, A. eexists. split; [done|]. split; [|by exists ls, fl, D].
      eapply step_amend_unauthorised; [done | apply HL | lia]. }
  destruct (located_index _ _ _ _ _ _ _ _ _ _ _ HR HL) as (HD & _ & _).
  pose proof HL as [Hk Hi Hq Hid Hgood].
  pose proof (rb_side _ _ _ _ _ HR bid) as HRs.
  set (o := D bid i) in *. set (so := slot_at (OrderBook.get_side b bid) i) in *.
  assert (Order.quantity_ so = od_quantity o) as Eq by (by rewrite <- HD).
  assert (Order.quantity_remaining_ so = od_remaining o) as Er by (by rewrite <- HD).
  assert (Order.quantity_cumulative_ so = od_cumulative o) as Em by (by rewrite <- HD).
  rewrite Eq, Er, Em. pose proof Hgood as [_ _ Hgr Hgc Hgq Hgw].
  destruct (quantity <? od_cumulative o) eqn:E1.
  { exists b, A. eexists. split; [done|]. split; [|by exists ls, fl, D].
    eapply step_amend_invalid; [done | done | lia | lia]. }
  rewrite (u32_small (quantity - _)) by lia.
  destruct (od_remaining o <? quantity - od_cumulative o) eqn:E2.
  { exists b, A. eexists. split; [done|]. split; [|by exists ls, fl, D].
    eapply step_amend_invalid; [done | done | lia | lia]. }
  rewrite (u32_small (od_remaining o - _)) by lia.
  destruct (quantity - od_cumulative o =? od_remaining o) eqn:E3.
  { exists b, A. eexists. rewrite HD. split; [done|]. split; [|by exists ls, fl, D].
    replace quantity with (od_quantity o) by lia. eapply step_amend_same; [done | done | lia]. }
  destruct (apply_amend_ok _ _ _ _ _ _ _ _ _ _ _ req quantity now HR HL) as (b' & E & HR');
    [fold o; lia|]. fold o so in E, HR'. rewrite E. eexists b', _, _. split; [done|]. split; [|done].
  destruct (quantity =? od_cumulative o) eqn:E0.
  - replace quantity with (od_cumulative o) by lia. rewrite fn_lookup_insert.
    eapply step_amend_close; [done | done | lia | done].
  - eapply step_amend_reduce; [done | done | lia | lia | done].
Qed.

(** ** Requests and histories *)

Lemma request_refines b A r now now_match now_add :
  represents b A → valid_request r = true → b.(OrderBook.order_id_) + 1 < 2 ^ 32 →
  ∃ b' A' evs, OrderBook.run_request b r now now_match now_add = Done (b', evs) ∧
    book_step A now now_match now_add r A' evs ∧ represents b' A'.
Proof.
  intros HR Hv Hid. destruct r as [price quantity is_bid client req | client req id
    | client req id quantity]; cbn [OrderBook.run_request]; unfold valid_request in Hv.
  - destruct HR as (ls & fl & D & HR). assert (0 <= quantity < 2 ^ 32) as Hq by lia.
    destruct (a_submit A price quantity is_bid client req now now_match now_add) as [A' evs] eqn:E.
    destruct (submit_refines _ _ _ _ _ _ _ _ _ _ _ _ _ _ _ HR Hq Hid E)
      as (b' & ls' & fl' & D' & E' & HR').
    exists b', A', evs. split; [done|]. split; [by constructor | by exists ls', fl', D'].
  - by apply cancel_refines.
  - apply amend_refines; [done | lia].
Qed.

(** Every request gives out at most one order id. *)
Lemma step_next_id A now now_match now_add r A' evs :
  book_step A now now_match now_add r A' evs → 0 <= A.(a_next_id) → A.(a_next_id) + 1 < 2 ^ 32 →
  A.(a_next_id) <= A'.(a_next_id) <= A.(a_next_id) + 1.
Proof.
  assert (∀ A bid s, a_next_id (a_put_side A bid s) = a_next_id A) as Hput by (by intros ? []).
  intros Hs Hid0 Hid1. destruct Hs as [price quantity is_bid client req a' evs' E | | | | | | | | |];
    try (rewrite ?Hput; lia).
  unfold a_submit in E. repeat case_match; simplify_eq; rewrite ?Hput; cbn; rewrite ?u32_small; lia.
Qed.

Lemma run_next_id A rs A' evs :
  book_run A rs A' evs → 0 <= A.(a_next_id) → A.(a_next_id) + Z.of_nat (length rs) < 2 ^ 32 →
  A.(a_next_id) <= A'.(a_next_id) <= A.(a_next_id) + Z.of_nat (length rs).
Proof.
  induction 1 as [|a r now now_match now_add a' evs rs a'' evs' Hs _ IH]; cbn [length]; [lia|].
  intros H0 H1. pose proof (step_next_id _ _ _ _ _ _ _ Hs). lia.
Qed.

Lemma represents_next_id b A : represents b A → a_next_id A = OrderBook.order_id_ b ∧
  0 <= OrderBook.order_id_ b < 2 ^ 32.
Proof. intros (ls & fl & D & []). auto. Qed.

Lemma run_refines b A rs :
  represents b A → Forall (λ r, valid_request r.1 = true) rs →
  b.(OrderBook.order_id_) + Z.of_nat (length rs) < 2 ^ 32 →
  ∃ b' A' evs, OrderBook.run b rs = Done (b', evs) ∧ book_run A rs A' evs ∧ represents b' A'.
Proof.
  intros HR Hv. revert b A HR. induction Hv as [|[r [[now now_match] now_add]] rs Hr _ IH];
    intros b A HR Hid; cbn [length OrderBook.run] in *.
  { exists b, A, []. split; [done|]. split; [constructor | done]. }
  destruct (request_refines b A r now now_match now_add HR Hr) as (b1 & A1 & evs1 & -> & Hs & HR1);
    [lia|]. run_bind.
  destruct (represents_next_id _ _ HR) as [Hn Hw], (represents_next_id _ _ HR1) as [Hn1 _].
  pose proof (step_next_id _ _ _ _ _ _ _ Hs).
  destruct (IH b1 A1 HR1) as (b2 & A2 & evs2 & -> & Hrun & HR2); [lia|].
  run_bind. exists b2, A2, (evs1 ++ evs2). split; [done|].
  split; [by econstructor | done].
Qed.
