(* ===== verification/BookInvariant.v ===== *)
(** The invariant behind the matching engine's guarantees, on the abstract book:
    orders are well formed and queued in arrival order, the best index of each
    side is its best non-empty level, and the two sides do not cross.  It holds
    as long as the volume ever submitted fits the 32-bit counters of the levels
    and no amend empties a level other than the best one of its side. *)

From stdpp Require Import functions sorting.
From S2P Require Import Prelude Types OrderBook BookSpec BookLinks BookView BookRep BookMatch.

(** The best index of a side is what its name says. *)
Definition best_ok (bid : bool) (s : ASide) : Prop :=
  (s.(a_best) = NUM_BOOK_LEVELS ∧ ∀ k, s.(a_queue) k = []) ∨
  (0 <= s.(a_best) < NUM_BOOK_LEVELS ∧ s.(a_queue) s.(a_best) ≠ [] ∧
   ∀ k, s.(a_queue) k ≠ [] → if bid then k <= s.(a_best) else s.(a_best) <= k).

(** Arrival order: ids are given out in increasing order. *)
Definition fifo (q : list OrderData) : Prop := StronglySorted Z.lt (map od_order_id q).

(** A queue of level [k]: its orders belong there, have been given ids below
    [next], are in arrival order and show at most [V] in all. *)
Record queue_ok (bid : bool) (V next k : Z) (q : list OrderData) : Prop := MkQueueOk {
  qo_good o : o ∈ q → good_data bid k o;
  qo_id o : o ∈ q → od_order_id o < next;
  qo_fifo : fifo q;
  qo_sum : queue_sum q <= V
}.

Record side_ok (bid : bool) (V next : Z) (s : ASide) : Prop := MkSideOk {
  so_range k : s.(a_queue) k ≠ [] → 0 <= k < NUM_BOOK_LEVELS;
  so_queue k : queue_ok bid V next k (s.(a_queue) k);
  so_best : best_ok bid s
}.

Record book_ok (V : Z) (A : ABook) : Prop := MkBookOk {
  bo_side bid : side_ok bid V A.(a_next_id) (a_side A bid);
  bo_uncrossed k k' :
    A.(a_bids).(a_queue) k ≠ [] → A.(a_asks).(a_queue) k' ≠ [] → k < k'
}.

(** ** Queues *)

Lemma queue_sum_nonneg q : (∀ o, o ∈ q → 0 < od_remaining o) → 0 <= queue_sum q.
Proof.
  induction q as [|o q IH]; intros H; [done|]. rewrite queue_sum_cons.
  pose proof (H o ltac:(set_solver)). specialize (IH ltac:(set_solver)). lia.
Qed.

Lemma queue_sum_pos q : (∀ o, o ∈ q → 0 < od_remaining o) → q ≠ [] → 0 < queue_sum q.
Proof.
  destruct q as [|o q]; intros H ?; [done|]. rewrite queue_sum_cons.
  pose proof (H o ltac:(set_solver)). pose proof (queue_sum_nonneg q ltac:(set_solver)). lia.
Qed.

Section queues.
Context {bid : bool} {V next k : Z}.
Implicit Types q : list OrderData.

Lemma queue_ok_remaining q o : queue_ok bid V next k q → o ∈ q → 0 < od_remaining o.
Proof. intros HQ Ho. apply (qo_good _ _ _ _ _ HQ o Ho). Qed.

Lemma queue_ok_total q : queue_ok bid V next k q → V < 2 ^ 32 → queue_total q = queue_sum q.
Proof.
  intros HQ HV. unfold queue_total. apply u32_small.
  pose proof (qo_sum _ _ _ _ _ HQ).
  pose proof (queue_sum_nonneg q (λ o, queue_ok_remaining q o HQ)). lia.
Qed.

(** A level shows volume exactly when it has orders. *)
Lemma queue_ok_shown q : queue_ok bid V next k q → V < 2 ^ 32 → 0 < queue_total q ↔ q ≠ [].
Proof.
  intros HQ HV. rewrite (queue_ok_total q HQ HV). split; [by intros ? ->|].
  apply queue_sum_pos. intros o. by apply queue_ok_remaining.
Qed.

Lemma queue_ok_nil : 0 <= V → queue_ok bid V next k [].
Proof. intros. split; [set_solver.. | constructor | done]. Qed.

Lemma queue_ok_mono q V' next' :
  queue_ok bid V next k q → V <= V' → next <= next' → queue_ok bid V' next' k q.
Proof. intros [H1 H2 H3 H4] ??. split; [done | intros o Ho; specialize (H2 o Ho); lia | done | lia]. Qed.

(** Taking an order out, replacing it, appending one. *)
Lemma queue_ok_delete q1 o q2 :
  queue_ok bid V next k (q1 ++ o :: q2) → queue_ok bid V next k (q1 ++ q2).
Proof.
  intros HQ. pose proof (queue_ok_remaining _ o HQ ltac:(set_solver)). destruct HQ as [H1 H2 H3 H4].
  split; [set_solver.. | |].
  - unfold fifo in *. rewrite map_app in *. cbn in H3.
    apply StronglySorted_app in H3 as (Hc & Hs1 & Hs2). inversion Hs2; subst.
    apply StronglySorted_app. split; [set_solver | done].
  - rewrite queue_sum_app, queue_sum_cons in *. lia.
Qed.

Lemma queue_ok_replace q1 o o' q2 :
  queue_ok bid V next k (q1 ++ o :: q2) → good_data bid k o' →
  od_order_id o' = od_order_id o → od_remaining o' <= od_remaining o →
  queue_ok bid V next k (q1 ++ o' :: q2).
Proof.
  intros [H1 H2 H3 H4] Hg Hid Hr. split.
  - intros x [?|[->|?]%elem_of_cons]%elem_of_app; [apply H1; set_solver | done | apply H1; set_solver].
  - pose proof (H2 o ltac:(set_solver)). rewrite <- Hid in *.
    intros x [?|[->|?]%elem_of_cons]%elem_of_app; [apply H2; set_solver | done | apply H2; set_solver].
  - unfold fifo in *. rewrite map_app in *. cbn in *. by rewrite Hid.
  - rewrite queue_sum_app, queue_sum_cons in *. lia.
Qed.

Lemma queue_ok_snoc q o :
  queue_ok bid V next k q → good_data bid k o → od_order_id o = next →
  queue_ok bid (V + od_remaining o) (next + 1) k (q ++ [o]).
Proof.
  intros [H1 H2 H3 H4] Hg Hid. split.
  - intros x [Hx|Hx]%elem_of_app; [auto | by apply list_elem_of_singleton in Hx as ->].
  - intros x [Hx|Hx]%elem_of_app; [specialize (H2 x Hx); lia|].
    apply list_elem_of_singleton in Hx as ->. lia.
  - unfold fifo in *. rewrite map_app. apply StronglySorted_app. split; [|split; [done|]].
    + intros x y (x' & -> & Hx)%list_elem_of_fmap Hy. cbn in Hy.
      apply list_elem_of_singleton in Hy as ->. rewrite Hid. by apply H2.
    + repeat constructor.
  - rewrite queue_sum_app, queue_sum_cons. cbn. lia.
Qed.
End queues.

(** ** Filling a queue *)

Definition traded (ts : list Trade) : Z := foldr (λ t n, tr_quantity t + n) 0 ts.

Lemma traded_cons t ts : traded (t :: ts) = tr_quantity t + traded ts.
Proof. done. Qed.

(** The quantities add up: what the taker gave is what was traded and what is
    left, and so for the queue. *)
Lemma fill_queue_sum incoming q ts q' rest :
  fill_queue incoming q = (ts, q', rest) →
  incoming = traded ts + rest ∧ queue_sum q = traded ts + queue_sum q'.
Proof.
  revert incoming ts. induction q as [|o q IH]; intros incoming ts; cbn [fill_queue];
    [intros [= <- <- <-]; cbn; lia|].
  destruct (incoming <=? 0); [intros [= <- <- <-]; cbn; lia|].
  destruct (od_remaining o <=? incoming).
  - destruct (fill_queue _ q) as [[ts1 q1] rest1] eqn:EF. intros [= <- -> <-].
    apply IH in EF as [E1 E2]. rewrite queue_sum_cons, traded_cons. cbn [tr_quantity]. lia.
  - intros [= <- <- <-]. rewrite !queue_sum_cons, traded_cons. cbn. lia.
Qed.

Lemma fill_queue_rest incoming q ts q' rest :
  (∀ o, o ∈ q → 0 < od_remaining o) → 0 <= incoming →
  fill_queue incoming q = (ts, q', rest) → 0 <= rest <= incoming.
Proof.
  revert incoming ts. induction q as [|o q IH]; intros incoming ts Hq Hi; cbn;
    [intros [= <- <- <-]; lia|].
  destruct (incoming <=? 0) eqn:E0; [intros [= <- <- <-]; lia|].
  pose proof (Hq o ltac:(set_solver)).
  destruct (od_remaining o <=? incoming) eqn:E1.
  - destruct (fill_queue _ q) as [[ts1 q1] rest1] eqn:EF. intros [= <- -> <-].
    apply IH in EF; [lia | set_solver | lia].
  - intros [= <- <- <-]. lia.
Qed.

Lemma fill_good bid k o n :
  good_data bid k o → 0 <= n < od_remaining o → good_data bid k (fill o n).
Proof. intros [] Hn. split; cbn; try done; lia. Qed.

(** What is left of a queue is a queue. *)
Lemma fill_queue_ok bid V next k incoming q ts q' rest :
  queue_ok bid V next k q → fill_queue incoming q = (ts, q', rest) → queue_ok bid V next k q'.
Proof.
  revert incoming ts. induction q as [|o q IH]; intros incoming ts HQ; cbn; [by intros [= <- <- <-]|].
  destruct (incoming <=? 0) eqn:E0; [by intros [= <- <- <-]|].
  destruct (od_remaining o <=? incoming) eqn:E1.
  - destruct (fill_queue _ q) as [[ts1 q1] rest1] eqn:EF. intros [= <- -> <-].
    eapply IH, EF. apply (queue_ok_delete [] o q HQ).
  - intros [= <- <- <-]. pose proof (qo_good _ _ _ _ _ HQ o ltac:(set_solver)) as Hg.
    apply (queue_ok_replace [] o _ q HQ); [apply fill_good; [done | lia] | done | cbn; lia].
Qed.

(** ** Sides *)

Lemma insert_nonempty (queue : Z → list OrderData) k q k' :
  queue k ≠ [] → (<[k := q]> queue) k' ≠ [] → queue k' ≠ [].
Proof. intros Hk. unfold insert, fn_insert. case_decide; by subst. Qed.

Lemma side_ok_insert bid V next s k q best :
  side_ok bid V next s → (q ≠ [] → 0 <= k < NUM_BOOK_LEVELS) → queue_ok bid V next k q →
  let s' := MkASide (<[k := q]> s.(a_queue)) best in best_ok bid s' → side_ok bid V next s'.
Proof.
  intros [Hr HQ _] Hk Hq s' Hb. split; [| |done]; intros k'; cbn; unfold insert, fn_insert;
    case_decide; subst; auto.
Qed.

Lemma side_ok_mono bid V next s V' next' :
  side_ok bid V next s → V <= V' → next <= next' → side_ok bid V' next' s.
Proof. intros [] ??. split; [done | intros k; by eapply queue_ok_mono | done]. Qed.

Lemma side_ok_best_range bid V next s : side_ok bid V next s → 0 <= s.(a_best) <= NUM_BOOK_LEVELS.
Proof. intros [_ _ [[-> _]|(Hr & _)]]; [rewrite num_book_levels_val|]; lia. Qed.

(** Scanning on from level [k] finds the best level, if only worse levels have
    orders. *)
Lemma next_best_ok bid queue k :
  (∀ k', 0 < queue_total (queue k') ↔ queue k' ≠ []) → -1 <= k <= NUM_BOOK_LEVELS →
  (∀ k', queue k' ≠ [] → k' ∈ worse_levels bid k) →
  best_ok bid (MkASide queue (next_best bid queue k)).
Proof.
  intros Hshown Hk Hworse. pose proof (visible_next bid queue k Hk) as Hv.
  assert (∀ k', queue k' ≠ [] → k' ∈ shown_levels bid queue k) as Hin.
  { intros k' Hk'. apply list_elem_of_filter. split; [by apply Hshown | by apply Hworse]. }
  destruct (next_best_nonempty bid queue k Hk) as [E|[Hr Hne]].
  - left. split; [done|]. intros k'. cbn. destruct (queue k') eqn:Eq; [done|]. exfalso.
    specialize (Hin k'). rewrite <- Hv, Eq in Hin. unfold visible in Hin. cbn in Hin.
    rewrite E, Z.eqb_refl in Hin. set_solver.
  - right. cbn. split; [done|]. split; [done|]. intros k' Hk'.
    specialize (Hin k' Hk'). rewrite <- Hv in Hin. unfold visible in Hin. cbn in Hin.
    destruct (_ =? NUM_BOOK_LEVELS); [set_solver|].
    apply elem_of_cons in Hin as [->|Hin]; [by destruct bid|].
    apply list_elem_of_filter in Hin as [_ Hin]. rewrite worse_levels_spec in Hin by lia.
    destruct bid; lia.
Qed.

(** The levels a side shows are its non-empty ones. *)
Lemma side_ok_shown bid V next s k :
  side_ok bid V next s → V < 2 ^ 32 → 0 < queue_total (s.(a_queue) k) ↔ s.(a_queue) k ≠ [].
Proof. intros [_ HQ _] HV. by apply (queue_ok_shown _ (HQ k)). Qed.

(** Emptying the best level and scanning on. *)
Lemma side_ok_advance bid V next s k :
  side_ok bid V next s → V < 2 ^ 32 → s.(a_best) = k → 0 <= k < NUM_BOOK_LEVELS → 0 <= V →
  let queue := <[k := []]> s.(a_queue) in
  side_ok bid V next (MkASide queue (next_best bid queue k)).
Proof.
  intros HS HV <- Hk H0 queue. apply side_ok_insert; [done | done | by apply queue_ok_nil |].
  apply next_best_ok; [| lia |].
  - intros k'. unfold queue. destruct (decide (a_best s = k')) as [<-|Hne].
    + by rewrite fn_lookup_insert.
    + rewrite fn_lookup_insert_ne by done. by eapply side_ok_shown.
  - intros k'. unfold queue, insert, fn_insert. case_decide as Ek; [done|]. intros Hne.
    apply worse_levels_spec; [lia|]. split; [by eapply so_range|].
    destruct (so_best _ _ _ _ HS) as [[E _]|(_ & _ & Hb)]; [lia|].
    specialize (Hb k' Hne). destruct bid; lia.
Qed.

(** Changing a level that keeps orders. *)
Lemma best_ok_insert bid s k q :
  best_ok bid s → q ≠ [] → s.(a_queue) k ≠ [] → best_ok bid (MkASide (<[k := q]> s.(a_queue)) s.(a_best)).
Proof.
  intros [[E H]|(Hr & Hne & Hb)] Hq Hk; [by rewrite H in Hk|]. right. cbn. split; [done|].
  split.
  - unfold insert, fn_insert. by case_decide.
  - intros k'. unfold insert, fn_insert. case_decide; [intros _; subst; by apply Hb | apply Hb].
Qed.

(** Emptying a level other than the best. *)
Lemma best_ok_delete bid s k :
  best_ok bid s → s.(a_best) ≠ k → best_ok bid (MkASide (<[k := []]> s.(a_queue)) s.(a_best)).
Proof.
  intros [[E H]|(Hr & Hne & Hb)] Hk.
  - left. split; [done|]. intros k'. cbn. unfold insert, fn_insert. by case_decide.
  - right. cbn. split; [done|]. split.
    + by rewrite fn_lookup_insert_ne.
    + intros k'. unfold insert, fn_insert. case_decide; [done | apply Hb].
Qed.

(** ** Sweeping the maker side *)

Lemma crosses_worse bid p k k' :
  (if bid : bool then k' <= k else k <= k') →
  crosses bid (level_price k') p = true → crosses bid (level_price k) p = true.
Proof. unfold crosses, level_price. destruct bid; lia. Qed.

Lemma visible_cons bid s k path :
  k :: path = visible bid s → s.(a_best) = k ∧ k ≠ NUM_BOOK_LEVELS ∧ path = shown_levels bid s.(a_queue) k.
Proof.
  unfold visible. destruct (a_best s =? NUM_BOOK_LEVELS) eqn:E; [done|].
  intros [= -> ->]. split; [done|]. split; [lia | done].
Qed.

Lemma visible_nil bid V next s : [] = visible bid s → side_ok bid V next s → ∀ k, s.(a_queue) k = [].
Proof.
  unfold visible. destruct (a_best s =? NUM_BOOK_LEVELS) eqn:E; [|done]. intros _ HS.
  destruct (so_best _ _ _ _ HS) as [[_ H]|(Hr & _)]; [done | lia].
Qed.

(** The path that remains once the best level is emptied. *)
Lemma visible_emptied bid queue k :
  0 <= k < NUM_BOOK_LEVELS →
  let queue' := <[k := []]> queue in
  shown_levels bid queue k = visible bid (MkASide queue' (next_best bid queue' k)) ∧
  default NUM_BOOK_LEVELS (head (shown_levels bid queue k)) = next_best bid queue' k.
Proof.
  intros Hk queue'. rewrite visible_next by lia. unfold queue'.
  rewrite next_best_insert, shown_levels_insert by lia. done.
Qed.

Section sweep_ok.
Context (bid : bool) (price : Price_t) (total : Volume_t) (order_id client_id : Id_t) (now : Time_t).
Context (V next : Z) (HV : 0 <= V < 2 ^ 32).

(** What a sweep leaves: a well-formed side with no orders where there were
    none and, when the taker is not filled, none that crosses its price. *)
Lemma sweep_ok path queue incoming evs queue' path' rest :
  let s := MkASide queue (default NUM_BOOK_LEVELS (head path)) in
  side_ok bid V next s → path = visible bid s → 0 <= incoming →
  sweep bid price total order_id client_id now path queue incoming = (evs, queue', path', rest) →
  side_ok bid V next (MkASide queue' (default NUM_BOOK_LEVELS (head path'))) ∧
  0 <= rest <= incoming ∧
  (∀ k, queue' k ≠ [] → queue k ≠ []) ∧
  (0 < rest → ∀ k, queue' k ≠ [] → crosses bid (level_price k) price = false).
Proof.
  revert queue incoming evs. induction path as [|k path IH]; intros queue incoming evs s HS Hpath Hi;
    cbn [sweep].
  { intros [= <- <- <- <-]. split; [done|]. split; [lia|]. split; [done|]. intros _ k Hk.
    by destruct Hk; apply (visible_nil _ _ _ _ Hpath HS). }
  destruct (visible_cons _ _ _ _ Hpath) as (_ & Hk & Hp). cbn in Hp.
  destruct (so_best _ _ _ _ HS) as [[E _]|(Hr & Hne & Hb)]; cbn in *; [done|].
  destruct (incoming <=? 0) eqn:E0; [intros [= <- <- <- <-]; split; [done | split; [lia | split; [done | lia]]]|].
  destruct (crosses bid (level_price k) price) eqn:Ec; cbn.
  2:{ intros [= <- <- <- <-]. split; [done|]. split; [lia|]. split; [done|]. intros _ k' Hk'.
      destruct (crosses bid (level_price k') price) eqn:Ec'; [|done].
      apply (crosses_worse bid price k k') in Ec'; [congruence | by apply Hb]. }
  destruct (fill_queue incoming (queue k)) as [[ts q] lft] eqn:EF.
  pose proof (so_queue _ _ _ _ HS k) as HQ.
  pose proof (fill_queue_ok _ _ _ _ _ _ _ _ _ HQ EF) as HQ'.
  pose proof (fill_queue_rest _ _ _ _ _ (λ o, queue_ok_remaining _ o HQ) Hi EF) as Hl.
  destruct q as [|o q].
  - destruct (sweep bid price total order_id client_id now path _ lft) as [[[evs1 queue1] path1] rest1] eqn:ES.
    intros [= <- -> -> ->].
    destruct (visible_emptied bid queue k Hr) as [E1 E2]. rewrite <- Hp in E1, E2.
    apply IH in ES as (HS' & Hr' & Hne' & Hc').
    + split; [done|]. split; [lia|]. split; [|done]. intros k' Hk'. specialize (Hne' k' Hk').
      unfold insert, fn_insert in Hne'. by case_decide.
    + rewrite E2. apply (side_ok_advance bid V next s k HS); done || lia.
    + by rewrite E2.
    + lia.
  - intros [= <- <- <- <-]. apply fill_queue_left in EF. cbn. split; [|split; [lia|split; [|lia]]].
    + eapply (side_ok_insert _ _ _ s); [done | done | done |].
      by apply (best_ok_insert bid s k (o :: q) (so_best _ _ _ _ HS)).
    + intros k'. by apply insert_nonempty.
Qed.
End sweep_ok.

Lemma visible_head bid s : best_ok bid s → default NUM_BOOK_LEVELS (head (visible bid s)) = s.(a_best).
Proof.
  intros H. unfold visible. destruct (a_best s =? NUM_BOOK_LEVELS) eqn:E; cbn; lia.
Qed.

Lemma a_match_ok bid V next s price quantity id client now evs s' rest :
  side_ok bid V next s → 0 <= V < 2 ^ 32 → 0 <= quantity →
  a_match bid s price quantity id client now = (evs, s', rest) →
  side_ok bid V next s' ∧ 0 <= rest <= quantity ∧
  (∀ k, s'.(a_queue) k ≠ [] → s.(a_queue) k ≠ []) ∧
  (0 < rest → ∀ k, s'.(a_queue) k ≠ [] → crosses bid (level_price k) price = false).
Proof.
  intros HS HV Hq. unfold a_match. destruct (sweep _ _ _ _ _ _ _ _ _) as [[[evs1 queue] path] rest1] eqn:E.
  intros [= <- <- <-]. pose proof (visible_head bid s (so_best _ _ _ _ HS)) as Hh.
  eapply sweep_ok in E; [exact E | done | rewrite Hh; by destruct s | rewrite Hh; by destruct s | done].
Qed.

(** ** Steps *)

Lemma a_rest_best bid s o :
  best_ok bid s → 0 <= price_level (od_price o) < NUM_BOOK_LEVELS → best_ok bid (a_rest bid s o).
Proof.
  intros HB Hk. unfold a_rest. set (k := price_level _) in *. right. cbn.
  assert ((<[k := a_queue s k ++ [o]]> (a_queue s)) k ≠ []) as Hne
    by (rewrite fn_lookup_insert; by destruct (a_queue s k)).
  destruct HB as [[E H]|(Hr & Hb0 & Hb)].
  - unfold improves. rewrite E, Z.eqb_refl. cbn. split; [done|]. split; [done|].
    intros k'. unfold insert, fn_insert. case_decide; [intros _; subst; by destruct bid|].
    by rewrite H.
  - destruct (improves bid k (a_best s)) eqn:Ei; unfold improves in Ei;
      (split; [done|]; split; [|intros k'; unfold insert, fn_insert; case_decide as Ek;
         [intros _; destruct bid; lia | intros Hk'; specialize (Hb k' Hk'); destruct bid; lia]]).
    + done.
    + unfold insert, fn_insert. case_decide; [by destruct (a_queue s k) | done].
Qed.

Lemma a_rest_ok bid V next s o :
  side_ok bid V next s → od_order_id o = next → 0 <= od_remaining o →
  0 <= price_level (od_price o) < NUM_BOOK_LEVELS → good_data bid (price_level (od_price o)) o →
  side_ok bid (V + od_remaining o) (next + 1) (a_rest bid s o).
Proof.
  intros HS Hid Hr Hk Hg. eapply (side_ok_insert _ _ _ s); [|done| |].
  - eapply side_ok_mono; [done | lia | lia].
  - apply queue_ok_snoc; [apply HS | done | done].
  - apply a_rest_best; [apply HS | done].
Qed.

(** The order [submit_order] queues. *)
Lemma submitted_good client id price quantity lft is_bid :
  MINIMUM_BID <= price <= MAXIMUM_ASK → 0 < lft <= quantity → quantity < 2 ^ 32 →
  good_data is_bid (price_level price)
    (MkOrderData client id price quantity lft (quantity - lft) is_bid).
Proof. intros. split; cbn; try lia; [unfold level_price, price_level; lia | done]. Qed.

Lemma price_level_range price :
  MINIMUM_BID <= price <= MAXIMUM_ASK → 0 <= price_level price < NUM_BOOK_LEVELS.
Proof. rewrite num_book_levels_val. unfold price_level, MINIMUM_BID, MAXIMUM_ASK. lia. Qed.

Lemma book_ok_mono V V' A : book_ok V A → V <= V' → book_ok V' A.
Proof. intros [HS HU] ?. split; [|done]. intros bid. eapply side_ok_mono; [done | done | lia]. Qed.

Lemma book_ok_sides V A is_bid s s' next :
  side_ok is_bid V next s → side_ok (negb is_bid) V next s' →
  (∀ k k', s.(a_queue) k ≠ [] → s'.(a_queue) k' ≠ [] → if is_bid then k < k' else k' < k) →
  book_ok V (a_put_side (a_put_side (MkABook (a_bids A) (a_asks A) next) (negb is_bid) s') is_bid s).
Proof.
  intros HS HS' HU. split.
  - intros bid. destruct is_bid, bid; done.
  - intros k k'. destruct is_bid; cbn; intros H1 H2; [by apply HU | by apply (HU k' k)].
Qed.

Lemma submit_ok V A price quantity is_bid client req now now_match now_add A' evs :
  book_ok V A → 0 <= V → 0 <= quantity → V + quantity < 2 ^ 32 →
  0 <= A.(a_next_id) → A.(a_next_id) + 1 < 2 ^ 32 →
  a_submit A price quantity is_bid client req now now_match now_add = (A', evs) →
  book_ok (V + quantity) A'.
Proof.
  intros HB HV Hq HVq Hid0 Hid. unfold a_submit.
  destruct (quantity =? 0); [intros [= <- _]; eapply book_ok_mono; [done | lia]|].
  destruct ((price <? MINIMUM_BID) || (MAXIMUM_ASK <? price)) eqn:Ep;
    [intros [= <- _]; eapply book_ok_mono; [done | lia]|].
  rewrite u32_small by lia.
  destruct (a_match _ _ _ _ _ _ _) as [[evs1 maker] lft] eqn:EM.
  pose proof (bo_side _ _ HB is_bid) as HS.
  eapply a_match_ok in EM as (HM & Hl & Hne & Hc); [| apply (bo_side _ _ HB) | lia | lia].
  eapply (side_ok_mono _ _ _ _ (V + quantity) (a_next_id A + 1)) in HM; [|lia..].
  assert (∀ k k', a_queue (a_side A is_bid) k ≠ [] → a_queue maker k' ≠ [] →
    if is_bid then k < k' else k' < k) as HU.
  { intros k k' H1 H2%Hne. destruct is_bid; by apply (bo_uncrossed _ _ HB). }
  assert (book_ok (V + quantity) (a_put_side
    (MkABook (a_bids A) (a_asks A) (a_next_id A + 1)) (negb is_bid) maker)) as Hrest.
  { replace (a_put_side _ (negb is_bid) maker) with
      (a_put_side (a_put_side (MkABook (a_bids A) (a_asks A) (a_next_id A + 1)) (negb is_bid) maker)
         is_bid (a_side A is_bid)) by (by destruct is_bid).
    apply book_ok_sides; [eapply side_ok_mono; [done | lia | lia] | done | done]. }
  destruct (lft <=? 0) eqn:El; [by intros [= <- _]|].
  destruct (MAX_ORDERS <=? _); [by intros [= <- _]|]. intros [= <- _].
  pose proof (price_level_range price ltac:(lia)) as Hk.
  apply book_ok_sides; [| done |].
  - eapply side_ok_mono; [apply a_rest_ok; [exact HS | done | cbn; lia | done |]
      | cbn; lia | lia]. apply submitted_good; lia.
  - intros k k'. cbn. unfold insert, fn_insert. case_decide; [|apply HU].
    intros _ H2. subst k. apply Hc in H2; [|lia]. unfold crosses, level_price, price_level in *.
    destruct is_bid; cbn in H2; lia.
Qed.

(** The request amends the only order of a level down to what it has traded,
    and the level is not the best one of its side. *)
Definition closes_off_best (A : ABook) (r : OrderBook.Request) : Prop :=
  ∃ req bid k o, r = OrderBook.Amend (od_client_id o) req (od_order_id o) (od_cumulative o) ∧
    resting A bid k [] o [] ∧ k ≠ (a_side A bid).(a_best).

(** The volume a request can add to a level. *)
Definition volume_of (r : OrderBook.Request) : Z :=
  match r with OrderBook.Submit _ quantity _ _ _ => quantity | _ => 0 end.

(** Replacing the queues of a side by queues with orders at no other level. *)
Lemma book_ok_put V A bid s :
  book_ok V A → side_ok bid V A.(a_next_id) s →
  (∀ k, s.(a_queue) k ≠ [] → (a_side A bid).(a_queue) k ≠ []) →
  book_ok V (a_put_side A bid s).
Proof.
  intros [HS HU] Hs Hne. split.
  - intros bid'. replace (a_next_id (a_put_side A bid s)) with (a_next_id A) by (by destruct bid).
    destruct (decide (bid' = bid)) as [->|Hb]; [by destruct bid|].
    specialize (HS bid'). by destruct bid, bid'.
  - intros k k'. destruct bid; cbn in *; intros H1 H2; apply HU; auto.
Qed.

(** Removing an order, when the best index then moves the way it must. *)
Lemma removed_ok V A bid k before o after best :
  book_ok V A → 0 <= V < 2 ^ 32 → resting A bid k before o after →
  let queue := <[k := before ++ after]> (a_side A bid).(a_queue) in
  best = (if decide (before ++ after = [] ∧ (a_side A bid).(a_best) = k)
          then next_best bid queue k else (a_side A bid).(a_best)) →
  book_ok V (a_put_side A bid (MkASide queue best)).
Proof.
  intros HB HV [Hk Hq] queue Hbest. pose proof (bo_side _ _ HB bid) as HS.
  assert (a_queue (a_side A bid) k ≠ []) as Hne by (rewrite Hq; by destruct before).
  apply book_ok_put; [done | |].
  - subst best. destruct (decide _) as [[E Ek]|Hno].
    + unfold queue. rewrite E. apply side_ok_advance; done || lia.
    + eapply (side_ok_insert _ _ _ (a_side A bid)); [done | done | |].
      * eapply queue_ok_delete. rewrite <- Hq. apply HS.
      * destruct (before ++ after) as [|x q] eqn:E.
        -- apply best_ok_delete; [apply HS | tauto].
        -- apply best_ok_insert; [apply HS | done..].
  - intros k'. by apply insert_nonempty.
Qed.

(** [cancel_order] moves it that way. *)
Lemma cancelled_ok V A bid k before o after :
  book_ok V A → 0 <= V < 2 ^ 32 → resting A bid k before o after →
  let queue := <[k := before ++ after]> (a_side A bid).(a_queue) in
  book_ok V (a_put_side A bid
    (MkASide queue (best_after_cancel bid queue k (a_side A bid).(a_best)))).
Proof.
  intros HB HV Hr queue. eapply removed_ok; [done | lia | done |].
  unfold best_after_cancel, queue. rewrite fn_lookup_insert.
  destruct (before ++ after) eqn:E; [|by rewrite decide_False by naive_solver].
  destruct (a_best (a_side A bid) =? k) eqn:Ek.
  - rewrite decide_True by (split; [done | lia]). f_equal. lia.
  - rewrite decide_False by lia. done.
Qed.

(** Every step keeps the invariant, with the volume submitted so far. *)
Lemma step_ok V A now now_match now_add r A' evs :
  book_ok V A → 0 <= V → 0 <= volume_of r → V + volume_of r < 2 ^ 32 →
  0 <= A.(a_next_id) → A.(a_next_id) + 1 < 2 ^ 32 →
  book_step A now now_match now_add r A' evs → ~ closes_off_best A r →
  book_ok (V + volume_of r) A'.
Proof.
  intros HB HV Hr HVr Hid0 Hid Hs Hoff.
  destruct Hs as [price quantity is_bid client req a' evs' E | | |
    client req id is_bid k before o after queue Hrest Ho Hc -> | | | | |
    client req id quantity is_bid k before o after queue Hrest Ho Hc Hqty -> |
    client req id is_bid k before o after queue Hrest Ho Hc ->]; cbn [volume_of] in *;
    rewrite ?Z.add_0_r in *; try done.
  - by eapply submit_ok.
  - by eapply cancelled_ok; [|lia|].
  - pose proof (bo_side _ _ HB is_bid) as HS. destruct Hrest as [Hk Hq].
    pose proof (so_queue _ _ _ _ HS k) as HQ. rewrite Hq in HQ.
    pose proof (qo_good _ _ _ _ _ HQ o ltac:(set_solver)) as Hg.
    assert (queue_ok is_bid V (a_next_id A) k (before ++ with_quantity o quantity :: after)) as HQ'.
    { eapply queue_ok_replace; [done | | done |].
      - destruct Hg. split; cbn; done || lia.
      - destruct Hg. cbn. lia. }
    assert (before ++ with_quantity o quantity :: after ≠ []) as Hne by (by destruct before).
    assert (a_queue (a_side A is_bid) k ≠ []) as Hne0 by (rewrite Hq; by destruct before).
    apply book_ok_put; [done | |].
    + unfold best_after_amend. rewrite fn_lookup_insert.
      pose proof (proj2 (queue_ok_shown _ HQ' ltac:(lia)) Hne).
      rewrite (proj2 (Z.eqb_neq _ _)) by lia.
      apply side_ok_insert; [done | done | done | by apply best_ok_insert; [apply HS|..]].
    + intros k'. by apply insert_nonempty.
  - eapply removed_ok; [done | lia | done |]. unfold best_after_amend. rewrite fn_lookup_insert.
    assert (queue_ok is_bid V (a_next_id A) k (before ++ after)) as HQ.
    { destruct Hrest as [Hk Hq]. eapply queue_ok_delete. rewrite <- Hq. apply (bo_side _ _ HB). }
    pose proof (queue_ok_shown _ HQ ltac:(lia)) as Hshown.
    destruct (before ++ after) eqn:E.
    + apply app_eq_nil in E as [-> ->]. destruct (decide (a_best (a_side A is_bid) = k)) as [Ek|Ek].
      * rewrite decide_True by done. cbn. by rewrite Ek.
      * destruct Hoff. exists req, is_bid, k, o. subst. auto.
    + rewrite decide_False by naive_solver. rewrite (proj2 (Z.eqb_neq _ _)); [done|].
      specialize (proj2 Hshown ltac:(done)). lia.
Qed.
