(* ===== verification/BookPriority.v ===== *)
(** Price-time priority: on a book that satisfies the invariant, the trades of a
    submission are those of filling one single queue, the resting orders whose
    price crosses, best price first and oldest first within a price. *)

From stdpp Require Import functions sorting.
From S2P Require Import Prelude Types OrderBook BookSpec BookLinks BookView BookRep BookMatch BookInvariant.

(** All levels, most aggressive first. *)
Definition all_levels (bid : bool) : list Z :=
  if bid then reverse (seqZ 0 NUM_BOOK_LEVELS) else seqZ 0 NUM_BOOK_LEVELS.

(** The resting orders an incoming price can trade with, in priority order. *)
Definition priority_line (bid : bool) (s : ASide) (price : Price_t) : list OrderData :=
  concat (map s.(a_queue)
    (filter (λ k, crosses bid (level_price k) price = true) (all_levels bid))).

Definition is_trade (e : Event) : bool :=
  match e with on_trade _ _ _ _ _ _ _ _ => true | _ => false end.
Definition trades_of (evs : list Event) : list Event := filter (λ e, is_trade e = true) evs.

Lemma trades_of_app evs evs' : trades_of (evs ++ evs') = trades_of evs ++ trades_of evs'.
Proof. apply filter_app. Qed.

Lemma trades_of_trades total id client now ts :
  trades_of (map (trade_event total id client now) ts) = map (trade_event total id client now) ts.
Proof.
  unfold trades_of. induction ts as [|t ts IH]; [done|]. cbn [map].
  rewrite filter_cons_True by done. by rewrite IH.
Qed.

(** ** Filling queues one after the other *)

Lemma fill_queue_nonpos incoming q : incoming <= 0 → fill_queue incoming q = ([], q, incoming).
Proof.
  intros H. destruct q; [done|]. cbn. by rewrite (proj2 (Z.leb_le _ _) H).
Qed.

Lemma fill_queue_app incoming q1 q2 :
  fill_queue incoming (q1 ++ q2) =
    let '(ts1, r1, l1) := fill_queue incoming q1 in
    match r1 with
    | [] => let '(ts2, r2, l2) := fill_queue l1 q2 in (ts1 ++ ts2, r2, l2)
    | _ :: _ => (ts1, r1 ++ q2, l1)
    end.
Proof.
  revert incoming. induction q1 as [|o q1 IH]; intros incoming; cbn [app fill_queue].
  { by destruct (fill_queue incoming q2) as [[]]. }
  destruct (incoming <=? 0); [done|]. destruct (od_remaining o <=? incoming); [|done].
  rewrite IH. destruct (fill_queue _ q1) as [[ts1 [|x r1]] l1]; [|done].
  by destruct (fill_queue l1 q2) as [[]].
Qed.

Section sweep_trades.
Context (bid : bool) (price : Price_t) (total : Volume_t) (order_id client_id : Id_t) (now : Time_t).
Context (V next : Z) (HV : 0 <= V < 2 ^ 32).

Abbreviation crossing := (λ k, crosses bid (level_price k) price = true).

Lemma shown_worse queue k k' :
  0 <= k < NUM_BOOK_LEVELS → k' ∈ shown_levels bid queue k →
  k' ≠ k ∧ (if bid then k' <= k else k <= k').
Proof.
  intros Hk [_ Hin]%list_elem_of_filter. rewrite worse_levels_spec in Hin by lia.
  destruct bid; lia.
Qed.

(** The trades of a sweep along the visible levels. *)
Lemma sweep_trades path queue incoming evs queue' path' rest :
  let s := MkASide queue (default NUM_BOOK_LEVELS (head path)) in
  side_ok bid V next s → path = visible bid s → 0 <= incoming →
  sweep bid price total order_id client_id now path queue incoming = (evs, queue', path', rest) →
  let '(ts, _, lft) := fill_queue incoming (concat (map queue (filter crossing path))) in
  trades_of evs = map (trade_event total order_id client_id now) ts ∧ rest = lft.
Proof.
  revert queue incoming evs. induction path as [|k path IH]; intros queue incoming evs s HS Hpath Hi;
    cbn [sweep]; [by intros [= <- <- <- <-]|].
  destruct (visible_cons _ _ _ _ Hpath) as (_ & Hk & Hp). cbn in Hp.
  destruct (so_best _ _ _ _ HS) as [[E _]|(Hr & Hne & Hb)]; cbn in E || cbn in Hr, Hne, Hb; [done|].
  destruct (incoming <=? 0) eqn:E0.
  { intros [= <- <- <- <-]. by rewrite fill_queue_nonpos by lia. }
  rewrite filter_cons. destruct (crosses bid (level_price k) price) eqn:Ec; cbn [negb].
  2:{ intros [= <- <- <- <-]. rewrite decide_False by done.
      rewrite filter_none; [done|]. intros k' Hk'. rewrite Hp in Hk'. apply shown_worse in Hk' as [_ Hw]; [|done].
      intros Ec'. apply (crosses_worse bid price k k' Hw) in Ec'. congruence. }
  rewrite decide_True by done. cbn [map concat]. rewrite fill_queue_app.
  destruct (fill_queue incoming (queue k)) as [[ts q] lft] eqn:EF.
  pose proof (so_queue _ _ _ _ HS k) as HQ.
  pose proof (fill_queue_rest _ _ _ _ _ (λ o, queue_ok_remaining _ o HQ) Hi EF) as Hl.
  destruct q as [|o q].
  - destruct (sweep bid price total order_id client_id now path _ lft) as [[[evs1 queue1] path1] rest1] eqn:ES.
    intros [= <- -> -> ->]. destruct (visible_emptied bid queue k Hr) as [E1 E2].
    rewrite <- Hp in E1, E2.
    assert (map (<[k := []]> queue) (filter crossing path) = map queue (filter crossing path)) as Hm.
    { apply map_ext_in. intros k' [_ Hk']%list_elem_of_In%list_elem_of_filter.
      apply fn_lookup_insert_ne. rewrite Hp in Hk'. by apply shown_worse in Hk' as [? _]. }
    apply IH in ES; [|rewrite E2; apply (side_ok_advance bid V next s k HS); done || lia
      | by rewrite E2 | lia].
    rewrite Hm in ES. destruct (fill_queue lft _) as [[ts2 r2] l2]. destruct ES as [ES ->].
    unfold update_event. rewrite map_app, trades_of_app, trades_of_app, trades_of_trades, ES.
    split; [|done]. cbn. by rewrite app_nil_r.
  - intros [= <- <- <- <-]. rewrite trades_of_app, trades_of_trades. cbn. by rewrite app_nil_r.
Qed.
End sweep_trades.

(** ** The visible levels are all the levels with orders *)

Lemma best_ok_unique bid queue best best' :
  best_ok bid (MkASide queue best) → best_ok bid (MkASide queue best') → best = best'.
Proof.
  intros [[E1 H1]|(_ & N1 & B1)] [[E2 H2]|(_ & N2 & B2)]; cbn in *.
  - congruence.
  - by rewrite H1 in N2.
  - by rewrite H2 in N1.
  - specialize (B1 _ N2). specialize (B2 _ N1). destruct bid; lia.
Qed.

Lemma visible_all bid V next s :
  side_ok bid V next s → V < 2 ^ 32 →
  visible bid s = filter (λ k, 0 < queue_total (s.(a_queue) k)) (all_levels bid).
Proof.
  intros HS HV. set (k := if bid then NUM_BOOK_LEVELS else -1).
  assert (worse_levels bid k = all_levels bid) as Hall.
  { unfold worse_levels, all_levels, k. destruct bid; [done|]. by rewrite Z.sub_0_r. }
  assert (-1 <= k <= NUM_BOOK_LEVELS) as Hk by (unfold k; rewrite num_book_levels_val; destruct bid; lia).
  assert (best_ok bid (MkASide (a_queue s) (next_best bid (a_queue s) k))) as HB.
  { apply next_best_ok; [intros k'; by eapply side_ok_shown | done |].
    intros k' Hk'%(so_range _ _ _ _ HS). apply worse_levels_spec; [done|]. split; [done|].
    unfold k. destruct bid; lia. }
  destruct s as [queue best]. cbn in *.
  rewrite (best_ok_unique _ _ _ _ (so_best _ _ _ _ HS) HB), visible_next by done.
  unfold shown_levels. by rewrite Hall.
Qed.

Lemma concat_nonempty (queue : Z → list OrderData) (P Q : Z → Prop)
    `{!∀ k, Decision (P k), !∀ k, Decision (Q k)} l :
  (∀ k, ¬ Q k → queue k = []) →
  concat (map queue (filter P (filter Q l))) = concat (map queue (filter P l)).
Proof.
  intros Hempty. induction l as [|k l IH]; [done|]. rewrite !filter_cons.
  destruct (decide (Q k)) as [HQ|HQ]; [rewrite filter_cons|]; case_decide; cbn; rewrite ?IH; try done.
  by rewrite Hempty.
Qed.

(** The trades of matching against a side. *)
Lemma a_match_trades bid V next s price quantity id client now evs s' rest :
  side_ok bid V next s → 0 <= V < 2 ^ 32 → 0 <= quantity →
  a_match bid s price quantity id client now = (evs, s', rest) →
  let '(ts, _, lft) := fill_queue quantity (priority_line bid s price) in
  trades_of evs = map (trade_event quantity id client now) ts ∧ rest = lft.
Proof.
  intros HS HV Hq. unfold a_match. destruct (sweep _ _ _ _ _ _ _ _ _) as [[[evs1 queue] path] rest1] eqn:E.
  intros [= <- <- <-]. pose proof (visible_head bid s (so_best _ _ _ _ HS)) as Hh.
  eapply sweep_trades in E; [| done | rewrite Hh; by destruct s | rewrite Hh; by destruct s | done].
  assert (∀ k, ¬ 0 < queue_total (a_queue s k) → a_queue s k = []) as Hempty.
  { intros k Hk. destruct (a_queue s k) eqn:Eq; [done|]. destruct Hk. rewrite <- Eq.
    eapply side_ok_shown; [done | lia | by rewrite Eq]. }
  rewrite (visible_all bid V next s HS) in E by lia. by rewrite concat_nonempty in E.
Qed.

(** ** What the trades of a queue look like *)

(** A fair fill of [line] by [quantity], leaving [lft] of it: makers are taken
    from the front, each but the last is used up, each trade is positive, is at
    the maker's price and accounts for the maker's and the taker's quantity. *)
Record fair_fill (quantity : Volume_t) (line : list OrderData) (ts : list Trade) (lft : Volume_t)
    : Prop := MkFair {
  ff_prefix : ∃ rest, map od_order_id line = map (λ t, od_order_id (tr_maker t)) ts ++ rest ∧
                      (0 < lft → rest = []);
  ff_last t ts1 ts2 : ts = ts1 ++ t :: ts2 → ts2 ≠ [] → od_remaining (tr_maker t) = 0;
  ff_trade t : t ∈ ts → 0 < tr_quantity t ∧ 0 <= tr_left t ∧
    ∃ o, o ∈ line ∧ tr_maker t = fill o (tr_quantity t) ∧ tr_quantity t <= od_remaining o;
  ff_total : traded ts + lft = quantity;
  ff_left t ts1 ts2 : ts = ts1 ++ t :: ts2 → tr_left t + tr_quantity t + traded ts1 = quantity;
  ff_rest : 0 <= lft
}.

Lemma fair_fill_cons o line quantity ts lft :
  0 < od_remaining o <= quantity →
  fair_fill (quantity - od_remaining o) line ts lft → (quantity - od_remaining o = 0 → ts = []) →
  fair_fill quantity (o :: line)
    (MkTrade (fill o (od_remaining o)) (od_remaining o) (quantity - od_remaining o) :: ts) lft.
Proof.
  intros Hr [(rest & Hp & Hrest) Hl Ht Hs Hlf H0] Hz. split.
  - exists rest. split; [|done]. cbn. by rewrite Hp.
  - intros t [|t1 ts1] ts2 [= Et E] Hne; [subst t; cbn; lia|]. by eapply Hl.
  - intros t [->|Hin]%elem_of_cons.
    + cbn. split; [lia|]. split; [lia|]. exists o. split; [set_solver|]. split; [done | lia].
    + destruct (Ht t Hin) as (? & ? & o' & ? & ?). split; [done|]. split; [done|]. exists o'. set_solver.
  - rewrite traded_cons. cbn [tr_quantity]. lia.
  - intros t [|t1 ts1] ts2 [= Et E]; [subst t; cbn; lia|]. subst t1. rewrite traded_cons.
    cbn [tr_quantity]. specialize (Hlf t ts1 ts2 E). lia.
  - done.
Qed.

Lemma fill_queue_fair quantity line ts line' lft :
  (∀ o, o ∈ line → 0 < od_remaining o) → 0 <= quantity →
  fill_queue quantity line = (ts, line', lft) → fair_fill quantity line ts lft.
Proof.
  assert (∀ q line, 0 <= q → (q <= 0 ∨ line = []) → fair_fill q line [] q) as Hnone.
  { intros q l Hq Hor. split.
    - exists (map od_order_id l). split; [done|]. intros. destruct Hor as [|Hl]; [lia | by rewrite Hl].
    - by intros t [].
    - set_solver.
    - cbn. lia.
    - by intros t [].
    - done. }
  revert quantity ts. induction line as [|o line IH]; intros quantity ts Hr Hq; cbn [fill_queue].
  { intros [= <- <- <-]. apply Hnone; auto. }
  destruct (quantity <=? 0) eqn:E0; [intros [= <- <- <-]; apply Hnone; lia|].
  pose proof (Hr o ltac:(set_solver)) as Ho.
  destruct (od_remaining o <=? quantity) eqn:E1.
  - destruct (fill_queue _ line) as [[ts1 q1] rest1] eqn:EF. intros [= <- -> <-].
    apply fair_fill_cons; [lia | eapply IH; [set_solver | lia | done] |].
    intros Hz. rewrite fill_queue_nonpos in EF by lia. by injection EF.
  - intros [= <- <- <-]. split.
    + exists (map od_order_id line). split; [done | lia].
    + by intros t [|t1 [|]] ts2 [= Et <-].
    + intros t Ht%list_elem_of_singleton. subst t. cbn. split; [lia|]. split; [lia|].
      exists o. split; [set_solver|]. split; [done | lia].
    + cbn. lia.
    + intros t [|t1 [|]] ts2 [= <- E]; try done. cbn. lia.
    + lia.
Qed.

(** ** The priority line is sorted *)

Definition better_level (bid : bool) (k k' : Z) : Prop := if bid then k' < k else k < k'.

(** [o] is served before [o']: a better price, or the same price and an earlier
    arrival. *)
Definition served_before (bid : bool) (o o' : OrderData) : Prop :=
  better_level bid (od_price o) (od_price o') ∨
  od_price o = od_price o' ∧ od_order_id o < od_order_id o'.

Lemma seqZ_sorted i n : StronglySorted Z.lt (seqZ i (Z.of_nat n)).
Proof.
  induction n as [|n IH]; [constructor|]. rewrite seqZ_S. apply StronglySorted_app_2; [|done|].
  - intros x y Hx Hy%list_elem_of_singleton. apply elem_of_seqZ in Hx. lia.
  - repeat constructor.
Qed.

Lemma reverse_sorted (R : relation Z) l :
  StronglySorted R l → StronglySorted (flip R) (reverse l).
Proof.
  induction 1 as [|x l _ IH Hx]; [constructor|]. rewrite reverse_cons.
  apply StronglySorted_app_2; [|done | repeat constructor].
  intros a b Ha Hb%list_elem_of_singleton. subst b. rewrite elem_of_reverse in Ha.
  exact (proj1 (Forall_forall _ _) Hx a Ha).
Qed.

Lemma all_levels_sorted bid : StronglySorted (better_level bid) (all_levels bid).
Proof.
  unfold all_levels, better_level.
  replace NUM_BOOK_LEVELS with (Z.of_nat (Z.to_nat NUM_BOOK_LEVELS))
    by (rewrite num_book_levels_val; lia).
  destruct bid; [apply (reverse_sorted Z.lt)|]; apply seqZ_sorted.
Qed.

Lemma filter_sorted {A} (R : relation A) (P : A → Prop) `{!∀ x, Decision (P x)} l :
  StronglySorted R l → StronglySorted R (filter P l).
Proof.
  induction 1 as [|x l _ IH Hx]; [constructor|]. rewrite filter_cons. case_decide; [|done].
  constructor; [done|]. apply Forall_forall. intros y [_ Hy]%list_elem_of_filter.
  by apply (proj1 (Forall_forall _ _) Hx).
Qed.

Section lines.
Context {bid : bool} {V next : Z} {s : ASide}.
Hypothesis HS : side_ok bid V next s.

Lemma queue_price k o : o ∈ s.(a_queue) k → od_price o = level_price k.
Proof. intros Ho. apply (qo_good _ _ _ _ _ (so_queue _ _ _ _ HS k) o Ho). Qed.

Lemma queue_served k : StronglySorted (served_before bid) (s.(a_queue) k).
Proof.
  pose proof (so_queue _ _ _ _ HS k) as HQ. pose proof (qo_fifo _ _ _ _ _ HQ) as Hf.
  assert (∀ o, o ∈ a_queue s k → od_price o = level_price k) as Hp by (intros o; apply queue_price).
  clear HQ. unfold fifo in Hf. induction (a_queue s k) as [|o q IH]; [constructor|].
  cbn in Hf. inversion Hf as [|? ? Hs Hx]; subst. constructor; [apply IH; [done | set_solver]|].
  apply Forall_forall. intros o' Ho'. right. rewrite !Hp by set_solver. split; [done|].
  apply (proj1 (Forall_forall _ _) Hx). by apply list_elem_of_fmap_2.
Qed.

Lemma levels_served ks :
  StronglySorted (better_level bid) ks →
  StronglySorted (served_before bid) (concat (map s.(a_queue) ks)).
Proof.
  induction 1 as [|k ks _ IH Hk]; [constructor|]. cbn.
  apply StronglySorted_app_2; [|apply queue_served | done].
  intros o o' Ho Ho'. left. apply list_elem_of_In, in_concat in Ho' as (q & Hq & Ho').
  apply in_map_iff in Hq as (k' & <- & Hk'). apply list_elem_of_In in Ho', Hk'.
  rewrite (queue_price k o Ho), (queue_price k' o' Ho').
  pose proof (proj1 (Forall_forall _ _) Hk k' Hk') as Hb.
  unfold better_level, level_price in *. destruct bid; lia.
Qed.

(** The line holds exactly the resting orders that cross, in service order. *)
Lemma line_sorted price : StronglySorted (served_before bid) (priority_line bid s price).
Proof. apply levels_served, filter_sorted, all_levels_sorted. Qed.

Lemma line_members price o :
  o ∈ priority_line bid s price ↔
  ∃ k, o ∈ s.(a_queue) k ∧ crosses bid (od_price o) price = true.
Proof.
  unfold priority_line. rewrite list_elem_of_In, in_concat. split.
  - intros (q & Hq & Ho). apply in_map_iff in Hq as (k & <- & Hk).
    apply list_elem_of_In in Ho, Hk. apply list_elem_of_filter in Hk as [Hc _].
    exists k. by rewrite (queue_price k o Ho).
  - intros (k & Ho & Hc). exists (a_queue s k). split; [|by apply list_elem_of_In].
    apply in_map_iff. exists k. split; [done|]. apply list_elem_of_In, list_elem_of_filter.
    rewrite (queue_price k o Ho) in Hc. split; [done|].
    assert (0 <= k < NUM_BOOK_LEVELS) as Hk.
    { apply (so_range _ _ _ _ HS). intros E. rewrite E in Ho. set_solver. }
    unfold all_levels. destruct bid; rewrite ?elem_of_reverse, elem_of_seqZ; lia.
Qed.

Lemma line_remaining price o : o ∈ priority_line bid s price → 0 < od_remaining o.
Proof.
  intros (k & Ho & _)%line_members.
  by eapply queue_ok_remaining; [apply (so_queue _ _ _ _ HS k)|].
Qed.
End lines.

(** ** The trades of a submission *)

Lemma submit_trades V A price quantity is_bid client req now now_match now_add A' evs :
  book_ok V A → 0 <= V < 2 ^ 32 → 0 < quantity → MINIMUM_BID <= price <= MAXIMUM_ASK →
  a_submit A price quantity is_bid client req now now_match now_add = (A', evs) →
  let maker := negb is_bid in
  let line := priority_line maker (a_side A maker) price in
  ∃ ts lft, trades_of evs = map (trade_event quantity A.(a_next_id) client now_match) ts ∧
    fair_fill quantity line ts lft.
Proof.
  intros HB HV Hq Hp. unfold a_submit. destruct (quantity =? 0) eqn:Eq; [lia|].
  destruct ((price <? MINIMUM_BID) || (MAXIMUM_ASK <? price)) eqn:Ep; [lia|].
  destruct (a_match _ _ _ _ _ _ _) as [[evs1 s'] rest] eqn:EM. intros E. cbv zeta.
  set (maker := negb is_bid) in *. set (line := priority_line _ _ _).
  pose proof (bo_side _ _ HB maker) as HS.
  eapply a_match_trades in EM; [|exact HS | done | lia]. fold line in EM.
  destruct (fill_queue quantity line) as [[ts line'] lft] eqn:EF. destruct EM as [Et ->].
  exists ts, lft. split; [|exact (fill_queue_fair _ _ _ line' _ (line_remaining HS price) (Z.lt_le_incl _ _ Hq) EF)].
  rewrite <- Et. destruct (lft <=? 0); [by injection E as _ <-|].
  destruct (MAX_ORDERS <=? _); injection E as _ <-; rewrite trades_of_app; cbn; apply app_nil_r.
Qed.
