(* ===== verification/BookDebug.v ===== *)
(** The checks and listings of [order_book.cpp] that walk the linked lists:
    [_debug_check_level_invariant], [_debug_check_level_integrity],
    [_debug_print_orders], [print_side] and [print_book].  What they print is the list of
    what they read.  On a book that represents an abstract one, walking a level
    lists exactly its queue. *)

From stdpp Require Import functions.
From S2P Require Import Prelude Types OrderBook BookSpec BookLinks BookView BookRep BookMatch BookRefinement.
Import OrderBookSide.

Module Debug.
(** Enough for any list that visits a slot at most once. *)
Definition walk_fuel : nat := Z.to_nat MAX_ORDERS.

Section walks.
Context (s : OrderBookSide.t).

(** [while (cur) { ...; cur = cur->next_; }]: the orders it passes. *)
Fixpoint walk_orders (fuel : nat) (cur : option Z) : outcome (list OrderData) :=
  match cur with
  | None => Done []
  | Some i =>
      match fuel with
      | O => OutOfFuel
      | S fuel =>
          o ← get_order s i;
          rest ← walk_orders fuel o.(Order.next_);
          Done (order_data o :: rest)
      end
  end.

(** The orders of level [k], from [first_] on. *)
Definition level_orders (k : Z) : outcome (list OrderData) :=
  level ← get_level s k;
  walk_orders walk_fuel level.(PriceLevel.first_).

(** [sum_remaining] of [_debug_check_level_invariant].  At most [MAX_ORDERS]
    32-bit terms do not leave [int64_t]. *)
Fixpoint sum_remaining (fuel : nat) (cur : option Z) (sum : Z) : outcome Z :=
  match cur with
  | None => Done sum
  | Some i =>
      match fuel with
      | O => OutOfFuel
      | S fuel =>
          o ← get_order s i;
          sum_remaining fuel o.(Order.next_) (sum + o.(Order.quantity_remaining_))
      end
  end.

(** The assertion of [_debug_check_level_invariant] on level [k]. *)
Definition debug_check_level_invariant (k : Z) : outcome bool :=
  level ← get_level s k;
  sum ← sum_remaining walk_fuel level.(PriceLevel.first_) 0;
  Done (sum =? level.(PriceLevel.total_quantity_)).

(** The list of one level in [_debug_print_orders]: the orders printed, and
    whether it ended without the LINK ERROR break. *)
Fixpoint print_orders (fuel : nat) (cur : option Z) : outcome (list OrderData * bool) :=
  match cur with
  | None => Done ([], true)
  | Some i =>
      match fuel with
      | O => OutOfFuel
      | S fuel =>
          o ← get_order s i;
          linked ← match o.(Order.next_) with
                   | Some n => no ← get_order s n; Done (bool_decide (no.(Order.previous_) = Some i))
                   | None => Done true
                   end;
          if linked : bool then
            '(rest, ok) ← print_orders fuel o.(Order.next_);
            Done (order_data o :: rest, ok)
          else Done ([order_data o], false)
      end
  end.

(** [OrderBookSide::print_side] from level [i] on, with [n] levels left. *)
Fixpoint print_side (n : nat) (i : Z) : outcome (list (Price_t * list OrderData)) :=
  match n with
  | O => Done []
  | S n =>
      level ← get_level s i;
      if level.(PriceLevel.total_quantity_) =? 0 then print_side n (i + 1)
      else
        line ← walk_orders walk_fuel level.(PriceLevel.first_);
        rest ← print_side n (i + 1);
        Done ((level.(PriceLevel.price_), line) :: rest)
  end.
End walks.

(** [OrderBook::print_book]: the bids, then the asks, from the first level on. *)
Definition print_book (b : OrderBook.t) : outcome (list (Price_t * list OrderData) * list (Price_t * list OrderData)) :=
  bids ← print_side b.(OrderBook.bids) (Z.to_nat NUM_BOOK_LEVELS) 0;
  asks ← print_side b.(OrderBook.asks) (Z.to_nat NUM_BOOK_LEVELS) 0;
  Done (bids, asks).

(** The assertion of [_debug_check_level_integrity]; it holds vacuously when a
    side is empty. *)
Definition debug_check_level_integrity (b : OrderBook.t) : outcome bool :=
  let bi := b.(OrderBook.bids).(best_price_index_) in
  let ai := b.(OrderBook.asks).(best_price_index_) in
  if bi =? NUM_BOOK_LEVELS then Done true
  else if ai =? NUM_BOOK_LEVELS then Done true
  else
    bid ← get_level b.(OrderBook.bids) bi;
    ask ← get_level b.(OrderBook.asks) ai;
    Done (bid.(PriceLevel.price_) <? ask.(PriceLevel.price_)).
End Debug.
Import Debug.

(** ** Walking a represented level *)

Section walking.
Context (s : OrderBookSide.t) (D : Z → OrderData).
Hypothesis Hpool : ∀ i, 0 <= i < MAX_ORDERS →
  get_order s i = Done (slot_at s i) ∧ order_data (slot_at s i) = D i.

Lemma walk_orders_ok l prev fuel :
  dseg (slot_at s) prev l None → (∀ i, i ∈ l → 0 <= i < MAX_ORDERS) → (length l <= fuel)%nat →
  walk_orders s fuel (head l) = Done (map D l).
Proof.
  revert prev fuel. induction l as [|i l IH]; intros prev fuel Hd Hr Hf; [by destruct fuel|].
  cbn in Hf. destruct fuel as [|fuel]; [lia|]. cbn. destruct Hd as (_ & Hn & Hd).
  destruct (Hpool i) as [-> <-]; [apply Hr; set_solver|]. cbn. rewrite Hn, head_or_none.
  rewrite (IH (Some i) fuel Hd); [done | set_solver | lia].
Qed.

Lemma sum_remaining_ok l prev fuel sum :
  dseg (slot_at s) prev l None → (∀ i, i ∈ l → 0 <= i < MAX_ORDERS) → (length l <= fuel)%nat →
  sum_remaining s fuel (head l) sum = Done (sum + queue_sum (map D l)).
Proof.
  revert prev fuel sum. induction l as [|i l IH]; intros prev fuel sum Hd Hr Hf;
    [destruct fuel; cbn; f_equal; lia|].
  cbn in Hf. destruct fuel as [|fuel]; [lia|]. cbn [head sum_remaining map].
  destruct Hd as (_ & Hn & Hd).
  destruct (Hpool i) as [-> <-]; [apply Hr; set_solver|]. run_bind.
  rewrite Hn, head_or_none, (IH (Some i) fuel _ Hd) by (lia || set_solver).
  rewrite queue_sum_cons. cbn. f_equal. lia.
Qed.

Lemma print_orders_ok l prev fuel :
  dseg (slot_at s) prev l None → (∀ i, i ∈ l → 0 <= i < MAX_ORDERS) → (length l <= fuel)%nat →
  print_orders s fuel (head l) = Done (map D l, true).
Proof.
  revert prev fuel. induction l as [|i l IH]; intros prev fuel Hd Hr Hf; [by destruct fuel|].
  cbn in Hf. destruct fuel as [|fuel]; [lia|]. cbn. destruct Hd as (_ & Hn & Hd).
  destruct (Hpool i) as [-> <-]; [apply Hr; set_solver|]. cbn. rewrite Hn, head_or_none.
  assert (match head l with
          | Some n => no ← get_order s n; Done (bool_decide (no.(Order.previous_) = Some i))
          | None => Done true
          end = Done true) as ->.
  { destruct l as [|j l]; [done|]. cbn. destruct Hd as (Hp & _ & _).
    destruct (Hpool j) as [-> _]; [apply Hr; set_solver|]. cbn. by rewrite Hp, bool_decide_true. }
  cbn. by rewrite (IH (Some i) fuel Hd) by (lia || set_solver).
Qed.
End walking.

Lemma slots_length ls fl lim k : slots ls fl lim → (length (ls k) <= walk_fuel)%nat.
Proof.
  intros HS. unfold walk_fuel. rewrite <- (length_seqZ 0 MAX_ORDERS).
  apply submseteq_length, NoDup_submseteq; [apply HS|].
  intros i Hi. apply elem_of_seqZ. pose proof (sl_range _ _ _ HS i). naive_solver lia.
Qed.

Section represented.
Context {s : OrderBookSide.t} {ls : Z → list Z} {fl : list Z} {D : Z → OrderData} {bid : bool}.
Context {A : ASide}.
Hypothesis HR : rep_side s ls fl D bid A.

Lemma rep_pool i : 0 <= i < MAX_ORDERS →
  get_order s i = Done (slot_at s i) ∧ order_data (slot_at s i) = D i.
Proof.
  intros Hi. destruct (sview_get_order i (rp_view _ _ _ _ _ _ HR) Hi) as (? & _ & ?). auto.
Qed.

Lemma rep_links k :
  dseg (slot_at s) None (ls k) None ∧ (∀ i, i ∈ ls k → 0 <= i < MAX_ORDERS) ∧
  (length (ls k) <= walk_fuel)%nat.
Proof.
  pose proof (sv_shape _ _ _ _ _ _ _ _ (rp_view _ _ _ _ _ _ HR)) as HS. split; [apply HS|].
  split; [|eapply slots_length; apply HS]. intros i Hi. by eapply shape_slot.
Qed.

Lemma rep_get_level k : 0 <= k < NUM_BOOK_LEVELS →
  get_level s k = Done (level_of ls (totals ls D) k).
Proof. apply (sview_get_level k (rp_view _ _ _ _ _ _ HR)). Qed.

(** Walking a level from [first_] lists its queue. *)
Lemma rep_walk k : walk_orders s walk_fuel (head (ls k)) = Done (A.(a_queue) k).
Proof.
  destruct (rep_links k) as (Hd & Hr & Hl). rewrite (rp_queue _ _ _ _ _ _ HR).
  eapply walk_orders_ok; [apply rep_pool | done..].
Qed.

Lemma rep_level_orders k :
  0 <= k < NUM_BOOK_LEVELS → level_orders s k = Done (A.(a_queue) k).
Proof.
  intros Hk. unfold level_orders. rewrite rep_get_level by done.
  cbn [mbind outcome_bind level_of PriceLevel.first_]. apply rep_walk.
Qed.

Lemma rep_print k : print_orders s walk_fuel (head (ls k)) = Done (A.(a_queue) k, true).
Proof.
  destruct (rep_links k) as (Hd & Hr & Hl). rewrite (rp_queue _ _ _ _ _ _ HR).
  eapply print_orders_ok; [apply rep_pool | done..].
Qed.

(** The level check compares the sum of the queue with its 32-bit total. *)
Lemma rep_check_level k : 0 <= k < NUM_BOOK_LEVELS →
  debug_check_level_invariant s k =
    Done (queue_sum (A.(a_queue) k) =? queue_total (A.(a_queue) k)).
Proof.
  intros Hk. destruct (rep_links k) as (Hd & Hr & Hl). unfold debug_check_level_invariant.
  rewrite rep_get_level by done. cbn [mbind outcome_bind level_of PriceLevel.first_].
  erewrite sum_remaining_ok; [|apply rep_pool | done..]. cbn.
  by rewrite (rp_queue _ _ _ _ _ _ HR).
Qed.

Lemma print_side_ok n i :
  0 <= i → i + Z.of_nat n = NUM_BOOK_LEVELS →
  print_side s n i =
    Done (map (λ k, (level_price k, A.(a_queue) k))
            (filter (λ k, queue_total (A.(a_queue) k) ≠ 0) (seqZ i (Z.of_nat n)))).
Proof.
  revert i. induction n as [|n IH]; intros i Hi Hn; [done|]. cbn [print_side].
  rewrite rep_get_level by lia. cbn [mbind outcome_bind level_of PriceLevel.total_quantity_].
  rewrite seqZ_cons, filter_cons by lia. replace (Z.pred (Z.of_nat (S n))) with (Z.of_nat n) by lia.
  unfold totals at 1. rewrite <- (rp_queue _ _ _ _ _ _ HR).
  destruct (queue_total (a_queue A i) =? 0) eqn:E.
  - rewrite decide_False by lia. apply IH; lia.
  - rewrite decide_True by lia. cbn [level_of PriceLevel.first_ PriceLevel.price_]. rewrite rep_walk. run_bind.
    rewrite IH by lia. done.
Qed.
End represented.

(** The levels of a side that show volume, with their queues. *)
Definition listed (A : ASide) : list (Price_t * list OrderData) :=
  map (λ k, (level_price k, A.(a_queue) k))
    (filter (λ k, queue_total (A.(a_queue) k) ≠ 0) (seqZ 0 NUM_BOOK_LEVELS)).

Lemma print_side_listed s ls fl D bid A n :
  rep_side s ls fl D bid A → Z.of_nat n = NUM_BOOK_LEVELS → print_side s n 0 = Done (listed A).
Proof. intros HR En. rewrite (print_side_ok HR) by lia. unfold listed. by rewrite En. Qed.

(** The whole book is listed, in price order and in time priority at each price. *)
Lemma print_book_ok b A :
  represents b A → print_book b = Done (listed (a_side A true), listed (a_side A false)).
Proof.
  intros (ls & fl & D & HR). unfold print_book.
  assert (Z.of_nat (Z.to_nat NUM_BOOK_LEVELS) = NUM_BOOK_LEVELS) as En by (apply Z2Nat.id, Z.leb_le; reflexivity).
  generalize dependent (Z.to_nat NUM_BOOK_LEVELS). intros n En.
  pose proof (print_side_listed _ _ _ _ _ _ n (rb_side _ _ _ _ _ HR true) En) as Hbids.
  pose proof (print_side_listed _ _ _ _ _ _ n (rb_side _ _ _ _ _ HR false) En) as Hasks.
  cbn [OrderBook.get_side] in Hbids, Hasks. rewrite Hbids. run_bind. by rewrite Hasks.
Qed.
