(* ===== verification/BookSnapshot.v ===== *)
(** [OrderBook::build_snapshot]: what the four arrays of a snapshot hold. *)

From stdpp Require Import functions.
From S2P Require Import Prelude Types OrderBook BookSpec BookLinks BookView BookRep BookMatch BookRefinement BookInvariant BookPriority.
Import OrderBookSide.

(** Reading cell [i] of the price and volume arrays of a side: the entries of
    [acc] first, zeros after them. *)
Record shows (out : OrderBook.SnapshotSide) (acc : list (Price_t * Volume_t)) : Prop := MkShows {
  sw_volumes : arr_size out.1 = ORDER_BOOK_MESSAGE_DEPTH;
  sw_prices : arr_size out.2 = ORDER_BOOK_MESSAGE_DEPTH;
  sw_cells i : 0 <= i < ORDER_BOOK_MESSAGE_DEPTH →
    (arr_at out.2 i, arr_at out.1 i) = default (0, 0) (acc !! Z.to_nat i)
}.

Lemma shows_empty : shows OrderBook.empty_snapshot [].
Proof. split; [done | done|]. intros i Hi. cbn. by rewrite !arr_at_make. Qed.

Section loops.
Context (levels : array PriceLevel.t) (queue : Z → list OrderData).
Hypothesis Hsize : arr_size levels = NUM_BOOK_LEVELS.
Hypothesis Hlevel : ∀ k, 0 <= k < NUM_BOOK_LEVELS →
  (arr_at levels k).(PriceLevel.total_quantity_) = queue_total (queue k) ∧
  (arr_at levels k).(PriceLevel.price_) = level_price k.

Definition entry (k : Z) : Price_t * Volume_t := (level_price k, queue_total (queue k)).

Definition entries (ks : list Z) : list (Price_t * Volume_t) :=
  map entry (filter (λ k, 0 < queue_total (queue k)) ks).

Lemma entries_cons k ks :
  entries (k :: ks) = (if 0 <? queue_total (queue k) then [entry k] else []) ++ entries ks.
Proof.
  unfold entries. rewrite filter_cons. destruct (0 <? _) eqn:E.
  - by rewrite decide_True by lia.
  - by rewrite decide_False by lia.
Qed.

(** One level of either loop. *)
Lemma snapshot_level_ok k acc out :
  0 <= k < NUM_BOOK_LEVELS → shows out acc → Z.of_nat (length acc) < ORDER_BOOK_MESSAGE_DEPTH →
  let acc' := acc ++ (if 0 <? queue_total (queue k) then [entry k] else []) in
  ∃ out', OrderBook.snapshot_level (arr_at levels k) (Z.of_nat (length acc)) out =
      Done (Z.of_nat (length acc'), out') ∧ shows out' acc'.
Proof.
  intros Hk HS Hd acc'. destruct (Hlevel k Hk) as [Ht Hp]. unfold OrderBook.snapshot_level.
  rewrite Ht, Hp. unfold acc'. destruct (0 <? queue_total (queue k)).
  2:{ rewrite app_nil_r. by exists out. }
  destruct HS as [Hv Hpr Hc]. rewrite arr_set_ok by lia. run_bind.
  rewrite arr_set_ok by lia. run_bind. eexists. split.
  { rewrite length_app. cbn. f_equal. f_equal. lia. }
  split; [done | done |]. intros i Hi. cbn. rewrite !arr_at_put. case_decide as E.
  - subst i. by rewrite Nat2Z.id, lookup_app_r, Nat.sub_diag by lia.
  - rewrite Hc by done. destruct (decide (i < Z.of_nat (length acc))).
    + by rewrite lookup_app_l by lia.
    + rewrite (lookup_ge_None_2 acc) by lia. rewrite lookup_ge_None_2; [done|].
      rewrite length_app. cbn. lia.
Qed.

Lemma snapshot_full acc (es : list (Price_t * Volume_t)) out :
  ORDER_BOOK_MESSAGE_DEPTH <= Z.of_nat (length acc) → shows out acc → shows out (acc ++ es).
Proof.
  intros Hd [Hv Hp Hc]. split; [done..|]. intros i Hi. rewrite Hc by done.
  by rewrite lookup_app_l by lia.
Qed.

Lemma snapshot_asks_ok n idx acc out :
  0 <= idx → idx + Z.of_nat n = NUM_BOOK_LEVELS → shows out acc →
  ∃ out', OrderBook.snapshot_asks levels n idx (Z.of_nat (length acc)) out = Done out' ∧
    shows out' (acc ++ entries (seqZ idx (Z.of_nat n))).
Proof.
  revert idx acc out. induction n as [|n IH]; intros idx acc out Hi Hn HS; cbn [OrderBook.snapshot_asks].
  { exists out. split; [done|]. cbn. by rewrite app_nil_r. }
  destruct (Z.of_nat (length acc) <? ORDER_BOOK_MESSAGE_DEPTH) eqn:E.
  2:{ exists out. split; [done|]. apply snapshot_full; [lia | done]. }
  rewrite arr_get_ok by (rewrite Hsize; lia). run_bind.
  destruct (snapshot_level_ok idx acc out) as (out1 & -> & HS1); [lia | done | lia|].
  run_bind. destruct (IH (idx + 1) _ out1 ltac:(lia) ltac:(lia) HS1) as (out2 & -> & HS2).
  exists out2. split; [done|]. rewrite seqZ_cons, entries_cons, (assoc (++)) by lia.
  by replace (Z.pred (Z.of_nat (S n))) with (Z.of_nat n) by lia.
Qed.

Lemma snapshot_bids_ok n acc out :
  Z.of_nat n < NUM_BOOK_LEVELS → shows out acc →
  ∃ out', OrderBook.snapshot_bids levels n (Z.of_nat (length acc)) out = Done out' ∧
    shows out' (acc ++ entries (reverse (seqZ 0 (Z.of_nat n + 1)))).
Proof.
  revert acc out. induction n as [|n IH]; intros acc out Hn HS; cbn [OrderBook.snapshot_bids].
  all: rewrite (proj2 (Z.ltb_lt _ _) Hn); cbn [andb].
  all: destruct (Z.of_nat (length acc) <? ORDER_BOOK_MESSAGE_DEPTH) eqn:E;
    [|exists out; split; [done|]; apply snapshot_full; [lia | done]].
  all: rewrite arr_get_ok by (rewrite Hsize; lia); run_bind.
  all: match type of Hn with ?k < _ =>
         destruct (snapshot_level_ok k acc out ltac:(lia) HS ltac:(lia)) as (out1 & -> & HS1)
       end; run_bind.
  - exists out1. split; [done|]. cbn [seqZ]. change (reverse (seqZ 0 (Z.of_nat 0 + 1))) with [Z.of_nat 0].
    rewrite entries_cons. cbn [entries]. by rewrite app_nil_r.
  - destruct (IH _ out1 ltac:(lia) HS1) as (out2 & -> & HS2). exists out2. split; [done|].
    replace (Z.of_nat (S n) + 1) with (Z.of_nat (S (S n))) by lia.
    rewrite seqZ_S, reverse_snoc, entries_cons, (assoc (++)). cbn [Z.add].
    by replace (Z.of_nat n + 1) with (Z.of_nat (S n)) in HS2 by lia.
Qed.
End loops.

(** The levels of a side that have orders, best first, with their price and
    exact volume. *)
Definition depth_view (bid : bool) (s : ASide) : list (Price_t * Volume_t) :=
  map (λ k, (level_price k, queue_sum (s.(a_queue) k)))
    (filter (λ k, s.(a_queue) k ≠ []) (all_levels bid)).

Section sides.
Context {bid : bool} {V next : Z} {s : ASide}.
Hypotheses (HS : side_ok bid V next s) (HV : V < 2 ^ 32).

Lemma visible_entries : map (entry s.(a_queue)) (visible bid s) = depth_view bid s.
Proof.
  rewrite (visible_all bid V next s HS HV). unfold depth_view.
  rewrite (list_filter_ext_in _ (λ k, a_queue s k ≠ [])) by (intros; by eapply side_ok_shown).
  apply map_ext_in. intros k _. unfold entry. by rewrite (queue_ok_total _ (so_queue _ _ _ _ HS k)).
Qed.

(** The levels a snapshot loop shows from the best one on. *)
Lemma best_entries :
  s.(a_best) ≠ NUM_BOOK_LEVELS →
  entries s.(a_queue) (s.(a_best) :: worse_levels bid s.(a_best)) = depth_view bid s.
Proof.
  intros Hb. rewrite <- visible_entries. unfold visible. rewrite (proj2 (Z.eqb_neq _ _) Hb).
  unfold entries. rewrite filter_cons_True; [done|].
  destruct (so_best _ _ _ _ HS) as [[E _]|(_ & Hne & _)]; [done|].
  by eapply side_ok_shown.
Qed.

Lemma empty_entries : s.(a_best) = NUM_BOOK_LEVELS → depth_view bid s = [].
Proof. intros E. rewrite <- visible_entries. unfold visible. by rewrite E, Z.eqb_refl. Qed.
End sides.

Lemma rep_levels s ls fl D bid A :
  rep_side s ls fl D bid A →
  arr_size s.(levels_) = NUM_BOOK_LEVELS ∧
  (∀ k, 0 <= k < NUM_BOOK_LEVELS →
    (arr_at s.(levels_) k).(PriceLevel.total_quantity_) = queue_total (A.(a_queue) k) ∧
    (arr_at s.(levels_) k).(PriceLevel.price_) = level_price k) ∧
  s.(best_price_index_) = A.(a_best).
Proof.
  intros [HV HQ _ _]. split; [apply HV|]. split; [|apply HV]. intros k Hk. rewrite HQ. split.
  - apply (sv_total _ _ _ _ _ _ _ _ HV).
  - apply (sh_level _ _ _ _ _ _ (sv_shape _ _ _ _ _ _ _ _ HV) k Hk).
Qed.

(** [build_snapshot] stays within its arrays on every book of the engine. *)
Lemma snapshot_bids_defined s ls fl D A :
  rep_side s ls fl D true A →
  ∃ out, OrderBook.snapshot_bids s.(levels_) (Z.to_nat s.(best_price_index_)) 0
           OrderBook.empty_snapshot = Done out.
Proof.
  intros HR. pose proof (rep_side_best_range _ _ _ _ _ _ HR).
  destruct (rep_levels _ _ _ _ _ _ HR) as (Hs & Hl & ->).
  destruct (decide (a_best A = NUM_BOOK_LEVELS)) as [E|E].
  - exists OrderBook.empty_snapshot.
    assert (∀ n d out, Z.of_nat n = NUM_BOOK_LEVELS →
      OrderBook.snapshot_bids s.(levels_) n d out = Done out) as Hend.
    { intros n d out Hn. destruct n; cbn [OrderBook.snapshot_bids]; by rewrite Hn, Z.ltb_irrefl. }
    apply Hend. lia.
  - destruct (snapshot_bids_ok _ _ Hs Hl (Z.to_nat (a_best A)) [] _ ltac:(lia) shows_empty)
      as (out & E1 & _). by exists out.
Qed.

Lemma snapshot_asks_defined s ls fl D A :
  rep_side s ls fl D false A →
  let idx := s.(best_price_index_) in
  ∃ out, OrderBook.snapshot_asks s.(levels_) (Z.to_nat (NUM_BOOK_LEVELS - idx)) idx 0
           OrderBook.empty_snapshot = Done out.
Proof.
  intros HR idx. unfold idx. pose proof (rep_side_best_range _ _ _ _ _ _ HR).
  destruct (rep_levels _ _ _ _ _ _ HR) as (Hs & Hl & ->).
  destruct (snapshot_asks_ok _ _ Hs Hl (Z.to_nat (NUM_BOOK_LEVELS - a_best A))
    (a_best A) [] _ ltac:(lia) ltac:(lia) shows_empty) as (out & E1 & _). by exists out.
Qed.

Lemma snapshot_defined b A :
  represents b A → ∃ bid ask, OrderBook.build_snapshot b = Done (bid, ask).
Proof.
  intros (ls & fl & D & HR). unfold OrderBook.build_snapshot.
  destruct (snapshot_bids_defined _ _ _ _ _ (rb_side _ _ _ _ _ HR true)) as [bid Eb].
  destruct (snapshot_asks_defined _ _ _ _ _ (rb_side _ _ _ _ _ HR false)) as [ask Ea].
  cbn [OrderBook.get_side] in *. cbv zeta in *. rewrite Eb. run_bind.
  rewrite Ea. cbn. eauto.
Qed.

(** The two halves of [build_snapshot], on a side that satisfies the invariant. *)
Lemma snapshot_bids_side s ls fl D A V next :
  rep_side s ls fl D true A → side_ok true V next A → V < 2 ^ 32 →
  ∃ out, OrderBook.snapshot_bids s.(levels_) (Z.to_nat s.(best_price_index_)) 0
           OrderBook.empty_snapshot = Done out ∧ shows out (depth_view true A).
Proof.
  intros HR HS HV. destruct (rep_levels _ _ _ _ _ _ HR) as (Hs & Hl & ->).
  pose proof (side_ok_best_range _ _ _ _ HS) as Hr.
  destruct (decide (a_best A = NUM_BOOK_LEVELS)) as [E|E].
  - rewrite (empty_entries HS HV E), E. exists OrderBook.empty_snapshot.
    split; [|apply shows_empty].
    assert (∀ n d out, Z.of_nat n = NUM_BOOK_LEVELS →
      OrderBook.snapshot_bids s.(levels_) n d out = Done out) as Hend.
    { intros n d out Hn. destruct n; cbn [OrderBook.snapshot_bids]; by rewrite Hn, Z.ltb_irrefl. }
    apply Hend. lia.
  - destruct (snapshot_bids_ok _ _ Hs Hl (Z.to_nat (a_best A)) [] _ ltac:(lia) shows_empty)
      as (out & E1 & HSb). cbn [length Z.of_nat app] in E1, HSb. exists out. split; [done|].
    rewrite <- (best_entries HS HV E). unfold worse_levels.
    replace (Z.of_nat (Z.to_nat (a_best A)) + 1) with (Z.of_nat (S (Z.to_nat (a_best A)))) in HSb by lia.
    rewrite seqZ_S, reverse_snoc in HSb.
    by rewrite Z.add_0_l, Z2Nat.id in HSb by lia.
Qed.

Lemma snapshot_asks_side s ls fl D A V next :
  rep_side s ls fl D false A → side_ok false V next A → V < 2 ^ 32 →
  let idx := s.(best_price_index_) in
  ∃ out, OrderBook.snapshot_asks s.(levels_) (Z.to_nat (NUM_BOOK_LEVELS - idx)) idx 0
           OrderBook.empty_snapshot = Done out ∧ shows out (depth_view false A).
Proof.
  intros HR HS HV idx. unfold idx. destruct (rep_levels _ _ _ _ _ _ HR) as (Hs & Hl & ->).
  pose proof (side_ok_best_range _ _ _ _ HS) as Hr.
  destruct (decide (a_best A = NUM_BOOK_LEVELS)) as [E|E].
  - rewrite (empty_entries HS HV E), E, Z.sub_diag.
    exists OrderBook.empty_snapshot. split; [done | apply shows_empty].
  - destruct (snapshot_asks_ok _ _ Hs Hl (Z.to_nat (NUM_BOOK_LEVELS - a_best A))
      (a_best A) [] _ ltac:(lia) ltac:(lia) shows_empty) as (out & E1 & HSa).
    cbn [length Z.of_nat app] in E1, HSa. exists out. split; [done|].
    rewrite <- (best_entries HS HV E). unfold worse_levels.
    rewrite Z2Nat.id, seqZ_cons in HSa by lia.
    by replace (Z.pred (NUM_BOOK_LEVELS - a_best A)) with (NUM_BOOK_LEVELS - (a_best A + 1)) in HSa by lia.
Qed.

Lemma snapshot_ok b A V :
  represents b A → book_ok V A → V < 2 ^ 32 →
  ∃ bid ask, OrderBook.build_snapshot b = Done (bid, ask) ∧
    shows bid (depth_view true A.(a_bids)) ∧ shows ask (depth_view false A.(a_asks)).
Proof.
  intros (ls & fl & D & HR) HB HV. unfold OrderBook.build_snapshot.
  destruct (snapshot_bids_side _ _ _ _ _ _ _ (rb_side _ _ _ _ _ HR true) (bo_side _ _ HB true) HV)
    as (bid & Eb & Hbid).
  destruct (snapshot_asks_side _ _ _ _ _ _ _ (rb_side _ _ _ _ _ HR false) (bo_side _ _ HB false) HV)
    as (ask & Ea & Hask).
  cbn [mbind outcome_bind OrderBook.get_side] in *. cbv zeta in *. rewrite Eb. run_bind.
  rewrite Ea. cbn. eauto.
Qed.
