(* ===== verification/BookFeed.v ===== *)
(** The public feed: a client that starts from empty levels and stores the total
    of every [on_level_update] it receives knows the total of every level. *)

From stdpp Require Import functions.
From S2P Require Import Prelude Types OrderBook BookSpec BookLinks BookView BookRep BookRefinement.

Definition Feed : Type := Side → Price_t → Volume_t.

Definition empty_feed : Feed := λ _ _, 0.

Definition replay (f : Feed) (e : Event) : Feed :=
  match e with
  | on_level_update side price total _ =>
      λ side' price', if decide (side' = side ∧ price' = price) then total else f side' price'
  | _ => f
  end.

(** [f] knows the totals that the queues of side [bid] show. *)
Definition knows (f : Feed) (bid : bool) (queue : Z → list OrderData) : Prop :=
  ∀ k, f (side_of bid) (level_price k) = queue_total (queue k).

Lemma side_of_inj bid bid' : side_of bid = side_of bid' → bid = bid'.
Proof. by destruct bid, bid'. Qed.

Lemma level_price_inj k k' : level_price k = level_price k' → k = k'.
Proof. unfold level_price. lia. Qed.

Lemma replay_update f bid k total now bid' k' :
  replay f (on_level_update (side_of bid) (level_price k) total now) (side_of bid') (level_price k') =
    if decide (bid' = bid ∧ k' = k) then total else f (side_of bid') (level_price k').
Proof.
  cbn. repeat case_decide; try done; naive_solver eauto using side_of_inj, level_price_inj.
Qed.

Lemma replay_insert f bid queue k q now :
  knows f bid queue →
  knows (replay f (on_level_update (side_of bid) (level_price k) (queue_total q) now)) bid
    (<[k := q]> queue).
Proof.
  intros Hf k'. rewrite replay_update. destruct (decide (k' = k)) as [->|Hne].
  - by rewrite decide_True, fn_lookup_insert by done.
  - rewrite decide_False by naive_solver. rewrite fn_lookup_insert_ne by done. apply Hf.
Qed.

Lemma replay_other f bid bid' k q now queue :
  bid' ≠ bid → knows f bid' queue →
  knows (replay f (on_level_update (side_of bid) (level_price k) q now)) bid' queue.
Proof. intros Hne Hf k'. rewrite replay_update, decide_False by naive_solver. apply Hf. Qed.

Lemma replay_trades total id client now ts f :
  foldl replay f (map (trade_event total id client now) ts) = f.
Proof. revert f. induction ts as [|t ts IH]; intros f; [done | apply IH]. Qed.

Lemma knows_ext f bid queue queue' :
  (∀ k, queue k = queue' k) → knows f bid queue → knows f bid queue'.
Proof. intros E H k. by rewrite <- E. Qed.

Lemma sweep_replay bid price total id client now path queue incoming evs queue' path' rest f other :
  sweep bid price total id client now path queue incoming = (evs, queue', path', rest) →
  knows f bid queue → knows f (negb bid) other →
  knows (foldl replay f evs) bid queue' ∧ knows (foldl replay f evs) (negb bid) other.
Proof.
  revert queue incoming evs f. induction path as [|k path IH]; intros queue incoming evs f; cbn [sweep];
    [by intros [= <- <- <- <-]|].
  destruct (incoming <=? 0); [by intros [= <- <- <- <-]|].
  destruct (crosses bid (level_price k) price); cbn [negb]; [|by intros [= <- <- <- <-]].
  destruct (fill_queue incoming (queue k)) as [[ts q] lft].
  assert (∀ f, foldl replay f (map (trade_event total id client now) ts ++ [update_event bid now k q]) =
    replay f (update_event bid now k q)) as Hev.
  { intros f'. by rewrite foldl_app, replay_trades. }
  assert (negb bid ≠ bid) as Hnb by (by destruct bid).
  destruct q as [|o q].
  - destruct (sweep _ _ _ _ _ _ path _ lft) as [[[evs1 queue1] path1] rest1] eqn:ES.
    intros [= <- -> -> ->] Hf Ho. rewrite foldl_app, Hev.
    eapply IH; [exact ES | by apply replay_insert | by apply replay_other].
  - intros [= <- <- <- <-] Hf Ho. rewrite Hev. split; [by apply replay_insert | by apply replay_other].
Qed.

Definition knows_book (f : Feed) (A : ABook) : Prop :=
  ∀ bid, knows f bid (a_side A bid).(a_queue).

(** Replaying one level update on a book of which that level changed. *)
Lemma knows_put f A bid k q best now :
  knows_book f A →
  knows_book (replay f (on_level_update (side_of bid) (level_price k) (queue_total q) now))
    (a_put_side A bid (MkASide (<[k := q]> (a_side A bid).(a_queue)) best)).
Proof.
  intros Hf bid'. destruct (bool_side bid bid') as [-> | ->].
  - rewrite a_side_put_eq. apply replay_insert, Hf.
  - rewrite a_side_put_ne. apply replay_other; [by destruct bid | apply Hf].
Qed.

Lemma submit_replay A price quantity is_bid client req now now_match now_add A' evs f :
  a_submit A price quantity is_bid client req now now_match now_add = (A', evs) →
  knows_book f A → knows_book (foldl replay f evs) A'.
Proof.
  intros E Hf. unfold a_submit in E.
  destruct (quantity =? 0); [by simplify_eq|].
  destruct (_ || _); [by simplify_eq|].
  destruct (a_match _ _ _ _ _ _ _) as [[evs1 maker] lft] eqn:EM. unfold a_match in EM.
  destruct (sweep _ _ _ _ _ _ _ _ _) as [[[evs2 queue] path] rest] eqn:ES. injection EM as -> <- ->.
  eapply (sweep_replay _ _ _ _ _ _ _ _ _ _ _ _ _ f (a_queue (a_side A is_bid))) in ES as [H1 H2];
    [|apply Hf | rewrite negb_involutive; apply Hf]. rewrite negb_involutive in H2.
  set (A1 := a_put_side _ (negb is_bid) _) in *.
  assert (knows_book (foldl replay f evs1) A1) as HA1.
  { intros bid. destruct (bool_side is_bid bid) as [-> | ->]; unfold A1; by destruct is_bid. }
  destruct (lft <=? 0); [by simplify_eq|].
  destruct (MAX_ORDERS <=? _); [simplify_eq; by rewrite foldl_app|].
  injection E as <- <-. rewrite foldl_app.
  set (o := MkOrderData client _ price quantity lft _ is_bid).
  replace (a_side A is_bid) with (a_side A1 is_bid) by (unfold A1; by destruct is_bid).
  unfold a_rest. cbn [a_queue od_price o]. rewrite fn_lookup_insert.
  change (foldl replay ?g [?e1; on_order_inserted ?r ?o' ?n]) with (replay g e1).
  replace price with (level_price (price_level price)) at 1 by (unfold level_price, price_level; lia).
  by apply knows_put.
Qed.

Lemma step_replay A now now_match now_add r A' evs f :
  book_step A now now_match now_add r A' evs → knows_book f A → knows_book (foldl replay f evs) A'.
Proof.
  intros Hs Hf. destruct Hs as [price quantity is_bid client req a' evs' E | | |
    client req id is_bid k before o after queue Hrest Ho Hc -> | | | | |
    client req id quantity is_bid k before o after queue Hrest Ho Hc Hqty -> |
    client req id is_bid k before o after queue Hrest Ho Hc ->]; try done.
  - by eapply submit_replay.
  - by apply (knows_put f).
  - rewrite fn_lookup_insert. by apply (knows_put f).
  - by apply (knows_put f).
Qed.

Lemma run_replay A rs A' evs f :
  book_run A rs A' evs → knows_book f A → knows_book (foldl replay f evs) A'.
Proof.
  intros Hrun. revert f. induction Hrun as [|a r now now_match now_add a' evs rs a'' evs' Hs _ IH];
    intros f Hf; [done|]. rewrite foldl_app. eapply IH, step_replay; done.
Qed.

Lemma empty_knows : knows_book empty_feed empty_book.
Proof. by intros []. Qed.
