(* ===== verification/BookTheorems.v ===== *)
(** What the matching engine guarantees for every history of requests, stated on
    the engine itself ([OrderBook.run] from the constructor). *)

From stdpp Require Import functions sorting.
From S2P Require Import Prelude Types OrderBook BookSpec BookLinks BookView BookRep BookMatch BookRefinement BookInvariant BookPriority BookDebug BookSnapshot BookFeed.
Import OrderBookSide Debug.

Abbreviation history := (list (OrderBook.Request * (Time_t * Time_t * Time_t))).

(** ** The histories the price guarantees hold for *)

(** The engine's view of [closes_off_best]: an amend that takes the only order
    of a level down to what it has traded, on a level that is not the best. *)
Definition closes_worse_level (b : OrderBook.t) (r : OrderBook.Request) : bool :=
  match r with
  | OrderBook.Amend client _ id quantity =>
      match b.(OrderBook.order_id_to_handle_) !! id with
      | None => false
      | Some h =>
          match arr_at b.(OrderBook.order_by_handle_) h with
          | None => false
          | Some (bid, slot) =>
              let s := OrderBook.get_side b bid in
              let o := slot_at s slot in
              let level := level_at s (o.(Order.price_) - MINIMUM_BID) in
              (o.(Order.client_id_) =? client) && (quantity =? o.(Order.quantity_cumulative_)) &&
              bool_decide (level.(PriceLevel.first_) = Some slot) &&
              bool_decide (level.(PriceLevel.last_) = Some slot) &&
              negb (s.(best_price_index_) =? level.(PriceLevel.idx_))
          end
      end
  | _ => false
  end.

(** No request of the history closes the last order of a worse level. *)
Fixpoint careful (b : OrderBook.t) (rs : history) : bool :=
  match rs with
  | [] => true
  | (r, (now, now_match, now_add)) :: rs =>
      negb (closes_worse_level b r) &&
      match OrderBook.run_request b r now now_match now_add with
      | Done (b', _) => careful b' rs
      | _ => false
      end
  end.

(** The volume ever submitted. *)
Definition submitted (rs : history) : Z := foldr (λ r n, volume_of r.1 + n) 0 rs.

(** 32-bit requests, fewer than 2{^32} of them and less than 2{^32} volume in
    all, and none that closes a worse level by an amend. *)
Definition healthy (rs : history) : bool :=
  forallb (λ r, valid_request r.1) rs && (Z.of_nat (length rs) <? 2 ^ 32) &&
  (submitted rs <? 2 ^ 32) && careful OrderBook.OrderBook rs.

Lemma closes_off_best_detected b A r :
  represents b A → closes_off_best A r → closes_worse_level b r = true.
Proof.
  intros (ls & fl & D & HR) (req & bid & k & o & -> & [Hk Hq] & Hbest).
  pose proof (rb_side _ _ _ _ _ HR bid) as HRs. pose proof (rb_maps _ _ _ _ _ HR) as HM.
  rewrite (rp_queue _ _ _ _ _ _ HRs) in Hq. cbn in Hq.
  destruct (ls bid k) as [|i [|]] eqn:El; try done. injection Hq as <-.
  assert (i ∈ ls bid k) as Hi by (rewrite El; set_solver).
  destruct (rep_book_located _ _ _ _ _ _ _ _ HR Hi) as (l1 & l2 & HL).
  destruct (located_index _ _ _ _ _ _ _ _ _ _ _ HR HL) as (HD & _).
  unfold closes_worse_level.
  rewrite (proj2 (rm_id _ _ _ _ HM (od_order_id (D bid i)) (enc bid i))) by eauto 10.
  rewrite (proj2 (rm_handle _ _ _ _ HM (enc bid i) bid i)) by eauto. cbv zeta.
  rewrite (located_price _ _ _ _ _ _ _ _ _ _ _ HL HR), <- HD. cbn.
  pose proof (sh_level _ _ _ _ _ _ (sv_shape _ _ _ _ _ _ _ _ (rp_view _ _ _ _ _ _ HRs)) k Hk)
    as (-> & -> & _ & ->). rewrite El. cbn.
  rewrite (sv_best _ _ _ _ _ _ _ _ (rp_view _ _ _ _ _ _ HRs)).
  rewrite !Z.eqb_refl, !bool_decide_true by done. cbn. lia.
Qed.

(** ** Histories keep the invariant *)

Lemma valid_volume r : valid_request r = true → 0 <= volume_of r.
Proof. destruct r; cbn [volume_of]; unfold valid_request; lia. Qed.

Lemma run_ok V b A rs :
  represents b A → book_ok V A → 0 <= V → Forall (λ r, valid_request r.1 = true) rs →
  b.(OrderBook.order_id_) + Z.of_nat (length rs) < 2 ^ 32 → V + submitted rs < 2 ^ 32 →
  careful b rs = true →
  ∃ b' A' evs, OrderBook.run b rs = Done (b', evs) ∧ book_run A rs A' evs ∧ represents b' A' ∧
    book_ok (V + submitted rs) A'.
Proof.
  intros HR HB HV Hv. revert V b A HR HB HV.
  induction Hv as [|[r [[now now_match] now_add]] rs Hr Hrs IH]; intros V b A HR HB HV Hid Hsub Hc.
  { exists b, A, []. cbn. rewrite Z.add_0_r. split; [done|]. split; [constructor | done]. }
  cbn [length] in Hid.
  replace (submitted (_ :: rs)) with (volume_of r + submitted rs) in Hsub |- * by done.
  cbn [OrderBook.run careful] in *. apply andb_prop in Hc as [Hoff Hc].
  pose proof (valid_volume _ Hr) as Hvol. cbn [fst] in Hvol, Hr.
  assert (0 <= submitted rs) as Hpos.
  { clear -Hrs. induction Hrs as [|x rs Hx _ IH]; cbn; [lia|].
    pose proof (valid_volume _ Hx). fold (submitted rs). lia. }
  destruct (request_refines b A r now now_match now_add HR Hr) as (b1 & A1 & evs1 & E1 & Hs & HR1);
    [lia|]. rewrite E1 in Hc |- *. run_bind.
  destruct (represents_next_id _ _ HR) as [Hn Hw], (represents_next_id _ _ HR1) as [Hn1 _].
  pose proof (step_next_id _ _ _ _ _ _ _ Hs) as Hnext.
  assert (~ closes_off_best A r) as Hno.
  { intros H%(closes_off_best_detected b A r HR). rewrite H in Hoff. done. }
  pose proof (step_ok V A now now_match now_add r A1 evs1 HB HV Hvol ltac:(lia) ltac:(lia) ltac:(lia)
    Hs Hno) as HB1.
  destruct (IH _ b1 A1 HR1 HB1) as (b2 & A2 & evs2 & -> & Hrun & HR2 & HB2);
    [lia.. | done |]. run_bind.
  exists b2, A2, (evs1 ++ evs2). split; [done|]. split; [by econstructor|].
  split; [done|]. by rewrite Z.add_assoc.
Qed.

Lemma empty_ok : book_ok 0 empty_book.
Proof.
  split; [|done]. intros bid. replace (a_side empty_book bid) with empty_side by (by destruct bid).
  split; [done | | by left]. intros k. by apply queue_ok_nil.
Qed.

Lemma healthy_run rs :
  healthy rs = true →
  ∃ b A evs, OrderBook.run OrderBook.OrderBook rs = Done (b, evs) ∧
    book_run empty_book rs A evs ∧ represents b A ∧ book_ok (submitted rs) A.
Proof.
  unfold healthy. rewrite !andb_true_iff, forallb_forall. intros [[[Hv Hl] Hs] Hc].
  apply (run_ok 0); [apply initial_book | apply empty_ok | done | | cbn; lia | lia | done].
  apply Forall_forall. intros x Hx. by apply Hv, list_elem_of_In.
Qed.

Lemma submitted_nonneg rs : forallb (λ r, valid_request r.1) rs = true → 0 <= submitted rs.
Proof.
  rewrite forallb_forall. induction rs as [|x rs IH]; intros H; [done|].
  cbn. fold (submitted rs). pose proof (valid_volume _ (H x ltac:(by left))).
  specialize (IH (λ y Hy, H y (or_intror Hy))). lia.
Qed.

Lemma healthy_bounds rs :
  healthy rs = true → Z.of_nat (length rs) < 2 ^ 32 ∧ 0 <= submitted rs < 2 ^ 32.
Proof.
  unfold healthy. rewrite !andb_true_iff. intros [[[Hv Hl] Hs] _].
  pose proof (submitted_nonneg rs Hv). lia.
Qed.

Lemma submit_represented b A price quantity is_bid client req now now_match now_add :
  represents b A → 0 <= quantity < 2 ^ 32 → b.(OrderBook.order_id_) + 1 < 2 ^ 32 →
  ∃ b' A' evs,
    OrderBook.submit_order b price quantity is_bid client req now now_match now_add = Done (b', evs) ∧
    a_submit A price quantity is_bid client req now now_match now_add = (A', evs) ∧ represents b' A'.
Proof.
  intros (ls & fl & D & HR) Hq Hid. destruct (a_submit _ _ _ _ _ _ _ _ _) as [A' evs] eqn:E.
  destruct (submit_refines _ _ _ _ _ _ _ _ _ _ _ _ _ _ _ HR Hq Hid E) as (b' & ls' & fl' & D' & -> & HR').
  exists b', A', evs. split; [done|]. split; [done|]. by exists ls', fl', D'.
Qed.

Lemma history_next_id rs b A evs :
  book_run empty_book rs A evs → represents b A → Z.of_nat (length rs) + 1 < 2 ^ 32 →
  b.(OrderBook.order_id_) + 1 < 2 ^ 32.
Proof.
  intros Hrun HR Hl. destruct (represents_next_id _ _ HR) as [<- _].
  pose proof (run_next_id _ _ _ _ Hrun) as Hn. change (a_next_id empty_book) with 0 in Hn. lia.
Qed.

(** ** Guarantees *)

(** A short session: two bids, an ask, a sell that trades with the best bid, an
    amend of the rest of that bid and a cancel. *)
Definition session : history :=
  [(OrderBook.Submit 100 10 true 1 1, (10, 11, 12));
   (OrderBook.Submit 99 5 true 1 2, (20, 21, 22));
   (OrderBook.Submit 105 7 false 2 1, (30, 31, 32));
   (OrderBook.Submit 100 4 false 2 2, (40, 41, 42));
   (OrderBook.Amend 1 3 0 8, (50, 51, 52));
   (OrderBook.Cancel 1 4 1, (60, 61, 62))].

(** C1: every history of fewer than 2{^32} 32-bit requests is executed by the
    engine without undefined behaviour and within the fuel of its loops; its
    callbacks and its final state are those of the abstract book, where
    a side is a queue of orders per level. *)
Theorem engine_refines (rs : history) :
  forallb (λ r, valid_request r.1) rs = true → Z.of_nat (length rs) < 2 ^ 32 →
  ∃ b A evs, OrderBook.run OrderBook.OrderBook rs = Done (b, evs) ∧
    book_run empty_book rs A evs ∧ represents b A.
Proof.
  rewrite forallb_forall. intros Hv Hl.
  apply run_refines; [apply initial_book | | cbn; lia].
  apply Forall_forall. intros x Hx. by apply Hv, list_elem_of_In.
Qed.

Lemma engine_refines_witness :
  ∃ b A evs, OrderBook.run OrderBook.OrderBook session = Done (b, evs) ∧
    book_run empty_book session A evs ∧ represents b A.
Proof. apply (engine_refines session); vm_compute; reflexivity. Defined.

(** The abstract book is what the engine's data structures show: walking a
    level from [first_] through [next_] lists its queue, an order is found under
    its id exactly when it rests in a queue, and the best indexes are those of
    the engine. *)
Theorem represents_observable b A :
  represents b A →
  (∀ bid k, 0 <= k < NUM_BOOK_LEVELS →
     level_orders (OrderBook.get_side b bid) k = Done ((a_side A bid).(a_queue) k)) ∧
  (∀ bid, (OrderBook.get_side b bid).(best_price_index_) = (a_side A bid).(a_best)) ∧
  (∀ id, is_Some (b.(OrderBook.order_id_to_handle_) !! id) ↔
     ∃ bid k before o after, resting A bid k before o after ∧ od_order_id o = id).
Proof.
  intros (ls & fl & D & HR). split; [|split].
  - intros bid k Hk. eapply rep_level_orders; [apply (rb_side _ _ _ _ _ HR bid) | done].
  - intros bid. apply (sv_best _ _ _ _ _ _ _ _ (rp_view _ _ _ _ _ _ (rb_side _ _ _ _ _ HR bid))).
  - intros id. split.
    + intros [h Hh]. apply (rm_id _ _ _ _ (rb_maps _ _ _ _ _ HR)) in Hh as (bid & k & i & Hi & <- & _).
      destruct (rep_book_located _ _ _ _ _ _ _ _ HR Hi) as (l1 & l2 & HL).
      exists bid, k. do 3 eexists. split; [by eapply located_resting|done].
    + intros (bid & k & before & o & after & Hr & Ho).
      destruct (_ !! id) eqn:E; [done|].
      exfalso. by eapply unknown_id in E; [eapply E|].
Qed.

Lemma represents_observable_witness :
  level_orders (OrderBook.get_side OrderBook.OrderBook true) 99 =
    Done ((a_side empty_book true).(a_queue) 99).
Proof.
  apply (represents_observable OrderBook.OrderBook empty_book initial_book).
  rewrite num_book_levels_val. lia.
Defined.

(** C4: every healthy history leaves the engine in a book that satisfies the
    invariant: well-formed orders queued by arrival, correct best levels, level
    volumes within the volume submitted, and uncrossed sides. *)
Theorem healthy_invariant (rs : history) :
  healthy rs = true →
  ∃ b A evs, OrderBook.run OrderBook.OrderBook rs = Done (b, evs) ∧ represents b A ∧
    book_ok (submitted rs) A.
Proof. intros (b & A & evs & E & _ & HR & HB)%healthy_run. exists b, A, evs. auto. Qed.

Lemma healthy_invariant_witness :
  healthy session = true ∧ ∃ b A evs, OrderBook.run OrderBook.OrderBook session = Done (b, evs) ∧
    represents b A ∧ book_ok 26 A.
Proof.
  assert (healthy session = true) as H by (vm_compute; reflexivity).
  split; [exact H | apply (healthy_invariant session H)].
Defined.

(** After a healthy history, the assertions of the debug build hold: on
    every level the sum of the remaining quantities is [total_quantity_], every
    [next_]/[previous_] pair matches, and the best bid is below the best ask. *)
Theorem debug_assertions_hold (rs : history) :
  healthy rs = true →
  ∃ b evs, OrderBook.run OrderBook.OrderBook rs = Done (b, evs) ∧
    (∀ bid k, 0 <= k < NUM_BOOK_LEVELS →
       debug_check_level_invariant (OrderBook.get_side b bid) k = Done true ∧
       ∃ level orders, get_level (OrderBook.get_side b bid) k = Done level ∧
         print_orders (OrderBook.get_side b bid) walk_fuel level.(PriceLevel.first_) =
           Done (orders, true)) ∧
    debug_check_level_integrity b = Done true.
Proof.
  intros Hh. pose proof Hh as (b & A & evs & -> & _ & (ls & fl & D & HR) & HB)%healthy_run.
  apply healthy_bounds in Hh. exists b, evs. split; [done|]. split.
  - intros bid k Hk. pose proof (rb_side _ _ _ _ _ HR bid) as HRs. split.
    + rewrite (rep_check_level HRs k Hk). f_equal.
      rewrite (queue_ok_total _ (so_queue _ _ _ _ (bo_side _ _ HB bid) k)) by lia. lia.
    + eexists _, _. split; [apply (rep_get_level HRs k Hk) | apply (rep_print HRs)].
  - unfold debug_check_level_integrity.
    pose proof (rep_get_level (rb_side _ _ _ _ _ HR true)) as Hl1.
    pose proof (rep_get_level (rb_side _ _ _ _ _ HR false)) as Hl2. cbn [OrderBook.get_side] in *.
    pose proof (sv_best _ _ _ _ _ _ _ _ (rp_view _ _ _ _ _ _ (rb_side _ _ _ _ _ HR true))) as E1.
    pose proof (sv_best _ _ _ _ _ _ _ _ (rp_view _ _ _ _ _ _ (rb_side _ _ _ _ _ HR false))) as E2.
    cbn in E1, E2. rewrite E1, E2.
    destruct (so_best _ _ _ _ (bo_side _ _ HB true)) as [[E _]|(Hr1 & Hn1 & _)]; cbn in *;
      [by rewrite E, Z.eqb_refl|].
    destruct (so_best _ _ _ _ (bo_side _ _ HB false)) as [[E _]|(Hr2 & Hn2 & _)]; cbn in *;
      [rewrite E, Z.eqb_refl; by destruct (_ =? _)|].
    rewrite !(proj2 (Z.eqb_neq _ _)) by lia. rewrite Hl1, Hl2 by done. cbn. f_equal.
    pose proof (bo_uncrossed _ _ HB _ _ Hn1 Hn2). unfold level_price. lia.
Qed.

Lemma debug_assertions_hold_witness :
  healthy session = true ∧
  ∃ b evs, OrderBook.run OrderBook.OrderBook session = Done (b, evs) ∧
    debug_check_level_integrity b = Done true.
Proof.
  assert (healthy session = true) as H by (vm_compute; reflexivity). split; [exact H|].
  destruct (debug_assertions_hold session H) as (b & evs & E & _ & I). exists b, evs. auto.
Defined.

(** C15: after a healthy history, that is without a volume that could wrap and
    without an amend that closes the last order of a worse level (after which it
    is false, see [amend_worse_level_crosses_book]), [best_price_index_] of each
    side is its best level with orders ([NUM_BOOK_LEVELS] when it has none), and
    every resting bid is priced below every resting ask. *)
Theorem best_prices_and_spread (rs : history) :
  healthy rs = true →
  ∃ b A evs, OrderBook.run OrderBook.OrderBook rs = Done (b, evs) ∧ represents b A ∧
    (∀ bid, let best := (OrderBook.get_side b bid).(best_price_index_) in
       let queue := (a_side A bid).(a_queue) in
       best = NUM_BOOK_LEVELS ∧ (∀ k, queue k = []) ∨
       0 <= best < NUM_BOOK_LEVELS ∧ queue best ≠ [] ∧
         ∀ k, queue k ≠ [] → if bid then k <= best else best <= k) ∧
    (∀ k k' o o', o ∈ A.(a_bids).(a_queue) k → o' ∈ A.(a_asks).(a_queue) k' →
       od_price o < od_price o').
Proof.
  intros (b & A & evs & E & _ & HR & HB)%healthy_run. exists b, A, evs.
  split; [done|]. split; [done|]. split.
  - intros bid. cbv zeta. destruct HR as (ls & fl & D & HR).
    rewrite (sv_best _ _ _ _ _ _ _ _ (rp_view _ _ _ _ _ _ (rb_side _ _ _ _ _ HR bid))).
    apply (so_best _ _ _ _ (bo_side _ _ HB bid)).
  - intros k k' o o' Ho Ho'.
    pose proof (bo_uncrossed _ _ HB k k' ltac:(by intros E'; rewrite E' in Ho; set_solver)
      ltac:(by intros E'; rewrite E' in Ho'; set_solver)).
    rewrite (queue_price (bo_side _ _ HB true) k o Ho).
    rewrite (queue_price (bo_side _ _ HB false) k' o' Ho'). unfold level_price. lia.
Qed.

Lemma best_prices_and_spread_witness :
  healthy session = true ∧ ∃ b A evs, OrderBook.run OrderBook.OrderBook session = Done (b, evs) ∧
    represents b A ∧
    ∀ k k' o o', o ∈ A.(a_bids).(a_queue) k → o' ∈ A.(a_asks).(a_queue) k' →
       od_price o < od_price o'.
Proof.
  assert (healthy session = true) as H by (vm_compute; reflexivity). split; [exact H|].
  destruct (best_prices_and_spread session H) as (b & A & evs & E & R & _ & S). exists b, A, evs. auto.
Defined.

(** C11: price-time priority.  After a healthy history (32-bit requests, volumes
    that no 32-bit sum can wrap, and no amend that closes the last order of a
    worse level, see [amend_worse_level_crosses_book]), the resting orders that an
    incoming price crosses, listed best price first and within a price by
    arrival, are filled from the front: every trade is at its maker's price and
    inside the incoming limit, every maker but the last is used up, the traded
    quantities and the remainder add up to the incoming quantity, and nothing
    that crosses is left when a remainder is queued. *)
Theorem price_time_priority (rs : history) :
  healthy rs = true → Z.of_nat (length rs) + 1 < 2 ^ 32 →
  ∃ b A evs0, OrderBook.run OrderBook.OrderBook rs = Done (b, evs0) ∧ represents b A ∧
  ∀ price quantity is_bid client req now now_match now_add,
    MINIMUM_BID <= price <= MAXIMUM_ASK → 0 < quantity < 2 ^ 32 →
    let maker := negb is_bid in
    let line := priority_line maker (a_side A maker) price in
    StronglySorted (served_before maker) line ∧
    (∀ o, o ∈ line ↔ ∃ k, o ∈ (a_side A maker).(a_queue) k ∧ crosses maker (od_price o) price = true) ∧
    ∃ b' evs ts lft,
      OrderBook.submit_order b price quantity is_bid client req now now_match now_add =
        Done (b', evs) ∧
      trades_of evs = map (trade_event quantity b.(OrderBook.order_id_) client now_match) ts ∧
      fair_fill quantity line ts lft.
Proof.
  intros Hh Hl. pose proof Hh as (b & A & evs & E & Hrun & HR & HB)%healthy_run.
  apply healthy_bounds in Hh. exists b, A, evs. split; [done|]. split; [done|].
  intros price quantity is_bid client req now now_match now_add Hp Hq maker line.
  pose proof (bo_side _ _ HB maker) as HS.
  split; [by eapply line_sorted|]. split; [intros o; by eapply line_members|].
  destruct (submit_represented b A price quantity is_bid client req now now_match now_add HR)
    as (b' & A' & evs' & E' & Ea & _); [lia | |].
  { eapply history_next_id; done. }
  destruct (represents_next_id _ _ HR) as [<- _]. exists b', evs'.
  destruct (submit_trades _ _ _ _ _ _ _ _ _ _ _ _ HB (proj2 Hh) (proj1 Hq) Hp Ea) as (ts & lft & ?).
  exists ts, lft. auto.
Qed.

Lemma price_time_priority_witness :
  healthy session = true ∧ ∃ b A evs0,
    OrderBook.run OrderBook.OrderBook session = Done (b, evs0) ∧ represents b A ∧
    ∃ b' evs ts lft, OrderBook.submit_order b 90 20 false 3 1 70 71 72 = Done (b', evs) ∧
      trades_of evs = map (trade_event 20 b.(OrderBook.order_id_) 3 71) ts ∧
      fair_fill 20 (priority_line true (a_side A true) 90) ts lft.
Proof.
  assert (healthy session = true) as H by (vm_compute; reflexivity). split; [exact H|].
  destruct (price_time_priority session H) as (b & A & evs & E & R & F); [vm_compute; reflexivity|].
  exists b, A, evs. split; [exact E|]. split; [exact R|].
  destruct (F 90 20 false 3 1 70 71 72) as (_ & _ & G);
    [unfold MINIMUM_BID, MAXIMUM_ASK; lia | lia | exact G].
Defined.

(** After a healthy history, [build_snapshot] fills its arrays with the
    first ten non-empty levels of each side, best first, with their exact
    volumes, and zeros after them. *)
Theorem snapshot_top_levels (rs : history) :
  healthy rs = true →
  ∃ b A evs bid ask, OrderBook.run OrderBook.OrderBook rs = Done (b, evs) ∧ represents b A ∧
    OrderBook.build_snapshot b = Done (bid, ask) ∧
    shows bid (depth_view true A.(a_bids)) ∧ shows ask (depth_view false A.(a_asks)).
Proof.
  intros Hh. pose proof Hh as (b & A & evs & E & _ & HR & HB)%healthy_run.
  apply healthy_bounds in Hh. destruct (snapshot_ok b A _ HR HB) as (bid & ask & ES & H1 & H2); [lia|].
  exists b, A, evs, bid, ask. auto.
Qed.

Lemma snapshot_top_levels_witness :
  healthy session = true ∧ ∃ b A evs bid ask,
    OrderBook.run OrderBook.OrderBook session = Done (b, evs) ∧ represents b A ∧
    OrderBook.build_snapshot b = Done (bid, ask) ∧
    shows bid (depth_view true A.(a_bids)) ∧ shows ask (depth_view false A.(a_asks)).
Proof.
  assert (healthy session = true) as H by (vm_compute; reflexivity).
  split; [exact H | apply (snapshot_top_levels session H)].
Defined.

(** C26: the level updates are a complete feed.  For any history of 32-bit
    requests, starting from zero and storing the total of every
    [on_level_update] gives, for every level of both sides, the
    [total_quantity_] the engine holds at the end. *)
Theorem level_feed_exact (rs : history) :
  forallb (λ r, valid_request r.1) rs = true → Z.of_nat (length rs) < 2 ^ 32 →
  ∃ b evs, OrderBook.run OrderBook.OrderBook rs = Done (b, evs) ∧
    ∀ bid k, 0 <= k < NUM_BOOK_LEVELS →
      ∃ level, get_level (OrderBook.get_side b bid) k = Done level ∧
        level.(PriceLevel.total_quantity_) =
          foldl replay empty_feed evs (side_of bid) level.(PriceLevel.price_).
Proof.
  rewrite forallb_forall. intros Hv Hl.
  destruct (run_refines OrderBook.OrderBook empty_book rs initial_book) as
    (b & A & evs & E & Hrun & (ls & fl & D & HR)); [| cbn; lia |].
  { apply Forall_forall. intros x Hx. by apply Hv, list_elem_of_In. }
  exists b, evs. split; [done|]. intros bid k Hk. eexists.
  split; [apply (rep_get_level (rb_side _ _ _ _ _ HR bid) k Hk)|]. cbn.
  rewrite (run_replay _ _ _ _ _ Hrun empty_knows bid k).
  unfold totals. by rewrite (rp_queue _ _ _ _ _ _ (rb_side _ _ _ _ _ HR bid)).
Qed.

Lemma level_feed_exact_witness :
  ∃ b evs, OrderBook.run OrderBook.OrderBook session = Done (b, evs) ∧
    ∃ level, get_level (OrderBook.get_side b true) 99 = Done level ∧
      level.(PriceLevel.total_quantity_) =
        foldl replay empty_feed evs (side_of true) level.(PriceLevel.price_).
Proof.
  destruct (level_feed_exact session) as (b & evs & E & F); [vm_compute; reflexivity..|].
  exists b, evs. split; [exact E|]. apply F. rewrite num_book_levels_val. lia.
Defined.

(** ** Cancels and amends *)

(** An order id rests at most once. *)
Lemma resting_unique b A bid k before o after bid' k' before' o' after' :
  represents b A → resting A bid k before o after → resting A bid' k' before' o' after' →
  od_order_id o = od_order_id o' →
  bid' = bid ∧ k' = k ∧ before' = before ∧ o' = o ∧ after' = after.
Proof.
  intros (ls & fl & D & HR) [Hk Hq] [Hk' Hq'] Hid.
  pose proof (rp_queue _ _ _ _ _ _ (rb_side _ _ _ _ _ HR bid) k) as E. rewrite Hq in E.
  pose proof (rp_queue _ _ _ _ _ _ (rb_side _ _ _ _ _ HR bid') k') as E'. rewrite Hq' in E'.
  symmetry in E, E'. apply map_eq_app in E as (l1 & l2 & E & <- & E2).
  apply map_eq_cons in E2 as (i & l2' & -> & <- & <-).
  apply map_eq_app in E' as (l1' & l3 & E' & <- & E2').
  apply map_eq_cons in E2' as (i' & l3' & -> & <- & <-).
  edestruct (rep_maps_ids _ _ ls D bid k i bid' k' i' (rb_maps _ _ _ _ _ HR)) as [<- <-];
    [rewrite E; set_solver | rewrite E'; set_solver | done |].
  pose proof (sh_slots _ _ _ _ _ _ (sv_shape _ _ _ _ _ _ _ _ (rp_view _ _ _ _ _ _
    (rb_side _ _ _ _ _ HR bid)))) as Hsl.
  assert (k' = k) as -> by (apply (sl_once _ _ _ Hsl k' k i); [rewrite E' | rewrite E]; set_solver).
  pose proof (sl_nodup _ _ _ Hsl k) as Hnd. rewrite E in E', Hnd.
  apply NoDup_app in Hnd as (_ & Hd & [Hn _]%NoDup_cons).
  apply app_eq_inv in E' as [(l & -> & E')|(l & -> & E')]; destruct l as [|j l]; cbn in E';
    rewrite ?app_nil_r; simplify_eq; try done.
  - exfalso. apply Hn. set_solver.
  - exfalso. apply (Hd j); set_solver.
Qed.

Lemma find_resting b A bid k before o after client req now :
  represents b A → resting A bid k before o after →
  od_client_id o ≠ client →
  OrderBook.find_owned b client req (od_order_id o) now =
    Done (inr (on_error client req UNAUTHORISED "Unauthorised request." now)).
Proof.
  intros HRep Hr Hc. pose proof HRep as (ls & fl & D & HR).
  destruct (find_owned_ok b ls fl D A client req (od_order_id o) now HR)
    as [[Hno _] | (bid' & k' & l1 & i & l2 & HL & ->)].
  { by destruct (Hno bid k before o after Hr). }
  pose proof (located_resting _ _ _ _ _ _ _ _ _ _ _ HR HL) as Hr'.
  destruct (resting_unique _ _ _ _ _ _ _ _ _ _ _ _ HRep Hr Hr') as (_ & _ & _ & -> & _);
    [by rewrite (lc_id _ _ _ _ _ _ _ _ HL)|].
  by rewrite (proj2 (Z.eqb_neq _ _) Hc).
Qed.

(** A book with one resting order, for the concrete instances below. *)
Definition lone_bid : OrderData := MkOrderData 7 0 100 10 10 0 true.

Lemma lone_bid_rests : ∃ b A, represents b A ∧ resting A true 99 [] lone_bid [].
Proof.
  destruct (submit_represented OrderBook.OrderBook empty_book 100 10 true 7 1 10 11 12 initial_book)
    as (b & A & evs & _ & Ea & HR); [lia | vm_compute; reflexivity |].
  exists b, A. split; [exact HR|]. split; [rewrite num_book_levels_val; lia|].
  replace A with (a_submit empty_book 100 10 true 7 1 10 11 12).1 by (by rewrite Ea).
  vm_compute. reflexivity.
Qed.

(** Ownership.  A cancel or an amend of a resting order by another client
    is refused with UNAUTHORISED and leaves the engine exactly as it was. *)
Theorem only_owner_acts b A bid k before o after client req quantity now :
  represents b A → resting A bid k before o after → od_client_id o ≠ client →
  let refusal := on_error client req UNAUTHORISED "Unauthorised request." now in
  OrderBook.cancel_order b client req (od_order_id o) now = Done (b, [refusal]) ∧
  OrderBook.amend_order b client req (od_order_id o) quantity now = Done (b, [refusal]).
Proof.
  intros HR Hr Hc refusal. unfold OrderBook.cancel_order, OrderBook.amend_order.
  by rewrite !(find_resting b A bid k before o after client req now HR Hr Hc).
Qed.

Lemma only_owner_acts_witness :
  ∃ b, OrderBook.cancel_order b 8 1 0 20 =
    Done (b, [on_error 8 1 UNAUTHORISED "Unauthorised request." 20]).
Proof.
  destruct lone_bid_rests as (b & A & HR & Hr). exists b.
  apply (only_owner_acts b A true 99 [] lone_bid [] 8 1 5 20 HR Hr). discriminate.
Defined.

Lemma cancel_step_inv b A bid k before o after req now now_match now_add A' evs :
  represents b A → resting A bid k before o after →
  book_step A now now_match now_add (OrderBook.Cancel (od_client_id o) req (od_order_id o)) A' evs →
  let queue := <[k := before ++ after]> (a_side A bid).(a_queue) in
  A' = a_put_side A bid (MkASide queue (best_after_cancel bid queue k (a_side A bid).(a_best))) ∧
  evs = [on_level_update (side_of bid) (level_price k) (queue_total (before ++ after)) now;
         on_order_cancelled req o now].
Proof.
  intros HR Hr Hs. inversion Hs as [| ? ? ? Hno | ? ? ? ? ? ? ? ? Hr' Hi Hc |
    ? ? ? ? ? ? ? ? queue Hr' Hi Hc Eq | | | | | |]; subst.
  - by destruct (Hno bid k before o after Hr).
  - by destruct (resting_unique _ _ _ _ _ _ _ _ _ _ _ _ HR Hr Hr' (eq_sym Hi)) as (_ & _ & _ & -> & _).
  - destruct (resting_unique _ _ _ _ _ _ _ _ _ _ _ _ HR Hr Hr' (eq_sym Hi)) as (-> & -> & -> & -> & ->).
    done.
Qed.

(** An order of the book after a removal was in it before, and is another one. *)
Lemma resting_elsewhere b A A' bid k before o after bid' j o' :
  represents b A → resting A bid k before o after →
  let queue := <[k := before ++ after]> (a_side A bid).(a_queue) in
  A' = a_put_side A bid (MkASide queue (best_after_cancel bid queue k (a_side A bid).(a_best))) →
  0 <= j < NUM_BOOK_LEVELS → o' ∈ (a_side A' bid').(a_queue) j → od_order_id o' = od_order_id o → False.
Proof.
  intros HR Hr queue -> Hj Ho' Hid.
  assert (∀ bid2 j2 l1 l2, resting A bid2 j2 l1 o' l2 →
    bid2 = bid ∧ j2 = k ∧ l1 = before ∧ o' = o ∧ l2 = after) as Hu
    by (intros bid2 j2 l1 l2 Hr2; by apply (resting_unique _ _ _ _ _ _ _ _ _ _ _ _ HR Hr Hr2)).
  destruct (bool_side bid bid') as [-> | ->].
  - rewrite a_side_put_eq in Ho'. cbn in Ho'. unfold queue, insert, fn_insert in Ho'. case_decide.
    + subst j. destruct Hr as [_ Hq].
      apply elem_of_app in Ho' as [Ho'|Ho']; apply list_elem_of_split in Ho' as (l1 & l2 & E).
      * destruct (Hu bid k l1 (l2 ++ o :: after)) as (_ & _ & E1 & _); [split; [done|]; by rewrite Hq, E, <- app_assoc|].
        apply (f_equal length) in E. rewrite length_app, E1 in E. cbn in E. lia.
      * destruct (Hu bid k (before ++ o :: l1) l2) as (_ & _ & E1 & _); [split; [done|]; by rewrite Hq, E, <- app_assoc|].
        apply (f_equal length) in E1. rewrite length_app in E1. cbn in E1. lia.
    + apply list_elem_of_split in Ho' as (l1 & l2 & E). by destruct (Hu bid j l1 l2) as (_ & <- & _).
  - rewrite a_side_put_ne in Ho'. apply list_elem_of_split in Ho' as (l1 & l2 & E).
    destruct (Hu (negb bid) j l1 l2) as [E' _]; [by split|]. by destruct bid.
Qed.

(** C33: a cancel by the owner takes exactly that order out of its queue,
    publishes the level's new total and then the order as it was, and the id is
    unknown afterwards. *)
Theorem cancel_removes b A bid k before o after req now :
  represents b A → resting A bid k before o after →
  ∃ b' A', OrderBook.cancel_order b (od_client_id o) req (od_order_id o) now =
      Done (b', [on_level_update (side_of bid) (level_price k) (queue_total (before ++ after)) now;
                 on_order_cancelled req o now]) ∧
    represents b' A' ∧ a_side A' (negb bid) = a_side A (negb bid) ∧
    (∀ k', (a_side A' bid).(a_queue) k' =
       if decide (k' = k) then before ++ after else (a_side A bid).(a_queue) k') ∧
    b'.(OrderBook.order_id_to_handle_) !! od_order_id o = None.
Proof.
  intros HR Hr.
  destruct (cancel_refines b A (od_client_id o) req (od_order_id o) now 0 0 HR)
    as (b' & A' & evs & E & Hs & HR').
  destruct (cancel_step_inv _ _ _ _ _ _ _ _ _ _ _ _ _ HR Hr Hs) as [EA ->].
  exists b', A'. split; [done|]. split; [done|]. rewrite EA, a_side_put_ne, a_side_put_eq.
  split; [done|].
  assert (∀ k', (<[k := before ++ after]> (a_queue (a_side A bid))) k' =
    if decide (k' = k) then before ++ after else a_queue (a_side A bid) k') as Hq.
  { intros k'. unfold insert, fn_insert. repeat case_decide; congruence. }
  split; [done|].
  destruct (_ !! od_order_id o) as [h|] eqn:Eh; [exfalso|done].
  destruct HR' as (ls & fl & D & HR').
  apply (rm_id _ _ _ _ (rb_maps _ _ _ _ _ HR')) in Eh as (bid' & j & i & Hi & Hid & _).
  destruct (rep_book_located _ _ _ _ _ _ _ _ HR' Hi) as (l1 & l2 & HL).
  pose proof (located_resting _ _ _ _ _ _ _ _ _ _ _ HR' HL) as [Hj Hq'].
  apply (resting_elsewhere b A A' bid k before o after bid' j (D bid' i) HR Hr EA Hj); [|done].
  rewrite Hq'. set_solver.
Qed.

Lemma cancel_removes_witness :
  ∃ b b', OrderBook.cancel_order b 7 2 0 20 =
    Done (b', [on_level_update BUY 100 0 20; on_order_cancelled 2 lone_bid 20]).
Proof.
  destruct lone_bid_rests as (b & A & HR & Hr).
  destruct (cancel_removes b A true 99 [] lone_bid [] 2 20 HR Hr) as (b' & A' & E & _).
  exists b, b'. exact E.
Defined.

Lemma resting_good b A bid k before o after :
  represents b A → resting A bid k before o after → good_data bid k o.
Proof.
  intros (ls & fl & D & HR) [Hk Hq]. pose proof (rb_side _ _ _ _ _ HR bid) as [_ HQ HG _].
  rewrite HQ in Hq. assert (o ∈ map (D bid) (ls bid k)) as (i & -> & Hi)%list_elem_of_fmap
    by (rewrite Hq; set_solver). by apply HG.
Qed.

Lemma with_quantity_same bid k o : good_data bid k o → with_quantity o (od_quantity o) = o.
Proof.
  intros [_ _ _ _ Hq _]. destruct o. unfold with_quantity. cbn in *. f_equal. lia.
Qed.

(** What an amend by the owner of a resting order steps to. *)
Lemma amend_step_inv b A bid k before o after req quantity now now_match now_add A' evs :
  represents b A → resting A bid k before o after →
  book_step A now now_match now_add
    (OrderBook.Amend (od_client_id o) req (od_order_id o) quantity) A' evs →
  (A' = A ∧ (quantity < od_cumulative o ∨ od_quantity o < quantity) ∧
     evs = [on_error (od_client_id o) req INVALID_VOLUME "Invalid order size." now]) ∨
  (od_cumulative o <= quantity <= od_quantity o ∧
   a_side A' (negb bid) = a_side A (negb bid) ∧
   (∃ evs', evs = on_order_amended req (od_quantity o) (with_quantity o quantity) now :: evs') ∧
   ∀ k', (a_side A' bid).(a_queue) k' =
     (<[k := if quantity =? od_cumulative o then before ++ after
             else before ++ with_quantity o quantity :: after]> (a_side A bid).(a_queue)) k').
Proof.
  intros HR Hr Hs. pose proof (resting_good _ _ _ _ _ _ _ HR Hr) as Hg.
  pose proof Hg as [_ _ Hgr Hgc Hgq _].
  inversion Hs as [| | | | ? ? ? ? Hno | ? ? ? ? ? ? ? o' ? Hr' Hi Hc | ? ? ? ? ? ? ? o' ? Hr' Hi Hc Hq |
    ? ? ? ? ? ? o' ? Hr' Hi Hc | ? ? ? ? ? ? ? o' ? queue Hr' Hi Hc Hq Eq
    | ? ? ? ? ? ? o' ? queue Hr' Hi Hc Eq]; subst.
  { by destruct (Hno bid k before o after Hr). }
  all: destruct (resting_unique _ _ _ _ _ _ _ _ _ _ _ _ HR Hr Hr' (eq_sym Hi)) as (-> & -> & -> & -> & ->).
  - done.
  - left. auto.
  - right. split; [lia|]. split; [done|]. rewrite (with_quantity_same bid k o Hg). split; [eauto|].
    rewrite (proj2 (Z.eqb_neq _ _)) by lia. intros k'. destruct Hr as [_ Hq].
    unfold insert, fn_insert. by case_decide; subst.
  - right. rewrite a_side_put_ne, a_side_put_eq. split; [lia|]. split; [done|]. split; [eauto|].
    by rewrite (proj2 (Z.eqb_neq _ _)) by lia.
  - right. rewrite a_side_put_ne, a_side_put_eq. split; [lia|]. split; [done|].
    split; [eauto|]. by rewrite Z.eqb_refl.
Qed.

(** C32: amends by the owner.  Outside the range from the executed to the
    original quantity the amend is refused and the orders are unchanged; inside
    it the order keeps its place in the queue with the new quantity, or leaves
    the book when nothing remains of it; no other order moves. *)
Theorem amend_outcomes b A bid k before o after req quantity now :
  represents b A → resting A bid k before o after → 0 <= quantity < 2 ^ 32 →
  ∃ b' A' evs, OrderBook.amend_order b (od_client_id o) req (od_order_id o) quantity now =
      Done (b', evs) ∧ represents b' A' ∧
    if (quantity <? od_cumulative o) || (od_quantity o <? quantity) then
      A' = A ∧ evs = [on_error (od_client_id o) req INVALID_VOLUME "Invalid order size." now]
    else
      a_side A' (negb bid) = a_side A (negb bid) ∧
      head evs = Some (on_order_amended req (od_quantity o) (with_quantity o quantity) now) ∧
      ∀ k', (a_side A' bid).(a_queue) k' =
        (<[k := if quantity =? od_cumulative o then before ++ after
                else before ++ with_quantity o quantity :: after]> (a_side A bid).(a_queue)) k'.
Proof.
  intros HR Hr Hq.
  destruct (amend_refines b A (od_client_id o) req (od_order_id o) quantity now 0 0 HR Hq)
    as (b' & A' & evs & E & Hs & HR'). exists b', A', evs. split; [done|]. split; [done|].
  destruct (amend_step_inv _ _ _ _ _ _ _ _ _ _ _ _ _ _ HR Hr Hs)
    as [(HA & Hrange & Hev)|(Hrange & HA & [evs' ->] & HQ)].
  - destruct (_ || _) eqn:Eb; [done | lia].
  - destruct (_ || _) eqn:Eb; [lia|]. auto.
Qed.

Lemma amend_outcomes_witness :
  ∃ b b' A' evs, OrderBook.amend_order b 7 2 0 4 20 = Done (b', evs) ∧ represents b' A' ∧
    (a_side A' true).(a_queue) 99 = [with_quantity lone_bid 4].
Proof.
  destruct lone_bid_rests as (b & A & HR & Hr).
  destruct (amend_outcomes b A true 99 [] lone_bid [] 2 4 20 HR Hr) as (b' & A' & evs & E & HR' & F);
    [lia|].
  exists b, b', A', evs. split; [exact E|]. split; [exact HR'|].
  destruct F as (_ & _ & F). rewrite F. apply fn_lookup_insert.
Defined.

(** ** Submissions *)

(** The quantity traded by a list of callbacks. *)
Definition traded_volume (evs : list Event) : Z :=
  foldr (λ e n, match e with on_trade _ _ _ _ _ _ q _ => q + n | _ => n end) 0 evs.

Lemma traded_volume_app evs evs' :
  traded_volume (evs ++ evs') = traded_volume evs + traded_volume evs'.
Proof.
  unfold traded_volume. induction evs as [|e evs IH]; [done|]. cbn. rewrite IH. by destruct e; try lia.
Qed.

Lemma traded_volume_trades total id client now ts :
  traded_volume (map (trade_event total id client now) ts) = traded ts.
Proof. induction ts as [|t ts IH]; [done|]. cbn. unfold traded_volume in IH. by rewrite IH. Qed.

Lemma sweep_traded bid price total id client now path queue incoming evs queue' path' rest :
  sweep bid price total id client now path queue incoming = (evs, queue', path', rest) →
  traded_volume evs + rest = incoming.
Proof.
  revert queue incoming evs. induction path as [|k path IH]; intros queue incoming evs; cbn [sweep];
    [by intros [= <- <- <- <-]|].
  destruct (incoming <=? 0); [by intros [= <- <- <- <-]|].
  destruct (negb _); [by intros [= <- <- <- <-]|].
  destruct (fill_queue incoming (queue k)) as [[ts q] lft] eqn:EF.
  apply fill_queue_sum in EF as [EF _].
  destruct q as [|o q].
  - destruct (sweep _ _ _ _ _ _ path _ lft) as [[[evs1 queue1] path1] rest1] eqn:ES.
    intros [= <- -> -> ->]. apply IH in ES.
    rewrite !traded_volume_app, traded_volume_trades. cbn. lia.
  - intros [= <- <- <- <-]. rewrite traded_volume_app, traded_volume_trades. cbn. lia.
Qed.

(** C30: nothing of a valid submission is lost.  The quantity is what the trade
    callbacks report plus a remainder; a positive remainder is queued behind
    every order of its level under the new id and reported by
    [on_order_inserted], unless the pool of its side is exhausted (100000
    resting orders), which is reported as ORDER_BOOK_FULL and queues nothing. *)
Theorem submission_accounted b A price quantity is_bid client req now now_match now_add :
  represents b A → 0 < quantity < 2 ^ 32 → MINIMUM_BID <= price <= MAXIMUM_ASK →
  b.(OrderBook.order_id_) + 1 < 2 ^ 32 →
  ∃ b' A' evs lft,
    OrderBook.submit_order b price quantity is_bid client req now now_match now_add =
      Done (b', evs) ∧ represents b' A' ∧ traded_volume evs + lft = quantity ∧
    let s := a_side A is_bid in
    let s' := a_side A' is_bid in
    let o := MkOrderData client b.(OrderBook.order_id_) price quantity lft (quantity - lft) is_bid in
    let full := on_error client req ORDER_BOOK_FULL "Order book is full." now_add in
    if lft <=? 0 then s' = s
    else if Z.of_nat (length (side_orders s)) <? MAX_ORDERS then
      s'.(a_queue) (price_level price) = s.(a_queue) (price_level price) ++ [o] ∧
      last evs = Some (on_order_inserted req o now)
    else s' = s ∧ last evs = Some full.
Proof.
  intros HR Hq Hp Hid.
  destruct (submit_represented b A price quantity is_bid client req now now_match now_add HR)
    as (b' & A' & evs & E & Ea & HR'); [lia | done |].
  destruct (represents_next_id _ _ HR) as [<- _].
  unfold a_submit, a_match in Ea. destruct (quantity =? 0) eqn:Eq; [lia|].
  destruct ((price <? MINIMUM_BID) || (MAXIMUM_ASK <? price)) eqn:Ep; [lia|].
  destruct (sweep _ _ _ _ _ _ _ _ _) as [[[evs1 queue] path] lft] eqn:ES. apply sweep_traded in ES.
  exists b', A', evs, lft. split; [done|]. split; [done|]. cbv zeta.
  destruct (lft <=? 0) eqn:El.
  { injection Ea as <- <-. split; [done|]. by destruct is_bid. }
  destruct (MAX_ORDERS <=? _) eqn:Ec; injection Ea as <- <-; rewrite traded_volume_app; cbn [traded_volume foldr].
  - rewrite (proj2 (Z.ltb_ge _ _)) by lia. split; [lia|]. rewrite last_app. cbn. by destruct is_bid.
  - rewrite (proj2 (Z.ltb_lt _ _)) by lia. split; [lia|]. rewrite last_app. cbn.
    split; [|done]. destruct is_bid; cbn; apply fn_lookup_insert.
Qed.

Lemma submission_accounted_witness :
  ∃ b' A' evs lft,
    OrderBook.submit_order OrderBook.OrderBook 100 10 true 7 1 10 11 12 = Done (b', evs) ∧
    represents b' A' ∧ traded_volume evs + lft = 10.
Proof.
  destruct (submission_accounted OrderBook.OrderBook empty_book 100 10 true 7 1 10 11 12 initial_book)
    as (b' & A' & evs & lft & E & R & T & _);
    [lia | unfold MINIMUM_BID, MAXIMUM_ASK; lia | vm_compute; reflexivity |].
  exists b', A', evs, lft. auto.
Defined.

(** Matching against a side no order of which crosses. *)
Lemma a_match_none bid V next s price quantity id client now :
  side_ok bid V next s → 0 < quantity → priority_line bid s price = [] →
  a_match bid s price quantity id client now = ([], s, quantity).
Proof.
  intros HS Hq Hline. unfold a_match. pose proof (visible_head bid s (so_best _ _ _ _ HS)) as Hh.
  destruct (visible bid s) as [|k path] eqn:Ev; cbn [sweep].
  { cbn in Hh. rewrite Hh. by destruct s. }
  rewrite (proj2 (Z.leb_gt _ _) Hq).
  destruct (crosses bid (level_price k) price) eqn:Ec; cbn [negb].
  2:{ rewrite Hh. by destruct s. }
  exfalso. destruct (visible_cons bid s k path (eq_sym Ev)) as (Hb & Hk & _).
  destruct (so_best _ _ _ _ HS) as [[E _]|(_ & Hne & _)]; [lia|]. rewrite Hb in Hne.
  destruct (a_queue s k) as [|o q] eqn:Eq; [done|].
  assert (o ∈ a_queue s k) as Ho by (rewrite Eq; set_solver).
  assert (o ∈ priority_line bid s price) as Hin.
  { apply (line_members HS). exists k. by rewrite (queue_price HS k o Ho). }
  rewrite Hline in Hin. set_solver.
Qed.

(** The book after an order that crosses nothing was queued. *)
Lemma submit_none V A price quantity is_bid client req now now_match now_add :
  book_ok V A → 0 < quantity → MINIMUM_BID <= price <= MAXIMUM_ASK →
  priority_line (negb is_bid) (a_side A (negb is_bid)) price = [] →
  Z.of_nat (length (side_orders (a_side A is_bid))) < MAX_ORDERS →
  let o := MkOrderData client A.(a_next_id) price quantity quantity 0 is_bid in
  let k := price_level price in
  ∃ A' evs, a_submit A price quantity is_bid client req now now_match now_add = (A', evs) ∧
    a_side A' (negb is_bid) = a_side A (negb is_bid) ∧
    a_side A' is_bid = a_rest is_bid (a_side A is_bid) o ∧
    resting A' is_bid k ((a_side A is_bid).(a_queue) k) o [].
Proof.
  intros HB Hq Hp Hline Hsize o k. unfold a_submit. destruct (quantity =? 0) eqn:Eq; [lia|].
  destruct ((price <? MINIMUM_BID) || (MAXIMUM_ASK <? price)) eqn:Ep; [lia|].
  rewrite (a_match_none _ _ _ _ _ _ _ _ _ (bo_side _ _ HB (negb is_bid)) Hq Hline).
  rewrite (proj2 (Z.leb_gt _ _) Hq), (proj2 (Z.leb_gt _ _) Hsize), Z.sub_diag.
  eexists _, _. split; [reflexivity|]. rewrite a_side_put_ne, a_side_put_eq, a_side_put_eq.
  split; [done|]. split; [done|]. split; [by apply price_level_range|].
  rewrite a_side_put_eq. cbn. apply fn_lookup_insert.
Qed.

Lemma best_ok_ext bid queue queue' best :
  (∀ k, queue k = queue' k) → best_ok bid (MkASide queue best) → best_ok bid (MkASide queue' best).
Proof.
  intros E [[Hb H]|(Hr & Hne & H)]; cbn in *; [left | right]; cbn.
  - split; [done|]. intros k. by rewrite <- E.
  - rewrite <- E. split; [done|]. split; [done|]. intros k. rewrite <- E. apply H.
Qed.

(** Submit then cancel.  On a book that satisfies the invariant, an order
    that crosses nothing and fits can be cancelled under the id it was given,
    and the book is then as it was before it: the same queues and the same best
    prices. *)
Theorem submit_cancel_roundtrip b A V price quantity is_bid client req req' now now_match now_add now' :
  represents b A → book_ok V A → 0 <= V → b.(OrderBook.order_id_) + 1 < 2 ^ 32 →
  MINIMUM_BID <= price <= MAXIMUM_ASK → 0 < quantity → V + quantity < 2 ^ 32 →
  priority_line (negb is_bid) (a_side A (negb is_bid)) price = [] →
  Z.of_nat (length (side_orders (a_side A is_bid))) < MAX_ORDERS →
  ∃ b1 evs1 b2 evs2 A2,
    OrderBook.submit_order b price quantity is_bid client req now now_match now_add =
      Done (b1, evs1) ∧
    OrderBook.cancel_order b1 client req' b.(OrderBook.order_id_) now' = Done (b2, evs2) ∧
    represents b2 A2 ∧
    ∀ bid, (a_side A2 bid).(a_best) = (a_side A bid).(a_best) ∧
      ∀ k, (a_side A2 bid).(a_queue) k = (a_side A bid).(a_queue) k.
Proof.
  intros HR HB HV Hid Hp Hq HVq Hline Hsize.
  destruct (represents_next_id _ _ HR) as [Hn Hw]. rewrite <- Hn in *.
  destruct (submit_none _ A price quantity is_bid client req now now_match now_add HB Hq Hp Hline Hsize)
    as (A1 & evs1 & Ea & Hs1 & Hs2 & Hr).
  destruct (submit_represented b A price quantity is_bid client req now now_match now_add HR)
    as (b1 & A1' & evs1' & E1 & Ea' & HR1); [lia | lia |]. rewrite Ea in Ea'. injection Ea' as <- <-.
  pose proof (submit_ok _ _ _ _ _ _ _ _ _ _ _ _ HB HV (Z.lt_le_incl _ _ Hq) HVq
    (proj1 Hw) Hid Ea) as HB1.
  destruct (cancel_refines b1 A1 client req' (a_next_id A) now' 0 0 HR1)
    as (b2 & A2 & evs2 & E2 & Hs & HR2).
  exists b1, evs1, b2, evs2, A2. split; [done|]. split; [done|]. split; [done|].
  destruct (cancel_step_inv _ _ _ _ _ _ _ _ _ _ _ _ _ HR1 Hr Hs) as [EA _].
  pose proof (cancelled_ok _ _ _ _ _ _ _ HB1 (conj (Z.add_nonneg_nonneg _ _ HV
    (Z.lt_le_incl _ _ Hq)) HVq) Hr) as HB2. cbv zeta in HB2. rewrite <- EA in HB2.
  assert (∀ bid k, a_queue (a_side A2 bid) k = a_queue (a_side A bid) k) as HQ.
  { intros bid k. rewrite EA. destruct (bool_side is_bid bid) as [-> | ->].
    - rewrite a_side_put_eq, Hs2. cbn. rewrite app_nil_r. unfold insert, fn_insert.
      by repeat case_decide; subst.
    - by rewrite a_side_put_ne, Hs1. }
  intros bid. split; [|apply HQ].
  pose proof (so_best _ _ _ _ (bo_side _ _ HB2 bid)) as B2.
  pose proof (so_best _ _ _ _ (bo_side _ _ HB bid)) as B1. specialize (HQ bid).
  destruct (a_side A2 bid) as [queue2 best2], (a_side A bid) as [queue1 best1]. cbn in *.
  eapply best_ok_unique; [eapply best_ok_ext, B2; done | done].
Qed.

Lemma submit_cancel_roundtrip_witness :
  ∃ b1 evs1 b2 evs2 A2,
    OrderBook.submit_order OrderBook.OrderBook 101 3 true 9 1 70 71 72 = Done (b1, evs1) ∧
    OrderBook.cancel_order b1 9 2 0 80 = Done (b2, evs2) ∧ represents b2 A2 ∧
    ∀ bid, (a_side A2 bid).(a_best) = (a_side empty_book bid).(a_best) ∧
      ∀ k, (a_side A2 bid).(a_queue) k = (a_side empty_book bid).(a_queue) k.
Proof.
  apply (submit_cancel_roundtrip OrderBook.OrderBook empty_book 0 101 3 true 9 1 2 70 71 72 80);
    [exact initial_book | exact empty_ok | lia | vm_compute; reflexivity
    | unfold MINIMUM_BID, MAXIMUM_ASK; lia | lia | lia | vm_compute; reflexivity
    | vm_compute; reflexivity].
Defined.

(** ** Two histories outside these guarantees *)

Definition listing (b : OrderBook.t) (bid : bool) (k : Z) : list OrderData :=
  match level_orders (OrderBook.get_side b bid) k with Done q => q | _ => [] end.

(** Two bids, then the owner of the worse one amends it down to nothing. *)
Definition amend_worse_level : history :=
  [(OrderBook.Submit 100 10 true 1 1, (10, 11, 12));
   (OrderBook.Submit 99 5 true 1 2, (20, 21, 22));
   (OrderBook.Amend 1 3 1 0, (30, 31, 32));
   (OrderBook.Submit 95 7 false 2 1, (40, 41, 42))].

(** An amend that closes the last order of a worse level makes the engine
    lose its best level ([amend_order] moves the best index whenever the
    amended level is empty): the bid at 100 is still queued, a sell at 95 does
    not trade with it, and the book is crossed. *)
Theorem amend_worse_level_crosses_book :
  match OrderBook.run OrderBook.OrderBook amend_worse_level with
  | Done (b, evs) =>
      listing b true (price_level 100) = [MkOrderData 1 0 100 10 10 0 true] ∧
      listing b false (price_level 95) = [MkOrderData 2 2 95 7 7 0 false] ∧
      b.(OrderBook.bids).(best_price_index_) = NUM_BOOK_LEVELS ∧ trades_of evs = []
  | _ => False
  end.
Proof. vm_compute. repeat split. Qed.

(** Two orders of 2{^31} at one price. *)
Definition full_counter : history :=
  [(OrderBook.Submit 100 (2 ^ 31) true 1 1, (10, 11, 12));
   (OrderBook.Submit 100 (2 ^ 31) true 1 2, (20, 21, 22));
   (OrderBook.Submit 101 1 true 1 3, (30, 31, 32));
   (OrderBook.Cancel 1 4 2, (40, 41, 42))].

(** [total_quantity_] is a 32-bit counter: two resting orders of 2{^31} make
    it 0, and a rescan of the best level then takes their level for empty,
    although both orders are still queued. *)
Theorem level_total_wraps :
  match OrderBook.run OrderBook.OrderBook full_counter with
  | Done (b, _) =>
      queue_sum (listing b true (price_level 100)) = 2 ^ 32 ∧
      (level_at b.(OrderBook.bids) (price_level 100)).(PriceLevel.total_quantity_) = 0 ∧
      b.(OrderBook.bids).(best_price_index_) = NUM_BOOK_LEVELS
  | _ => False
  end.
Proof. vm_compute. repeat split. Qed.
