(* ===== verification/Codec.v ===== *)
(** Packed little-endian layouts: how the objects of [protocol.hpp] are laid out
    in memory under [#pragma pack(push, 1)] on a little-endian machine.  A codec
    is a record of operations with its laws; structs are built from their
    fields, in declaration order and without padding. *)

From S2P Require Import Prelude.

(** A byte is a [uint8_t]. *)
Definition is_byte (z : Z) : Prop := 0 <= z < 2 ^ 8.
Abbreviation bytes := (list Z).

Record codec (A : Type) : Type := MkCodec {
  size_of : nat;
  encode : A → bytes;
  decode : bytes → A;
  in_range : A → Prop
}.
Arguments size_of {A} c.
Arguments encode {A} c _.
Arguments decode {A} c _.
Arguments in_range {A} c _.

(** What a client of a layout relies on: objects occupy [size_of] bytes, reading
    back what was written gives the object whatever follows it, and rewriting
    what was read gives the bytes. *)
Class Lawful {A : Type} (c : codec A) : Prop := MkLawful {
  encode_length x : in_range c x → length (encode c x) = size_of c;
  encode_bytes x : Forall is_byte (encode c x);
  decode_encode x rest : in_range c x → decode c (encode c x ++ rest) = x;
  decode_range bs : (size_of c <= length bs)%nat → Forall is_byte bs → in_range c (decode c bs);
  encode_decode bs : (size_of c <= length bs)%nat → Forall is_byte bs →
    encode c (decode c bs) = take (size_of c) bs
}.

(** ** Integers *)

Fixpoint le_encode (n : nat) (z : Z) : bytes :=
  match n with
  | O => []
  | S n => u8 z :: le_encode n (Z.shiftr z 8)
  end.

Fixpoint le_decode (n : nat) (bs : bytes) : Z :=
  match n, bs with
  | S n, b :: bs => Z.lor b (Z.shiftl (le_decode n bs) 8)
  | _, _ => 0
  end.

Definition unsigned (n : nat) : codec Z :=
  MkCodec Z n (le_encode n) (le_decode n) (λ z, 0 <= z < 2 ^ (8 * Z.of_nat n)).

(** [int64_t]: two's complement in the same eight bytes. *)
Definition signed64 : codec Z :=
  MkCodec Z 8 (λ z, le_encode 8 (u64 z)) (λ bs, i64 (le_decode 8 bs))
    (λ z, - 2 ^ 63 <= z < 2 ^ 63).

Lemma u8_spec z : u8 z = z mod 2 ^ 8.
Proof. by with_strategy transparent [u8] unfold u8. Qed.

Lemma lor_shiftl_add b z : is_byte b → Z.lor b (Z.shiftl z 8) = b + 2 ^ 8 * z.
Proof.
  intros Hb. pose proof (Z.add_lor_land b (Z.shiftl z 8)) as E.
  assert (Z.land b (Z.shiftl z 8) = 0) as H0.
  { apply Z.bits_inj'. intros n Hn. rewrite Z.land_spec, Z.bits_0.
    destruct (decide (n < 8)).
    - rewrite (Z.shiftl_spec_low z 8 n) by lia. apply andb_false_r.
    - unfold is_byte in Hb. assert (Z.testbit b n = false) as ->; [|done].
      destruct (decide (b = 0)) as [->|Hz]; [apply Z.bits_0|].
      apply Z.bits_above_log2; [lia|].
      assert (Z.log2 b < 8) by (apply Z.log2_lt_pow2; lia). lia. }
  rewrite Z.shiftl_mul_pow2 in * by lia. lia.
Qed.

Lemma le_encode_length n z : length (le_encode n z) = n.
Proof. revert z. induction n as [|n IH]; intros z; cbn; auto. Qed.

Lemma le_encode_bytes n z : Forall is_byte (le_encode n z).
Proof.
  revert z. induction n as [|n IH]; intros z; constructor; [|apply IH].
  unfold is_byte. rewrite u8_spec. apply Z.mod_pos_bound. lia.
Qed.

Lemma pow_byte n : 2 ^ (8 * Z.of_nat (S n)) = 2 ^ 8 * 2 ^ (8 * Z.of_nat n).
Proof. rewrite <- Z.pow_add_r by lia. f_equal. lia. Qed.

Lemma le_decode_encode n z rest :
  0 <= z < 2 ^ (8 * Z.of_nat n) → le_decode n (le_encode n z ++ rest) = z.
Proof.
  revert z. induction n as [|n IH]; intros z Hz; [cbn in *; lia|]. rewrite pow_byte in Hz.
  cbn [le_encode le_decode app].
  rewrite lor_shiftl_add by (unfold is_byte; rewrite u8_spec; apply Z.mod_pos_bound; lia).
  rewrite IH.
  - rewrite u8_spec, Z.shiftr_div_pow2 by lia. pose proof (Z_div_mod_eq_full z (2 ^ 8)). lia.
  - rewrite Z.shiftr_div_pow2 by lia. split; [apply Z.div_pos; lia|].
    apply Z.div_lt_upper_bound; lia.
Qed.

Lemma le_decode_range n bs :
  (n <= length bs)%nat → Forall is_byte bs → 0 <= le_decode n bs < 2 ^ (8 * Z.of_nat n).
Proof.
  revert bs. induction n as [|n IH]; intros bs Hl Hb; [done|].
  destruct bs as [|b bs]; [cbn in Hl; lia|]. inversion Hb as [|? ? Hb1 Hb2]; subst.
  cbn [le_decode]. rewrite lor_shiftl_add, pow_byte by done.
  specialize (IH bs ltac:(cbn in Hl; lia) Hb2). unfold is_byte in Hb1. nia.
Qed.

Lemma le_encode_decode n bs :
  (n <= length bs)%nat → Forall is_byte bs → le_encode n (le_decode n bs) = take n bs.
Proof.
  revert bs. induction n as [|n IH]; intros bs Hl Hb; [done|].
  destruct bs as [|b bs]; [cbn in Hl; lia|]. inversion Hb as [|? ? Hb1 Hb2]; subst.
  cbn [le_decode le_encode take]. rewrite lor_shiftl_add by done. unfold is_byte in Hb1. f_equal.
  - rewrite u8_spec, (Z.mul_comm (2 ^ 8)), Z_mod_plus_full. by apply Z.mod_small.
  - rewrite Z.shiftr_div_pow2, (Z.mul_comm (2 ^ 8)), Z.div_add by lia.
    rewrite (Z.div_small b), Z.add_0_l by done. apply IH; [cbn in Hl; lia | done].
Qed.

#[global] Instance unsigned_lawful n : Lawful (unsigned n).
Proof.
  split; cbn.
  - intros x _. apply le_encode_length.
  - apply le_encode_bytes.
  - intros x rest. apply le_decode_encode.
  - apply le_decode_range.
  - apply le_encode_decode.
Qed.

Lemma i64_u64 z : - 2 ^ 63 <= z < 2 ^ 63 → i64 (u64 z) = z.
Proof.
  intros Hz. with_strategy transparent [u64 i64] unfold u64, i64.
  rewrite Zplus_mod_idemp_l. rewrite Z.mod_small; lia.
Qed.

Lemma u64_i64 z : 0 <= z < 2 ^ 64 → u64 (i64 z) = z.
Proof.
  intros Hz. with_strategy transparent [u64 i64] unfold u64, i64.
  rewrite Zminus_mod_idemp_l. replace (z + 2 ^ 63 - 2 ^ 63) with z by lia. by apply Z.mod_small.
Qed.

Lemma i64_range z : - 2 ^ 63 <= i64 z < 2 ^ 63.
Proof.
  with_strategy transparent [i64] unfold i64.
  pose proof (Z.mod_pos_bound (z + 2 ^ 63) (2 ^ 64)). lia.
Qed.

#[global] Instance signed64_lawful : Lawful signed64.
Proof.
  split; cbn [signed64 size_of encode decode in_range].
  - intros x _. apply le_encode_length.
  - intros x. apply le_encode_bytes.
  - intros x rest Hx. rewrite le_decode_encode by apply u64_range. by apply i64_u64.
  - intros bs _ _. apply i64_range.
  - intros bs Hl Hb. rewrite u64_i64; [by apply le_encode_decode|]. by apply (le_decode_range 8).
Qed.

(** ** Structs and arrays *)

(** Two members, one after the other. *)
Definition pair_codec {A B} (c1 : codec A) (c2 : codec B) : codec (A * B) :=
  MkCodec (A * B) (size_of c1 + size_of c2)
    (λ x, encode c1 x.1 ++ encode c2 x.2)
    (λ bs, (decode c1 bs, decode c2 (drop (size_of c1) bs)))
    (λ x, in_range c1 x.1 ∧ in_range c2 x.2).
Infix "⊗" := pair_codec (at level 40, left associativity).

#[global] Instance pair_lawful {A B} (c1 : codec A) (c2 : codec B) :
  Lawful c1 → Lawful c2 → Lawful (c1 ⊗ c2).
Proof.
  intros L1 L2. split; cbn [pair_codec size_of encode decode in_range].
  - intros [a b] [H1 H2]. rewrite length_app, !encode_length; done.
  - intros [a b]. apply Forall_app; split; apply encode_bytes.
  - intros [a b] rest [H1 H2]; cbn [fst snd] in *. rewrite <- app_assoc, decode_encode by done.
    f_equal. rewrite drop_app_length' by (symmetry; by apply encode_length). by apply decode_encode.
  - intros bs Hl Hb. cbn. split; apply decode_range; rewrite ?length_drop; try lia; [done|].
    by apply Forall_drop.
  - intros bs Hl Hb. cbn. rewrite !encode_decode by (rewrite ?length_drop; lia || by try apply Forall_drop).
    by rewrite take_take_drop.
Qed.

(** A struct whose members are those of a nested pair. *)
Definition struct {A B} (c : codec A) (to : B → A) (from : A → B) : codec B :=
  MkCodec B (size_of c) (λ x, encode c (to x)) (λ bs, from (decode c bs)) (λ x, in_range c (to x)).

Lemma struct_lawful {A B} (c : codec A) (to : B → A) (from : A → B) :
  Lawful c → (∀ x, from (to x) = x) → (∀ y, to (from y) = y) → Lawful (struct c to from).
Proof.
  intros L E1 E2. split; cbn [struct size_of encode decode in_range]; intros.
  - by apply encode_length.
  - apply encode_bytes.
  - by rewrite decode_encode, E1.
  - rewrite E2. by apply decode_range.
  - rewrite E2. by apply encode_decode.
Qed.

(** [std::array<A, n>] and [A x[n]]. *)
Fixpoint decode_n {A} (c : codec A) (n : nat) (bs : bytes) : list A :=
  match n with
  | O => []
  | S n => decode c bs :: decode_n c n (drop (size_of c) bs)
  end.

Definition array_codec {A} (n : nat) (c : codec A) : codec (list A) :=
  MkCodec (list A) (n * size_of c) (λ xs, concat (map (encode c) xs)) (decode_n c n)
    (λ xs, length xs = n ∧ Forall (in_range c) xs).

#[global] Instance array_lawful {A} n (c : codec A) : Lawful c → Lawful (array_codec n c).
Proof.
  intros L. split; cbn [array_codec size_of encode decode in_range].
  - intros xs [<- Hxs]. induction Hxs as [|x xs Hx _ IH]; [done|].
    cbn. rewrite length_app, encode_length by done. by rewrite IH.
  - intros xs. induction xs as [|x xs IH]; [constructor|]. apply Forall_app. split; [apply encode_bytes | done].
  - intros xs rest [<- Hxs]. induction Hxs as [|x xs Hx _ IH]; [done|]. cbn.
    rewrite <- app_assoc, decode_encode by done. f_equal.
    by rewrite drop_app_length' by (symmetry; by apply encode_length).
  - induction n as [|n IH]; intros bs Hl Hb; [by split|]. cbn in Hl |- *.
    destruct (IH (drop (size_of c) bs)) as [H1 H2]; [rewrite length_drop; lia | by apply Forall_drop|].
    split; [by rewrite H1|]. constructor; [apply decode_range; [lia | done] | done].
  - induction n as [|n IH]; intros bs Hl Hb; [done|]. cbn in Hl |- *.
    rewrite encode_decode by (lia || done).
    rewrite IH by (rewrite ?length_drop; lia || by try apply Forall_drop). by rewrite take_take_drop.
Qed.

(** Reading an object does not look past it. *)
Class Prefixed {A : Type} (c : codec A) : Prop :=
  decode_app bs more : (size_of c <= length bs)%nat → decode c (bs ++ more) = decode c bs.

#[global] Instance unsigned_prefixed n : Prefixed (unsigned n).
Proof.
  intros bs more. cbn. revert bs. induction n as [|n IH]; intros [|b bs]; cbn; try done; try lia.
  intros Hl. by rewrite IH by lia.
Qed.

#[global] Instance signed64_prefixed : Prefixed signed64.
Proof. intros bs more Hl. cbn [signed64 decode]. f_equal. by apply (unsigned_prefixed 8). Qed.

#[global] Instance pair_prefixed {A B} (c1 : codec A) (c2 : codec B) : Prefixed c1 → Prefixed c2 → Prefixed (c1 ⊗ c2).
Proof.
  intros L1 L2 bs more. cbn. intros Hl. rewrite drop_app_le, !decode_app by (rewrite ?length_drop; lia). done.
Qed.

Lemma struct_prefixed {A B} (c : codec A) (to : B → A) (from : A → B) : Prefixed c → Prefixed (struct c to from).
Proof. intros L bs more Hl. cbn. by rewrite decode_app. Qed.
