(* ===== verification/Payloads.v ===== *)
(** The message payloads of [protocol.hpp]: one module per packed struct, with
    its members in declaration order and its layout, and the [make_*] functions.

    A member of an enumeration type holds its underlying [uint8_t] value: a
    payload read from the wire can hold any byte there.  [std::array] and [char]
    array members are lists, of the length the layout requires. *)

From S2P Require Import Prelude Types Codec.

Module PayloadDisconnect.
Record t := Make {
  client_request_id : Id_t
}.

Definition layout : codec t := struct (unsigned 4) (λ p, p.(client_request_id)) Make.
#[global] Instance PayloadDisconnect_lawful : Lawful layout.
Proof. apply struct_lawful; [apply _ | by intros [] | by intros ?]. Qed.
End PayloadDisconnect.

Module PayloadInsertOrder.
Record t := Make {
  client_request_id : Id_t;
  side : Z;
  price : Price_t;
  quantity : Volume_t;
  lifespan : Z
}.

Definition layout : codec t :=
  struct
    (unsigned 4 ⊗ unsigned 1 ⊗ signed64 ⊗ unsigned 4 ⊗ unsigned 1)
    (λ p, (p.(client_request_id), p.(side), p.(price), p.(quantity), p.(lifespan)))
    (λ '(x1, x2, x3, x4, x5), Make x1 x2 x3 x4 x5).
#[global] Instance PayloadInsertOrder_lawful : Lawful layout.
Proof. apply struct_lawful; [apply _ | by intros [] | by intros [[[[x1 x2] x3] x4] x5]]. Qed.
End PayloadInsertOrder.

Module PayloadCancelOrder.
Record t := Make {
  client_request_id : Id_t;
  exchange_order_id : Id_t
}.

Definition layout : codec t :=
  struct
    (unsigned 4 ⊗ unsigned 4)
    (λ p, (p.(client_request_id), p.(exchange_order_id)))
    (λ '(x1, x2), Make x1 x2).
#[global] Instance PayloadCancelOrder_lawful : Lawful layout.
Proof. apply struct_lawful; [apply _ | by intros [] | by intros [x1 x2]]. Qed.
End PayloadCancelOrder.

Module PayloadAmendOrder.
Record t := Make {
  client_request_id : Id_t;
  exchange_order_id : Id_t;
  new_total_quantity : Volume_t
}.

Definition layout : codec t :=
  struct
    (unsigned 4 ⊗ unsigned 4 ⊗ unsigned 4)
    (λ p, (p.(client_request_id), p.(exchange_order_id), p.(new_total_quantity)))
    (λ '(x1, x2, x3), Make x1 x2 x3).
#[global] Instance PayloadAmendOrder_lawful : Lawful layout.
Proof. apply struct_lawful; [apply _ | by intros [] | by intros [[x1 x2] x3]]. Qed.
End PayloadAmendOrder.

Module PayloadSubscribe.
Record t := Make {
  client_request_id : Id_t
}.

Definition layout : codec t := struct (unsigned 4) (λ p, p.(client_request_id)) Make.
#[global] Instance PayloadSubscribe_lawful : Lawful layout.
Proof. apply struct_lawful; [apply _ | by intros [] | by intros ?]. Qed.
End PayloadSubscribe.

Module PayloadUnsubscribe.
Record t := Make {
  client_request_id : Id_t
}.

Definition layout : codec t := struct (unsigned 4) (λ p, p.(client_request_id)) Make.
#[global] Instance PayloadUnsubscribe_lawful : Lawful layout.
Proof. apply struct_lawful; [apply _ | by intros [] | by intros ?]. Qed.
End PayloadUnsubscribe.

Module PayloadOrderStatusRequest.
Record t := Make {
  client_request_id : Id_t;
  exchange_order_id : Id_t
}.

Definition layout : codec t :=
  struct
    (unsigned 4 ⊗ unsigned 4)
    (λ p, (p.(client_request_id), p.(exchange_order_id)))
    (λ '(x1, x2), Make x1 x2).
#[global] Instance PayloadOrderStatusRequest_lawful : Lawful layout.
Proof. apply struct_lawful; [apply _ | by intros [] | by intros [x1 x2]]. Qed.
End PayloadOrderStatusRequest.

Module PayloadError.
Record t := Make {
  client_request_id : Id_t;
  code : Z;
  message : list Z;
  timestamp : Time_t
}.

Definition layout : codec t :=
  struct
    (unsigned 4 ⊗ unsigned 2 ⊗ (array_codec (Z.to_nat ERROR_TEXT_LEN) (unsigned 1)) ⊗ unsigned 8)
    (λ p, (p.(client_request_id), p.(code), p.(message), p.(timestamp)))
    (λ '(x1, x2, x3, x4), Make x1 x2 x3 x4).
#[global] Instance PayloadError_lawful : Lawful layout.
Proof. apply struct_lawful; [apply _ | by intros [] | by intros [[[x1 x2] x3] x4]]. Qed.
End PayloadError.

Module PayloadConfirmOrderInserted.
Record t := Make {
  client_request_id : Id_t;
  exchange_order_id : Id_t;
  side : Z;
  price : Price_t;
  total_quantity : Volume_t;
  leaves_quantity : Volume_t;
  timestamp : Time_t
}.

Definition layout : codec t :=
  struct
    (unsigned 4 ⊗ unsigned 4 ⊗ unsigned 1 ⊗ signed64 ⊗ unsigned 4 ⊗ unsigned 4 ⊗ unsigned 8)
    (λ p, (p.(client_request_id), p.(exchange_order_id), p.(side), p.(price), p.(total_quantity)
     , p.(leaves_quantity), p.(timestamp)))
    (λ '(x1, x2, x3, x4, x5, x6, x7), Make x1 x2 x3 x4 x5 x6 x7).
#[global] Instance PayloadConfirmOrderInserted_lawful : Lawful layout.
Proof. apply struct_lawful; [apply _ | by intros [] | by intros [[[[[[x1 x2] x3] x4] x5] x6] x7]]. Qed.
End PayloadConfirmOrderInserted.

Module PayloadConfirmOrderCancelled.
Record t := Make {
  client_request_id : Id_t;
  exchange_order_id : Id_t;
  leaves_quantity : Volume_t;
  price : Price_t;
  side : Z;
  timestamp : Time_t
}.

Definition layout : codec t :=
  struct
    (unsigned 4 ⊗ unsigned 4 ⊗ unsigned 4 ⊗ signed64 ⊗ unsigned 1 ⊗ unsigned 8)
    (λ p, (p.(client_request_id), p.(exchange_order_id), p.(leaves_quantity), p.(price), p.(side)
     , p.(timestamp)))
    (λ '(x1, x2, x3, x4, x5, x6), Make x1 x2 x3 x4 x5 x6).
#[global] Instance PayloadConfirmOrderCancelled_lawful : Lawful layout.
Proof. apply struct_lawful; [apply _ | by intros [] | by intros [[[[[x1 x2] x3] x4] x5] x6]]. Qed.
End PayloadConfirmOrderCancelled.

Module PayloadConfirmOrderAmended.
Record t := Make {
  client_request_id : Id_t;
  exchange_order_id : Id_t;
  old_total_quantity : Volume_t;
  new_total_quantity : Volume_t;
  leaves_quantity : Volume_t;
  timestamp : Time_t
}.

Definition layout : codec t :=
  struct
    (unsigned 4 ⊗ unsigned 4 ⊗ unsigned 4 ⊗ unsigned 4 ⊗ unsigned 4 ⊗ unsigned 8)
    (λ p, (p.(client_request_id), p.(exchange_order_id), p.(old_total_quantity)
     , p.(new_total_quantity), p.(leaves_quantity), p.(timestamp)))
    (λ '(x1, x2, x3, x4, x5, x6), Make x1 x2 x3 x4 x5 x6).
#[global] Instance PayloadConfirmOrderAmended_lawful : Lawful layout.
Proof. apply struct_lawful; [apply _ | by intros [] | by intros [[[[[x1 x2] x3] x4] x5] x6]]. Qed.
End PayloadConfirmOrderAmended.

Module PayloadPartialFill.
Record t := Make {
  exchange_order_id : Id_t;
  trade_id : Id_t;
  last_price : Price_t;
  last_quantity : Volume_t;
  leaves_quantity : Volume_t;
  cumulative_quantity : Volume_t;
  timestamp : Time_t
}.

Definition layout : codec t :=
  struct
    (unsigned 4 ⊗ unsigned 4 ⊗ signed64 ⊗ unsigned 4 ⊗ unsigned 4 ⊗ unsigned 4 ⊗ unsigned 8)
    (λ p, (p.(exchange_order_id), p.(trade_id), p.(last_price), p.(last_quantity)
     , p.(leaves_quantity), p.(cumulative_quantity), p.(timestamp)))
    (λ '(x1, x2, x3, x4, x5, x6, x7), Make x1 x2 x3 x4 x5 x6 x7).
#[global] Instance PayloadPartialFill_lawful : Lawful layout.
Proof. apply struct_lawful; [apply _ | by intros [] | by intros [[[[[[x1 x2] x3] x4] x5] x6] x7]]. Qed.
End PayloadPartialFill.

Module PayloadOrderStatus.
Record t := Make {
  client_request_id : Id_t;
  exchange_order_id : Id_t;
  side : Z;
  limit_price : Price_t;
  last_price : Price_t;
  total_quantity : Volume_t;
  filled_quantity : Volume_t;
  leaves_quantity : Volume_t;
  timestamp : Time_t
}.

Definition layout : codec t :=
  struct
    (unsigned 4 ⊗ unsigned 4 ⊗ unsigned 1 ⊗ signed64 ⊗ signed64 ⊗ unsigned 4 ⊗ unsigned 4
      ⊗ unsigned 4 ⊗ unsigned 8)
    (λ p, (p.(client_request_id), p.(exchange_order_id), p.(side), p.(limit_price), p.(last_price)
     , p.(total_quantity), p.(filled_quantity), p.(leaves_quantity), p.(timestamp)))
    (λ '(x1, x2, x3, x4, x5, x6, x7, x8, x9), Make x1 x2 x3 x4 x5 x6 x7 x8 x9).
#[global] Instance PayloadOrderStatus_lawful : Lawful layout.
Proof. apply struct_lawful; [apply _ | by intros [] | by intros [[[[[[[[x1 x2] x3] x4] x5] x6] x7] x8] x9]]. Qed.
End PayloadOrderStatus.

Module PayloadOrderBookSnapshot.
Record t := Make {
  ask_prices : list Z;
  ask_volumes : list Z;
  bid_prices : list Z;
  bid_volumes : list Z;
  sequence_number : Id_t
}.

Definition layout : codec t :=
  struct
    ((array_codec (Z.to_nat ORDER_BOOK_MESSAGE_DEPTH) signed64) ⊗ (array_codec (Z.to_nat ORDER_BOOK_MESSAGE_DEPTH) (unsigned 4)) ⊗ (array_codec (Z.to_nat ORDER_BOOK_MESSAGE_DEPTH) signed64)
      ⊗ (array_codec (Z.to_nat ORDER_BOOK_MESSAGE_DEPTH) (unsigned 4)) ⊗ unsigned 4)
    (λ p, (p.(ask_prices), p.(ask_volumes), p.(bid_prices), p.(bid_volumes), p.(sequence_number)))
    (λ '(x1, x2, x3, x4, x5), Make x1 x2 x3 x4 x5).
#[global] Instance PayloadOrderBookSnapshot_lawful : Lawful layout.
Proof. apply struct_lawful; [apply _ | by intros [] | by intros [[[[x1 x2] x3] x4] x5]]. Qed.
End PayloadOrderBookSnapshot.

Module PayloadTradeEvent.
Record t := Make {
  sequence_number : Id_t;
  trade_id : Id_t;
  price : Price_t;
  quantity : Volume_t;
  taker_side : Z;
  timestamp : Time_t
}.

Definition layout : codec t :=
  struct
    (unsigned 4 ⊗ unsigned 4 ⊗ signed64 ⊗ unsigned 4 ⊗ unsigned 1 ⊗ unsigned 8)
    (λ p, (p.(sequence_number), p.(trade_id), p.(price), p.(quantity), p.(taker_side)
     , p.(timestamp)))
    (λ '(x1, x2, x3, x4, x5, x6), Make x1 x2 x3 x4 x5 x6).
#[global] Instance PayloadTradeEvent_lawful : Lawful layout.
Proof. apply struct_lawful; [apply _ | by intros [] | by intros [[[[[x1 x2] x3] x4] x5] x6]]. Qed.
End PayloadTradeEvent.

Module PayloadOrderInsertedEvent.
Record t := Make {
  sequence_number : Id_t;
  order_id : Id_t;
  side : Z;
  price : Price_t;
  quantity : Volume_t;
  timestamp : Time_t
}.

Definition layout : codec t :=
  struct
    (unsigned 4 ⊗ unsigned 4 ⊗ unsigned 1 ⊗ signed64 ⊗ unsigned 4 ⊗ unsigned 8)
    (λ p, (p.(sequence_number), p.(order_id), p.(side), p.(price), p.(quantity), p.(timestamp)))
    (λ '(x1, x2, x3, x4, x5, x6), Make x1 x2 x3 x4 x5 x6).
#[global] Instance PayloadOrderInsertedEvent_lawful : Lawful layout.
Proof. apply struct_lawful; [apply _ | by intros [] | by intros [[[[[x1 x2] x3] x4] x5] x6]]. Qed.
End PayloadOrderInsertedEvent.

Module PayloadOrderCancelledEvent.
Record t := Make {
  sequence_number : Id_t;
  order_id : Id_t;
  remaining_quantity : Volume_t;
  timestamp : Time_t
}.

Definition layout : codec t :=
  struct
    (unsigned 4 ⊗ unsigned 4 ⊗ unsigned 4 ⊗ unsigned 8)
    (λ p, (p.(sequence_number), p.(order_id), p.(remaining_quantity), p.(timestamp)))
    (λ '(x1, x2, x3, x4), Make x1 x2 x3 x4).
#[global] Instance PayloadOrderCancelledEvent_lawful : Lawful layout.
Proof. apply struct_lawful; [apply _ | by intros [] | by intros [[[x1 x2] x3] x4]]. Qed.
End PayloadOrderCancelledEvent.

Module PayloadOrderAmendedEvent.
Record t := Make {
  sequence_number : Id_t;
  order_id : Id_t;
  quantity_new : Volume_t;
  quantity_old : Volume_t;
  timestamp : Time_t
}.

Definition layout : codec t :=
  struct
    (unsigned 4 ⊗ unsigned 4 ⊗ unsigned 4 ⊗ unsigned 4 ⊗ unsigned 8)
    (λ p, (p.(sequence_number), p.(order_id), p.(quantity_new), p.(quantity_old), p.(timestamp)))
    (λ '(x1, x2, x3, x4, x5), Make x1 x2 x3 x4 x5).
#[global] Instance PayloadOrderAmendedEvent_lawful : Lawful layout.
Proof. apply struct_lawful; [apply _ | by intros [] | by intros [[[[x1 x2] x3] x4] x5]]. Qed.
End PayloadOrderAmendedEvent.

Module PayloadPriceLevelUpdate.
Record t := Make {
  sequence_number : Id_t;
  side : Z;
  price : Price_t;
  total_volume : Volume_t;
  timestamp : Time_t
}.

Definition layout : codec t :=
  struct
    (unsigned 4 ⊗ unsigned 1 ⊗ signed64 ⊗ unsigned 4 ⊗ unsigned 8)
    (λ p, (p.(sequence_number), p.(side), p.(price), p.(total_volume), p.(timestamp)))
    (λ '(x1, x2, x3, x4, x5), Make x1 x2 x3 x4 x5).
#[global] Instance PayloadPriceLevelUpdate_lawful : Lawful layout.
Proof. apply struct_lawful; [apply _ | by intros [] | by intros [[[[x1 x2] x3] x4] x5]]. Qed.
End PayloadPriceLevelUpdate.

Definition make_disconnect (client_request_id : Id_t) : PayloadDisconnect.t :=
  PayloadDisconnect.Make client_request_id.

Definition make_insert_order (client_request_id : Id_t) (side : Side) (price : Price_t)
    (quantity : Volume_t) (lifespan : Lifespan) : PayloadInsertOrder.t :=
  PayloadInsertOrder.Make client_request_id (Side_to_u8 side) price quantity
    (Lifespan_to_u8 lifespan).

Definition make_cancel_order (client_request_id exchange_order_id : Id_t)
    : PayloadCancelOrder.t :=
  PayloadCancelOrder.Make client_request_id exchange_order_id.

Definition make_amend_order (client_request_id exchange_order_id : Id_t)
    (new_total_quantity : Volume_t) : PayloadAmendOrder.t :=
  PayloadAmendOrder.Make client_request_id exchange_order_id new_total_quantity.

Definition make_subscribe (client_request_id : Id_t) : PayloadSubscribe.t :=
  PayloadSubscribe.Make client_request_id.

Definition make_unsubscribe (client_request_id : Id_t) : PayloadUnsubscribe.t :=
  PayloadUnsubscribe.Make client_request_id.

Definition make_order_status_request (client_request_id exchange_order_id : Id_t)
    : PayloadOrderStatusRequest.t :=
  PayloadOrderStatusRequest.Make client_request_id exchange_order_id.

Definition make_confirm_order_inserted (client_request_id exchange_order_id : Id_t)
    (side : Side) (price : Price_t) (total_quantity leaves_quantity : Volume_t)
    (timestamp : Time_t) : PayloadConfirmOrderInserted.t :=
  PayloadConfirmOrderInserted.Make client_request_id exchange_order_id (Side_to_u8 side)
    price total_quantity leaves_quantity timestamp.

Definition make_confirm_order_cancelled (client_request_id exchange_order_id : Id_t)
    (leaves_quantity : Volume_t) (price : Price_t) (side : Side) (timestamp : Time_t)
    : PayloadConfirmOrderCancelled.t :=
  PayloadConfirmOrderCancelled.Make client_request_id exchange_order_id leaves_quantity
    price (Side_to_u8 side) timestamp.

Definition make_confirm_order_amended (client_request_id exchange_order_id : Id_t)
    (old_total_quantity new_total_quantity leaves_quantity : Volume_t) (timestamp : Time_t)
    : PayloadConfirmOrderAmended.t :=
  PayloadConfirmOrderAmended.Make client_request_id exchange_order_id old_total_quantity
    new_total_quantity leaves_quantity timestamp.

Definition make_partial_fill (exchange_order_id trade_id : Id_t) (last_price : Price_t)
    (last_quantity leaves_quantity cumulative_quantity : Volume_t) (timestamp : Time_t)
    : PayloadPartialFill.t :=
  PayloadPartialFill.Make exchange_order_id trade_id last_price last_quantity
    leaves_quantity cumulative_quantity timestamp.

Definition make_order_status (client_request_id exchange_order_id : Id_t) (side : Side)
    (total_quantity filled_quantity leaves_quantity : Volume_t)
    (limit_price last_price : Price_t) (timestamp : Time_t) : PayloadOrderStatus.t :=
  PayloadOrderStatus.Make client_request_id exchange_order_id (Side_to_u8 side) limit_price
    last_price total_quantity filled_quantity leaves_quantity timestamp.

Definition make_order_book_snapshot (ask_prices ask_volumes bid_prices bid_volumes : list Z)
    (sequence_number : Id_t) : PayloadOrderBookSnapshot.t :=
  PayloadOrderBookSnapshot.Make ask_prices ask_volumes bid_prices bid_volumes
    sequence_number.

Definition make_trade_event (sequence_number trade_id : Id_t) (price : Price_t)
    (quantity : Volume_t) (taker_side : Side) (timestamp : Time_t) : PayloadTradeEvent.t :=
  PayloadTradeEvent.Make sequence_number trade_id price quantity (Side_to_u8 taker_side)
    timestamp.

Definition make_order_inserted_event (sequence_number order_id : Id_t) (side : Side)
    (price : Price_t) (quantity : Volume_t) (timestamp : Time_t)
    : PayloadOrderInsertedEvent.t :=
  PayloadOrderInsertedEvent.Make sequence_number order_id (Side_to_u8 side) price quantity
    timestamp.

Definition make_order_cancelled_event (sequence_number order_id : Id_t)
    (remaining_quantity : Volume_t) (timestamp : Time_t) : PayloadOrderCancelledEvent.t :=
  PayloadOrderCancelledEvent.Make sequence_number order_id remaining_quantity timestamp.

Definition make_order_amended_event (sequence_number order_id : Id_t)
    (quantity_new quantity_old : Volume_t) (timestamp : Time_t) : PayloadOrderAmendedEvent.t :=
  PayloadOrderAmendedEvent.Make sequence_number order_id quantity_new quantity_old timestamp.

Definition make_price_level_update (sequence_number : Id_t) (side : Side) (price : Price_t)
    (total_volume : Volume_t) (timestamp : Time_t) : PayloadPriceLevelUpdate.t :=
  PayloadPriceLevelUpdate.Make sequence_number (Side_to_u8 side) price total_volume
    timestamp.

(** The bytes of a [std::string_view]. *)
Definition string_bytes (s : string) : bytes :=
  map (λ c, Z.of_nat (Ascii.nat_of_ascii c)) (String.list_ascii_of_string s).

(** [make_error]: [PayloadError p{}] zeroes the text, [memcpy] overwrites its
    first [n] bytes and [p.message[n] = '\0'] the next one. *)
Definition make_error (client_request_id : Id_t) (code : Z) (message : bytes) (timestamp : Time_t)
    : PayloadError.t :=
  let n := Nat.min (Z.to_nat ERROR_TEXT_LEN - 1) (length message) in
  let zeroed := replicate (Z.to_nat ERROR_TEXT_LEN) 0 in
  let copied := take n message ++ drop n zeroed in
  PayloadError.Make client_request_id code (<[n := 0]> copied) timestamp.
