(* ===== verification/Protocol.v ===== *)
(** The message types of [protocol.hpp], the payload each one carries, and the
    functions that write and parse a message. *)

From S2P Require Import Prelude Types Codec Payloads.

(** [enum class MessageType : uint8_t].  A value cast from a byte that names no
    enumerator is [OTHER]. *)
Inductive MessageType :=
  | CONNECT | DISCONNECT | INSERT_ORDER | CANCEL_ORDER
  | AMEND_ORDER | SUBSCRIBE | UNSUBSCRIBE | ORDER_STATUS_REQUEST
  | CONFIRM_CONNECTED | CONFIRM_ORDER_INSERTED | CONFIRM_ORDER_CANCELLED | CONFIRM_ORDER_AMENDED
  | PARTIAL_FILL_ORDER | ORDER_STATUS | ERROR_MSG | ORDER_BOOK_SNAPSHOT
  | TRADE_EVENT | ORDER_INSERTED_EVENT | ORDER_CANCELLED_EVENT | ORDER_AMENDED_EVENT
  | PRICE_LEVEL_UPDATE
  | OTHER (value : Z).

#[global] Instance MessageType_eq_dec : EqDecision MessageType.
Proof. solve_decision. Defined.

(** [static_cast<uint8_t>(t)] *)
Definition MessageType_to_u8 (t : MessageType) : Z :=
  match t with
  | CONNECT => 1
  | DISCONNECT => 2
  | INSERT_ORDER => 3
  | CANCEL_ORDER => 4
  | AMEND_ORDER => 5
  | SUBSCRIBE => 6
  | UNSUBSCRIBE => 7
  | ORDER_STATUS_REQUEST => 8
  | CONFIRM_CONNECTED => 11
  | CONFIRM_ORDER_INSERTED => 12
  | CONFIRM_ORDER_CANCELLED => 13
  | CONFIRM_ORDER_AMENDED => 14
  | PARTIAL_FILL_ORDER => 15
  | ORDER_STATUS => 16
  | ERROR_MSG => 17
  | ORDER_BOOK_SNAPSHOT => 21
  | TRADE_EVENT => 23
  | ORDER_INSERTED_EVENT => 24
  | ORDER_CANCELLED_EVENT => 25
  | ORDER_AMENDED_EVENT => 26
  | PRICE_LEVEL_UPDATE => 27
  | OTHER value => value
  end.

(** [static_cast<MessageType>(b)] *)
Definition MessageType_of_u8 (b : Z) : MessageType :=
  match b with
  | 1 => CONNECT
  | 2 => DISCONNECT
  | 3 => INSERT_ORDER
  | 4 => CANCEL_ORDER
  | 5 => AMEND_ORDER
  | 6 => SUBSCRIBE
  | 7 => UNSUBSCRIBE
  | 8 => ORDER_STATUS_REQUEST
  | 11 => CONFIRM_CONNECTED
  | 12 => CONFIRM_ORDER_INSERTED
  | 13 => CONFIRM_ORDER_CANCELLED
  | 14 => CONFIRM_ORDER_AMENDED
  | 15 => PARTIAL_FILL_ORDER
  | 16 => ORDER_STATUS
  | 17 => ERROR_MSG
  | 21 => ORDER_BOOK_SNAPSHOT
  | 23 => TRADE_EVENT
  | 24 => ORDER_INSERTED_EVENT
  | 25 => ORDER_CANCELLED_EVENT
  | 26 => ORDER_AMENDED_EVENT
  | 27 => PRICE_LEVEL_UPDATE
  | _ => OTHER b
  end.

(** The payload of a message, by struct. *)
Inductive Payload :=
  | PDisconnect (p : PayloadDisconnect.t)
  | PInsertOrder (p : PayloadInsertOrder.t)
  | PCancelOrder (p : PayloadCancelOrder.t)
  | PAmendOrder (p : PayloadAmendOrder.t)
  | PSubscribe (p : PayloadSubscribe.t)
  | PUnsubscribe (p : PayloadUnsubscribe.t)
  | POrderStatusRequest (p : PayloadOrderStatusRequest.t)
  | PError (p : PayloadError.t)
  | PConfirmOrderInserted (p : PayloadConfirmOrderInserted.t)
  | PConfirmOrderCancelled (p : PayloadConfirmOrderCancelled.t)
  | PConfirmOrderAmended (p : PayloadConfirmOrderAmended.t)
  | PPartialFill (p : PayloadPartialFill.t)
  | POrderStatus (p : PayloadOrderStatus.t)
  | POrderBookSnapshot (p : PayloadOrderBookSnapshot.t)
  | PTradeEvent (p : PayloadTradeEvent.t)
  | POrderInsertedEvent (p : PayloadOrderInsertedEvent.t)
  | POrderCancelledEvent (p : PayloadOrderCancelledEvent.t)
  | POrderAmendedEvent (p : PayloadOrderAmendedEvent.t)
  | PPriceLevelUpdate (p : PayloadPriceLevelUpdate.t).

(** The message type that carries a payload, the payload's bytes, and that its
    members fit their types. *)
Definition type_of (p : Payload) : MessageType :=
  match p with
  | PDisconnect _ => DISCONNECT
  | PInsertOrder _ => INSERT_ORDER
  | PCancelOrder _ => CANCEL_ORDER
  | PAmendOrder _ => AMEND_ORDER
  | PSubscribe _ => SUBSCRIBE
  | PUnsubscribe _ => UNSUBSCRIBE
  | POrderStatusRequest _ => ORDER_STATUS_REQUEST
  | PError _ => ERROR_MSG
  | PConfirmOrderInserted _ => CONFIRM_ORDER_INSERTED
  | PConfirmOrderCancelled _ => CONFIRM_ORDER_CANCELLED
  | PConfirmOrderAmended _ => CONFIRM_ORDER_AMENDED
  | PPartialFill _ => PARTIAL_FILL_ORDER
  | POrderStatus _ => ORDER_STATUS
  | POrderBookSnapshot _ => ORDER_BOOK_SNAPSHOT
  | PTradeEvent _ => TRADE_EVENT
  | POrderInsertedEvent _ => ORDER_INSERTED_EVENT
  | POrderCancelledEvent _ => ORDER_CANCELLED_EVENT
  | POrderAmendedEvent _ => ORDER_AMENDED_EVENT
  | PPriceLevelUpdate _ => PRICE_LEVEL_UPDATE
  end.

Definition payload_bytes (p : Payload) : bytes :=
  match p with
  | PDisconnect p => encode PayloadDisconnect.layout p
  | PInsertOrder p => encode PayloadInsertOrder.layout p
  | PCancelOrder p => encode PayloadCancelOrder.layout p
  | PAmendOrder p => encode PayloadAmendOrder.layout p
  | PSubscribe p => encode PayloadSubscribe.layout p
  | PUnsubscribe p => encode PayloadUnsubscribe.layout p
  | POrderStatusRequest p => encode PayloadOrderStatusRequest.layout p
  | PError p => encode PayloadError.layout p
  | PConfirmOrderInserted p => encode PayloadConfirmOrderInserted.layout p
  | PConfirmOrderCancelled p => encode PayloadConfirmOrderCancelled.layout p
  | PConfirmOrderAmended p => encode PayloadConfirmOrderAmended.layout p
  | PPartialFill p => encode PayloadPartialFill.layout p
  | POrderStatus p => encode PayloadOrderStatus.layout p
  | POrderBookSnapshot p => encode PayloadOrderBookSnapshot.layout p
  | PTradeEvent p => encode PayloadTradeEvent.layout p
  | POrderInsertedEvent p => encode PayloadOrderInsertedEvent.layout p
  | POrderCancelledEvent p => encode PayloadOrderCancelledEvent.layout p
  | POrderAmendedEvent p => encode PayloadOrderAmendedEvent.layout p
  | PPriceLevelUpdate p => encode PayloadPriceLevelUpdate.layout p
  end.

Definition payload_in_range (p : Payload) : Prop :=
  match p with
  | PDisconnect p => in_range PayloadDisconnect.layout p
  | PInsertOrder p => in_range PayloadInsertOrder.layout p
  | PCancelOrder p => in_range PayloadCancelOrder.layout p
  | PAmendOrder p => in_range PayloadAmendOrder.layout p
  | PSubscribe p => in_range PayloadSubscribe.layout p
  | PUnsubscribe p => in_range PayloadUnsubscribe.layout p
  | POrderStatusRequest p => in_range PayloadOrderStatusRequest.layout p
  | PError p => in_range PayloadError.layout p
  | PConfirmOrderInserted p => in_range PayloadConfirmOrderInserted.layout p
  | PConfirmOrderCancelled p => in_range PayloadConfirmOrderCancelled.layout p
  | PConfirmOrderAmended p => in_range PayloadConfirmOrderAmended.layout p
  | PPartialFill p => in_range PayloadPartialFill.layout p
  | POrderStatus p => in_range PayloadOrderStatus.layout p
  | POrderBookSnapshot p => in_range PayloadOrderBookSnapshot.layout p
  | PTradeEvent p => in_range PayloadTradeEvent.layout p
  | POrderInsertedEvent p => in_range PayloadOrderInsertedEvent.layout p
  | POrderCancelledEvent p => in_range PayloadOrderCancelledEvent.layout p
  | POrderAmendedEvent p => in_range PayloadOrderAmendedEvent.layout p
  | PPriceLevelUpdate p => in_range PayloadPriceLevelUpdate.layout p
  end.

(** [for (size_t s : sizes) if (s > m) m = s] *)
Definition max_size (sizes : list nat) : nat := foldl (λ m s, if (m <? s)%nat then s else m) 0%nat sizes.

Definition MAX_PAYLOAD_SIZE : nat :=
  max_size
    [size_of PayloadDisconnect.layout; size_of PayloadInsertOrder.layout;
     size_of PayloadCancelOrder.layout; size_of PayloadAmendOrder.layout;
     size_of PayloadSubscribe.layout; size_of PayloadUnsubscribe.layout;
     size_of PayloadOrderStatusRequest.layout; size_of PayloadError.layout;
     size_of PayloadConfirmOrderInserted.layout; size_of PayloadConfirmOrderCancelled.layout;
     size_of PayloadConfirmOrderAmended.layout; size_of PayloadPartialFill.layout;
     size_of PayloadOrderStatus.layout; size_of PayloadOrderBookSnapshot.layout;
     size_of PayloadTradeEvent.layout; size_of PayloadOrderInsertedEvent.layout;
     size_of PayloadOrderCancelledEvent.layout; size_of PayloadOrderAmendedEvent.layout;
     size_of PayloadPriceLevelUpdate.layout].

Definition MAX_PAYLOAD_SIZE_BUFFER : nat :=
  max_size
    [size_of PayloadDisconnect.layout; size_of PayloadInsertOrder.layout;
     size_of PayloadCancelOrder.layout; size_of PayloadAmendOrder.layout;
     size_of PayloadSubscribe.layout; size_of PayloadUnsubscribe.layout;
     size_of PayloadError.layout; size_of PayloadConfirmOrderInserted.layout;
     size_of PayloadConfirmOrderCancelled.layout; size_of PayloadConfirmOrderAmended.layout;
     size_of PayloadPartialFill.layout; size_of PayloadTradeEvent.layout;
     size_of PayloadOrderInsertedEvent.layout; size_of PayloadOrderCancelledEvent.layout;
     size_of PayloadOrderAmendedEvent.layout; size_of PayloadPriceLevelUpdate.layout].

Definition payload_size_for_type (t : MessageType) : nat :=
  match t with
  | DISCONNECT => size_of PayloadDisconnect.layout
  | INSERT_ORDER => size_of PayloadInsertOrder.layout
  | CANCEL_ORDER => size_of PayloadCancelOrder.layout
  | AMEND_ORDER => size_of PayloadAmendOrder.layout
  | SUBSCRIBE => size_of PayloadSubscribe.layout
  | UNSUBSCRIBE => size_of PayloadUnsubscribe.layout
  | ORDER_STATUS_REQUEST => size_of PayloadOrderStatusRequest.layout
  | ERROR_MSG => size_of PayloadError.layout
  | CONFIRM_ORDER_INSERTED => size_of PayloadConfirmOrderInserted.layout
  | CONFIRM_ORDER_CANCELLED => size_of PayloadConfirmOrderCancelled.layout
  | CONFIRM_ORDER_AMENDED => size_of PayloadConfirmOrderAmended.layout
  | PARTIAL_FILL_ORDER => size_of PayloadPartialFill.layout
  | ORDER_STATUS => size_of PayloadOrderStatus.layout
  | ORDER_BOOK_SNAPSHOT => size_of PayloadOrderBookSnapshot.layout
  | TRADE_EVENT => size_of PayloadTradeEvent.layout
  | ORDER_INSERTED_EVENT => size_of PayloadOrderInsertedEvent.layout
  | ORDER_CANCELLED_EVENT => size_of PayloadOrderCancelledEvent.layout
  | ORDER_AMENDED_EVENT => size_of PayloadOrderAmendedEvent.layout
  | PRICE_LEVEL_UPDATE => size_of PayloadPriceLevelUpdate.layout
  | _ => 0
  end.

(** [write_message_to_buffer]: the count it returns and the buffer after it.
    [payload] is the object the pointer refers to; reading past it is
    undefined. *)
Definition write_message_to_buffer (buf : bytes) (t : MessageType) (payload : bytes)
    : outcome (nat * bytes) :=
  let psize := payload_size_for_type t in
  if (length buf <? 1 + psize)%nat then Done (0%nat, buf)
  else if (length payload <? psize)%nat then Undefined
  else Done ((1 + psize)%nat, MessageType_to_u8 t :: take psize payload ++ drop (1 + psize) buf).

(** [parse_message] on the [len] bytes of [buf]: the type and the bytes from
    [buf + 1] on. *)
Definition parse_message (buf : bytes) : option (MessageType * bytes) :=
  match buf with
  | [] => None
  | b :: rest =>
      let t := MessageType_of_u8 b in
      let psize := payload_size_for_type t in
      if (psize =? 0)%nat then None
      else if (length buf <? 1 + psize)%nat then None
      else Some (t, rest)
  end.

(** [parse_message_full]: the [reinterpret_cast] reads the struct at [buf + 1]. *)
Definition parse_message_full (buf : bytes) : option (MessageType * Payload) :=
  '(t, payload_ptr) ← parse_message buf;
  match t with
  | DISCONNECT => Some (t, PDisconnect (decode PayloadDisconnect.layout payload_ptr))
  | INSERT_ORDER => Some (t, PInsertOrder (decode PayloadInsertOrder.layout payload_ptr))
  | CANCEL_ORDER => Some (t, PCancelOrder (decode PayloadCancelOrder.layout payload_ptr))
  | AMEND_ORDER => Some (t, PAmendOrder (decode PayloadAmendOrder.layout payload_ptr))
  | SUBSCRIBE => Some (t, PSubscribe (decode PayloadSubscribe.layout payload_ptr))
  | UNSUBSCRIBE => Some (t, PUnsubscribe (decode PayloadUnsubscribe.layout payload_ptr))
  | ORDER_STATUS_REQUEST => Some (t, POrderStatusRequest (decode PayloadOrderStatusRequest.layout payload_ptr))
  | ERROR_MSG => Some (t, PError (decode PayloadError.layout payload_ptr))
  | CONFIRM_ORDER_INSERTED => Some (t, PConfirmOrderInserted (decode PayloadConfirmOrderInserted.layout payload_ptr))
  | CONFIRM_ORDER_CANCELLED => Some (t, PConfirmOrderCancelled (decode PayloadConfirmOrderCancelled.layout payload_ptr))
  | CONFIRM_ORDER_AMENDED => Some (t, PConfirmOrderAmended (decode PayloadConfirmOrderAmended.layout payload_ptr))
  | PARTIAL_FILL_ORDER => Some (t, PPartialFill (decode PayloadPartialFill.layout payload_ptr))
  | ORDER_STATUS => Some (t, POrderStatus (decode PayloadOrderStatus.layout payload_ptr))
  | ORDER_BOOK_SNAPSHOT => Some (t, POrderBookSnapshot (decode PayloadOrderBookSnapshot.layout payload_ptr))
  | TRADE_EVENT => Some (t, PTradeEvent (decode PayloadTradeEvent.layout payload_ptr))
  | ORDER_INSERTED_EVENT => Some (t, POrderInsertedEvent (decode PayloadOrderInsertedEvent.layout payload_ptr))
  | ORDER_CANCELLED_EVENT => Some (t, POrderCancelledEvent (decode PayloadOrderCancelledEvent.layout payload_ptr))
  | ORDER_AMENDED_EVENT => Some (t, POrderAmendedEvent (decode PayloadOrderAmendedEvent.layout payload_ptr))
  | _ => None
  end.

(** ** Messages on the wire *)

Lemma of_to_u8 p : MessageType_of_u8 (MessageType_to_u8 (type_of p)) = type_of p.
Proof. by destruct p. Qed.

Lemma payload_size p : payload_in_range p → length (payload_bytes p) = payload_size_for_type (type_of p).
Proof. destruct p; cbn [payload_in_range payload_bytes type_of payload_size_for_type]; apply encode_length. Qed.

Lemma payload_size_pos p : (0 < payload_size_for_type (type_of p))%nat.
Proof. destruct p; vm_compute; lia. Qed.

(** What was written is accepted. *)
Lemma parse_accepts p rest :
  payload_in_range p →
  parse_message (MessageType_to_u8 (type_of p) :: payload_bytes p ++ rest) = Some (type_of p, payload_bytes p ++ rest).
Proof.
  intros Hr. unfold parse_message. rewrite of_to_u8.
  rewrite (proj2 (Nat.eqb_neq _ _)) by (pose proof (payload_size_pos p); lia).
  by rewrite (proj2 (Nat.ltb_ge _ _)) by (cbn [length]; rewrite length_app, payload_size by done; lia).
Qed.

(** Parsing what [parse_message] leaves of a written payload. *)
Lemma parse_payload p rest :
  payload_in_range p → type_of p ≠ PRICE_LEVEL_UPDATE →
  parse_message_full (MessageType_to_u8 (type_of p) :: payload_bytes p ++ rest) = Some (type_of p, p).
Proof.
  intros Hr Ht. unfold parse_message_full. rewrite parse_accepts by done.
  destruct p; cbn [type_of mbind option_bind payload_bytes payload_in_range] in *;
    try (by rewrite decode_encode by done).
  done.
Qed.

(** C38: wire round trip.  Writing a payload under its message type touches only its
    bytes of the buffer, and parsing them with [parse_message] gives back the type
    and the bytes of the payload; with [parse_message_full], it gives back the type
    and every member, for every payload struct except the price-level update, which
    [parse_message_full] has no case for and rejects. *)
Theorem message_roundtrip p buf :
  payload_in_range p → (1 + payload_size_for_type (type_of p) <= length buf)%nat →
  ∃ n buf', write_message_to_buffer buf (type_of p) (payload_bytes p) = Done (n, buf') ∧
    n = (1 + payload_size_for_type (type_of p))%nat ∧ length buf' = length buf ∧
    drop n buf' = drop n buf ∧ parse_message (take n buf') = Some (type_of p, payload_bytes p) ∧
    parse_message_full (take n buf') =
      if bool_decide (type_of p = PRICE_LEVEL_UPDATE) then None else Some (type_of p, p).
Proof.
  intros Hr Hl. pose proof (payload_size p Hr) as Hs. unfold write_message_to_buffer.
  rewrite (proj2 (Nat.ltb_ge _ _)) by lia. rewrite (proj2 (Nat.ltb_ge _ _)) by lia.
  eexists _, _. split; [reflexivity|]. split; [done|]. rewrite (take_ge (payload_bytes p)) by lia.
  split; [cbn [length]; rewrite length_app, length_drop; lia|].
  assert (length (MessageType_to_u8 (type_of p) :: payload_bytes p) =
    (1 + payload_size_for_type (type_of p))%nat) as Hlen by (cbn [length]; lia).
  rewrite app_comm_cons. rewrite <- Hlen. rewrite drop_app_length, take_app_length.
  split; [done|]. rewrite <- (app_nil_r (payload_bytes p)). split; [by apply parse_accepts|].
  case_bool_decide as Ht; [|by apply parse_payload].
  unfold parse_message_full. rewrite parse_accepts by done. cbn [mbind option_bind]. by rewrite Ht.
Qed.

Lemma message_roundtrip_witness :
  (∃ n buf', write_message_to_buffer (replicate 30 7) INSERT_ORDER
      (payload_bytes (PInsertOrder (make_insert_order 3 BUY 9999 250 GOOD_FOR_DAY))) = Done (n, buf') ∧
    n = 19%nat ∧ parse_message_full (take n buf') =
      Some (INSERT_ORDER, PInsertOrder (make_insert_order 3 BUY 9999 250 GOOD_FOR_DAY))) ∧
  ∃ n buf', write_message_to_buffer (replicate 30 7) PRICE_LEVEL_UPDATE
      (payload_bytes (PPriceLevelUpdate (make_price_level_update 1 SELL 1004 7 1))) = Done (n, buf') ∧
    parse_message_full (take n buf') = None.
Proof.
  split.
  - destruct (message_roundtrip (PInsertOrder (make_insert_order 3 BUY 9999 250 GOOD_FOR_DAY))
      (replicate 30 7)) as (n & buf' & E & Hn & _ & _ & _ & Hp);
      [vm_compute; intuition discriminate | vm_compute; lia |].
    exists n, buf'. split; [exact E|]. split; [rewrite Hn; reflexivity | exact Hp].
  - destruct (message_roundtrip (PPriceLevelUpdate (make_price_level_update 1 SELL 1004 7 1))
      (replicate 30 7)) as (n & buf' & E & _ & _ & _ & _ & Hp);
      [vm_compute; intuition discriminate | vm_compute; lia |].
    exists n, buf'. split; [exact E | exact Hp].
Defined.

(** Parsing is faithful.  Whatever [parse_message_full] accepts, its result
    has the type of the first byte, is in range, and re-encoding it gives back
    exactly the bytes that were parsed. *)
Theorem parse_reencode buf t p :
  Forall is_byte buf → parse_message_full buf = Some (t, p) →
  type_of p = t ∧ payload_in_range p ∧
  MessageType_to_u8 t :: payload_bytes p = take (1 + payload_size_for_type t) buf.
Proof.
  intros Hb. unfold parse_message_full, parse_message. destruct buf as [|b buf]; [done|].
  destruct (_ =? 0)%nat eqn:E0; [done|]. destruct (_ <? _)%nat eqn:E1; [done|].
  cbn [mbind option_bind]. apply Nat.ltb_ge in E1. cbn [length] in E1.
  assert (MessageType_to_u8 (MessageType_of_u8 b) = b) as Hto
    by (unfold MessageType_of_u8; repeat case_match; done).
  inversion Hb as [|? ? _ Hb2]; subst.
  destruct (MessageType_of_u8 b) eqn:Et; try done;
    intros [<- <-]%Some_inj%pair_equal_spec;
    cbn [type_of payload_bytes payload_in_range payload_size_for_type take Nat.add] in *;
    (split; [done|]); (split; [apply decode_range; [lia | done]|]);
    rewrite encode_decode by (done || lia); by rewrite <- Hto.
Qed.

Lemma parse_reencode_witness :
  type_of (PCancelOrder (PayloadCancelOrder.Make 1 2)) = CANCEL_ORDER ∧
  payload_in_range (PCancelOrder (PayloadCancelOrder.Make 1 2)) ∧
  MessageType_to_u8 CANCEL_ORDER :: payload_bytes (PCancelOrder (PayloadCancelOrder.Make 1 2)) =
    take (1 + payload_size_for_type CANCEL_ORDER) [4; 1; 0; 0; 0; 2; 0; 0; 0; 9].
Proof.
  apply (parse_reencode [4; 1; 0; 0; 0; 2; 0; 0; 0; 9] CANCEL_ORDER);
    [repeat constructor; vm_compute; congruence | vm_compute; reflexivity].
Defined.

(** Sizes.  The payload of every message type takes at most
    [MAX_PAYLOAD_SIZE] = 244 bytes, and that of every type but the order
    book snapshot at most [MAX_PAYLOAD_SIZE_BUFFER] = 46, which is what the
    message queues hold. *)
Theorem payload_sizes t :
  MAX_PAYLOAD_SIZE = 244%nat ∧ MAX_PAYLOAD_SIZE_BUFFER = 46%nat ∧
  (payload_size_for_type t <= MAX_PAYLOAD_SIZE)%nat ∧
  ((payload_size_for_type t <= MAX_PAYLOAD_SIZE_BUFFER)%nat ↔ t ≠ ORDER_BOOK_SNAPSHOT).
Proof.
  split; [done|]. split; [done|]. split; [destruct t; vm_compute; lia|].
  destruct t; vm_compute; split; intros; try done; lia.
Qed.

(** [make_error] keeps the first 31 bytes of the text and fills the rest of
    its 32 bytes with zeros, so the text is always terminated. *)
Theorem make_error_text req code message timestamp :
  let p := make_error req code message timestamp in
  p.(PayloadError.message) = take 31 message ++ replicate (32 - Nat.min 31 (length message)) 0.
Proof.
  cbv zeta. unfold make_error. change (Z.to_nat ERROR_TEXT_LEN) with 32%nat.
  cbn [PayloadError.message]. change (32 - 1)%nat with 31%nat.
  set (n := Nat.min 31 (length message)).
  assert (take n message = take 31 message) as Hn.
  { unfold n. destruct (Nat.min_spec 31 (length message)) as [[? ->]|[? ->]]; [done|].
    by rewrite !take_ge by lia. }
  rewrite drop_replicate, insert_app_r_alt by (rewrite length_take; lia).
  rewrite Hn, length_take. fold n. replace (n - n)%nat with 0%nat by lia. f_equal.
  assert (32 - n = S (31 - n))%nat as -> by lia. done.
Qed.

(** [parse_message] accepts a price-level update but [parse_message_full]
    has no case for it and rejects every one of them. *)
Theorem level_update_not_parsed_in_full p rest :
  let buf := MessageType_to_u8 PRICE_LEVEL_UPDATE :: payload_bytes (PPriceLevelUpdate p) ++ rest in
  parse_message buf = Some (PRICE_LEVEL_UPDATE, payload_bytes (PPriceLevelUpdate p) ++ rest) ∧
  parse_message_full buf = None.
Proof.
  cbv zeta. unfold parse_message_full, parse_message.
  change (MessageType_of_u8 (MessageType_to_u8 PRICE_LEVEL_UPDATE)) with PRICE_LEVEL_UPDATE.
  rewrite (proj2 (Nat.eqb_neq _ _)) by (vm_compute; lia).
  rewrite (proj2 (Nat.ltb_ge _ _)); [done|].
  cbn [length payload_bytes]. rewrite length_app.
  change (length (encode PayloadPriceLevelUpdate.layout p)) with 25%nat. cbn. lia.
Qed.
