(* ===== verification/SpscQueue.v ===== *)
(** [spsc_queue.hpp]: the single-producer single-consumer ring buffer.

    [head_] and [tail_] are [size_t] counters that wrap at 2{^64}; a slot is a
    counter modulo the capacity.  The first part treats the operations as atomic
    and refines them to a bounded FIFO list, for any number of operations, past
    the wrap of the counters included.  The second part interleaves the
    individual loads and stores of one producer and one consumer, in the
    sequentially consistent order the release stores and acquire loads of the
    two counters give to the accesses of the slots. *)

From S2P Require Import Prelude.

Section spsc_queue.
Context {T : Type}.
(** [CapacityPow2] is 2{^m}; the [static_assert]s make it a power of two and at
    least 2. *)
Context (m : Z).

Definition CapacityPow2 : Z := 2 ^ m.
Definition mask_ : Z := CapacityPow2 - 1.

Record SPSCQueue := MkSPSCQueue {
  head_ : Z;
  tail_ : Z;
  buffer_ : array T
}.

(** [SPSCQueue()], with the value-initialised buffer [buffer_{}]. *)
Definition new_queue (zero : T) : SPSCQueue :=
  MkSPSCQueue 0 0 (arr_make CapacityPow2 (λ _, zero)).

Definition try_push (q : SPSCQueue) (item : T) : outcome (bool * SPSCQueue) :=
  let head := q.(head_) in
  let tail := q.(tail_) in
  if CapacityPow2 <=? u64 (head - tail) then Done (false, q)
  else
    buffer' ← arr_set q.(buffer_) (Z.land head mask_) item;
    Done (true, MkSPSCQueue (u64 (head + 1)) tail buffer').

(** [try_pop]: the item copied to [out], if any. *)
Definition try_pop (q : SPSCQueue) : outcome (option T * SPSCQueue) :=
  let tail := q.(tail_) in
  let head := q.(head_) in
  if tail =? head then Done (None, q)
  else
    item ← arr_get q.(buffer_) (Z.land tail mask_);
    Done (Some item, MkSPSCQueue head (u64 (tail + 1)) q.(buffer_)).

(** [peek]: the item the returned pointer refers to, if it is not null. *)
Definition peek (q : SPSCQueue) : outcome (option T) :=
  if q.(tail_) =? q.(head_) then Done None
  else
    item ← arr_get q.(buffer_) (Z.land q.(tail_) mask_);
    Done (Some item).

Definition consume_one (q : SPSCQueue) : bool * SPSCQueue :=
  if q.(tail_) =? q.(head_) then (false, q)
  else (true, MkSPSCQueue q.(head_) (u64 (q.(tail_) + 1)) q.(buffer_)).

Definition size_approx (q : SPSCQueue) : Z := u64 (q.(head_) - q.(tail_)).

(** ** Counters and slots *)

Hypothesis Hm : 1 <= m < 64.

Lemma capacity_range : 2 <= CapacityPow2 < 2 ^ 64.
Proof.
  unfold CapacityPow2. split; [|apply Z.pow_lt_mono_r; lia].
  change 2 with (2 ^ 1) at 1. apply Z.pow_le_mono_r; lia.
Qed.

Lemma land_mask c : Z.land c mask_ = c mod CapacityPow2.
Proof.
  unfold mask_, CapacityPow2. rewrite <- Z.land_ones by lia. f_equal.
  by rewrite Z.ones_equiv, Z.sub_1_r.
Qed.

Lemma u64_spec z : u64 z = z mod 2 ^ 64.
Proof. by with_strategy transparent [u64] unfold u64. Qed.

(** The slot of a wrapped counter is that of the counter. *)
Lemma land_mask_wrapped c : Z.land (u64 c) mask_ = c mod CapacityPow2.
Proof.
  rewrite land_mask, u64_spec. unfold CapacityPow2.
  apply Z.mod_mod_divide. exists (2 ^ (64 - m)). rewrite <- Z.pow_add_r by lia. f_equal. lia.
Qed.

Lemma slot_range c : 0 <= c mod CapacityPow2 < CapacityPow2.
Proof. pose proof capacity_range. apply Z.mod_pos_bound. lia. Qed.

(** Counters less than a capacity apart have different slots. *)
Lemma slot_distinct c c' : c < c' < c + CapacityPow2 → c mod CapacityPow2 ≠ c' mod CapacityPow2.
Proof.
  pose proof capacity_range. intros Hc E.
  assert ((c' - c) mod CapacityPow2 = 0) as E0 by (rewrite Zminus_mod, E, Z.sub_diag; done).
  rewrite Z.mod_small in E0; lia.
Qed.

Lemma u64_diff c c' : u64 (u64 c - u64 c') = u64 (c - c').
Proof. rewrite !u64_spec. by rewrite <- Zminus_mod. Qed.

Lemma u64_succ c : u64 (u64 c + 1) = u64 (c + 1).
Proof. rewrite !u64_spec. apply Zplus_mod_idemp_l. Qed.

Lemma u64_eqb c c' : c <= c' < c + 2 ^ 64 → (u64 c =? u64 c') = (c =? c').
Proof.
  intros Hc. apply eq_true_iff_eq. rewrite !Z.eqb_eq. split; [|by intros ->].
  rewrite !u64_spec. intros E.
  assert ((c' - c) mod 2 ^ 64 = 0) as E0 by (rewrite Zminus_mod, E, Z.sub_diag; done).
  rewrite Z.mod_small in E0; lia.
Qed.
(** ** Refinement to a bounded FIFO *)

(** The queue holds [items], oldest first, pushed under the counters from [t] to
    [t + length items]. *)
Record holds_at (q : SPSCQueue) (t : Z) (items : list T) : Prop := MkHolds {
  ho_count : Z.of_nat (length items) <= CapacityPow2;
  ho_size : arr_size q.(buffer_) = CapacityPow2;
  ho_head : q.(head_) = u64 (t + Z.of_nat (length items));
  ho_tail : q.(tail_) = u64 t;
  ho_slots i x : items !! i = Some x →
    arr_at q.(buffer_) ((t + Z.of_nat i) mod CapacityPow2) = x
}.

Definition holds (q : SPSCQueue) (items : list T) : Prop := ∃ t, holds_at q t items.

Lemma new_queue_holds zero : holds (new_queue zero) [].
Proof.
  pose proof capacity_range. exists 0. split; cbn; [lia | done | | | done];
    by rewrite u64_spec, Z.mod_small by lia.
Qed.

Lemma holds_size q items : holds q items → size_approx q = Z.of_nat (length items).
Proof.
  intros [t [Hc _ Hh Ht _]]. pose proof capacity_range. unfold size_approx. rewrite Hh, Ht, u64_diff.
  rewrite u64_spec. rewrite Z.mod_small; lia.
Qed.

(** A queue holds one sequence only. *)
Lemma holds_unique q items items' : holds q items → holds q items' → items = items'.
Proof.
  intros H1 H2. pose proof (holds_size _ _ H1) as E1. rewrite (holds_size _ _ H2) in E1.
  destruct H1 as [t1 [_ _ _ T1 S1]], H2 as [t2 [_ _ _ T2 S2]].
  assert (t1 mod CapacityPow2 = t2 mod CapacityPow2) as E by (by rewrite <- !land_mask_wrapped, <- T1, T2).
  apply list_eq_same_length with (length items); [lia | lia |]. intros i x y _ Ex%S1 Ey%S2.
  rewrite <- Ex, <- Ey. f_equal. rewrite <- (Zplus_mod_idemp_l t1), <- (Zplus_mod_idemp_l t2). by rewrite E.
Qed.

Lemma holds_empty q items : holds q items → (q.(tail_) =? q.(head_)) = bool_decide (items = []).
Proof.
  intros [t [Hc _ Hh Ht _]]. pose proof capacity_range. rewrite Hh, Ht, u64_eqb by lia.
  destruct items; cbn [length].
  - rewrite bool_decide_true by done. apply Z.eqb_eq. lia.
  - rewrite bool_decide_false by done. apply Z.eqb_neq. lia.
Qed.

Lemma try_push_ok q items x :
  holds q items →
  ∃ q', try_push q x = Done (bool_decide (Z.of_nat (length items) < CapacityPow2), q') ∧
    holds q' (if bool_decide (Z.of_nat (length items) < CapacityPow2) then items ++ [x] else items).
Proof.
  intros HQ. pose proof (holds_size _ _ HQ) as Hs. unfold size_approx in Hs.
  unfold try_push. rewrite Hs. destruct HQ as [t [Hc Hz Hh Ht Hsl]].
  destruct (CapacityPow2 <=? Z.of_nat (length items)) eqn:E.
  { rewrite bool_decide_false by lia. exists q. split; [done|]. by exists t. }
  rewrite bool_decide_true by lia. rewrite Hh, land_mask_wrapped.
  rewrite arr_set_ok by (rewrite Hz; apply slot_range). run_bind.
  eexists. split; [reflexivity|]. exists t. split; cbn [head_ tail_ buffer_].
  - rewrite length_app. cbn. lia.
  - done.
  - rewrite u64_succ, length_app. cbn. f_equal. lia.
  - done.
  - intros i y. rewrite arr_at_put. rewrite lookup_app. intros Hi.
    destruct (items !! i) as [z|] eqn:Ei.
    + injection Hi as <-. apply lookup_lt_Some in Ei as Hlt.
      rewrite decide_False by (intros E'; symmetry in E'; revert E'; apply slot_distinct; lia). by apply Hsl.
    + apply lookup_ge_None in Ei. apply list_lookup_singleton_Some in Hi as [Hi ->].
      rewrite decide_True; [done|]. f_equal. lia.
Qed.

Lemma try_pop_ok q items :
  holds q items →
  ∃ q', try_pop q = Done (head items, q') ∧ holds q' (tail items).
Proof.
  intros HQ. pose proof (holds_empty _ _ HQ) as He. unfold try_pop. rewrite He.
  destruct items as [|x items]; [rewrite bool_decide_true by done; by exists q|].
  rewrite bool_decide_false by done. destruct HQ as [t [Hc Hz Hh Ht Hsl]]. cbn [length] in *.
  rewrite Ht, land_mask_wrapped, arr_get_ok by (rewrite Hz; apply slot_range).
  cbn [mbind outcome_bind head]. eexists. split.
  { f_equal. f_equal. f_equal. rewrite <- (Z.add_0_r t) at 1. by apply (Hsl 0%nat x). }
  exists (t + 1). split; cbn [head_ tail_ buffer_ tail].
  - lia.
  - done.
  - rewrite Hh. f_equal. lia.
  - by rewrite u64_succ.
  - intros i y Hi. rewrite <- (Hsl (S i) y Hi). f_equal. f_equal. lia.
Qed.

Lemma peek_ok q items : holds q items → peek q = Done (head items).
Proof.
  intros HQ. destruct (try_pop_ok q items HQ) as (q' & E & _). unfold try_pop in E. unfold peek.
  destruct (tail_ q =? head_ q); [by injection E as ->|].
  destruct (arr_get _ _) as [x| |]; cbn in *; try done. by injection E as ->.
Qed.

Lemma consume_one_ok q items :
  holds q items →
  (consume_one q).1 = bool_decide (items ≠ []) ∧ holds (consume_one q).2 (tail items).
Proof.
  intros HQ. destruct (try_pop_ok q items HQ) as (q' & E & HQ'). unfold try_pop in E.
  unfold consume_one. rewrite (holds_empty _ _ HQ) in *.
  destruct items as [|x items]; [by rewrite bool_decide_true in * by done|].
  rewrite (bool_decide_false (x :: items = [])) in * by done.
  split; [by rewrite bool_decide_true|]. destruct (arr_get _ _) as [y| |]; cbn in *; try done.
  by injection E as _ <-.
Qed.

(** Operations on the queue, and on the list it stands for. *)
Inductive QueueOp := Push (x : T) | Pop | Peek | Consume | Size.
Inductive QueueResult := Accepted (b : bool) | Item (x : option T) | Count (n : Z).

Definition run_op (q : SPSCQueue) (op : QueueOp) : outcome (QueueResult * SPSCQueue) :=
  match op with
  | Push x => '(b, q) ← try_push q x; Done (Accepted b, q)
  | Pop => '(x, q) ← try_pop q; Done (Item x, q)
  | Peek => x ← peek q; Done (Item x, q)
  | Consume => let '(b, q) := consume_one q in Done (Accepted b, q)
  | Size => Done (Count (size_approx q), q)
  end.

Definition spec_op (items : list T) (op : QueueOp) : QueueResult * list T :=
  match op with
  | Push x =>
      if bool_decide (Z.of_nat (length items) < CapacityPow2)
      then (Accepted true, items ++ [x]) else (Accepted false, items)
  | Pop => (Item (head items), tail items)
  | Peek => (Item (head items), items)
  | Consume => (Accepted (bool_decide (items ≠ [])), tail items)
  | Size => (Count (Z.of_nat (length items)), items)
  end.

Fixpoint run_ops (q : SPSCQueue) (ops : list QueueOp) : outcome (list QueueResult * SPSCQueue) :=
  match ops with
  | [] => Done ([], q)
  | op :: ops =>
      '(r, q) ← run_op q op;
      '(rs, q) ← run_ops q ops;
      Done (r :: rs, q)
  end.

Fixpoint spec_ops (items : list T) (ops : list QueueOp) : list QueueResult * list T :=
  match ops with
  | [] => ([], items)
  | op :: ops =>
      let '(r, items) := spec_op items op in
      let '(rs, items) := spec_ops items ops in
      (r :: rs, items)
  end.

Lemma run_op_ok q items op :
  holds q items →
  ∃ q', run_op q op = Done ((spec_op items op).1, q') ∧ holds q' (spec_op items op).2.
Proof.
  intros HQ. destruct op as [x| | | |]; cbn [run_op spec_op].
  - destruct (try_push_ok q items x HQ) as (q' & -> & HQ'). run_bind.
    exists q'. by case_bool_decide.
  - destruct (try_pop_ok q items HQ) as (q' & -> & HQ'). by exists q'.
  - rewrite (peek_ok q items HQ). by exists q.
  - destruct (consume_one_ok q items HQ) as [E HQ']. destruct (consume_one q) as [b q'].
    cbn in *. exists q'. by rewrite E.
  - rewrite (holds_size q items HQ). by exists q.
Qed.

Lemma run_ops_ok q items ops :
  holds q items →
  ∃ q', run_ops q ops = Done ((spec_ops items ops).1, q') ∧ holds q' (spec_ops items ops).2.
Proof.
  revert q items. induction ops as [|op ops IH]; intros q items HQ; cbn [run_ops spec_ops].
  { by exists q. }
  destruct (run_op_ok q items op HQ) as (q1 & -> & HQ1). run_bind.
  destruct (spec_op items op) as [r items1]. destruct (IH q1 items1 HQ1) as (q2 & E & HQ2).
  cbn [fst snd] in *. rewrite E. run_bind.
  destruct (spec_ops items1 ops) as [rs items2]. by exists q2.
Qed.
End spsc_queue.

(** ** One producer and one consumer, interleaved *)

Section interleaving.
Context {T : Type} (m : Z).
Hypothesis Hm : 1 <= m < 64.
Let CapacityPow2 := CapacityPow2 m.

(** Where the producer is inside [try_push]: with [head] loaded, with [tail]
    loaded and the check passed, with the slot written. *)
Inductive Producer :=
  | PIdle
  | PHead (item : T) (head : Z)
  | PChecked (item : T) (head : Z)
  | PWritten (item : T) (head : Z).

(** Where the consumer is inside [try_pop]. *)
Inductive Consumer :=
  | CIdle
  | CTail (tail : Z)
  | CChecked (tail : Z)
  | CRead (tail : Z) (item : T).

(** The shared queue, the two threads, and the history: the items whose
    [head_] store, and whose [tail_] store, has happened. *)
Record System := MkSystem {
  queue : SPSCQueue (T := T);
  producer : Producer;
  consumer : Consumer;
  pushed : list T;
  popped : list T
}.

(** One load or store.  A step whose array access is out of bounds does not
    exist; [accesses_defined] shows that none is. *)
Inductive spsc_step : System → System → Prop :=
  | push_load_head q c pu po item :
      spsc_step (MkSystem q PIdle c pu po) (MkSystem q (PHead item q.(head_)) c pu po)
  | push_full q c pu po item head :
      CapacityPow2 <= u64 (head - q.(tail_)) →
      spsc_step (MkSystem q (PHead item head) c pu po) (MkSystem q PIdle c pu po)
  | push_load_tail q c pu po item head :
      u64 (head - q.(tail_)) < CapacityPow2 →
      spsc_step (MkSystem q (PHead item head) c pu po) (MkSystem q (PChecked item head) c pu po)
  | push_write q c pu po item head buffer' :
      arr_set q.(buffer_) (Z.land head (mask_ m)) item = Done buffer' →
      spsc_step (MkSystem q (PChecked item head) c pu po)
        (MkSystem (MkSPSCQueue q.(head_) q.(tail_) buffer') (PWritten item head) c pu po)
  | push_store_head q c pu po item head :
      spsc_step (MkSystem q (PWritten item head) c pu po)
        (MkSystem (MkSPSCQueue (u64 (head + 1)) q.(tail_) q.(buffer_)) PIdle c (pu ++ [item]) po)
  | pop_load_tail q p pu po :
      spsc_step (MkSystem q p CIdle pu po) (MkSystem q p (CTail q.(tail_)) pu po)
  | pop_empty q p pu po tail :
      tail = q.(head_) →
      spsc_step (MkSystem q p (CTail tail) pu po) (MkSystem q p CIdle pu po)
  | pop_load_head q p pu po tail :
      tail ≠ q.(head_) →
      spsc_step (MkSystem q p (CTail tail) pu po) (MkSystem q p (CChecked tail) pu po)
  | pop_read q p pu po tail item :
      arr_get q.(buffer_) (Z.land tail (mask_ m)) = Done item →
      spsc_step (MkSystem q p (CChecked tail) pu po) (MkSystem q p (CRead tail item) pu po)
  | pop_store_tail q p pu po tail item :
      spsc_step (MkSystem q p (CRead tail item) pu po)
        (MkSystem (MkSPSCQueue q.(head_) (u64 (tail + 1)) q.(buffer_)) p CIdle pu (po ++ [item])).

Definition initial_system (zero : T) : System := MkSystem (new_queue m zero) PIdle CIdle [] [].

Inductive spsc_reachable (zero : T) : System → Prop :=
  | reach_init : spsc_reachable zero (initial_system zero)
  | reach_step s s' : spsc_reachable zero s → spsc_step s s' → spsc_reachable zero s'.

Abbreviation pushed_count s := (Z.of_nat (length (pushed s))).
Abbreviation popped_count s := (Z.of_nat (length (popped s))).

(** The counters are those of the history; what is pushed and not popped is in
    its slots; what the threads have loaded is what it was. *)
Record spsc_inv (s : System) : Prop := MkInv {
  iv_size : arr_size s.(queue).(buffer_) = CapacityPow2;
  iv_head : s.(queue).(head_) = u64 (pushed_count s);
  iv_tail : s.(queue).(tail_) = u64 (popped_count s);
  iv_order : popped s = take (length (popped s)) (pushed s);
  iv_bound : popped_count s <= pushed_count s <= popped_count s + CapacityPow2;
  iv_slots i x : pushed s !! i = Some x → popped_count s <= Z.of_nat i →
    arr_at s.(queue).(buffer_) (Z.of_nat i mod CapacityPow2) = x;
  iv_producer :
    match s.(producer) with
    | PIdle => True
    | PHead _ head => head = u64 (pushed_count s)
    | PChecked _ head => head = u64 (pushed_count s) ∧ pushed_count s < popped_count s + CapacityPow2
    | PWritten item head => head = u64 (pushed_count s) ∧
        pushed_count s < popped_count s + CapacityPow2 ∧
        arr_at s.(queue).(buffer_) (pushed_count s mod CapacityPow2) = item
    end;
  iv_consumer :
    match s.(consumer) with
    | CIdle => True
    | CTail tail => tail = u64 (popped_count s)
    | CChecked tail => tail = u64 (popped_count s) ∧ popped_count s < pushed_count s
    | CRead tail item => tail = u64 (popped_count s) ∧ popped_count s < pushed_count s ∧
        pushed s !! length (popped s) = Some item
    end
}.
Lemma initial_inv zero : spsc_inv (initial_system zero).
Proof.
  pose proof (capacity_range m Hm). unfold CapacityPow2.
  split; cbn; try done; try (by rewrite u64_spec, Z.mod_small by lia); lia.
Qed.

(** The slot the producer writes holds nothing the consumer may still read. *)
Lemma write_inv q item head c pu po buffer' :
  spsc_inv (MkSystem q (PChecked item head) c pu po) →
  arr_set q.(buffer_) (Z.land head (mask_ m)) item = Done buffer' →
  spsc_inv (MkSystem (MkSPSCQueue q.(head_) q.(tail_) buffer') (PWritten item head) c pu po).
Proof.
  intros [Hz Hh Ht Ho Hb Hs Hp Hc] E. cbn in *. destruct Hp as [-> Hlt].
  rewrite (land_mask_wrapped m Hm) in E. rewrite arr_set_ok in E by (rewrite Hz; by apply slot_range).
  injection E as <-. split; cbn; try done.
  - intros i x Hi Hle. rewrite arr_at_put_ne; [by apply Hs|]. apply lookup_lt_Some in Hi.
    intros E. symmetry in E. revert E. apply slot_distinct; [done|]. unfold CapacityPow2 in *. lia.
  - split; [done|]. split; [done|]. apply arr_at_put_eq.
Qed.

Lemma store_head_inv q item head c pu po :
  spsc_inv (MkSystem q (PWritten item head) c pu po) →
  spsc_inv (MkSystem (MkSPSCQueue (u64 (head + 1)) q.(tail_) q.(buffer_)) PIdle c (pu ++ [item]) po).
Proof.
  intros [Hz Hh Ht Ho Hb Hs Hp Hc]. cbn in *. destruct Hp as (-> & Hlt & Hw).
  assert (length po <= length pu)%nat by lia.
  assert (length (pu ++ [item]) = S (length pu)) as Hl by (rewrite length_app; cbn; lia).
  split; cbn [queue producer consumer pushed popped head_ tail_ buffer_].
  - done.
  - rewrite u64_succ, Hl. f_equal. lia.
  - done.
  - rewrite take_app_le by lia. done.
  - rewrite Hl. lia.
  - intros i x Hi Hle. rewrite lookup_app in Hi. destruct (pu !! i) as [y|] eqn:Ei.
    + injection Hi as <-. by apply Hs.
    + apply lookup_ge_None in Ei. apply list_lookup_singleton_Some in Hi as [Hi ->].
      replace (Z.of_nat i) with (Z.of_nat (length pu)) by lia. done.
  - done.
  - destruct c as [|tail|tail|tail x]; cbn in *; [done | done | rewrite Hl; split; [tauto | lia] |].
    destruct Hc as (? & ? & Hx). rewrite Hl. split; [done|]. split; [lia|].
    by rewrite lookup_app_l by lia.
Qed.

Lemma read_inv q p pu po tail item :
  spsc_inv (MkSystem q p (CChecked tail) pu po) →
  arr_get q.(buffer_) (Z.land tail (mask_ m)) = Done item →
  spsc_inv (MkSystem q p (CRead tail item) pu po).
Proof.
  intros [Hz Hh Ht Ho Hb Hs Hp Hc] E. cbn in *. destruct Hc as [-> Hlt].
  rewrite (land_mask_wrapped m Hm) in E. rewrite arr_get_ok in E by (rewrite Hz; by apply slot_range).
  injection E as E. split; cbn; try done. split; [done|]. split; [done|].
  destruct (lookup_lt_is_Some_2 pu (length po)) as [x Hx]; [lia|]. rewrite Hx. f_equal.
  rewrite <- E. symmetry. apply (Hs _ _ Hx). lia.
Qed.

Lemma store_tail_inv q p pu po tail item :
  spsc_inv (MkSystem q p (CRead tail item) pu po) →
  spsc_inv (MkSystem (MkSPSCQueue q.(head_) (u64 (tail + 1)) q.(buffer_)) p CIdle pu (po ++ [item])).
Proof.
  intros [Hz Hh Ht Ho Hb Hs Hp Hc]. cbn in *. destruct Hc as (-> & Hlt & Hx).
  assert (length (po ++ [item]) = S (length po)) as Hl by (rewrite length_app; cbn; lia).
  split; cbn [queue producer consumer pushed popped head_ tail_ buffer_].
  - done.
  - done.
  - rewrite u64_succ, Hl. f_equal. lia.
  - rewrite Hl, (take_S_r _ _ item) by done. by rewrite <- Ho.
  - rewrite Hl. lia.
  - intros i x Hi Hle. apply Hs; [done|]. rewrite Hl in Hle. lia.
  - destruct p as [|x head|x head|x head]; cbn in *; [done | done | |]; rewrite Hl.
    + split; [tauto | lia].
    + destruct Hp as (? & ? & ?). split; [done|]. split; [lia | done].
  - done.
Qed.

Lemma step_inv s s' : spsc_inv s → spsc_step s s' → spsc_inv s'.
Proof.
  intros HI Hstep. pose proof (capacity_range m Hm) as Hcap. fold CapacityPow2 in Hcap.
  destruct Hstep as [q c pu po item | q c pu po item head Hfull | q c pu po item head Hok
    | q c pu po item head buffer' E | q c pu po item head | q p pu po | q p pu po tail E
    | q p pu po tail E | q p pu po tail item E | q p pu po tail item].
  - destruct HI. by split.
  - destruct HI. by split.
  - destruct HI as [Hz Hh Ht Ho Hb Hs Hp Hc]. cbn in *. subst head. split; cbn; try done.
    split; [done|]. rewrite Ht, u64_diff, u64_spec, Z.mod_small in Hok by lia. lia.
  - by eapply write_inv.
  - by apply store_head_inv.
  - destruct HI. by split.
  - destruct HI. by split.
  - destruct HI as [Hz Hh Ht Ho Hb Hs Hp Hc]. cbn in *. subst tail. split; cbn; try done.
    split; [done|]. rewrite Hh in E. destruct (decide (length po = length pu)) as [El|]; [|lia].
    by rewrite El in E.
  - by eapply read_inv.
  - by apply store_tail_inv.
Qed.

Lemma reachable_inv zero s : spsc_reachable zero s → spsc_inv s.
Proof. induction 1; [apply initial_inv | by eapply step_inv]. Qed.

(** The array accesses the threads are about to make are in bounds. *)
Lemma accesses_defined s :
  spsc_inv s →
  (∀ item head, s.(producer) = PChecked item head →
     ∃ buffer', arr_set s.(queue).(buffer_) (Z.land head (mask_ m)) item = Done buffer') ∧
  (∀ tail, s.(consumer) = CChecked tail →
     ∃ item, arr_get s.(queue).(buffer_) (Z.land tail (mask_ m)) = Done item).
Proof.
  intros [Hz _ _ _ _ _ _ _].
  split; intros *; intros _; rewrite (land_mask m Hm);
    [rewrite arr_set_ok | rewrite arr_get_ok]; eauto; rewrite Hz; by apply slot_range.
Qed.
End interleaving.

(** ** Guarantees *)

(** C25: a queue of any power-of-two capacity behaves as a bounded FIFO list under
    any sequence of [try_push], [try_pop], [peek], [consume_one] and
    [size_approx], however often the counters wrap. *)
Theorem queue_is_bounded_fifo {T : Type} (m : Z) (zero : T) (ops : list (QueueOp (T := T))) :
  1 <= m < 64 →
  ∃ q, run_ops m (new_queue m zero) ops = Done ((spec_ops m [] ops).1, q) ∧
    holds m q (spec_ops m [] ops).2.
Proof. intros Hm. apply run_ops_ok; [done | by apply new_queue_holds]. Qed.

Lemma queue_is_bounded_fifo_witness :
  ∃ q, run_ops 1 (new_queue 1 0) [Push 5; Push 6; Push 7; Pop; Push 8; Size; Pop; Peek] =
    Done ([Accepted true; Accepted true; Accepted false; Item (Some 5); Accepted true; Count 2;
           Item (Some 6); Item (Some 8)], q).
Proof.
  destruct (queue_is_bounded_fifo 1 0 [Push 5; Push 6; Push 7; Pop; Push 8; Size; Pop; Peek])
    as (q & E & _); [lia|].
  exists q. exact E.
Defined.

(** C24: under every interleaving of one producer's and one consumer's loads and
    stores, what has been popped is a prefix of what has been pushed, in order
    and without loss or duplication, at most the capacity is outstanding, the
    producer is never about to write the slot the consumer is about to read, and
    every array access a thread is about to make is in bounds. *)
Theorem spsc_interleaving_safe {T : Type} (m : Z) (zero : T) s :
  1 <= m < 64 → spsc_reachable m zero s →
  pushed s = popped s ++ drop (length (popped s)) (pushed s) ∧
  Z.of_nat (length (pushed s)) - Z.of_nat (length (popped s)) <= CapacityPow2 m ∧
  (∀ item head tail, producer s = PChecked item head → consumer s = CChecked tail →
     Z.land head (mask_ m) ≠ Z.land tail (mask_ m)) ∧
  (∀ item head, producer s = PChecked item head →
     ∃ buffer', arr_set s.(queue).(buffer_) (Z.land head (mask_ m)) item = Done buffer') ∧
  (∀ tail, consumer s = CChecked tail →
     ∃ item, arr_get s.(queue).(buffer_) (Z.land tail (mask_ m)) = Done item).
Proof.
  intros Hm HR. apply (reachable_inv m Hm) in HR. pose proof (accesses_defined m Hm s HR) as Hacc.
  destruct HR as [Hz Hh Ht Ho Hb Hs Hp Hc]. split; [|split; [|split; [|done]]].
  - rewrite Ho at 1. by rewrite take_drop.
  - lia.
  - intros item head tail Ep Ec. rewrite Ep in Hp. rewrite Ec in Hc.
    destruct Hp as [-> Hp], Hc as [-> Hc]. rewrite !(land_mask_wrapped m Hm).
    intros E. symmetry in E. revert E. apply slot_distinct; [done | lia].
Qed.

Lemma spsc_interleaving_safe_witness :
  let s := MkSystem (MkSPSCQueue (u64 (0 + 1)) 0 (arr_put (arr_make 2 (λ _, 0)) 0 7)) PIdle (CTail 0)
             [7] [] in
  spsc_reachable 1 0 s ∧ pushed s = popped s ++ drop (length (popped s)) (pushed s).
Proof.
  cbv zeta. set (s := MkSystem _ _ _ _ _).
  assert (spsc_reachable 1 0 s) as HR.
  { eapply reach_step; [|apply (pop_load_tail 1)].
    apply (reach_step _ _ (MkSystem (MkSPSCQueue 0 0 (arr_put (arr_make 2 (λ _, 0)) 0 7))
      (PWritten 7 0) CIdle [] [])); [|apply (push_store_head 1 (MkSPSCQueue 0 0 (arr_put (arr_make 2 (λ _, 0)) 0 7)) CIdle [] [])].
    apply (reach_step _ _ (MkSystem (MkSPSCQueue 0 0 (arr_make 2 (λ _, 0))) (PChecked 7 0) CIdle [] []));
      [|eapply (push_write 1 (MkSPSCQueue 0 0 (arr_make 2 (λ _, 0)))); reflexivity].
    apply (reach_step _ _ (MkSystem (MkSPSCQueue 0 0 (arr_make 2 (λ _, 0))) (PHead 7 0) CIdle [] []));
      [|apply (push_load_tail 1); reflexivity].
    eapply reach_step; [apply (reach_init 1)|]. apply (push_load_head 1). }
  split; [exact HR|]. apply (spsc_interleaving_safe 1 0 s); [lia | exact HR].
Defined.
