(* ===== verification/Connection.v ===== *)
(** [connectivity.hpp] / [connectivity.cpp]: framing, reading and writing of one
    client connection.

    A handler is a function from the connection (and the queue it pushes to or
    takes from) to the connection after it and the list of things it asked for:
    work posted to the I/O strand, reads and writes started on the socket, calls
    of the connection's hooks.  The socket and the executor are not part of this
    model: a completion is a handler called with an outcome and a byte count. *)

From S2P Require Import Prelude Types Codec Payloads Protocol SpscQueue.

Definition WIRE_HEADER_SIZE : nat := 1 + 2.
Definition READ_SIZE : Z := 65535.

(** log2 of [INBOUND_Q_CAP] = 16384 and of [OUTBOUND_Q_CAP] = 65536. *)
Definition INBOUND_Q_LOG : Z := 14.
Definition OUTBOUND_Q_LOG : Z := 16.
Definition OUT_BATCH_SIZE : nat := Z.to_nat (64 * 1024).

Definition write_u16_be (v : Z) : bytes :=
  [Z.land (Z.shiftr v 8) 255; Z.land v 255].

Definition read_u16_be (b0 b1 : Z) : Z := u16 (Z.lor (Z.shiftl b0 8) b1).

(** [InboundMessage] and [OutboundMessage] have the same members. *)
Record QueuedMessage := MkQueued {
  connection_id : Id_t;
  message_type : Message_t;
  msg_size : nat;
  msg_payload : bytes
}.
Abbreviation InboundMessage := QueuedMessage.
Abbreviation OutboundMessage := QueuedMessage.
Abbreviation Queue := (SPSCQueue (T := QueuedMessage)).

(** A type and a payload, before they are queued and as they are parsed. *)
Abbreviation Message := (Message_t * bytes)%type.

(** A message whose payload array is zeroed and then overwritten by [memcpy]. *)
Definition queued (id : Id_t) (type : Message_t) (payload : bytes) : QueuedMessage :=
  MkQueued id type (length payload)
    (payload ++ replicate (MAX_PAYLOAD_SIZE_BUFFER - length payload) 0).

(** What a handler asks for. *)
Inductive Effect :=
  | post_inbound_ready
  | post_drain_writes
  | start_read
  | start_write (data : bytes)
  | write_unbuffered (data : bytes)
  | close_socket
  | call_disconnected
  | call_inbound_ready
  | call_large_message (type : Message_t) (payload : bytes).

(** Which of the hooks ([std::function] members) are set. *)
Record Hooks := MkHooks {
  disconnected : bool;
  large_message_received : bool;
  inbound_ready : bool
}.

Module Connection.
Record t := Make {
  id_ : Id_t;
  hooks : Hooks;
  in_accum_ : bytes;
  in_capacity_ : Z;
  out_batch_ : bytes;
  out_batch_sent_ : nat;
  write_in_progress_ : bool;
  write_wakeup_pending_ : bool;
  disconnect_notified_ : bool;
  inbound_ready_pending_ : bool
}.

(** [Connection::Connection].  [in_accum_] is the part of the buffer in use (its
    first [in_used_] bytes), [in_capacity_] the size of the buffer;
    [out_batch_] is its first [out_batch_len_] bytes. *)
Definition Connection (id : Id_t) (hooks : Hooks) : t :=
  Make id hooks [] (READ_SIZE * 2) [] 0 false false false false.

Definition set_in (c : t) (accum : bytes) (capacity : Z) : t :=
  Make c.(id_) c.(hooks) accum capacity c.(out_batch_) c.(out_batch_sent_) c.(write_in_progress_)
    c.(write_wakeup_pending_) c.(disconnect_notified_) c.(inbound_ready_pending_).
Definition set_out (c : t) (batch : bytes) (sent : nat) (in_progress pending : bool) : t :=
  Make c.(id_) c.(hooks) c.(in_accum_) c.(in_capacity_) batch sent in_progress pending
    c.(disconnect_notified_) c.(inbound_ready_pending_).
Definition set_flags (c : t) (disconnect_notified inbound_ready_pending : bool) : t :=
  Make c.(id_) c.(hooks) c.(in_accum_) c.(in_capacity_) c.(out_batch_) c.(out_batch_sent_)
    c.(write_in_progress_) c.(write_wakeup_pending_) disconnect_notified inbound_ready_pending.

Definition notify_disconnect_once_ (c : t) : t * list Effect :=
  if c.(disconnect_notified_) then (c, [])
  else (set_flags c true c.(inbound_ready_pending_),
        close_socket :: if c.(hooks).(disconnected) then [call_disconnected] else []).

Definition notify_inbound_ready_ (c : t) : t * list Effect :=
  if negb c.(hooks).(inbound_ready) then (c, [])
  else if c.(inbound_ready_pending_) then (c, [])
  else (set_flags c c.(disconnect_notified_) true, [post_inbound_ready]).

(** The lambda [notify_inbound_ready_] posts. *)
Definition run_inbound_ready (c : t) : t * list Effect :=
  (set_flags c c.(disconnect_notified_) false,
   if c.(hooks).(inbound_ready) && negb c.(disconnect_notified_) then [call_inbound_ready] else []).

(** The loop of [parse_accumulator_] on the bytes from [offset] on.  The last
    component is the bytes left when the loop breaks, or [None] when the handler
    returns from inside the loop. *)
Fixpoint parse_loop (fuel : nat) (c : t) (inbox : Queue) (buf : bytes)
    : outcome (t * Queue * list Effect * option bytes) :=
  match buf with
  | type_u8 :: b0 :: b1 :: rest =>
      let payload_size := Z.to_nat (read_u16_be b0 b1) in
      let frame_sz := (WIRE_HEADER_SIZE + payload_size)%nat in
      if (length buf <? frame_sz)%nat then Done (c, inbox, [], Some buf)
      else if (MAX_PAYLOAD_SIZE <? payload_size)%nat then
        let '(c, effs) := notify_disconnect_once_ c in
        Done (c, inbox, effs, None)
      else
        match fuel with
        | O => OutOfFuel
        | S fuel =>
            let payload := take payload_size rest in
            if (payload_size <=? MAX_PAYLOAD_SIZE_BUFFER)%nat then
              '(pushed, inbox) ← try_push INBOUND_Q_LOG inbox (queued c.(id_) type_u8 payload);
              if pushed : bool then
                let '(c, effs) := notify_inbound_ready_ c in
                '(c, inbox, effs', lft) ← parse_loop fuel c inbox (drop frame_sz buf);
                Done (c, inbox, effs ++ effs', lft)
              else
                let '(c, effs) := notify_disconnect_once_ c in
                Done (c, inbox, effs, None)
            else
              '(c, inbox, effs, lft) ← parse_loop fuel c inbox (drop frame_sz buf);
              let call := if c.(hooks).(large_message_received)
                          then [call_large_message type_u8 payload] else [] in
              Done (c, inbox, call ++ effs, lft)
        end
  | _ => Done (c, inbox, [], Some buf)
  end.

(** [parse_accumulator_].  Every iteration consumes at least a header. *)
Definition parse_accumulator_ (c : t) (inbox : Queue) : outcome (t * Queue * list Effect) :=
  '(c, inbox, effs, lft) ← parse_loop (length c.(in_accum_)) c inbox c.(in_accum_);
  match lft with
  | Some rest => Done (set_in c rest c.(in_capacity_), inbox, effs)
  | None => Done (c, inbox, effs)
  end.

(** [while (new_sz < in_used_ + n) new_sz *= 2;] *)
Fixpoint grow (fuel : nat) (new_sz needed : Z) : outcome Z :=
  if new_sz <? needed then
    match fuel with
    | O => OutOfFuel
    | S fuel => grow fuel (new_sz * 2) needed
    end
  else Done new_sz.

(** [handle_read_] with the [n] bytes that were read, or an error. *)
Definition handle_read_ (c : t) (inbox : Queue) (read : option bytes)
    : outcome (t * Queue * list Effect) :=
  match read with
  | None => let '(c, effs) := notify_disconnect_once_ c in Done (c, inbox, effs)
  | Some data =>
      let needed := Z.of_nat (length c.(in_accum_) + length data) in
      capacity ← (if c.(in_capacity_) <? needed then grow 64 c.(in_capacity_) needed
                  else Done c.(in_capacity_));
      let c := set_in c (c.(in_accum_) ++ data) capacity in
      '(c, inbox, effs) ← parse_accumulator_ c inbox;
      Done (c, inbox, effs ++ if c.(disconnect_notified_) then [] else [start_read])
  end.

Definition schedule_drain_writes_ (c : t) : t * list Effect :=
  if c.(write_wakeup_pending_) then (c, [])
  else (set_out c c.(out_batch_) c.(out_batch_sent_) c.(write_in_progress_) true,
        [post_drain_writes]).

(** [send_message] up to its [try_push], which is what other threads see of it
    first; [payload] is the object the pointer refers to.  The result says
    whether the message was queued. *)
Definition push_message (c : t) (outbox : Queue) (type : Message_t) (payload : bytes)
    : outcome (bool * Queue) :=
  let payload_size := payload_size_for_type (MessageType_of_u8 type) in
  if (MAX_PAYLOAD_SIZE_BUFFER <? payload_size)%nat then Done (false, outbox)
  else if (length payload <? payload_size)%nat then Undefined
  else try_push OUTBOUND_Q_LOG outbox (queued c.(id_) type (take payload_size payload)).

(** [send_message] *)
Definition send_message (c : t) (outbox : Queue) (type : Message_t) (payload : bytes)
    : outcome (t * Queue * list Effect) :=
  '(pushed, outbox) ← push_message c outbox type payload;
  if pushed : bool then
    let '(c, effs) := schedule_drain_writes_ c in
    Done (c, outbox, effs)
  else Done (c, outbox, []).

(** A frame on the wire. *)
Definition frame (type : Message_t) (payload : bytes) : bytes :=
  u8 type :: write_u16_be (Z.of_nat (length payload)) ++ payload.

Definition queued_frame (msg : QueuedMessage) : bytes :=
  frame msg.(message_type) (take msg.(msg_size) msg.(msg_payload)).

(** [send_message_unbuffered] *)
Definition send_message_unbuffered (type : Message_t) (payload : bytes) : list Effect :=
  if (length payload =? 0)%nat then []
  else [write_unbuffered (frame type payload)].

Definition start_write_ (c : t) : t * list Effect :=
  (set_out c c.(out_batch_) c.(out_batch_sent_) true c.(write_wakeup_pending_),
   [start_write (drop c.(out_batch_sent_) c.(out_batch_))]).

(** The loop of [drain_writes_]: whole frames while they fit the batch. *)
Fixpoint drain_loop (fuel : nat) (batch : bytes) (outbox : Queue) : outcome (bytes * Queue) :=
  m ← peek OUTBOUND_Q_LOG outbox;
  match m with
  | None => Done (batch, outbox)
  | Some m =>
      if (OUT_BATCH_SIZE <? length batch + (WIRE_HEADER_SIZE + m.(msg_size)))%nat
      then Done (batch, outbox)
      else
        match fuel with
        | O => OutOfFuel
        | S fuel => drain_loop fuel (batch ++ queued_frame m) (consume_one outbox).2
        end
  end.

(** [drain_writes_].  Every iteration adds at least a header to the batch. *)
Definition drain_writes_ (c : t) (outbox : Queue) : outcome (t * Queue * list Effect) :=
  let c := set_out c c.(out_batch_) c.(out_batch_sent_) c.(write_in_progress_) false in
  if c.(write_in_progress_) then Done (c, outbox, [])
  else
    '(batch, outbox) ← drain_loop OUT_BATCH_SIZE [] outbox;
    let c := set_out c batch 0 c.(write_in_progress_) c.(write_wakeup_pending_) in
    if (length batch =? 0)%nat then Done (c, outbox, [])
    else let '(c, effs) := start_write_ c in Done (c, outbox, effs).

(** [handle_write_] after [n] bytes were written, or an error. *)
Definition handle_write_ (c : t) (outbox : Queue) (written : option nat)
    : outcome (t * Queue * list Effect) :=
  match written with
  | None =>
      let c := set_out c c.(out_batch_) c.(out_batch_sent_) false c.(write_wakeup_pending_) in
      let '(c, effs) := notify_disconnect_once_ c in
      Done (c, outbox, effs)
  | Some n =>
      let sent := (c.(out_batch_sent_) + n)%nat in
      let c := set_out c c.(out_batch_) sent c.(write_in_progress_) c.(write_wakeup_pending_) in
      if (sent <? length c.(out_batch_))%nat
      then let '(c, effs) := start_write_ c in Done (c, outbox, effs)
      else
        let c := set_out c c.(out_batch_) sent false c.(write_wakeup_pending_) in
        next ← peek OUTBOUND_Q_LOG outbox;
        match next with
        | Some _ => drain_writes_ c outbox
        | None =>
            if c.(write_wakeup_pending_)
            then drain_writes_ (set_out c c.(out_batch_) sent false false) outbox
            else Done (c, outbox, [])
        end
  end.
End Connection.
