(* ===== verification/ConnectionRead.v ===== *)
(** The receiving half of a connection: however the byte stream is cut into
    reads, the frames of the stream are queued in order, and the read buffer
    stays within bounds. *)

From S2P Require Import Prelude Types Codec Payloads Protocol SpscQueue Connection.
Import Connection.

(** ** The frames of a byte stream *)

(** The first complete frame of a stream and what follows it. *)
Definition next_frame (bs : bytes) : option ((Message_t * bytes) * bytes) :=
  match bs with
  | type :: b0 :: b1 :: rest =>
      let n := Z.to_nat (read_u16_be b0 b1) in
      if (length rest <? n)%nat then None else Some ((type, take n rest), drop n rest)
  | _ => None
  end.

(** All complete frames, and the incomplete rest. *)
Fixpoint frames_fuel (fuel : nat) (bs : bytes) : list (Message_t * bytes) * bytes :=
  match fuel, next_frame bs with
  | S fuel, Some (f, rest) => let '(fs, lft) := frames_fuel fuel rest in (f :: fs, lft)
  | _, _ => ([], bs)
  end.
Definition frames (bs : bytes) : list (Message_t * bytes) * bytes := frames_fuel (length bs) bs.

Lemma next_frame_length bs f rest : next_frame bs = Some (f, rest) → (length rest + 3 <= length bs)%nat.
Proof.
  unfold next_frame. destruct bs as [|t [|b0 [|b1 r]]]; try done.
  destruct (_ <? _)%nat; [done|]. intros [= <- <-]. cbn. rewrite length_drop. lia.
Qed.

Lemma next_frame_app bs f rest more :
  next_frame bs = Some (f, rest) → next_frame (bs ++ more) = Some (f, rest ++ more).
Proof.
  unfold next_frame. destruct bs as [|t [|b0 [|b1 r]]]; try done. cbn [app].
  destruct (length r <? _)%nat eqn:E; [done|]. intros [= <- <-]. apply Nat.ltb_ge in E.
  rewrite (proj2 (Nat.ltb_ge _ _)) by (rewrite length_app; lia).
  by rewrite take_app_le, drop_app_le by lia.
Qed.

Lemma frames_fuel_enough fuel bs : (length bs <= fuel)%nat → frames_fuel fuel bs = frames bs.
Proof.
  unfold frames. assert (∀ n fuel bs, (length bs <= n)%nat → (length bs <= fuel)%nat →
    frames_fuel n bs = frames_fuel fuel bs) as H.
  { intros n. induction n as [|n IH]; intros fuel' bs' Hn Hf.
    - destruct bs'; [|cbn in Hn; lia]. by destruct fuel'.
    - destruct fuel' as [|fuel']; [destruct bs'; [done | cbn in Hf; lia]|]. cbn.
      destruct (next_frame bs') as [[f rest]|] eqn:E; [|done].
      apply next_frame_length in E. by rewrite (IH fuel') by lia. }
  intros Hf. symmetry. by apply H.
Qed.

Lemma frames_unfold bs :
  frames bs = match next_frame bs with
              | Some (f, rest) => (f :: (frames rest).1, (frames rest).2)
              | None => ([], bs)
              end.
Proof.
  destruct (length bs) as [|n] eqn:En.
  { destruct bs; [done | done]. }
  unfold frames at 1. rewrite En. cbn. destruct (next_frame bs) as [[f rest]|] eqn:E; [|done].
  apply next_frame_length in E. rewrite frames_fuel_enough by lia. by destruct (frames rest).
Qed.

(** Cutting the stream anywhere: the frames of the first part, then those of its
    rest with the second part. *)
Lemma frames_app bs more :
  frames (bs ++ more) =
    let '(fs, lft) := frames bs in
    let '(fs', lft') := frames (lft ++ more) in (fs ++ fs', lft').
Proof.
  remember (length bs) as n eqn:Hn. revert bs Hn.
  induction n as [n IH] using lt_wf_ind. intros bs Hn.
  rewrite (frames_unfold bs). destruct (next_frame bs) as [[f rest]|] eqn:E.
  - rewrite frames_unfold, (next_frame_app _ _ _ more E). pose proof (next_frame_length _ _ _ E).
    rewrite (IH (length rest)) by (done || lia). destruct (frames rest) as [fs lft].
    cbn [fst snd]. by destruct (frames (lft ++ more)).
  - by destruct (frames (bs ++ more)).
Qed.

Lemma read_u16_range b0 b1 : 0 <= read_u16_be b0 b1 < 2 ^ 16.
Proof.
  unfold read_u16_be. with_strategy transparent [u16] unfold u16. apply Z.mod_pos_bound. lia.
Qed.

(** An incomplete rest is shorter than the longest frame. *)
Lemma frames_rest_short bs : (Z.of_nat (length (frames bs).2) < 3 + 2 ^ 16).
Proof.
  remember (length bs) as n eqn:Hn. revert bs Hn. induction n as [n IH] using lt_wf_ind.
  intros bs Hn. rewrite frames_unfold. destruct (next_frame bs) as [[f rest]|] eqn:E.
  - apply next_frame_length in E. cbn. apply (IH (length rest)); lia.
  - cbn. unfold next_frame in E. destruct bs as [|t [|b0 [|b1 r]]]; cbn [length]; try lia.
    destruct (_ <? _)%nat eqn:El in E; [|done]. apply Nat.ltb_lt in El.
    pose proof (read_u16_range b0 b1). lia.
Qed.

(** ** The parser delivers the frames *)

(** The frames that fit a message of the queue. *)
Definition bufferable (f : Message_t * bytes) : Prop := (length f.2 <= MAX_PAYLOAD_SIZE_BUFFER)%nat.

#[global] Instance bufferable_dec f : Decision (bufferable f).
Proof. unfold bufferable. apply _. Defined.

Definition delivered (id : Id_t) (f : Message_t * bytes) : QueuedMessage := queued id f.1 f.2.

(** What becomes of the frames of a stream, given the room in the queue: those
    that are queued, and whether the client is disconnected, for a frame longer
    than any message or for one that finds the queue full.  Frames too long for
    the queue, but not for a message, take no room. *)
Fixpoint taken (room : nat) (fs : list (Message_t * bytes)) : list (Message_t * bytes) * bool :=
  match fs with
  | [] => ([], false)
  | f :: fs =>
      if (MAX_PAYLOAD_SIZE <? length f.2)%nat then ([], true)
      else if (length f.2 <=? MAX_PAYLOAD_SIZE_BUFFER)%nat then
        match room with
        | O => ([], true)
        | S room => let '(fs, closed) := taken room fs in (f :: fs, closed)
        end
      else taken room fs
  end.

Lemma buffer_max : (MAX_PAYLOAD_SIZE_BUFFER <= MAX_PAYLOAD_SIZE)%nat.
Proof. apply Nat.leb_le. vm_compute. reflexivity. Qed.

(** Well-behaved clients: nothing is dropped. *)
Lemma taken_all room fs : Forall bufferable fs → (length fs <= room)%nat → taken room fs = (fs, false).
Proof.
  intros H. revert room. induction H as [|f fs Hf _ IH]; intros room Hl; [done|].
  pose proof buffer_max. unfold bufferable in Hf. cbn [taken length] in *.
  rewrite (proj2 (Nat.ltb_ge _ _)), (proj2 (Nat.leb_le _ _)) by lia. destruct room as [|room]; [lia|].
  by rewrite IH by lia.
Qed.

Lemma taken_room room fs : (length (taken room fs).1 <= room)%nat.
Proof.
  revert room. induction fs as [|f fs IH]; intros room; cbn [taken]; [cbn; lia|].
  destruct (_ <? _)%nat; [cbn; lia|]. destruct (_ <=? _)%nat; [|apply IH]. destruct room as [|room]; [cbn; lia|].
  specialize (IH room). destruct (taken room fs). cbn in *. lia.
Qed.

Lemma taken_app room fs fs' :
  taken room (fs ++ fs') =
    let '(ms, closed) := taken room fs in
    if closed : bool then (ms, true)
    else let '(ms', closed') := taken (room - length ms) fs' in (ms ++ ms', closed').
Proof.
  revert room. induction fs as [|f fs IH]; intros room; cbn [app taken length].
  { rewrite Nat.sub_0_r. by destruct (taken room fs'). }
  destruct (_ <? _)%nat; [done|]. destruct (_ <=? _)%nat; [|apply IH]. destruct room as [|room]; [done|].
  rewrite IH. destruct (taken room fs) as [ms []]; [done|]. cbn [length Nat.sub].
  by destruct (taken (room - length ms) fs').
Qed.

(** How many messages the queue still takes. *)
Definition room_left (items : list QueuedMessage) : nat :=
  Z.to_nat (CapacityPow2 INBOUND_Q_LOG) - length items.

Lemma inbound_log : 1 <= INBOUND_Q_LOG < 64.
Proof. unfold INBOUND_Q_LOG. lia. Qed.

Lemma room_push items m :
  Z.of_nat (length items) < CapacityPow2 INBOUND_Q_LOG → room_left items = S (room_left (items ++ [m])).
Proof. unfold room_left. rewrite length_app. cbn [length]. lia. Qed.

(** A connection that differs from [c] in its flags only. *)
Record flagged (c c' : t) : Prop := MkFlagged {
  fg_id : c'.(id_) = c.(id_);
  fg_hooks : c'.(hooks) = c.(hooks);
  fg_accum : c'.(in_accum_) = c.(in_accum_);
  fg_capacity : c'.(in_capacity_) = c.(in_capacity_)
}.

Lemma flagged_refl c : flagged c c.
Proof. by split. Qed.

Lemma flagged_trans c1 c2 c3 : flagged c1 c2 → flagged c2 c3 → flagged c1 c3.
Proof. intros [] []. split; congruence. Qed.

Lemma disconnect_flagged c :
  disconnect_notified_ c = false →
  ∃ c' effs, notify_disconnect_once_ c = (c', effs) ∧ flagged c c' ∧ disconnect_notified_ c' = true ∧
    inbound_ready_pending_ c' = inbound_ready_pending_ c ∧
    effs = close_socket :: if c.(hooks).(disconnected) then [call_disconnected] else [].
Proof. intros E. unfold notify_disconnect_once_. rewrite E. by eexists _, _. Qed.

(** The wake-up of the engine asked for by a loop that queued [ms]. *)
Definition wakeup (c : t) (ms : list (Message_t * bytes)) : list Effect :=
  match ms with
  | [] => []
  | _ => if negb c.(hooks).(inbound_ready) || c.(inbound_ready_pending_) then [] else [post_inbound_ready]
  end.

Definition is_large (e : Effect) : bool := match e with call_large_message _ _ => true | _ => false end.

Lemma ready_flagged c :
  ∃ c', notify_inbound_ready_ c = (c', wakeup c [(0, [])]) ∧ flagged c c' ∧
    disconnect_notified_ c' = disconnect_notified_ c ∧
    inbound_ready_pending_ c' = inbound_ready_pending_ c || c.(hooks).(inbound_ready).
Proof.
  unfold notify_inbound_ready_, wakeup. destruct (hooks c) as [h1 h2 h3] eqn:E; cbn [inbound_ready].
  destruct h3, (inbound_ready_pending_ c) eqn:Ep; cbn; eexists; (split; [reflexivity|]); cbn; rewrite ?Ep; by repeat split.
Qed.

(** The parser, on any bytes: the effects but the calls for large messages are a
    wake-up if something was queued, and the end of the connection. *)
Lemma parse_loop_ok fuel c inbox items buf :
  holds INBOUND_Q_LOG inbox items → (length buf <= fuel)%nat → disconnect_notified_ c = false →
  let '(ms, closed) := taken (room_left items) (frames buf).1 in
  ∃ c' inbox' effs,
    parse_loop fuel c inbox buf =
      Done (c', inbox', effs, if closed : bool then None else Some (frames buf).2) ∧
    holds INBOUND_Q_LOG inbox' (items ++ map (delivered c.(id_)) ms) ∧ flagged c c' ∧
    disconnect_notified_ c' = closed ∧
    inbound_ready_pending_ c' = inbound_ready_pending_ c || (c.(hooks).(inbound_ready) && negb (bool_decide (ms = []))) ∧
    filter (λ e, is_large e = false) effs =
      wakeup c ms ++ if closed then close_socket :: if c.(hooks).(disconnected) then [call_disconnected] else [] else [].
Proof.
  revert c inbox items buf. induction fuel as [|fuel IH]; intros c inbox items buf HQ Hf Hd.
  { destruct buf; [|cbn in Hf; lia]. exists c, inbox, []. cbn.
    rewrite app_nil_r, andb_false_r, orb_false_r. repeat (split; [done|]). done. }
  rewrite frames_unfold in *. unfold next_frame in *.
  assert (∃ c' inbox' effs, Done (c, inbox, [], Some buf) = Done (c', inbox', effs, Some buf) ∧
    holds INBOUND_Q_LOG inbox' (items ++ map (delivered c.(id_)) []) ∧ flagged c c' ∧
    disconnect_notified_ c' = false ∧
    inbound_ready_pending_ c' = inbound_ready_pending_ c || (c.(hooks).(inbound_ready) && false) ∧
    filter (λ e, is_large e = false) effs = []) as Hincomplete.
  { exists c, inbox, []. cbn. rewrite app_nil_r, andb_false_r, orb_false_r. repeat (split; [done|]). done. }
  destruct buf as [|t [|b0 [|b1 r]]]; cbn [parse_loop]; [exact Hincomplete.. |].
  set (n := Z.to_nat (read_u16_be b0 b1)) in *. unfold WIRE_HEADER_SIZE.
  replace (length (t :: b0 :: b1 :: r) <? 1 + 2 + n)%nat with (length r <? n)%nat
    by (cbn [length]; apply eq_true_iff_eq; rewrite !Nat.ltb_lt; lia).
  destruct (length r <? n)%nat eqn:En; [exact Hincomplete|].
  apply Nat.ltb_ge in En. cbn [fst snd taken]. rewrite length_take, Nat.min_l by done.
  destruct (MAX_PAYLOAD_SIZE <? n)%nat.
  { destruct (disconnect_flagged c Hd) as (c' & effs & -> & HF & Hd' & Hp & ->). eexists c', inbox, _.
    split; [reflexivity|]. cbn. rewrite app_nil_r, Hp, andb_false_r, orb_false_r.
    repeat (split; [done|]). by destruct (disconnected _). }
  change (drop (1 + 2 + n) (t :: b0 :: b1 :: r)) with (drop n r).
  destruct (n <=? MAX_PAYLOAD_SIZE_BUFFER)%nat.
  - destruct (try_push_ok INBOUND_Q_LOG inbound_log inbox items
      (queued (id_ c) t (take n r)) HQ) as (inbox1 & -> & HQ1). run_bind.
    case_bool_decide as Hroom.
    + rewrite (room_push items (queued (id_ c) t (take n r))) by done.
      destruct (ready_flagged c) as (c1 & -> & HF1 & Hd1 & Hp1).
      specialize (IH c1 inbox1 _ (drop n r) HQ1). destruct (taken _ (frames (drop n r)).1) as [ms closed].
      destruct IH as (c2 & inbox2 & effs2 & -> & HQ2 & HF2 & Hd2 & Hp2 & He2);
        [rewrite length_drop; cbn in Hf; lia | congruence |]. run_bind.
      eexists c2, inbox2, _. split; [by destruct closed|].
      rewrite <- app_assoc, (fg_id _ _ HF1) in HQ2. split; [exact HQ2|].
      split; [by eapply flagged_trans|]. split; [done|].
      rewrite (fg_hooks _ _ HF1), Hp1 in Hp2. rewrite filter_app, He2. unfold wakeup.
      rewrite (fg_hooks _ _ HF1), Hp1, Hp2. split.
      * rewrite (bool_decide_false (_ :: _ = _)) by done.
        by destruct (inbound_ready_pending_ c), (inbound_ready _).
      * destruct (inbound_ready_pending_ c), (inbound_ready _), ms; done.
    + replace (room_left items) with O by (unfold room_left; lia).
      destruct (disconnect_flagged c Hd) as (c' & effs & -> & HF & Hd' & Hp & ->). eexists c', inbox1, _.
      split; [reflexivity|]. cbn. rewrite app_nil_r, Hp, andb_false_r, orb_false_r.
      repeat (split; [done|]). by destruct (disconnected _).
  - specialize (IH c inbox items (drop n r) HQ). destruct (taken _ (frames (drop n r)).1) as [ms closed].
    destruct IH as (c2 & inbox2 & effs2 & -> & HQ2 & HF2 & Hd2 & Hp2 & He2);
      [rewrite length_drop; cbn in Hf; lia | done |]. run_bind.
    eexists c2, inbox2, _. split; [by destruct closed|]. split; [done|]. split; [done|]. split; [done|].
    split; [done|]. rewrite filter_app, He2. by destruct (large_message_received _).
Qed.

(** ** Reads *)

(** A connection between two reads: the accumulator holds an incomplete frame
    and the buffer has its initial size or twice that. *)
Record idle (c : t) : Prop := MkIdle {
  il_rest : (frames c.(in_accum_)).1 = [];
  il_capacity : c.(in_capacity_) = READ_SIZE * 2 ∨ c.(in_capacity_) = READ_SIZE * 4;
  il_connected : c.(disconnect_notified_) = false
}.

Lemma frames_none bs : (frames bs).1 = [] → (frames bs).2 = bs.
Proof. rewrite frames_unfold. by destruct (next_frame bs) as [[f rest]|]. Qed.

Lemma frames_again bs : (frames (frames bs).2).1 = [].
Proof.
  pose proof (frames_app bs []) as E. rewrite app_nil_r in E. destruct (frames bs) as [fs lft].
  rewrite app_nil_r in E. cbn [snd]. destruct (frames lft) as [fs' lft']. injection E as E _.
  apply (f_equal length) in E. rewrite length_app in E. destruct fs'; [done | cbn in E; lia].
Qed.

Lemma grow_ok capacity needed :
  READ_SIZE * 2 <= capacity → needed <= READ_SIZE * 4 → capacity < needed →
  grow 64 capacity needed = Done (capacity * 2).
Proof.
  unfold READ_SIZE. intros Hc Hn Hlt. cbn [grow]. rewrite (proj2 (Z.ltb_lt _ _) Hlt).
  rewrite (proj2 (Z.ltb_ge _ _)) by lia. done.
Qed.

(** One read: no overflow of the buffer, every frame completed by it treated. *)
Lemma handle_read_ok c inbox items data :
  idle c → holds INBOUND_Q_LOG inbox items → Z.of_nat (length data) <= READ_SIZE →
  let '(fs, lft) := frames (c.(in_accum_) ++ data) in
  let '(ms, closed) := taken (room_left items) fs in
  ∃ c' inbox' effs, handle_read_ c inbox (Some data) = Done (c', inbox', effs) ∧
    holds INBOUND_Q_LOG inbox' (items ++ map (delivered c.(id_)) ms) ∧
    c'.(id_) = c.(id_) ∧ c'.(hooks) = c.(hooks) ∧
    Z.of_nat (length (c.(in_accum_) ++ data)) <= c'.(in_capacity_) <= READ_SIZE * 4 ∧
    c'.(disconnect_notified_) = closed ∧ (closed = false → idle c' ∧ c'.(in_accum_) = lft) ∧
    c'.(inbound_ready_pending_) = c.(inbound_ready_pending_) || (c.(hooks).(inbound_ready) && negb (bool_decide (ms = []))) ∧
    filter (λ e, is_large e = false) effs =
      wakeup c ms ++ if closed then close_socket :: if c.(hooks).(disconnected) then [call_disconnected] else []
                     else [start_read].
Proof.
  intros [Hr Hcap Hd] HQ Hdata. destruct (frames (in_accum_ c ++ data)) as [fs lft] eqn:E.
  unfold handle_read_. pose proof (frames_rest_short (in_accum_ c)) as Hs. rewrite frames_none in Hs by done.
  set (needed := Z.of_nat (length (in_accum_ c) + length data)).
  assert (needed <= READ_SIZE * 4) as Hneed by (unfold needed, READ_SIZE in *; lia).
  assert (∃ cap, (if in_capacity_ c <? needed then grow 64 (in_capacity_ c) needed
    else Done (in_capacity_ c)) = Done cap ∧ (cap = READ_SIZE * 2 ∨ cap = READ_SIZE * 4) ∧ needed <= cap)
    as (cap & Ecap & Hcap' & Hfit).
  { destruct (in_capacity_ c <? needed) eqn:El; [apply Z.ltb_lt in El
      | apply Z.ltb_ge in El; exists (in_capacity_ c); split; [done | lia]].
    rewrite grow_ok by lia. exists (in_capacity_ c * 2).
    unfold needed, READ_SIZE in *. split; [done|]. lia. }
  assert (needed <= cap <= READ_SIZE * 4) as Hbounds by (unfold READ_SIZE in *; lia).
  pose proof (parse_loop_ok (length (in_accum_ c ++ data)) (set_in c (in_accum_ c ++ data) cap) inbox items
    (in_accum_ c ++ data) HQ (le_n _) Hd) as HP.
  rewrite E in HP. cbn [fst snd] in HP. destruct (taken _ fs) as [ms closed].
  destruct HP as (c1 & inbox1 & effs & E1 & HQ1 & [Hid Hh Ha Hc1] & Hd1 & Hp1 & He).
  cbn in Hid, Hh, Ha, Hc1, Hp1, HQ1. change (wakeup (set_in c _ _) ms) with (wakeup c ms) in He. cbn [hooks set_in] in He.
  rewrite length_app, Nat2Z.inj_add. unfold needed in Hbounds. rewrite Nat2Z.inj_add in Hbounds.
  eexists _, _, _. split.
  { rewrite Ecap. run_bind. unfold parse_accumulator_. cbn [in_accum_ set_in] in E1 |- *. rewrite E1. run_bind.
    instantiate (3 := if closed then c1 else set_in c1 lft (in_capacity_ c1)). by destruct closed. }
  rewrite filter_app, He, <- app_assoc. split; [exact HQ1|].
  destruct closed; cbn; rewrite ?Hd1, Hid, Hh, ?Hc1, Hp1; repeat (split; [done|]).
  - rewrite filter_nil. by destruct (disconnected (hooks c)).
  - split; [|done]. intros _. split; [|done]. split; cbn; [|congruence | done].
    replace lft with (frames (in_accum_ c ++ data)).2 by (by rewrite E). apply frames_again.
Qed.

(** A sequence of reads; after the end of the connection none is started. *)
Fixpoint read_all (c : t) (inbox : Queue) (chunks : list bytes) : outcome (t * Queue) :=
  match chunks with
  | [] => Done (c, inbox)
  | data :: chunks =>
      if c.(disconnect_notified_) then Done (c, inbox)
      else
        '(c, inbox, _) ← handle_read_ c inbox (Some data);
        read_all c inbox chunks
  end.

Lemma room_after items ms id : (room_left items - length ms)%nat = room_left (items ++ map (delivered id) ms).
Proof. unfold room_left. rewrite length_app, length_map. lia. Qed.

Lemma read_all_ok chunks c inbox items :
  idle c → holds INBOUND_Q_LOG inbox items →
  Forall (λ data, Z.of_nat (length data) <= READ_SIZE) chunks →
  let '(fs, lft) := frames (c.(in_accum_) ++ concat chunks) in
  let '(ms, closed) := taken (room_left items) fs in
  ∃ c' inbox', read_all c inbox chunks = Done (c', inbox') ∧
    holds INBOUND_Q_LOG inbox' (items ++ map (delivered c.(id_)) ms) ∧
    c'.(disconnect_notified_) = closed ∧ (closed = false → c'.(in_accum_) = lft) ∧
    c'.(in_capacity_) <= READ_SIZE * 4.
Proof.
  intros HI HQ Hch. revert c inbox items HI HQ. induction Hch as [|data chunks Hd _ IH];
    intros c inbox items HI HQ; cbn [concat read_all].
  { rewrite app_nil_r. pose proof (il_rest _ HI) as Hr. pose proof (frames_none _ Hr) as Hn.
    destruct (frames (in_accum_ c)) as [fs lft]. cbn in Hr, Hn. subst fs lft.
    exists c, inbox. cbn. rewrite app_nil_r. destruct HI as [_ Hcap Hdn]. unfold READ_SIZE in *.
    repeat (split; [done|]). lia. }
  rewrite (il_connected _ HI). pose proof (handle_read_ok c inbox items data HI HQ Hd) as Hone.
  rewrite app_assoc, frames_app. destruct (frames (in_accum_ c ++ data)) as [fs1 lft1].
  destruct (frames (lft1 ++ concat chunks)) as [fs2 lft2] eqn:E2. rewrite taken_app.
  destruct (taken (room_left items) fs1) as [ms1 closed1].
  destruct Hone as (c1 & inbox1 & effs & -> & HQ1 & Hid1 & _ & Hcap1 & Hd1 & Ho1 & _). run_bind.
  destruct closed1.
  - exists c1, inbox1. split; [destruct chunks; [done|]; cbn; by rewrite Hd1|]. repeat (split; [done|]). lia.
  - destruct (Ho1 eq_refl) as [HI1 Ha1]. specialize (IH c1 inbox1 _ HI1 HQ1). rewrite Ha1, E2, <- room_after, Hid1 in IH.
    destruct (taken _ fs2) as [ms2 closed2]. destruct IH as (c2 & inbox2 & -> & HQ2 & Hrest).
    exists c2, inbox2. split; [done|]. split; [by rewrite map_app, app_assoc | done].
Qed.

(** ** Guarantees *)

Lemma u16_bytes v : 0 <= v < 2 ^ 16 → write_u16_be v = [v / 2 ^ 8; v mod 2 ^ 8].
Proof.
  intros Hv. unfold write_u16_be. change 255 with (Z.ones 8).
  rewrite !Z.land_ones, Z.shiftr_div_pow2 by lia. f_equal.
  apply Z.mod_small. split; [apply Z.div_pos; lia | apply Z.div_lt_upper_bound; lia].
Qed.

Lemma read_write_u16 v b0 b1 : 0 <= v < 2 ^ 16 → write_u16_be v = [b0; b1] → read_u16_be b0 b1 = v.
Proof.
  intros Hv. rewrite u16_bytes by done. intros [= <- <-]. unfold read_u16_be.
  rewrite Z.lor_comm, lor_shiftl_add by (unfold is_byte; apply Z.mod_pos_bound; lia).
  pose proof (Z_div_mod_eq_full v (2 ^ 8)). with_strategy transparent [u16] unfold u16.
  rewrite Z.mod_small; lia.
Qed.

Lemma next_frame_frame type payload rest :
  Z.of_nat (length payload) < 2 ^ 16 →
  next_frame (frame type payload ++ rest) = Some ((u8 type, payload), rest).
Proof.
  intros Hl. unfold frame. destruct (write_u16_be (Z.of_nat (length payload))) as [|b0 [|b1 [|]]] eqn:E;
    try done. cbn [app next_frame].
  rewrite (read_write_u16 (Z.of_nat (length payload))) by (done || lia). rewrite Nat2Z.id.
  rewrite (proj2 (Nat.ltb_ge _ _)) by (rewrite length_app; lia).
  by rewrite take_app_length, drop_app_length.
Qed.

(** The frames of a stream of frames. *)
Lemma frames_of_frames fs rest :
  Forall (λ f, Z.of_nat (length f.2) < 2 ^ 16 ∧ is_byte f.1) fs →
  frames (concat (map (λ f, frame f.1 f.2) fs) ++ rest) = (fs ++ (frames rest).1, (frames rest).2).
Proof.
  induction 1 as [|[type payload] fs [Hl Hb] _ IH]; [cbn [map concat app]; by destruct (frames rest)|].
  cbn [map concat fst snd] in *. rewrite <- app_assoc, frames_unfold, next_frame_frame by done.
  rewrite IH. cbn. do 2 f_equal. unfold is_byte in Hb. rewrite u8_spec, Z.mod_small by done. done.
Qed.

(** C19: stream reassembly.  Whatever bytes a client sends and however they are cut
    into reads of at most 65535 bytes, a connection queues for the engine, in
    order and with their types and payloads, the complete frames of the stream
    that fit a message of the queue, passes over those that only fit the largest
    message, and disconnects at the first frame longer than that or that finds the
    queue full, reading nothing more.  Otherwise it keeps the incomplete rest and
    stays connected.  Its buffer never outgrows twice its initial size. *)
Theorem stream_reassembly (chunks : list bytes) (id : Id_t) (hooks : Hooks) inbox items :
  holds INBOUND_Q_LOG inbox items →
  Forall (λ data, Z.of_nat (length data) <= READ_SIZE) chunks →
  let '(fs, lft) := frames (concat chunks) in
  let '(ms, closed) := taken (room_left items) fs in
  ∃ c inbox', read_all (Connection id hooks) inbox chunks = Done (c, inbox') ∧
    holds INBOUND_Q_LOG inbox' (items ++ map (delivered id) ms) ∧
    c.(disconnect_notified_) = closed ∧ (closed = false → c.(in_accum_) = lft) ∧
    c.(in_capacity_) <= READ_SIZE * 4.
Proof.
  intros HQ Hch. apply (read_all_ok chunks (Connection id hooks) inbox items); [|done..]. split; cbn; auto.
Qed.

(** What one end frames the other end reads back: parsing the concatenation
    of frames gives exactly their types and payloads and leaves nothing. *)
Theorem framing_roundtrip (fs : list (Message_t * bytes)) :
  Forall (λ f, Z.of_nat (length f.2) < 2 ^ 16 ∧ is_byte f.1) fs →
  frames (concat (map (λ f, frame f.1 f.2) fs)) = (fs, []).
Proof.
  intros H. pose proof (frames_of_frames fs [] H) as E. rewrite !app_nil_r in E. exact E.
Qed.

Lemma framing_roundtrip_witness :
  frames (frame 3 [1; 2; 3] ++ frame 6 [] ++ []) = ([(3, [1; 2; 3]); (6, [])], []).
Proof.
  apply (framing_roundtrip [(3, [1; 2; 3]); (6, [])]).
  repeat constructor; vm_compute; congruence.
Defined.

(** Three reads: a frame of four bytes, one of 100 bytes that is passed over, and
    part of a third frame. *)
Definition reads : list bytes := [[6; 0]; [4; 1; 2; 3]; 4 :: 27 :: 0 :: 100 :: replicate 100 7 ++ [3; 0; 1]].

Lemma stream_reassembly_witness :
  ∃ c inbox', read_all (Connection 5 (MkHooks true false true))
      (new_queue INBOUND_Q_LOG (queued 0 0 [])) reads = Done (c, inbox') ∧
    c.(in_accum_) = [3; 0; 1] ∧ c.(disconnect_notified_) = false ∧
    holds INBOUND_Q_LOG inbox' [delivered 5 (6, [1; 2; 3; 4])].
Proof.
  pose proof (stream_reassembly reads 5 (MkHooks true false true)
    (new_queue INBOUND_Q_LOG (queued 0 0 [])) []) as H.
  assert (taken (room_left []) (frames (concat reads)).1 = ([(6, [1; 2; 3; 4])], false)) as Ht by (vm_compute; reflexivity).
  assert ((frames (concat reads)).2 = [3; 0; 1]) as Hl by (vm_compute; reflexivity).
  destruct (frames (concat reads)) as [fs lft]. cbn [fst snd] in Ht, Hl. rewrite Ht, Hl in H.
  destruct H as (c & inbox' & E & HQ & Hd & Ha & _).
  - apply new_queue_holds. unfold INBOUND_Q_LOG. lia.
  - repeat constructor; vm_compute; congruence.
  - exists c, inbox'. split; [exact E|]. split; [exact (Ha eq_refl)|]. split; [exact Hd | exact HQ].
Defined.
