(* ===== verification/ConnectionWrite.v ===== *)
(** The sending half of a connection: the engine's [send_message] and the I/O
    strand's [drain_writes_] and [handle_write_], interleaved.  The bytes on the
    wire are the frames of the accepted messages, in order, and no message is
    left behind without a write or a wake-up that will send it. *)

From S2P Require Import Prelude Types Codec Payloads Protocol SpscQueue Connection.
Import Connection.

(** ** Batches *)

(** A message as [send_message] queues it. *)
Definition well_queued (m : QueuedMessage) : Prop :=
  (m.(msg_size) <= MAX_PAYLOAD_SIZE_BUFFER)%nat ∧ (m.(msg_size) <= length m.(msg_payload))%nat.

Definition stream (ms : list QueuedMessage) : bytes := concat (map queued_frame ms).

Lemma stream_app ms ms' : stream (ms ++ ms') = stream ms ++ stream ms'.
Proof. unfold stream. by rewrite map_app, concat_app. Qed.

Lemma queued_frame_length m :
  well_queued m → length (queued_frame m) = (WIRE_HEADER_SIZE + m.(msg_size))%nat.
Proof. intros [_ H]. unfold queued_frame, frame. cbn. rewrite length_take. lia. Qed.

Lemma batch_fits m : well_queued m → (WIRE_HEADER_SIZE + m.(msg_size) <= OUT_BATCH_SIZE)%nat.
Proof.
  intros [H _]. assert (MAX_PAYLOAD_SIZE_BUFFER = 46%nat) as Hb by (vm_compute; reflexivity).
  rewrite Hb in H. unfold WIRE_HEADER_SIZE, OUT_BATCH_SIZE. lia.
Qed.

Lemma outbound_log : 1 <= OUTBOUND_Q_LOG < 64.
Proof. unfold OUTBOUND_Q_LOG. lia. Qed.

(** [drain_writes_]'s loop moves whole frames from the front of the queue to the
    batch, and at least one into an empty batch. *)
Lemma drain_loop_ok fuel batch outbox items :
  holds OUTBOUND_Q_LOG outbox items → Forall well_queued items →
  (OUT_BATCH_SIZE <= fuel + length batch)%nat → (length batch <= OUT_BATCH_SIZE)%nat →
  ∃ k outbox', drain_loop fuel batch outbox = Done (batch ++ stream (take k items), outbox') ∧
    holds OUTBOUND_Q_LOG outbox' (drop k items) ∧
    (length (batch ++ stream (take k items)) <= OUT_BATCH_SIZE)%nat ∧
    (batch = [] → items ≠ [] → stream (take k items) ≠ []).
Proof.
  revert batch outbox items. induction fuel as [|fuel IH]; intros batch outbox items HQ Hw Hf Hb;
    cbn [drain_loop]; rewrite (peek_ok _ outbound_log _ _ HQ); run_bind.
  all: destruct items as [|m items]; cbn [head];
    [exists 0%nat, outbox; cbn; rewrite app_nil_r; by repeat split|].
  all: apply Forall_cons in Hw as [Hm Hw].
  all: destruct (OUT_BATCH_SIZE <? length batch + (WIRE_HEADER_SIZE + msg_size m))%nat eqn:E.
  1, 3: exists 0%nat, outbox; cbn [take stream map concat drop]; rewrite app_nil_r;
    repeat split; try done; intros ->; exfalso; apply Nat.ltb_lt in E; cbn [length] in E;
    pose proof (batch_fits m Hm); lia.
  all: apply Nat.ltb_ge in E; unfold WIRE_HEADER_SIZE in E.
  1: lia.
  destruct (consume_one_ok _ outbound_log _ _ HQ) as [_ HQ1]. cbn [tail] in HQ1.
  pose proof (queued_frame_length m Hm) as Hl. unfold WIRE_HEADER_SIZE in Hl.
  destruct (IH (batch ++ queued_frame m) _ items HQ1 Hw) as (k & outbox' & E1 & HQ' & Hlen & _);
    [rewrite length_app; lia | rewrite length_app; lia |].
  exists (S k), outbox'. rewrite E1. cbn [take drop]. rewrite <- app_assoc in Hlen |- *.
  split; [done|]. split; [done|]. split; [done|]. intros _ _ Hn.
  apply (f_equal length) in Hn. unfold stream in Hn. cbn in Hn. lia.
Qed.

(** ** The system *)

(** The connection, its queue, the drains posted to the strand, the bytes given
    to the socket and not yet written, the bytes written, the messages accepted
    by [try_push], and whether the engine is between its [try_push] and its
    [schedule_drain_writes_]. *)
Record System := MkSystem {
  conn : t;
  outbox : Queue;
  tasks : nat;
  inflight : option bytes;
  wire : bytes;
  accepted : list QueuedMessage;
  sending : bool
}.

(** What the strand and the socket do with the effects of a handler. *)
Definition absorb (st : nat * option bytes) (e : Effect) : nat * option bytes :=
  match e with
  | post_drain_writes => (S st.1, st.2)
  | start_write data => (st.1, Some data)
  | _ => st
  end.

(** The steps of the I/O strand and the socket, while the socket works. *)
Inductive io_step : System → System → Prop :=
  | strand_drain c q n fl w acc sg c' q' effs n' fl' :
      drain_writes_ c q = Done (c', q', effs) → foldl absorb (n, fl) effs = (n', fl') →
      io_step (MkSystem c q (S n) fl w acc sg) (MkSystem c' q' n' fl' w acc sg)
  | socket_wrote c q n data w acc sg k c' q' effs n' fl' :
      (0 < k <= length data)%nat →
      handle_write_ c q (Some k) = Done (c', q', effs) → foldl absorb (n, None) effs = (n', fl') →
      io_step (MkSystem c q n (Some data) w acc sg)
        (MkSystem c' q' n' fl' (w ++ take k data) acc sg).

Inductive write_step : System → System → Prop :=
  | engine_push c q n fl w acc type payload pushed q' :
      push_message c q type payload = Done (pushed, q') →
      write_step (MkSystem c q n fl w acc false)
        (MkSystem c q' n fl w
           (if pushed then
              acc ++ [queued c.(id_) type
                        (take (payload_size_for_type (MessageType_of_u8 type)) payload)]
            else acc)
           pushed)
  | engine_schedule c q n fl w acc c' effs n' fl' :
      schedule_drain_writes_ c = (c', effs) → foldl absorb (n, fl) effs = (n', fl') →
      write_step (MkSystem c q n fl w acc true) (MkSystem c' q n' fl' w acc false)
  | io_thread s s' : io_step s s' → write_step s s'.

Definition initial_system (id : Id_t) (hooks : Hooks) (zero : QueuedMessage) : System :=
  MkSystem (Connection id hooks) (new_queue OUTBOUND_Q_LOG zero) 0 None [] [] false.

Inductive write_reachable (id : Id_t) (hooks : Hooks) (zero : QueuedMessage) : System → Prop :=
  | wr_init : write_reachable id hooks zero (initial_system id hooks zero)
  | wr_step s s' : write_reachable id hooks zero s → write_step s s' → write_reachable id hooks zero s'.

(** ** The invariant *)

Record out_inv (c : t) (q : Queue) (n : nat) (fl : option bytes) (w : bytes)
    (acc : list QueuedMessage) (sg : bool) (items : list QueuedMessage) : Prop := MkOutInv {
  oi_queue : holds OUTBOUND_Q_LOG q items;
  oi_queued : Forall well_queued items;
  oi_stream : w ++ default [] fl ++ stream items = stream acc;
  oi_progress : c.(write_in_progress_) = bool_decide (fl ≠ None);
  oi_batch data : fl = Some data →
    data = drop c.(out_batch_sent_) c.(out_batch_) ∧ data ≠ [];
  oi_pending : c.(write_wakeup_pending_) = true → (0 < n)%nat;
  oi_wakeup : items ≠ [] → fl ≠ None ∨ (0 < n)%nat ∨ sg = true
}.

(** Before a drain, only what it relies on. *)
Lemma drain_ok c q n fl w acc sg items :
  holds OUTBOUND_Q_LOG q items → Forall well_queued items →
  w ++ default [] fl ++ stream items = stream acc →
  c.(write_in_progress_) = bool_decide (fl ≠ None) →
  (∀ data, fl = Some data → data = drop c.(out_batch_sent_) c.(out_batch_) ∧ data ≠ []) →
  ∃ c' q' effs n' fl' taken items', drain_writes_ c q = Done (c', q', effs) ∧
    foldl absorb (n, fl) effs = (n', fl') ∧ out_inv c' q' n' fl' w acc sg items' ∧
    items = taken ++ items' ∧ default [] fl' = default [] fl ++ stream taken ∧ c'.(id_) = c.(id_).
Proof.
  intros HQ Hw Hs Hp Hb. unfold drain_writes_. cbn [write_in_progress_ set_out]. rewrite Hp.
  destruct fl as [data|].
  { rewrite bool_decide_true by done. eexists _, _, _, _, _, [], items. split; [reflexivity|].
    split; [reflexivity|]. split; [split; cbn; try done; by left|]. cbn. by rewrite app_nil_r. }
  rewrite bool_decide_false by (intros []; done). cbn [default] in Hs.
  destruct (drain_loop_ok OUT_BATCH_SIZE [] q items HQ Hw) as (k & q' & -> & HQ' & _ & Hne);
    [cbn; lia | cbn; lia |]. cbn [mbind outcome_bind app].
  assert (Forall well_queued (drop k items)) as Hw' by (by apply Forall_drop).
  destruct (length (stream (take k items)) =? 0)%nat eqn:E.
  - apply Nat.eqb_eq, nil_length_inv in E.
    assert (items = []) as -> by (destruct items; [done|]; by destruct (Hne eq_refl)).
    rewrite drop_nil, take_nil in *. eexists _, _, _, _, _, [], []. split; [reflexivity|].
    split; [reflexivity|]. by split.
  - apply Nat.eqb_neq in E. cbn [start_write_]. eexists _, _, _, _, _, (take k items), (drop k items).
    split; [reflexivity|]. split; [reflexivity|].
    split; [|split; [by rewrite take_drop | done]]. split; cbn; try done.
    + rewrite drop_0, <- stream_app, take_drop. done.
    + intros data [= <-]. rewrite drop_0. split; [done|]. intros Hn. by rewrite Hn in E.
    + left. done.
Qed.

Lemma queued_well id type payload :
  (length payload <= MAX_PAYLOAD_SIZE_BUFFER)%nat → well_queued (queued id type payload).
Proof. intros H. split; [exact H|]. cbn [queued msg_size msg_payload]. rewrite length_app. lia. Qed.

Lemma push_inv c q n fl w acc items type payload pushed q' :
  out_inv c q n fl w acc false items → push_message c q type payload = Done (pushed, q') →
  let m := queued c.(id_) type (take (payload_size_for_type (MessageType_of_u8 type)) payload) in
  out_inv c q' n fl w (if pushed then acc ++ [m] else acc) pushed (if pushed then items ++ [m] else items).
Proof.
  intros [HQ Hw Hs Hp Hb Hpend Hwake] E0 m. revert E0. unfold push_message.
  set (size := payload_size_for_type _). destruct (MAX_PAYLOAD_SIZE_BUFFER <? size)%nat eqn:E1.
  { intros [= <- <-]. by split. }
  destruct (length payload <? size)%nat eqn:E2; [done|]. apply Nat.ltb_ge in E1, E2.
  intros E. change (queued _ _ (take size payload)) with m in E. destruct (try_push_ok _ outbound_log q items m HQ) as (q1 & E3 & HQ1).
  rewrite E in E3. injection E3 as -> ->.
  destruct (bool_decide (Z.of_nat (length items) < _)); [|by split].
  split; try done.
  - apply Forall_app. split; [done|]. constructor; [|constructor].
    apply queued_well. rewrite length_take. lia.
  - rewrite !stream_app, <- Hs. by rewrite !app_assoc.
  - auto.
Qed.

Lemma schedule_inv c q n fl w acc items c' effs n' fl' :
  out_inv c q n fl w acc true items →
  schedule_drain_writes_ c = (c', effs) → foldl absorb (n, fl) effs = (n', fl') →
  out_inv c' q n' fl' w acc false items.
Proof.
  intros [HQ Hw Hs Hp Hb Hpend Hwake]. unfold schedule_drain_writes_.
  destruct (write_wakeup_pending_ c) eqn:E; intros [= <- <-] [= <- <-].
  - specialize (Hpend eq_refl). split; try done. intros _. right. by left.
  - split; try done; cbn; [lia|]. intros _. right. left. lia.
Qed.

Lemma wrote_ok c q n data w acc sg items k :
  out_inv c q n (Some data) w acc sg items → (0 < k <= length data)%nat →
  ∃ c' q' effs n' fl' taken items', handle_write_ c q (Some k) = Done (c', q', effs) ∧
    foldl absorb (n, None) effs = (n', fl') ∧ out_inv c' q' n' fl' (w ++ take k data) acc sg items' ∧
    items = taken ++ items' ∧ default [] fl' = drop k data ++ stream taken ∧ c'.(id_) = c.(id_).
Proof.
  intros [HQ Hw Hs Hp Hb Hpend Hwake] Hk. destruct (Hb data eq_refl) as [Hdata Hne].
  unfold handle_write_. cbn [out_batch_ set_out].
  assert (length data = length (out_batch_ c) - out_batch_sent_ c)%nat as Hl
    by (rewrite Hdata, length_drop; done).
  assert (∀ rest, w ++ data ++ rest = stream acc → (w ++ take k data) ++ drop k data ++ rest = stream acc)
    as Hcut by (intros rest <-; by rewrite <- !app_assoc, (app_assoc (take k data)), take_drop).
  destruct (out_batch_sent_ c + k <? length (out_batch_ c))%nat eqn:E.
  - apply Nat.ltb_lt in E. cbn [start_write_]. eexists _, _, _, _, _, [], items.
    split; [reflexivity|]. split; [reflexivity|]. cbn [out_batch_sent_ out_batch_ set_out].
    assert (drop (out_batch_sent_ c + k) (out_batch_ c) = drop k data) as Hd
      by (rewrite Hdata, drop_drop; f_equal; lia).
    split; [|split; [done|]; split; [by rewrite app_nil_r|done]].
    split; cbn; try done; [rewrite Hd; by apply Hcut | | by left].
    intros d [= <-]. split; [done|]. rewrite Hd. intros Hn. apply (f_equal length) in Hn.
    rewrite length_drop in Hn. cbn in Hn. lia.
  - apply Nat.ltb_ge in E. assert (k = length data) as -> by lia.
    rewrite firstn_all in Hcut |- *. rewrite drop_all in Hcut |- *. specialize (Hcut (stream items) Hs).
    cbn [app] in Hcut. rewrite (peek_ok _ outbound_log _ _ HQ). run_bind.
    destruct items as [|m items]; cbn [head];
      [|by apply (drain_ok (set_out c _ _ _ _) q n None (w ++ data) acc sg (m :: items))].
    destruct (write_wakeup_pending_ _) eqn:Ew; [by apply (drain_ok (set_out c _ _ _ _) q n None (w ++ data) acc sg [])|].
    eexists _, _, _, _, _, [], []. split; [reflexivity|]. split; [reflexivity|]. by split.
Qed.

Definition system_inv (s : System) (items : list QueuedMessage) : Prop :=
  out_inv s.(conn) s.(outbox) s.(tasks) s.(inflight) s.(wire) s.(accepted) s.(sending) items.

Lemma io_step_inv s s' items : system_inv s items → io_step s s' → ∃ items', system_inv s' items'.
Proof.
  intros HI Hstep. destruct Hstep as [c q n fl w acc sg c' q' effs n' fl' E A
    | c q n data w acc sg k c' q' effs n' fl' Hk E A]; unfold system_inv in *;
    cbn [conn outbox tasks inflight wire accepted sending] in *.
  - destruct HI as [HQ Hw Hs Hp Hb _ _].
    destruct (drain_ok c q n fl w acc sg items) as (c4 & q4 & e4 & n4 & f4 & tk & it & E4 & A4 & HI & _); try done.
    rewrite E in E4. injection E4 as <- <- <-. rewrite A in A4. injection A4 as <- <-. eauto.
  - destruct (wrote_ok c q n data w acc sg items k HI Hk) as (c4 & q4 & e4 & n4 & f4 & tk & it & E4 & A4 & HI' & _).
    rewrite E in E4. injection E4 as <- <- <-. rewrite A in A4. injection A4 as <- <-. eauto.
Qed.

Lemma write_step_inv s s' items :
  system_inv s items → write_step s s' → ∃ items', system_inv s' items'.
Proof.
  intros HI Hstep. destruct Hstep as [c q n fl w acc type payload pushed q' E
    | c q n fl w acc c' effs n' fl' E A | s s' Hio]; [..|by eapply io_step_inv];
    unfold system_inv in *; cbn in *.
  - eexists. by eapply push_inv.
  - exists items. by eapply schedule_inv.
Qed.

Lemma write_reachable_inv id hooks zero s :
  write_reachable id hooks zero s → ∃ items, system_inv s items.
Proof.
  induction 1 as [|s s' _ [items IH] Hstep]; [|by eapply write_step_inv].
  exists []. split; cbn; try done. apply new_queue_holds. apply outbound_log.
Qed.

(** ** Progress *)

(** The I/O side never posts a drain itself. *)
Lemma drain_posts_nothing c q c' q' effs n fl n' fl' :
  drain_writes_ c q = Done (c', q', effs) → foldl absorb (n, fl) effs = (n', fl') → n' = n.
Proof.
  unfold drain_writes_. cbn [write_in_progress_ set_out].
  destruct (write_in_progress_ c); [by intros [= <- <- <-] [= <- <-]|].
  destruct (drain_loop _ _ _) as [[batch q1]| |]; run_bind; [|done|done].
  destruct (length batch =? 0)%nat; by intros [= <- <- <-] [= <- <-].
Qed.

Lemma write_posts_nothing c q k c' q' effs n fl n' fl' :
  handle_write_ c q (Some k) = Done (c', q', effs) → foldl absorb (n, fl) effs = (n', fl') → n' = n.
Proof.
  unfold handle_write_. cbn [out_batch_ set_out].
  destruct (_ <? _)%nat; [by intros [= <- <- <-] [= <- <-]|].
  destruct (peek _ _) as [[m|]| |]; run_bind; [apply drain_posts_nothing | | done | done].
  destruct (write_wakeup_pending_ _); [apply drain_posts_nothing | by intros [= <- <- <-] [= <- <-]].
Qed.

(** What the I/O side has left to do: drains to run and bytes to write. *)
Definition backlog (s : System) : nat :=
  s.(tasks) + (length (stream s.(accepted)) - length s.(wire)).

Lemma wire_bound s items :
  system_inv s items →
  length (stream s.(accepted)) =
    (length s.(wire) + length (default [] s.(inflight)) + length (stream items))%nat.
Proof. intros [_ _ Hs _ _ _ _]. rewrite <- Hs, !length_app. lia. Qed.

Lemma io_step_backlog s s' items : system_inv s items → io_step s s' → (backlog s' < backlog s)%nat.
Proof.
  intros HI Hstep. pose proof (wire_bound s items HI) as Hb. unfold backlog.
  destruct Hstep as [c q n fl w acc sg c' q' effs n' fl' E A
    | c q n data w acc sg k c' q' effs n' fl' Hk E A]; cbn in *.
  - rewrite (drain_posts_nothing _ _ _ _ _ _ _ _ _ E A). lia.
  - rewrite (write_posts_nothing _ _ _ _ _ _ _ _ _ _ E A), length_app, length_take. lia.
Qed.

(** A drain can always run, and a write can always complete. *)
Lemma io_enabled s items :
  system_inv s items → s.(inflight) ≠ None ∨ (0 < s.(tasks))%nat → ∃ s', io_step s s'.
Proof.
  destruct s as [c q n fl w acc sg]. intros HI Hw. unfold system_inv in HI. cbn in *.
  destruct n as [|n].
  - destruct Hw as [Hw|Hw]; [|lia]. destruct fl as [data|]; [|done].
    assert (0 < length data)%nat as Hl
      by (destruct (oi_batch _ _ _ _ _ _ _ _ HI data eq_refl), data; [done | cbn; lia]).
    destruct (wrote_ok c q _ data w acc sg items (length data) HI) as (c' & q' & e' & n' & f' & tk & it & E & A & _);
      [lia|]. eexists. by eapply (socket_wrote _ _ _ _ _ _ _ (length data)).
  - destruct HI as [HQ Hq Hs Hp Hb _ _].
    destruct (drain_ok c q n fl w acc sg items) as (c' & q' & effs & n' & fl' & tk & it & E & A & _); try done.
    eexists. by eapply strand_drain.
Qed.

(** Nothing is left to do: no write in flight, no drain posted, no send half done. *)
Definition quiet (s : System) : Prop := s.(inflight) = None ∧ s.(tasks) = 0%nat ∧ s.(sending) = false.

Lemma quiet_wire s items : system_inv s items → quiet s → s.(wire) = stream s.(accepted).
Proof.
  intros [HQ Hw Hs Hp Hb Hpend Hwake] (Hfl & Hn & Hsg). rewrite <- Hs, Hfl. cbn.
  destruct items as [|m items]; [by rewrite app_nil_r|].
  destruct Hwake as [?|[?|?]]; [done | congruence | lia | congruence].
Qed.

(** *** Sending a list of messages and waiting *)

(** A message as [send_message] queues it. *)
Definition as_queued (id : Id_t) (m : Message_t * bytes) : QueuedMessage :=
  queued id m.1 (take (payload_size_for_type (MessageType_of_u8 m.1)) m.2).

(** The payload covers what is read of it, and what is read fits the queue. *)
Definition queueable (m : Message_t * bytes) : Prop :=
  (payload_size_for_type (MessageType_of_u8 m.1) <= MAX_PAYLOAD_SIZE_BUFFER)%nat ∧
  (payload_size_for_type (MessageType_of_u8 m.1) <= length m.2)%nat.

Lemma push_queueable c q items m :
  holds OUTBOUND_Q_LOG q items → queueable m → Z.of_nat (length items) < CapacityPow2 OUTBOUND_Q_LOG →
  ∃ q', push_message c q m.1 m.2 = Done (true, q') ∧ holds OUTBOUND_Q_LOG q' (items ++ [as_queued c.(id_) m]).
Proof.
  intros HQ [H1 H2] Hl. unfold push_message.
  rewrite (proj2 (Nat.ltb_ge _ _) H1), (proj2 (Nat.ltb_ge _ _) H2).
  destruct (try_push_ok _ outbound_log q items (as_queued c.(id_) m) HQ) as (q' & E & HQ').
  rewrite bool_decide_true in E, HQ' by done. by exists q'.
Qed.

(** All messages are pushed before the strand runs. *)
Lemma push_all id hooks zero ms :
  Forall queueable ms → Z.of_nat (length ms) <= CapacityPow2 OUTBOUND_Q_LOG →
  ∃ s, write_reachable id hooks zero s ∧ s.(accepted) = map (as_queued id) ms ∧
    holds OUTBOUND_Q_LOG s.(outbox) (map (as_queued id) ms) ∧ s.(conn).(id_) = id ∧ s.(sending) = false.
Proof.
  induction ms as [|m ms IH] using rev_ind.
  { intros _ _. exists (initial_system id hooks zero). split; [apply wr_init|].
    split; [done|]. split; [apply new_queue_holds, outbound_log | done]. }
  intros [Hms [Hm _]%Forall_cons]%Forall_app Hl. rewrite length_app in Hl. cbn in Hl.
  destruct IH as ([c q n fl w acc sg] & HR & Ha & HQ & Hid & Hsg); [done | lia|]. cbn in Ha, HQ, Hid, Hsg. subst sg acc.
  destruct (push_queueable c q _ m HQ Hm) as (q' & E & HQ'); [rewrite length_map; lia|]. rewrite Hid in HQ'.
  destruct (schedule_drain_writes_ c) as [c' effs] eqn:Es, (foldl absorb (n, fl) effs) as [n' fl'] eqn:Ef.
  eexists. split; [eapply wr_step; [eapply wr_step; [exact HR | eapply engine_push, E] | eapply engine_schedule; [exact Es | exact Ef]]|].
  cbn. rewrite map_app, Hid. split; [done|]. split; [done|]. split; [|done].
  unfold schedule_drain_writes_ in Es. destruct (write_wakeup_pending_ c); by injection Es as <- _.
Qed.

(** From any reachable state the strand and the socket come to rest. *)
Lemma comes_to_rest id hooks zero s :
  write_reachable id hooks zero s → s.(sending) = false →
  ∃ s', write_reachable id hooks zero s' ∧ quiet s' ∧ s'.(accepted) = s.(accepted).
Proof.
  remember (backlog s) as n eqn:Hn. revert s Hn. induction n as [n IH] using lt_wf_ind. intros s Hn HR Hsg.
  destruct (decide (s.(inflight) = None ∧ s.(tasks) = 0%nat)) as [[Hf Ht]|Hne]; [by exists s|].
  destruct (write_reachable_inv _ _ _ _ HR) as [items HI].
  destruct (io_enabled s items HI) as [s1 Hstep].
  { destruct (decide (s.(inflight) = None)); [right | by left].
    destruct s.(tasks) eqn:E; [by destruct Hne | lia]. }
  destruct (IH (backlog s1)) with s1 as (s' & HR' & HQ & Ha).
  - rewrite Hn. by eapply io_step_backlog.
  - done.
  - eapply wr_step; [exact HR | by apply io_thread].
  - by destruct Hstep.
  - exists s'. split; [done|]. split; [done|]. rewrite Ha. by destruct Hstep.
Qed.

Lemma all_written id hooks zero ms :
  Forall queueable ms → Z.of_nat (length ms) <= CapacityPow2 OUTBOUND_Q_LOG →
  ∃ s, write_reachable id hooks zero s ∧ quiet s ∧ s.(accepted) = map (as_queued id) ms.
Proof.
  intros Hms Hl. destruct (push_all id hooks zero ms Hms Hl) as (s & HR & Ha & _ & _ & Hsg).
  destruct (comes_to_rest _ _ _ _ HR Hsg) as (s' & HR' & HQ & Ha'). exists s'. by rewrite Ha'.
Qed.

(** ** Guarantees *)

(** C20: in every interleaving of the engine's sends with the drains and write
    completions of a working socket, the bytes on the wire followed by the write
    in flight are a prefix of the frames of the accepted messages in order, and
    once no write is in flight, no drain is posted and no send is half done, all
    of them are on the wire: no message is lost for want of a wake-up. *)
Theorem output_stream id hooks zero s :
  write_reachable id hooks zero s →
  (∃ rest, stream s.(accepted) = s.(wire) ++ default [] s.(inflight) ++ rest) ∧
  (s.(inflight) = None → s.(tasks) = 0%nat → s.(sending) = false → s.(wire) = stream s.(accepted)).
Proof.
  intros HR. apply write_reachable_inv in HR as [items HI].
  split; [exists (stream items); symmetry; apply (oi_stream _ _ _ _ _ _ _ _ HI)|].
  intros Hfl Hn Hsg. by apply (quiet_wire s items).
Qed.

(** The I/O side is never stuck with output to send, and finishes: a write in
    flight can complete and a posted drain can run without undefined behaviour,
    and without further sends there are at most [backlog] such steps, posted
    drains and unwritten bytes. *)
Theorem output_drains id hooks zero s :
  write_reachable id hooks zero s →
  (s.(inflight) ≠ None ∨ (0 < s.(tasks))%nat → ∃ s', io_step s s') ∧
  (∀ k s', nsteps io_step k s s' → (k <= backlog s)%nat).
Proof.
  intros HR. apply write_reachable_inv in HR as [items HI]. split; [by eapply io_enabled|].
  intros k s' Hk. revert items HI. induction Hk as [|k s s1 s' Hstep Hk IH]; intros items HI; [lia|].
  destruct (io_step_inv _ _ _ HI Hstep) as [items1 HI1]. specialize (IH _ HI1).
  pose proof (io_step_backlog _ _ _ HI Hstep). lia.
Qed.

(** A 4-byte payload sent over an idle connection: queued, scheduled, drained,
    and written in two parts. *)
Lemma output_stream_witness :
  ∃ s, write_reachable 7 (MkHooks false false false) (queued 0 0 []) s ∧
    s.(wire) = [2; 0; 4; 9; 8; 7; 6] ∧ s.(wire) = stream s.(accepted).
Proof.
  eassert (write_reachable 7 (MkHooks false false false) (queued 0 0 []) _) as HR.
  { eapply wr_step; [eapply wr_step; [eapply wr_step; [eapply wr_step; [eapply wr_step;
      [apply wr_init|]|]|]|]|].
    - eapply (engine_push _ _ _ _ _ _ 2 [9; 8; 7; 6]). vm_compute. reflexivity.
    - eapply engine_schedule; reflexivity.
    - apply io_thread. eapply strand_drain; [vm_compute; reflexivity | reflexivity].
    - apply io_thread. eapply (socket_wrote _ _ _ _ _ _ _ 3); [cbn; lia | vm_compute; reflexivity | reflexivity].
    - apply io_thread. eapply (socket_wrote _ _ _ _ _ _ _ 4); [cbn; lia | vm_compute; reflexivity | reflexivity]. }
  eexists. split; [exact HR|]. split; [reflexivity|].
  apply (output_stream _ _ _ _ HR); reflexivity.
Defined.

(** With the payload drained and in flight, at most its 7 bytes' steps remain. *)
Lemma output_drains_witness :
  ∃ s, write_reachable 7 (MkHooks false false false) (queued 0 0 []) s ∧
    s.(inflight) = Some [2; 0; 4; 9; 8; 7; 6] ∧ (∃ s', io_step s s') ∧
    ∀ k s', nsteps io_step k s s' → (k <= 7)%nat.
Proof.
  eassert (write_reachable 7 (MkHooks false false false) (queued 0 0 []) _) as HR.
  { eapply wr_step; [eapply wr_step; [eapply wr_step; [apply wr_init|]|]|].
    - eapply (engine_push _ _ _ _ _ _ 2 [9; 8; 7; 6]). vm_compute. reflexivity.
    - eapply engine_schedule; reflexivity.
    - apply io_thread. eapply strand_drain; [vm_compute; reflexivity | reflexivity]. }
  eexists. split; [exact HR|]. split; [reflexivity|].
  destruct (output_drains _ _ _ _ HR) as [Hs Hn]. split; [by apply Hs; left|].
  intros k s' Hk. by apply Hn in Hk.
Defined.
