(* ===== verification/ConnectionBytes.v ===== *)
(** The bytes between two connections: what one end writes of the messages it
    accepts is what the other end parses. *)

From S2P Require Import Prelude Types Codec Payloads Protocol SpscQueue Connection ConnectionRead ConnectionWrite.
Import Connection.

(** A message that [send_message] can queue, with the type in one byte. *)
Definition sendable (m : Message) : Prop := is_byte m.1 ∧ queueable m.

(** What [parse_accumulator_] finds of a message. *)
Definition on_wire (m : Message) : Message := (m.1, take (payload_size_for_type (MessageType_of_u8 m.1)) m.2).

Lemma queued_frame_wire id m : queued_frame (as_queued id m) = frame (on_wire m).1 (on_wire m).2.
Proof.
  unfold queued_frame, as_queued, on_wire, queued. cbn [msg_size msg_payload message_type fst snd].
  by rewrite take_app_length.
Qed.

Lemma on_wire_length m : sendable m → length (on_wire m).2 = payload_size_for_type (MessageType_of_u8 m.1).
Proof. intros (_ & _ & H). cbn. rewrite length_take. lia. Qed.

Lemma stream_frames id ms :
  Forall sendable ms → frames (stream (map (as_queued id) ms)) = (map on_wire ms, []).
Proof.
  intros H. rewrite <- (app_nil_r (stream _)). unfold stream. rewrite map_map.
  rewrite (map_ext _ (λ m, (λ f, frame f.1 f.2) (on_wire m))) by apply queued_frame_wire.
  rewrite <- (map_map on_wire (λ f, frame f.1 f.2)), frames_of_frames; [cbn; by rewrite app_nil_r|].
  apply Forall_map. eapply Forall_impl; [exact H|]. intros m Hm. rewrite on_wire_length by done.
  destruct Hm as [Hb [Hs _]]. split; [|done]. revert Hs. set (n := payload_size_for_type _).
  change MAX_PAYLOAD_SIZE_BUFFER with 46%nat. lia.
Qed.
