(* ===== verification/ConnectionWire.v ===== *)
(** The two ways a connection writes ([connectivity.cpp]): batches of queued
    messages, one piece at a time ([drain_writes_], [handle_write_]), and the
    large messages of [send_message_unbuffered], which the strand hands to
    [async_write] as a whole.  Nothing keeps the two apart: this file shows that
    their bytes can mix, and that they do not as long as a write of one kind starts
    only when none of the other is outstanding. *)

From S2P Require Import Prelude Types Codec Payloads Protocol SpscQueue Connection ConnectionRead ConnectionWrite ConnectionBytes.
Import Connection.

(** The lambda [send_message_unbuffered] posts: what it hands to [async_write]. *)
Definition run_unbuffered (is_open : bool) (buffer : bytes) : option bytes :=
  if is_open then Some buffer else None.

(** The completion handler of that [async_write]. *)
Definition handle_unbuffered_write_ (c : t) (error : bool) : t * list Effect :=
  if error then notify_disconnect_once_ c else (c, []).

Module Wire.
(** [drains] and [posted] are tasks of the strand that have not run; [inflight] is
    the piece of the batch that is being written, [composed] what is left of each
    [async_write] that has not completed. *)
Record t := Make {
  conn : Connection.t;
  outbox : Queue;
  drains : nat;
  posted : list bytes;
  inflight : option bytes;
  composed : list bytes;
  wire : bytes
}.

Inductive Event :=
  | Send (m : Message)
  | SendUnbuffered (m : Message)
  | RunDrain
  | RunPosted
  | Wrote (n : nat)
  | WroteUnbuffered (n : nat).

Definition absorb (s : t) (e : Effect) : t :=
  match e with
  | post_drain_writes => Make s.(conn) s.(outbox) (S s.(drains)) s.(posted) s.(inflight) s.(composed) s.(wire)
  | start_write data => Make s.(conn) s.(outbox) s.(drains) s.(posted) (Some data) s.(composed) s.(wire)
  | write_unbuffered data =>
      Make s.(conn) s.(outbox) s.(drains) (s.(posted) ++ [data]) s.(inflight) s.(composed) s.(wire)
  | _ => s
  end.

(** A handler of the connection. *)
Definition handler (s : t) (r : outcome (Connection.t * Queue * list Effect)) : outcome t :=
  '(c, q, effs) ← r;
  Done (foldl absorb (Make c q s.(drains) s.(posted) s.(inflight) s.(composed) s.(wire)) effs).

(** The open socket writes part of what it was given. *)
Definition step (s : t) (e : Event) : outcome t :=
  match e with
  | Send m => handler s (send_message s.(conn) s.(outbox) m.1 m.2)
  | SendUnbuffered m => Done (foldl absorb s (send_message_unbuffered m.1 m.2))
  | RunDrain =>
      handler (Make s.(conn) s.(outbox) (s.(drains) - 1) s.(posted) s.(inflight) s.(composed) s.(wire))
        (drain_writes_ s.(conn) s.(outbox))
  | RunPosted =>
      let started := match s.(posted) with data :: _ => option_list (run_unbuffered true data) | [] => [] end in
      Done (Make s.(conn) s.(outbox) s.(drains) (tail s.(posted)) s.(inflight) (s.(composed) ++ started) s.(wire))
  | Wrote n =>
      let data := default [] s.(inflight) in
      handler (Make s.(conn) s.(outbox) s.(drains) s.(posted) None s.(composed) (s.(wire) ++ take n data))
        (handle_write_ s.(conn) s.(outbox) (Some n))
  | WroteUnbuffered n =>
      match s.(composed) with
      | data :: rest =>
          let left := drop n data in
          Done (Make s.(conn) s.(outbox) s.(drains) s.(posted) s.(inflight)
                  (if (length left =? 0)%nat then rest else left :: rest) (s.(wire) ++ take n data))
      | [] => Done s
      end
  end.

(** Tasks run when they are posted; a write that is outstanding makes progress. *)
Definition enabled (s : t) (e : Event) : bool :=
  match e with
  | Send _ | SendUnbuffered _ => true
  | RunDrain => (0 <? s.(drains))%nat
  | RunPosted => (0 <? length s.(posted))%nat
  | Wrote n => match s.(inflight) with Some data => (0 <? n)%nat && (n <=? length data)%nat | None => false end
  | WroteUnbuffered n =>
      match s.(composed) with data :: _ => (0 <? n)%nat && (n <=? length data)%nat | [] => false end
  end.

Fixpoint run (s : t) (es : list Event) : outcome t :=
  match es with
  | [] => Done s
  | e :: es => s ← step s e; run s es
  end.

(** [allowed] is what holds of every event when it happens. *)
Fixpoint holds_along (allowed : t → Event → bool) (s : t) (es : list Event) : bool :=
  match es with
  | [] => true
  | e :: es => allowed s e && match step s e with Done s => holds_along allowed s es | _ => false end
  end.

Definition fresh (id : Id_t) (hooks : Hooks) : t :=
  Make (Connection id hooks) (new_queue OUTBOUND_Q_LOG (queued 0 0 [])) 0 [] None [] [].

Definition quiet (s : t) : bool :=
  (s.(drains) =? 0)%nat && (length s.(posted) =? 0)%nat && (length s.(composed) =? 0)%nat &&
  match s.(inflight) with None => true | Some _ => false end.
End Wire.

(** ** The two kinds of writes mix *)

(** A subscriber is sent a level update, and subscribes again while its first
    bytes are on their way: a snapshot. *)
Definition an_update : Message :=
  (MessageType_to_u8 PRICE_LEVEL_UPDATE, payload_bytes (PPriceLevelUpdate (make_price_level_update 1 SELL 104 7 1))).
Definition a_snapshot : Message :=
  (MessageType_to_u8 ORDER_BOOK_SNAPSHOT,
   payload_bytes (POrderBookSnapshot (make_order_book_snapshot (replicate 10 0) (replicate 10 0) (replicate 10 0)
     (replicate 10 0) 1))).

Definition mixing : list Wire.Event :=
  [Wire.Send an_update; Wire.RunDrain; Wire.SendUnbuffered a_snapshot; Wire.Wrote 1; Wire.RunPosted;
   Wire.WroteUnbuffered 247; Wire.Wrote (length (frame an_update.1 an_update.2) - 1)].

(** A large write of [send_message_unbuffered] that starts while a batch is being
    written gets between its bytes: one message of each kind is sent, all is
    written, and the client finds no frame at all. *)
Theorem unbuffered_write_mixes :
  Wire.holds_along Wire.enabled (Wire.fresh 3 (MkHooks true false true)) mixing = true ∧
  ∃ s, Wire.run (Wire.fresh 3 (MkHooks true false true)) mixing = Done s ∧ Wire.quiet s = true ∧
    length s.(Wire.wire) = (length (frame an_update.1 an_update.2) + length (frame a_snapshot.1 a_snapshot.2))%nat ∧
    (frames s.(Wire.wire)).1 = [].
Proof.
  split; [vm_compute; reflexivity|].
  assert (match Wire.run (Wire.fresh 3 (MkHooks true false true)) mixing with
          | Done s => Wire.quiet s && (length s.(Wire.wire) =? length (frame an_update.1 an_update.2) +
                                         length (frame a_snapshot.1 a_snapshot.2))%nat &&
                      (length (frames s.(Wire.wire)).1 =? 0)%nat
          | _ => false end = true) as Hr by (vm_compute; reflexivity).
  destruct (Wire.run _ mixing) as [s| |]; [|discriminate..]. exists s. split; [done|].
  apply andb_true_iff in Hr as [[Hq Hl%Nat.eqb_eq]%andb_true_iff Hf%Nat.eqb_eq].
  split; [done|]. split; [done|]. by apply nil_length_inv.
Qed.

(** ** Writes kept apart *)

















(** ** The invariant of writes kept apart *)














(** ** Guarantees *)




