(* ===== verification/Exchange.v ===== *)
(** [exchange.hpp] / [exchange.cpp]: what the exchange does with a message of a
    client and with the callbacks of its order book.

    A [Connection*] is the id of the connection it points to, which is the key
    of the [ClientState] that owns it.  A handler returns the calls it makes on
    connections and on the event logger, in order; [perform] executes a call on
    the connection it names, and is undefined when that connection no longer
    exists.  The calls change only the connections and their outboxes, which the
    handlers do not read, so they are executed after the handler. *)

From S2P Require Import Prelude Types OrderBook Codec Payloads Protocol SpscQueue Connection.

Definition MAX_CONNECTIONS : Z := Z.shiftl 1 5.

Inductive Call :=
  | call_send_message (c : Id_t) (message_type : Message_t) (payload : bytes)
  | call_send_message_unbuffered (c : Id_t) (message_type : Message_t) (payload : bytes)
  | call_log_message (type : MessageType) (payload : bytes)
  | post_erase_client (connection_id : Id_t)
  | post_engine_drain.

Module Exchange.
Record ClientState := MkClientState {
  outbox : Queue;
  conn : Connection.t
}.

Record t := Make {
  clients_ : gmap Id_t ClientState;
  conn_by_id_ : array (option Id_t);
  inbox_ : Queue;
  market_data_subscribers_ : list Id_t;
  order_book_ : OrderBook.OrderBook.t;
  next_connection_id_ : Id_t;
  trade_id_ : Id_t;
  sequence_number_ : Id_t;
  running_ : bool;
  engine_drain_scheduled_ : bool
}.

Definition no_message : QueuedMessage := queued 0 0 [].

(** The constructor. *)
Definition Exchange : t :=
  Make ∅ (arr_make MAX_CONNECTIONS (λ _, None)) (new_queue INBOUND_Q_LOG no_message) []
    OrderBook.OrderBook.OrderBook 0 0 0 false false.

(** Setters for the members a handler writes. *)
Definition set_clients (x : t) (clients : gmap Id_t ClientState) (conns : array (option Id_t))
    (subscribers : list Id_t) (next : Id_t) : t :=
  Make clients conns x.(inbox_) subscribers x.(order_book_) next x.(trade_id_) x.(sequence_number_)
    x.(running_) x.(engine_drain_scheduled_).
Definition set_subscribers (x : t) (subscribers : list Id_t) : t :=
  set_clients x x.(clients_) x.(conn_by_id_) subscribers x.(next_connection_id_).
Definition set_book (x : t) (book : OrderBook.OrderBook.t) (trade_id sequence_number : Id_t) : t :=
  Make x.(clients_) x.(conn_by_id_) x.(inbox_) x.(market_data_subscribers_) book
    x.(next_connection_id_) trade_id sequence_number x.(running_) x.(engine_drain_scheduled_).
Definition set_engine (x : t) (inbox : Queue) (running scheduled : bool) : t :=
  Make x.(clients_) x.(conn_by_id_) inbox x.(market_data_subscribers_) x.(order_book_)
    x.(next_connection_id_) x.(trade_id_) x.(sequence_number_) running scheduled.

(** ** Sending *)

(** Ids are converted to [size_t] to be compared and used as indexes. *)
Definition conn_ptr_ (x : t) (id : Id_t) : outcome (option Id_t) :=
  if MAX_CONNECTIONS <=? u64 id then Done None else arr_get x.(conn_by_id_) (u64 id).

(** [&payload] is the object whose bytes [payload_bytes] gives. *)
Definition send_to_ (x : t) (client_id : Id_t) (type : MessageType) (payload : Payload)
    : outcome (list Call) :=
  c ← conn_ptr_ x client_id;
  match c with
  | Some c => Done [call_send_message c (MessageType_to_u8 type) (payload_bytes payload)]
  | None => Done []
  end.

(** [for (Id_t cid : market_data_subscribers_)] of [broadcast_to_subscribers_] *)
Fixpoint broadcast_loop (x : t) (cids : list Id_t) (type : MessageType) (payload : Payload)
    : outcome (list Call) :=
  match cids with
  | [] => Done []
  | cid :: cids =>
      c ← conn_ptr_ x cid;
      calls ← broadcast_loop x cids type payload;
      match c with
      | Some c => Done (call_send_message c (MessageType_to_u8 type) (payload_bytes payload) :: calls)
      | None => Done calls
      end
  end.

Definition broadcast_to_subscribers_ (x : t) (type : MessageType) (payload : Payload)
    : outcome (list Call) :=
  broadcast_loop x x.(market_data_subscribers_) type payload.

(** Broadcast and log, which every public event ends with. *)
Definition publish (x : t) (type : MessageType) (payload : Payload) : outcome (list Call) :=
  calls ← broadcast_to_subscribers_ x type payload;
  Done (calls ++ [call_log_message type (payload_bytes payload)]).

(** ** Callbacks of the order book *)

Definition next_sequence (x : t) : t :=
  set_book x x.(order_book_) x.(trade_id_) (u32 (x.(sequence_number_) + 1)).
Definition next_trade (x : t) : t :=
  set_book x x.(order_book_) (u32 (x.(trade_id_) + 1)) x.(sequence_number_).

Definition on_trade (x : t) (maker_order : OrderData) (taker_client_id taker_order_id : Id_t)
    (price : Price_t) (taker_total_quantity taker_cumulative_quantity traded_quantity : Volume_t)
    (timestamp : Time_t) : outcome (t * list Call) :=
  let trade_id := x.(trade_id_) in
  let x := next_trade x in
  let sequence_number := x.(sequence_number_) in
  let x := next_sequence x in
  let maker_fill_message :=
    make_partial_fill maker_order.(od_order_id) trade_id price traded_quantity
      maker_order.(od_remaining) maker_order.(od_cumulative) timestamp in
  to_maker ← send_to_ x maker_order.(od_client_id) PARTIAL_FILL_ORDER (PPartialFill maker_fill_message);
  let taker_fill_message :=
    make_partial_fill taker_order_id trade_id price traded_quantity
      (u32 (taker_total_quantity - taker_cumulative_quantity)) taker_cumulative_quantity timestamp in
  to_taker ← send_to_ x taker_client_id PARTIAL_FILL_ORDER (PPartialFill taker_fill_message);
  let trade_message :=
    make_trade_event sequence_number trade_id price traded_quantity
      (if maker_order.(od_is_bid) then SELL else BUY) timestamp in
  public ← publish x TRADE_EVENT (PTradeEvent trade_message);
  Done (x, to_maker ++ to_taker ++ public).

Definition on_order_inserted (x : t) (client_request_id : Id_t) (order : OrderData)
    (timestamp : Time_t) : outcome (t * list Call) :=
  let sequence_number := x.(sequence_number_) in
  let x := next_sequence x in
  let confirmation_message :=
    make_confirm_order_inserted client_request_id order.(od_order_id) (side_of order.(od_is_bid))
      order.(od_price) order.(od_quantity) order.(od_remaining) timestamp in
  to_owner ← send_to_ x order.(od_client_id) CONFIRM_ORDER_INSERTED
               (PConfirmOrderInserted confirmation_message);
  let insert_message :=
    make_order_inserted_event sequence_number order.(od_order_id) (side_of order.(od_is_bid))
      order.(od_price) order.(od_remaining) timestamp in
  public ← publish x ORDER_INSERTED_EVENT (POrderInsertedEvent insert_message);
  Done (x, to_owner ++ public).

Definition on_order_cancelled (x : t) (client_request_id : Id_t) (order : OrderData)
    (timestamp : Time_t) : outcome (t * list Call) :=
  let sequence_number := x.(sequence_number_) in
  let x := next_sequence x in
  let confirmation_message :=
    make_confirm_order_cancelled client_request_id order.(od_order_id) order.(od_remaining)
      order.(od_price) (side_of order.(od_is_bid)) timestamp in
  to_owner ← send_to_ x order.(od_client_id) CONFIRM_ORDER_CANCELLED
               (PConfirmOrderCancelled confirmation_message);
  let cancel_message :=
    make_order_cancelled_event sequence_number order.(od_order_id) order.(od_remaining) timestamp in
  public ← publish x ORDER_CANCELLED_EVENT (POrderCancelledEvent cancel_message);
  Done (x, to_owner ++ public).

Definition on_order_amended (x : t) (client_request_id : Id_t) (quantity_old : Volume_t)
    (order : OrderData) (timestamp : Time_t) : outcome (t * list Call) :=
  let sequence_number := x.(sequence_number_) in
  let x := next_sequence x in
  let confirmation_message :=
    make_confirm_order_amended client_request_id order.(od_order_id) quantity_old
      order.(od_quantity) order.(od_remaining) timestamp in
  to_owner ← send_to_ x order.(od_client_id) CONFIRM_ORDER_AMENDED
               (PConfirmOrderAmended confirmation_message);
  let amended_message :=
    make_order_amended_event sequence_number order.(od_order_id) order.(od_quantity) quantity_old
      timestamp in
  public ← publish x ORDER_AMENDED_EVENT (POrderAmendedEvent amended_message);
  Done (x, to_owner ++ public).

Definition on_level_update (x : t) (side : Side) (level_price : Price_t)
    (level_total_quantity : Volume_t) (timestamp : Time_t) : outcome (t * list Call) :=
  let sequence_number := x.(sequence_number_) in
  let x := next_sequence x in
  let message :=
    make_price_level_update sequence_number side level_price level_total_quantity timestamp in
  public ← publish x PRICE_LEVEL_UPDATE (PPriceLevelUpdate message);
  Done (x, public).

Definition on_error (x : t) (client_id client_request_id : Id_t) (code : ErrorType)
    (message : string) (timestamp : Time_t) : outcome (t * list Call) :=
  let error_message := make_error client_request_id (error_code code) (string_bytes message) timestamp in
  to_client ← send_to_ x client_id ERROR_MSG (PError error_message);
  Done (x, to_client).

(** The virtual call: [callbacks_->on_...]. *)
Definition callback (x : t) (e : Event) : outcome (t * list Call) :=
  match e with
  | OrderBook.on_trade maker client order price total cumulative traded now =>
      on_trade x maker client order price total cumulative traded now
  | OrderBook.on_order_inserted req order now => on_order_inserted x req order now
  | OrderBook.on_order_cancelled req order now => on_order_cancelled x req order now
  | OrderBook.on_order_amended req old order now => on_order_amended x req old order now
  | OrderBook.on_level_update side price total now => on_level_update x side price total now
  | OrderBook.on_error client req code message now => on_error x client req code message now
  end.

Fixpoint callbacks (x : t) (evs : list Event) : outcome (t * list Call) :=
  match evs with
  | [] => Done (x, [])
  | e :: evs =>
      '(x, calls) ← callback x e;
      '(x, calls') ← callbacks x evs;
      Done (x, calls ++ calls')
  end.

(** An operation of the book with the callbacks it makes.  The callbacks do not
    touch the book, so they run after it, in order. *)
Definition with_book (x : t) (result : outcome (OrderBook.OrderBook.t * list Event))
    : outcome (t * list Call) :=
  '(book, evs) ← result;
  callbacks (set_book x book x.(trade_id_) x.(sequence_number_)) evs.

(** ** Messages of the clients *)

(** The elements of a [std::array<T, ORDER_BOOK_MESSAGE_DEPTH>]. *)
Definition elements (a : array Z) : list Z := map (arr_at a) (seqZ 0 ORDER_BOOK_MESSAGE_DEPTH).

Definition subscribe_market_feed_ (x : t) (connection_id : Id_t) : outcome (t * list Call) :=
  let x := set_subscribers x (x.(market_data_subscribers_) ++ [connection_id]) in
  let sequence_number := x.(sequence_number_) in
  '((bid_volumes, bid_prices), (ask_volumes, ask_prices)) ←
    OrderBook.OrderBook.build_snapshot x.(order_book_);
  let snapshot :=
    make_order_book_snapshot (elements ask_prices) (elements ask_volumes) (elements bid_prices)
      (elements bid_volumes) sequence_number in
  c ← conn_ptr_ x connection_id;
  match c with
  | Some c =>
      Done (x, [call_send_message_unbuffered c (MessageType_to_u8 ORDER_BOOK_SNAPSHOT)
                  (payload_bytes (POrderBookSnapshot snapshot))])
  | None => Done (x, [])
  end.

(** Swap the first occurrence of the id with the last element and pop it. *)
Definition unsubscribe_market_feed_ (x : t) (connection_id : Id_t) : t :=
  let subs := x.(market_data_subscribers_) in
  match list_find (λ cid, cid = connection_id) subs with
  | Some (it, _) =>
      set_subscribers x (take (length subs - 1) (<[it := default 0 (last subs)]> subs))
  | None => x
  end.

Definition remove_connection_ (x : t) (connection_id : Id_t) : outcome (t * list Call) :=
  let x := unsubscribe_market_feed_ x connection_id in
  conns ← (if u64 connection_id <? MAX_CONNECTIONS
           then arr_set x.(conn_by_id_) (u64 connection_id) None
           else Done x.(conn_by_id_));
  Done (set_clients x x.(clients_) conns x.(market_data_subscribers_) x.(next_connection_id_),
        [post_erase_client connection_id]).

(** The lambda [remove_connection_] dispatches to the accept strand. *)
Definition erase_client (x : t) (connection_id : Id_t) : t :=
  set_clients x (delete connection_id x.(clients_)) x.(conn_by_id_) x.(market_data_subscribers_)
    x.(next_connection_id_).

(** [dispatch_], with the readings of the clock its operation makes. *)
Definition dispatch_ (x : t) (msg : InboundMessage) (times : Time_t * Time_t * Time_t)
    : outcome (t * list Call) :=
  let '(now, now_match, now_add) := times in
  match MessageType_of_u8 msg.(message_type) with
  | INSERT_ORDER =>
      let m := decode PayloadInsertOrder.layout msg.(msg_payload) in
      with_book x
        (OrderBook.OrderBook.submit_order x.(order_book_) m.(PayloadInsertOrder.price)
           m.(PayloadInsertOrder.quantity) (m.(PayloadInsertOrder.side) =? Side_to_u8 BUY)
           msg.(connection_id) m.(PayloadInsertOrder.client_request_id) now now_match now_add)
  | CANCEL_ORDER =>
      let m := decode PayloadCancelOrder.layout msg.(msg_payload) in
      with_book x
        (OrderBook.OrderBook.cancel_order x.(order_book_) msg.(connection_id)
           m.(PayloadCancelOrder.client_request_id) m.(PayloadCancelOrder.exchange_order_id) now)
  | AMEND_ORDER =>
      let m := decode PayloadAmendOrder.layout msg.(msg_payload) in
      with_book x
        (OrderBook.OrderBook.amend_order x.(order_book_) msg.(connection_id)
           m.(PayloadAmendOrder.client_request_id) m.(PayloadAmendOrder.exchange_order_id)
           m.(PayloadAmendOrder.new_total_quantity) now)
  | SUBSCRIBE => subscribe_market_feed_ x msg.(connection_id)
  | UNSUBSCRIBE => Done (unsubscribe_market_feed_ x msg.(connection_id), [])
  | DISCONNECT => remove_connection_ x msg.(connection_id)
  | _ => Done (x, [])
  end.

(** ** Connections *)

(** [publish_connection_].  A client over the limit is destroyed with its
    parameter; [emplace] keeps a client that is already there. *)
Definition publish_connection_ (x : t) (id : Id_t) (state : ClientState) : outcome t :=
  if MAX_CONNECTIONS <=? u64 id then Done x
  else
    let clients := match x.(clients_) !! id with
                   | Some _ => x.(clients_)
                   | None => <[id := state]> x.(clients_)
                   end in
    conns ← arr_set x.(conn_by_id_) (u64 id) (Some id);
    Done (set_clients x clients conns x.(market_data_subscribers_) x.(next_connection_id_)).

(** [on_accepted_] without an error, up to [publish_connection_]: the new
    client, which is reading from then on. *)
Definition accept_connection (x : t) : t * Id_t * ClientState :=
  let id := x.(next_connection_id_) in
  (set_clients x x.(clients_) x.(conn_by_id_) x.(market_data_subscribers_) (u32 (id + 1)), id,
   MkClientState (new_queue OUTBOUND_Q_LOG no_message)
     (Connection.Connection id (MkHooks true false true))).

Definition on_accepted_ (x : t) : outcome t :=
  let '(x, id, state) := accept_connection x in
  publish_connection_ x id state.

(** [schedule_engine_drain] *)
Definition schedule_engine_drain (x : t) : t * list Call :=
  if x.(engine_drain_scheduled_) then (x, [])
  else (set_engine x x.(inbox_) x.(running_) true, [post_engine_drain]).

(** The two hooks [on_accepted_] installs. *)
Definition hook_disconnected (x : t) (id : Id_t) : outcome (t * list Call) :=
  '(pushed, inbox) ← try_push INBOUND_Q_LOG x.(inbox_) (queued id (MessageType_to_u8 DISCONNECT) []);
  let x := set_engine x inbox x.(running_) x.(engine_drain_scheduled_) in
  if pushed : bool then Done (schedule_engine_drain x) else Done (x, []).

Definition hook_inbound_ready (x : t) : t * list Call :=
  if negb x.(running_) then (x, []) else schedule_engine_drain x.

(** [while (budget-- && inbox_.try_pop(msg)) dispatch_(msg);] *)
Fixpoint drain_messages (budget : nat) (x : t) (clock : nat → Time_t * Time_t * Time_t)
    : outcome (t * list Call) :=
  match budget with
  | O => Done (x, [])
  | S budget =>
      '(msg, inbox) ← try_pop INBOUND_Q_LOG x.(inbox_);
      let x := set_engine x inbox x.(running_) x.(engine_drain_scheduled_) in
      match msg with
      | None => Done (x, [])
      | Some msg =>
          '(x, calls) ← dispatch_ x msg (clock budget);
          '(x, calls') ← drain_messages budget x clock;
          Done (x, calls ++ calls')
      end
  end.

Definition ENGINE_BUDGET : Z := 10000.

(** The lambda [schedule_engine_drain] posts. *)
Definition engine_drain (x : t) (clock : nat → Time_t * Time_t * Time_t) : outcome (t * list Call) :=
  let x := set_engine x x.(inbox_) x.(running_) false in
  '(x, calls) ← drain_messages (Z.to_nat ENGINE_BUDGET) x clock;
  if x.(running_) && negb (size_approx x.(inbox_) =? 0) then
    let '(x, again) := schedule_engine_drain x in
    Done (x, calls ++ again)
  else Done (x, calls).

Definition start (x : t) : t := set_engine x x.(inbox_) true x.(engine_drain_scheduled_).

(** [for (i = 0; i < MAX_CONNECTIONS; ++i) conn_by_id_[i].store(nullptr)] *)
Fixpoint clear_connections (n : nat) (i : Z) (conns : array (option Id_t)) : outcome (array (option Id_t)) :=
  match n with
  | O => Done conns
  | S n => conns ← arr_set conns i None; clear_connections n (i + 1) conns
  end.

Definition stop (x : t) : outcome t :=
  let x := set_engine x x.(inbox_) false x.(engine_drain_scheduled_) in
  conns ← clear_connections (Z.to_nat MAX_CONNECTIONS) 0 x.(conn_by_id_);
  Done (set_clients x ∅ conns [] x.(next_connection_id_)).

(** ** Execution of the calls *)

(** What a call asks of other threads. *)
Inductive Task :=
  | on_connection (c : Id_t) (e : Effect)
  | log (type : MessageType) (payload : bytes)
  | erase_task (connection_id : Id_t)
  | drain_task.

Definition perform (x : t) (call : Call) : outcome (t * list Task) :=
  match call with
  | call_send_message c type payload =>
      client ← deref (x.(clients_) !! c);
      '(conn, outbox, effs) ← Connection.send_message client.(conn) client.(outbox) type payload;
      Done (set_clients x (<[c := MkClientState outbox conn]> x.(clients_)) x.(conn_by_id_)
              x.(market_data_subscribers_) x.(next_connection_id_),
            map (on_connection c) effs)
  | call_send_message_unbuffered c type payload =>
      _ ← deref (x.(clients_) !! c);
      Done (x, map (on_connection c) (Connection.send_message_unbuffered type payload))
  | call_log_message type payload => Done (x, [log type payload])
  | post_erase_client id => Done (x, [erase_task id])
  | post_engine_drain => Done (x, [drain_task])
  end.

Fixpoint perform_all (x : t) (calls : list Call) : outcome (t * list Task) :=
  match calls with
  | [] => Done (x, [])
  | call :: calls =>
      '(x, tasks) ← perform x call;
      '(x, tasks') ← perform_all x calls;
      Done (x, tasks ++ tasks')
  end.
End Exchange.
