(* ===== verification/ExchangeCalls.v ===== *)
(** What the callbacks of the exchange send: to whom, in what order and under
    which numbers. *)

From S2P Require Import Prelude Types OrderBook Codec Payloads Protocol SpscQueue Connection Exchange.
Import Exchange.

(** ** Observations of a list of calls *)

(** The messages sent to a connection through its queue, and those logged. *)
Definition sent_to (c : Id_t) (calls : list Call) : list Message :=
  omap (λ call, match call with
                | call_send_message d type payload => if d =? c then Some (type, payload) else None
                | _ => None
                end) calls.

Definition logged (calls : list Call) : list Message :=
  omap (λ call, match call with
                | call_log_message type payload => Some (MessageType_to_u8 type, payload)
                | _ => None
                end) calls.

(** The types that are broadcast; all others are answers to one client. *)
Definition public_type (type : MessageType) : bool :=
  match type with
  | TRADE_EVENT | ORDER_INSERTED_EVENT | ORDER_CANCELLED_EVENT | ORDER_AMENDED_EVENT
  | PRICE_LEVEL_UPDATE => true
  | _ => false
  end.

Definition is_public (m : Message) : bool := public_type (MessageType_of_u8 m.1).

(** The feed a connection receives. *)
Definition feed_to (c : Id_t) (calls : list Call) : list Message :=
  filter (λ m, is_public m = true) (sent_to c calls).

(** Every public payload starts with its 32-bit sequence number. *)
Definition sequence_of (m : Message) : Z := le_decode 4 m.2.

Lemma sent_to_app c calls calls' : sent_to c (calls ++ calls') = sent_to c calls ++ sent_to c calls'.
Proof. apply omap_app. Qed.

Lemma logged_app calls calls' : logged (calls ++ calls') = logged calls ++ logged calls'.
Proof. apply omap_app. Qed.

Lemma feed_to_app c calls calls' : feed_to c (calls ++ calls') = feed_to c calls ++ feed_to c calls'.
Proof. unfold feed_to. by rewrite sent_to_app, filter_app. Qed.

(** ** Connections *)

(** The table has an entry per id below the limit, which is null or points to
    the connection of that id. *)
Record table_ok (x : t) : Prop := MkTableOk {
  tb_size : arr_size x.(conn_by_id_) = MAX_CONNECTIONS;
  tb_entry i c : 0 <= i < MAX_CONNECTIONS → arr_at x.(conn_by_id_) i = Some c → c = i
}.

(** [conn_ptr_] as a function. *)
Definition connected (x : t) (id : Id_t) : bool :=
  (u64 id <? MAX_CONNECTIONS) && bool_decide (is_Some (arr_at x.(conn_by_id_) (u64 id))).

Lemma conn_ptr_ok x id :
  table_ok x → conn_ptr_ x id = Done (if connected x id then Some (u64 id) else None).
Proof.
  intros [Hs He]. unfold conn_ptr_, connected. pose proof (u64_range id).
  destruct (u64 id <? MAX_CONNECTIONS) eqn:E; [|by rewrite (proj2 (Z.leb_le _ _)) by lia].
  rewrite (proj2 (Z.leb_gt _ _)), arr_get_ok by (rewrite ?Hs; lia). cbn [andb].
  destruct (arr_at _ _) as [c|] eqn:Ec; [|by rewrite bool_decide_false by (intros []; done)].
  rewrite bool_decide_true by done. rewrite (He (u64 id) c); [done | lia | done].
Qed.

Lemma send_to_ok x id type payload :
  table_ok x →
  send_to_ x id type payload =
    Done (if connected x id
          then [call_send_message (u64 id) (MessageType_to_u8 type) (payload_bytes payload)] else []).
Proof. intros HT. unfold send_to_. rewrite (conn_ptr_ok x id HT). by destruct (connected x id). Qed.

(** The connections a broadcast reaches, in order. *)
Definition audience (x : t) : list Id_t :=
  map u64 (filter (λ cid, connected x cid = true) x.(market_data_subscribers_)).

Lemma broadcast_ok x type payload :
  table_ok x →
  broadcast_to_subscribers_ x type payload =
    Done (map (λ c, call_send_message c (MessageType_to_u8 type) (payload_bytes payload)) (audience x)).
Proof.
  intros HT. unfold broadcast_to_subscribers_, audience.
  induction x.(market_data_subscribers_) as [|cid cids IH]; [done|]. cbn [broadcast_loop].
  rewrite (conn_ptr_ok x cid HT). run_bind. rewrite IH. run_bind.
  rewrite filter_cons. by destruct (connected x cid).
Qed.

(** How often a broadcast reaches [c]. *)
Definition copies (x : t) (c : Id_t) : nat := length (filter (c =.) (audience x)).

Lemma sent_broadcast x c type payload :
  sent_to c (map (λ c, call_send_message c type payload) (audience x)) =
    replicate (copies x c) (type, payload).
Proof.
  unfold copies. induction (audience x) as [|d ds IH]; [done|]. cbn [map sent_to]. unfold sent_to in *.
  cbn [omap list_omap]. rewrite filter_cons. destruct (d =? c) eqn:E.
  - apply Z.eqb_eq in E as ->. rewrite decide_True by done. cbn. by rewrite <- IH.
  - apply Z.eqb_neq in E. rewrite decide_False by done. done.
Qed.

Lemma logged_sends type payload ds :
  logged (map (λ c, call_send_message c type payload) ds) = [].
Proof. by induction ds. Qed.

(** A private message is not part of the feed. *)
Lemma feed_private c (b : bool) d type payload :
  public_type (MessageType_of_u8 (MessageType_to_u8 type)) = false →
  feed_to c (if b then [call_send_message d (MessageType_to_u8 type) payload] else []) = [].
Proof.
  intros Hp. destruct b; [|done]. unfold feed_to, sent_to. cbn [omap list_omap].
  destruct (d =? c); [|done]. rewrite filter_cons_False; [done|]. unfold is_public. cbn. by rewrite Hp.
Qed.

Lemma logged_private (b : bool) d type payload :
  logged (if b then [call_send_message d type payload] else []) = [].
Proof. by destruct b. Qed.

(** The message a public event is published as. *)
Lemma feed_publish x c type payload :
  public_type (MessageType_of_u8 (MessageType_to_u8 type)) = true →
  let m := (MessageType_to_u8 type, payload) in
  let calls := map (λ c, call_send_message c (MessageType_to_u8 type) payload) (audience x) ++
               [call_log_message type payload] in
  feed_to c calls = replicate (copies x c) m ∧ logged calls = [m].
Proof.
  intros Hp m calls. unfold calls. rewrite feed_to_app, logged_app, logged_sends. split; [|done].
  unfold feed_to. rewrite sent_broadcast. cbn. rewrite app_nil_r.
  induction (copies x c) as [|n IH]; [done|]. cbn [replicate]. rewrite filter_cons_True, IH by done. done.
Qed.

(** ** The calls of a callback *)

(** The message under which an event is published, given the numbers of the
    exchange; errors are not published. *)
Definition publication (sequence_number trade_id : Id_t) (e : Event) : option Message :=
  match e with
  | OrderBook.on_trade maker _ _ price _ _ traded now =>
      Some (MessageType_to_u8 TRADE_EVENT,
            payload_bytes (PTradeEvent (make_trade_event sequence_number trade_id price traded
              (if maker.(od_is_bid) then SELL else BUY) now)))
  | OrderBook.on_order_inserted _ o now =>
      Some (MessageType_to_u8 ORDER_INSERTED_EVENT,
            payload_bytes (POrderInsertedEvent (make_order_inserted_event sequence_number
              o.(od_order_id) (side_of o.(od_is_bid)) o.(od_price) o.(od_remaining) now)))
  | OrderBook.on_order_cancelled _ o now =>
      Some (MessageType_to_u8 ORDER_CANCELLED_EVENT,
            payload_bytes (POrderCancelledEvent (make_order_cancelled_event sequence_number
              o.(od_order_id) o.(od_remaining) now)))
  | OrderBook.on_order_amended _ old o now =>
      Some (MessageType_to_u8 ORDER_AMENDED_EVENT,
            payload_bytes (POrderAmendedEvent (make_order_amended_event sequence_number
              o.(od_order_id) o.(od_quantity) old now)))
  | OrderBook.on_level_update side price total now =>
      Some (MessageType_to_u8 PRICE_LEVEL_UPDATE,
            payload_bytes (PPriceLevelUpdate (make_price_level_update sequence_number side price
              total now)))
  | OrderBook.on_error _ _ _ _ _ => None
  end.

(** The exchange after the event took its numbers. *)
Definition numbered (x : t) (e : Event) : t :=
  match e with
  | OrderBook.on_trade _ _ _ _ _ _ _ _ => next_sequence (next_trade x)
  | OrderBook.on_error _ _ _ _ _ => x
  | _ => next_sequence x
  end.

Definition published (e : Event) : bool :=
  match e with OrderBook.on_error _ _ _ _ _ => false | _ => true end.

(** The private messages of an event, with the client they are for. *)
Definition private (trade_id : Id_t) (e : Event) : list (Id_t * Message) :=
  let answer client type payload := (client, (MessageType_to_u8 type, payload_bytes payload)) in
  match e with
  | OrderBook.on_trade maker client order price total cumulative traded now =>
      [answer maker.(od_client_id) PARTIAL_FILL_ORDER
         (PPartialFill (make_partial_fill maker.(od_order_id) trade_id price traded
            maker.(od_remaining) maker.(od_cumulative) now));
       answer client PARTIAL_FILL_ORDER
         (PPartialFill (make_partial_fill order trade_id price traded (u32 (total - cumulative))
            cumulative now))]
  | OrderBook.on_order_inserted req o now =>
      [answer o.(od_client_id) CONFIRM_ORDER_INSERTED
         (PConfirmOrderInserted (make_confirm_order_inserted req o.(od_order_id)
            (side_of o.(od_is_bid)) o.(od_price) o.(od_quantity) o.(od_remaining) now))]
  | OrderBook.on_order_cancelled req o now =>
      [answer o.(od_client_id) CONFIRM_ORDER_CANCELLED
         (PConfirmOrderCancelled (make_confirm_order_cancelled req o.(od_order_id) o.(od_remaining)
            o.(od_price) (side_of o.(od_is_bid)) now))]
  | OrderBook.on_order_amended req old o now =>
      [answer o.(od_client_id) CONFIRM_ORDER_AMENDED
         (PConfirmOrderAmended (make_confirm_order_amended req o.(od_order_id) old o.(od_quantity)
            o.(od_remaining) now))]
  | OrderBook.on_level_update _ _ _ _ => []
  | OrderBook.on_error client req code message now =>
      [answer client ERROR_MSG (PError (make_error req (error_code code) (string_bytes message) now))]
  end.

Definition send_private (x : t) (ms : list (Id_t * Message)) : list Call :=
  concat (map (λ '(client, (type, payload)),
    if connected x client then [call_send_message (u64 client) type payload] else []) ms).

Definition send_public (x : t) (m : option Message) : list Call :=
  match m with
  | Some (type, payload) =>
      map (λ c, call_send_message c type payload) (audience x) ++
      [call_log_message (MessageType_of_u8 type) payload]
  | None => []
  end.

Lemma table_numbered x e : table_ok x → table_ok (numbered x e).
Proof. intros []. by destruct e. Qed.

(** A callback takes its numbers, answers the clients it concerns, and publishes
    the event. *)
Lemma callback_ok x e :
  table_ok x →
  callback x e = Done (numbered x e,
    send_private x (private x.(trade_id_) e) ++
    send_public x (publication x.(sequence_number_) x.(trade_id_) e)).
Proof.
  intros HT. pose proof (table_numbered x e HT) as HN.
  destruct e; cbn [callback];
    unfold on_trade, on_order_inserted, on_order_cancelled, on_order_amended, on_level_update, on_error, publish;
    rewrite ?send_to_ok, ?broadcast_ok by first [exact HT | exact HN];
    run_bind; unfold send_private; cbn [private map concat];
    rewrite ?app_nil_r, <- ?app_assoc; reflexivity.
Qed.

(** ** The calls of a sequence of callbacks *)

Fixpoint calls_of (x : t) (evs : list Event) : list Call :=
  match evs with
  | [] => []
  | e :: evs =>
      (send_private x (private x.(trade_id_) e) ++
       send_public x (publication x.(sequence_number_) x.(trade_id_) e)) ++
      calls_of (numbered x e) evs
  end.

Lemma callbacks_ok x evs :
  table_ok x → callbacks x evs = Done (foldl numbered x evs, calls_of x evs).
Proof.
  revert x. induction evs as [|e evs IH]; intros x HT; [done|]. cbn [callbacks].
  rewrite callback_ok by done. run_bind.
  rewrite IH by (by apply table_numbered). done.
Qed.

(** Numbers apart, an exchange after callbacks is the one before them. *)
Record same_clients (x x' : t) : Prop := MkSame {
  sc_clients : x'.(clients_) = x.(clients_);
  sc_table : x'.(conn_by_id_) = x.(conn_by_id_);
  sc_subscribers : x'.(market_data_subscribers_) = x.(market_data_subscribers_);
  sc_inbox : x'.(inbox_) = x.(inbox_);
  sc_next : x'.(next_connection_id_) = x.(next_connection_id_);
  sc_running : x'.(running_) = x.(running_);
  sc_scheduled : x'.(engine_drain_scheduled_) = x.(engine_drain_scheduled_)
}.

Lemma same_clients_refl x : same_clients x x.
Proof. by split. Qed.

Lemma numbered_same x e : same_clients x (numbered x e).
Proof. by destruct e. Qed.

Lemma same_clients_trans x y z : same_clients x y → same_clients y z → same_clients x z.
Proof. intros [] []. split; congruence. Qed.

Lemma numbered_all_same x evs : same_clients x (foldl numbered x evs).
Proof.
  revert x. induction evs as [|e evs IH]; intros x; [apply same_clients_refl|].
  cbn [foldl]. eapply same_clients_trans; [apply numbered_same | apply IH].
Qed.

Lemma set_book_same x book trade seq : same_clients x (set_book x book trade seq).
Proof. by split. Qed.

Lemma numbered_book x evs : (foldl numbered x evs).(order_book_) = x.(order_book_).
Proof. revert x. induction evs as [|e evs IH]; intros x; [done|]. cbn [foldl]. rewrite IH. by destruct e. Qed.

Lemma same_connected x x' id : same_clients x x' → connected x' id = connected x id.
Proof. intros HS. unfold connected. by rewrite (sc_table _ _ HS). Qed.

Lemma same_audience x x' : same_clients x x' → audience x' = audience x.
Proof.
  intros HS. unfold audience. rewrite (sc_subscribers _ _ HS). f_equal.
  apply list_filter_ext_in. intros cid _. by rewrite (same_connected _ _ _ HS).
Qed.

Lemma same_copies x x' c : same_clients x x' → copies x' c = copies x c.
Proof. intros HS. unfold copies. by rewrite (same_audience _ _ HS). Qed.

Lemma same_table x x' : same_clients x x' → table_ok x → table_ok x'.
Proof. intros HS [H1 H2]. split; by rewrite (sc_table _ _ HS). Qed.

(** The messages the events are published as. *)
Fixpoint feed_of (x : t) (evs : list Event) : list Message :=
  match evs with
  | [] => []
  | e :: evs =>
      option_list (publication x.(sequence_number_) x.(trade_id_) e) ++ feed_of (numbered x e) evs
  end.

Lemma feed_send_private c x trade e :
  feed_to c (send_private x (private trade e)) = [] ∧ logged (send_private x (private trade e)) = [].
Proof.
  destruct e; unfold send_private; cbn [private map concat];
    rewrite ?feed_to_app, ?logged_app, ?feed_private, ?logged_private by done; done.
Qed.

Lemma feed_send_public c x seq trade e :
  feed_to c (send_public x (publication seq trade e)) =
    concat (map (replicate (copies x c)) (option_list (publication seq trade e))) ∧
  logged (send_public x (publication seq trade e)) = option_list (publication seq trade e).
Proof.
  destruct e as [| | | | |]; cbn [publication option_list option_rect map concat send_public]; [..|done];
    rewrite app_nil_r; by apply (feed_publish x c).
Qed.

Lemma feed_calls c x evs :
  feed_to c (calls_of x evs) = concat (map (replicate (copies x c)) (feed_of x evs)) ∧
  logged (calls_of x evs) = feed_of x evs.
Proof.
  revert x. induction evs as [|e evs IH]; intros x; [done|]. cbn [calls_of feed_of].
  rewrite !feed_to_app, !logged_app, map_app, concat_app.
  destruct (feed_send_private c x x.(trade_id_) e) as [-> ->].
  destruct (feed_send_public c x x.(sequence_number_) x.(trade_id_) e) as [-> ->].
  destruct (IH (numbered x e)) as [-> ->]. by rewrite (same_copies x (numbered x e)) by apply numbered_same.
Qed.

(** ** Sequence numbers *)

Lemma publication_sequence seq trade e m :
  0 <= seq < 2 ^ 32 → publication seq trade e = Some m → sequence_of m = seq.
Proof.
  intros Hs. assert (∀ rest, le_decode 4 (le_encode 4 seq ++ rest) = seq) as Hd
    by (intros rest; by apply le_decode_encode).
  destruct e; cbn [publication]; intros [= <-]; unfold sequence_of;
    unfold make_trade_event, make_order_inserted_event, make_order_cancelled_event,
      make_order_amended_event, make_price_level_update;
    cbn -[le_encode le_decode]; rewrite <- ?app_assoc; apply Hd.
Qed.

(** Published events carry consecutive numbers, from the current one on. *)
Lemma feed_sequence x evs :
  0 <= x.(sequence_number_) < 2 ^ 32 →
  let n := Z.of_nat (length (filter (λ e, published e = true) evs)) in
  map sequence_of (feed_of x evs) = map u32 (seqZ x.(sequence_number_) n) ∧
  (foldl numbered x evs).(sequence_number_) = u32 (x.(sequence_number_) + n).
Proof.
  revert x. induction evs as [|e evs IH]; intros x Hx n; unfold n; cbn [feed_of foldl].
  { split; [done|]. cbn. by rewrite Z.add_0_r, u32_small. }
  rewrite filter_cons, map_app. destruct (publication x.(sequence_number_) x.(trade_id_) e) as [m|] eqn:Em.
  - rewrite decide_True by by destruct e.
    assert ((numbered x e).(sequence_number_) = u32 (x.(sequence_number_) + 1)) as Hn by by destruct e.
    destruct (IH (numbered x e)) as [-> ->]; [rewrite Hn; apply u32_range|]. rewrite Hn.
    cbn [length option_list option_rect map app].
    rewrite (publication_sequence _ _ _ _ Hx Em), u32_add_l, wrap_seqZ. split; [|f_equal; lia].
    rewrite (seqZ_cons x.(sequence_number_)) by lia. cbn [map]. rewrite u32_small by done.
    by replace (Z.pred _) with (Z.of_nat (length (filter (λ e, published e = true) evs))) by lia.
  - destruct e; try done. rewrite decide_False by done. by apply IH.
Qed.
