(* ===== verification/ExchangeEvents.v ===== *)
(** What the order book tells the exchange: the level updates it publishes fit
    their messages, and its answers concern the requesting client. *)

From stdpp Require Import functions.
From S2P Require Import Prelude Types OrderBook BookSpec BookLinks BookView BookRep BookRefinement.

Definition is_time (t : Time_t) : Prop := 0 <= t < 2 ^ 64.

(** A level update that a [PayloadPriceLevelUpdate] can carry. *)
Definition update_fits (e : Event) : Prop :=
  match e with
  | on_level_update _ price total now =>
      MINIMUM_BID <= price <= MAXIMUM_ASK ∧ is_u32 total ∧ is_time now
  | _ => True
  end.

Lemma queue_total_u32 q : is_u32 (queue_total q).
Proof. apply u32_range. Qed.

Lemma level_price_range k : 0 <= k < NUM_BOOK_LEVELS → MINIMUM_BID <= level_price k <= MAXIMUM_ASK.
Proof. rewrite num_book_levels_val. unfold level_price, MINIMUM_BID, MAXIMUM_ASK. lia. Qed.

Lemma worse_levels_range bid k j :
  0 <= k <= NUM_BOOK_LEVELS → j ∈ worse_levels bid k → 0 <= j < NUM_BOOK_LEVELS.
Proof.
  intros Hk. unfold worse_levels. destruct bid; [rewrite elem_of_reverse|]; rewrite elem_of_seqZ; lia.
Qed.

Lemma visible_range bid s j :
  0 <= s.(a_best) <= NUM_BOOK_LEVELS → j ∈ visible bid s → 0 <= j < NUM_BOOK_LEVELS.
Proof.
  intros Hb. unfold visible. destruct (_ =? _) eqn:E; [by rewrite elem_of_nil|].
  rewrite elem_of_cons. intros [->|Hj]; [lia|]. unfold shown_levels in Hj.
  apply list_elem_of_filter in Hj as [_ Hj]. by eapply worse_levels_range.
Qed.

Lemma sweep_fits bid price total id client now path queue incoming evs queue' path' rest :
  is_time now → (∀ k, k ∈ path → 0 <= k < NUM_BOOK_LEVELS) →
  sweep bid price total id client now path queue incoming = (evs, queue', path', rest) →
  Forall update_fits evs.
Proof.
  intros Hnow. revert queue incoming evs. induction path as [|k path IH];
    intros queue incoming evs Hp; cbn [sweep]; [by intros [= <- <- <- <-]|].
  destruct (incoming <=? 0); [by intros [= <- <- <- <-]|].
  destruct (crosses bid (level_price k) price); cbn [negb]; [|by intros [= <- <- <- <-]].
  destruct (fill_queue incoming (queue k)) as [[ts q] lft].
  assert (Forall update_fits (map (trade_event total id client now) ts ++ [update_event bid now k q]))
    as Hev.
  { apply Forall_app. split; [by apply Forall_map, Forall_true|]. constructor; [|done].
    split; [apply level_price_range, Hp; left | split; [apply queue_total_u32 | done]]. }
  destruct q as [|o q]; [|by intros [= <- <- <- <-]].
  destruct (sweep _ _ _ _ _ _ path _ lft) as [[[evs1 queue1] path1] rest1] eqn:ES.
  intros [= <- -> -> ->]. apply Forall_app. split; [done|].
  eapply IH, ES. intros j Hj. apply Hp. by right.
Qed.

Lemma submit_fits A price quantity is_bid client req now now_match now_add A' evs :
  (∀ bid, 0 <= (a_side A bid).(a_best) <= NUM_BOOK_LEVELS) → is_time now_match → is_time now_add →
  a_submit A price quantity is_bid client req now now_match now_add = (A', evs) →
  Forall update_fits evs.
Proof.
  intros Hb Hm Ha. unfold a_submit. destruct (quantity =? 0); [intros [= <- <-]; by repeat constructor|].
  destruct (_ || _) eqn:Ep; [intros [= <- <-]; by repeat constructor|].
  apply orb_false_iff in Ep as [Ep1 Ep2].
  destruct (a_match _ _ _ _ _ _ _) as [[evs1 maker] lft] eqn:EM. unfold a_match in EM.
  destruct (sweep _ _ _ _ _ _ _ _ _) as [[[evs2 queue] path] rest] eqn:ES. injection EM as -> <- ->.
  apply sweep_fits in ES; [|done | intros k; by apply visible_range].
  destruct (lft <=? 0); [by intros [= <- <-]|].
  destruct (MAX_ORDERS <=? _); intros [= <- <-]; apply Forall_app; split; try done;
    [by repeat constructor|].
  constructor; [|by repeat constructor]. split; [lia | split; [apply queue_total_u32 | done]].
Qed.

Lemma step_fits A now now_match now_add r A' evs :
  (∀ bid, 0 <= (a_side A bid).(a_best) <= NUM_BOOK_LEVELS) →
  is_time now → is_time now_match → is_time now_add →
  book_step A now now_match now_add r A' evs → Forall update_fits evs.
Proof.
  intros Hb Hn Hm Ha Hs.
  destruct Hs as [price quantity is_bid client req a' evs' E | | |
    client req id is_bid k before o after queue [Hk _] _ _ -> | | | | |
    client req id quantity is_bid k before o after queue [Hk _] _ _ _ -> |
    client req id is_bid k before o after queue [Hk _] _ _ ->].
  { by eapply submit_fits in E. }
  all: repeat apply Forall_cons_2; try apply Forall_nil_2; try exact I;
    (split; [by apply level_price_range | split; [apply queue_total_u32 | done]]).
Qed.

Lemma represents_best_range b A bid :
  represents b A → 0 <= (a_side A bid).(a_best) <= NUM_BOOK_LEVELS.
Proof. intros (ls & fl & D & HR). eapply rep_side_best_range, (rb_side _ _ _ _ _ HR bid). Qed.

(** ** Who is answered *)

Definition client_of (r : OrderBook.Request) : Id_t :=
  match r with
  | OrderBook.Submit _ _ _ client _ => client
  | OrderBook.Cancel client _ _ => client
  | OrderBook.Amend client _ _ _ => client
  end.

Definition request_id_of (r : OrderBook.Request) : Id_t :=
  match r with
  | OrderBook.Submit _ _ _ _ req => req
  | OrderBook.Cancel _ req _ => req
  | OrderBook.Amend _ req _ _ => req
  end.

(** The event concerns [client] only, or is a fill of its order, or is public
    only. *)
Definition answers (client req : Id_t) (e : Event) : Prop :=
  match e with
  | on_trade _ taker _ _ _ _ _ _ => taker = client
  | on_order_inserted r o _ | on_order_cancelled r o _ | on_order_amended r _ o _ =>
      r = req ∧ od_client_id o = client
  | on_error c r _ _ _ => r = req ∧ c = client
  | on_level_update _ _ _ _ => True
  end.

(** The event is a reply to a request. *)
Definition is_reply (e : Event) : bool :=
  match e with
  | on_order_inserted _ _ _ | on_order_cancelled _ _ _ | on_order_amended _ _ _ _
  | on_error _ _ _ _ _ => true
  | _ => false
  end.

Lemma sweep_answers bid price total id client req now path queue incoming evs queue' path' rest :
  sweep bid price total id client now path queue incoming = (evs, queue', path', rest) →
  Forall (λ e, answers client req e ∧ is_reply e = false) evs.
Proof.
  revert queue incoming evs. induction path as [|k path IH];
    intros queue incoming evs; cbn [sweep]; [by intros [= <- <- <- <-]|].
  destruct (incoming <=? 0); [by intros [= <- <- <- <-]|].
  destruct (crosses bid (level_price k) price); cbn [negb]; [|by intros [= <- <- <- <-]].
  destruct (fill_queue incoming (queue k)) as [[ts q] lft].
  assert (Forall (λ e, answers client req e ∧ is_reply e = false)
    (map (trade_event total id client now) ts ++ [update_event bid now k q])) as Hev.
  { apply Forall_app. split; [apply Forall_map, Forall_true; by intros t | by repeat constructor]. }
  destruct q as [|o q]; [|by intros [= <- <- <- <-]].
  destruct (sweep _ _ _ _ _ _ path _ lft) as [[[evs1 queue1] path1] rest1] eqn:ES.
  intros [= <- -> -> ->]. apply Forall_app. split; [done|]. by eapply IH.
Qed.

(** Every event of a request answers its client, and there is exactly one reply
    unless a submission is executed in full by its trades. *)
Lemma step_answers A now now_match now_add r A' evs :
  book_step A now now_match now_add r A' evs →
  Forall (answers (client_of r) (request_id_of r)) evs ∧
  (length (filter (λ e, is_reply e = true) evs) <= 1)%nat ∧
  (match r with OrderBook.Submit _ _ _ _ _ => False | _ => True end →
   length (filter (λ e, is_reply e = true) evs) = 1%nat).
Proof.
  intros Hs. destruct Hs as [price quantity is_bid client req a' evs' E | | |
    client req id is_bid k before o after queue [Hk _] _ Hc -> | | | |
    client req id is_bid k before o after Hrest Ho Hc |
    client req id quantity is_bid k before o after queue [Hk _] _ Hc _ -> |
    client req id is_bid k before o after queue [Hk _] _ Hc ->]; cbn [client_of request_id_of].
  2-10: split; [repeat constructor; try done; by cbn|]; by cbn.
  unfold a_submit in E. split; [|split; [|done]].
  all: destruct (quantity =? 0); [injection E as <- <-; by repeat constructor|].
  all: destruct (_ || _); [injection E as <- <-; by repeat constructor|].
  all: destruct (a_match _ _ _ _ _ _ _) as [[evs1 maker] lft] eqn:EM; unfold a_match in EM.
  all: destruct (sweep _ _ _ _ _ _ _ _ _) as [[[evs2 queue] path] rest] eqn:ES; injection EM as -> <- ->.
  all: apply (sweep_answers _ _ _ _ client req) in ES.
  - assert (Forall (answers client req) evs1) by (eapply Forall_impl; [exact ES | naive_solver]).
    destruct (lft <=? 0); [by simplify_eq|].
    destruct (MAX_ORDERS <=? _); injection E as <- <-; apply Forall_app; split; by repeat constructor.
  - assert (filter (λ e, is_reply e = true) evs1 = []) as Hn.
    { apply filter_none. intros e He. rewrite Forall_forall in ES. destruct (ES e He). congruence. }
    destruct (lft <=? 0); [injection E as <- <-; rewrite Hn; cbn; lia|].
    destruct (MAX_ORDERS <=? _); injection E as <- <-; rewrite filter_app, Hn; apply le_n.
Qed.

(** ** Whose orders are filled *)

(** A quantity that an order with something left can be filled by. *)
Definition fillable (o : OrderData) (traded : Volume_t) : Prop :=
  traded <= od_remaining o ∧ (0 < od_remaining o → 0 < traded).

(** A trade fills an order of [queue]. *)
Definition fills_order (queue : Z → list OrderData) (e : Event) : Prop :=
  match e with
  | on_trade maker _ _ price _ _ traded _ =>
      ∃ k o, o ∈ queue k ∧ maker = fill o traded ∧ price = od_price o ∧ fillable o traded
  | _ => True
  end.

Lemma fill_queue_makers incoming q ts q' rest :
  fill_queue incoming q = (ts, q', rest) → 
  Forall (λ t, ∃ o, o ∈ q ∧ tr_maker t = fill o (tr_quantity t) ∧ fillable o (tr_quantity t)) ts.
Proof.
  revert incoming ts q' rest. induction q as [|o q IH]; intros incoming ts q' rest; cbn [fill_queue]; [by intros [= <- _ _]|].
  destruct (incoming <=? 0) eqn:E0; [by intros [= <- _ _]|]. destruct (od_remaining o <=? incoming) eqn:E1.
  - destruct (fill_queue _ q) as [[ts1 q1] rest1] eqn:E. intros [= <- _ _]. apply IH in E.
    apply Forall_cons_2; [exists o; unfold fillable; cbn; split; [left | split; [done | lia]]|]. eapply Forall_impl; [exact E|].
    intros t (o' & Ho' & Et). exists o'. split; [by right | done].
  - intros [= <- _ _]. apply Forall_singleton. exists o. unfold fillable; cbn. split; [left | split; [done | lia]].
Qed.

Lemma sweep_fills bid price total id client now path queue incoming evs queue' path' rest :
  sweep bid price total id client now path queue incoming = (evs, queue', path', rest) →
  Forall (fills_order queue) evs.
Proof.
  revert queue incoming evs. induction path as [|k path IH];
    intros queue incoming evs; cbn [sweep]; [by intros [= <- <- <- <-]|].
  destruct (incoming <=? 0); [by intros [= <- <- <- <-]|].
  destruct (crosses bid (level_price k) price); cbn [negb]; [|by intros [= <- <- <- <-]].
  destruct (fill_queue incoming (queue k)) as [[ts q] lft] eqn:EF. apply fill_queue_makers in EF.
  assert (Forall (fills_order queue) (map (trade_event total id client now) ts ++ [update_event bid now k q])) as Hev.
  { apply Forall_app. split; [|by repeat constructor]. apply Forall_map. eapply Forall_impl; [exact EF|].
    intros t (o & Ho & Et & Hf). exists k, o. split; [done|]. split; [exact Et|]. split; [by rewrite Et | exact Hf]. }
  destruct q as [|o q]; [|by intros [= <- <- <- <-]].
  destruct (sweep _ _ _ _ _ _ path _ lft) as [[[evs1 queue1] path1] rest1] eqn:ES.
  intros [= <- -> -> ->]. apply Forall_app. split; [done|]. apply IH in ES. eapply Forall_impl; [exact ES|].
  intros [] He; try done. destruct He as (k' & o & Ho & Hm). exists k', o. split; [|done].
  destruct (decide (k' = k)) as [->|Hne]; [by rewrite fn_lookup_insert in Ho; apply elem_of_nil in Ho|].
  by rewrite fn_lookup_insert_ne in Ho by done.
Qed.

(** The trades of a request fill orders that rested in the book before it. *)
Lemma step_fills A now now_match now_add r A' evs :
  book_step A now now_match now_add r A' evs → Forall (λ e, ∃ bid, fills_order (a_side A bid).(a_queue) e) evs.
Proof.
  intros Hs. destruct Hs as [price quantity is_bid client req a' evs' E | | | | | | | | |].
  2-10: by repeat (apply Forall_cons_2; [by exists true|]).
  unfold a_submit in E. destruct (quantity =? 0); [injection E as _ <-; repeat constructor; by exists true|].
  destruct (_ || _); [injection E as _ <-; repeat constructor; by exists true|].
  destruct (a_match _ _ _ _ _ _ _) as [[evs1 maker] lft] eqn:EM. unfold a_match in EM.
  destruct (sweep _ _ _ _ _ _ _ _ _) as [[[evs2 queue] path] rest] eqn:ES. injection EM as -> _ _.
  apply sweep_fills in ES.
  assert (Forall (λ e, ∃ bid, fills_order (a_side A bid).(a_queue) e) evs1) as Hev
    by (eapply Forall_impl; [exact ES | intros e He; by exists (negb is_bid)]).
  destruct (lft <=? 0); [by injection E as _ <-|].
  destruct (MAX_ORDERS <=? _); injection E as _ <-; apply Forall_app; (split; [done|]);
    repeat (apply Forall_cons_2; [by exists true|]); apply Forall_nil_2.
Qed.
