(* ===== verification/ExchangeSession.v ===== *)
(** Sequences of inbound messages: every one is executed without undefined
    behaviour, and a subscriber's feed shows it the book. *)

From stdpp Require Import functions.
From S2P Require Import Prelude Types OrderBook BookSpec BookLinks BookView BookRep BookRefinement BookInvariant BookPriority BookSnapshot BookFeed Codec Payloads Protocol SpscQueue Connection Exchange ExchangeCalls ExchangeEvents.
Import Exchange.

Abbreviation Times := (Time_t * Time_t * Time_t)%type.

(** An inbound message as [parse_accumulator_] queues it: [uint8_t]s, in a full
    payload buffer. *)
Definition well_formed (msg : InboundMessage) : Prop :=
  length msg.(msg_payload) = MAX_PAYLOAD_SIZE_BUFFER ∧ Forall is_byte msg.(msg_payload) ∧
  is_u32 msg.(connection_id).

Definition well_timed (times : Times) : Prop :=
  let '(now, now_match, now_add) := times in is_time now ∧ is_time now_match ∧ is_time now_add.

(** What reaches the exchange: connections that are accepted, and messages. *)
Inductive Input :=
  | Accept
  | Inbound (msg : InboundMessage) (times : Times).

Definition handle_input (x : t) (i : Input) : outcome (t * list Call) :=
  match i with
  | Accept => x ← on_accepted_ x; Done (x, [])
  | Inbound msg times => dispatch_ x msg times
  end.

(** A session: the inputs one by one. *)
Fixpoint run_inputs (x : t) (ins : list Input) : outcome (t * list Call) :=
  match ins with
  | [] => Done (x, [])
  | i :: ins =>
      '(x, calls) ← handle_input x i;
      '(x, calls') ← run_inputs x ins;
      Done (x, calls ++ calls')
  end.

Definition valid_input (i : Input) : Prop :=
  match i with
  | Accept => True
  | Inbound msg times => well_formed msg ∧ well_timed times
  end.

(** The request to the order book that a message makes. *)
Definition request_of (msg : InboundMessage) : option OrderBook.Request :=
  match MessageType_of_u8 msg.(message_type) with
  | INSERT_ORDER =>
      let m := decode PayloadInsertOrder.layout msg.(msg_payload) in
      Some (OrderBook.Submit m.(PayloadInsertOrder.price) m.(PayloadInsertOrder.quantity)
        (m.(PayloadInsertOrder.side) =? Side_to_u8 BUY) msg.(connection_id)
        m.(PayloadInsertOrder.client_request_id))
  | CANCEL_ORDER =>
      let m := decode PayloadCancelOrder.layout msg.(msg_payload) in
      Some (OrderBook.Cancel msg.(connection_id) m.(PayloadCancelOrder.client_request_id)
        m.(PayloadCancelOrder.exchange_order_id))
  | AMEND_ORDER =>
      let m := decode PayloadAmendOrder.layout msg.(msg_payload) in
      Some (OrderBook.Amend msg.(connection_id) m.(PayloadAmendOrder.client_request_id)
        m.(PayloadAmendOrder.exchange_order_id) m.(PayloadAmendOrder.new_total_quantity))
  | _ => None
  end.

(** Whatever bytes arrive, the request is one the book is specified for. *)
Lemma request_valid msg r : well_formed msg → request_of msg = Some r → valid_request r = true.
Proof.
  intros (Hl & Hb & _). unfold request_of.
  assert (MAX_PAYLOAD_SIZE_BUFFER = 46%nat) as Hmax by done. rewrite Hmax in Hl.
  destruct (MessageType_of_u8 _); intros [= <-]; [|done|].
  - pose proof (decode_range (c := PayloadInsertOrder.layout) (msg_payload msg)
      ltac:(rewrite Hl; vm_compute; lia) Hb) as [[[[_ _] _] Hq] _].
    cbn [unsigned in_range fst snd] in Hq. unfold valid_request. cbn in Hq |- *. lia.
  - pose proof (decode_range (c := PayloadAmendOrder.layout) (msg_payload msg)
      ltac:(rewrite Hl; vm_compute; lia) Hb) as [[_ _] Hq].
    unfold valid_request. cbn in Hq |- *. lia.
Qed.

Lemma request_id_u32 msg r : well_formed msg → request_of msg = Some r → is_u32 (request_id_of r).
Proof.
  intros (Hl & Hb & _). unfold request_of.
  assert (MAX_PAYLOAD_SIZE_BUFFER = 46%nat) as Hmax by done. rewrite Hmax in Hl.
  destruct (MessageType_of_u8 _); intros [= <-]; cbn [request_id_of].
  - apply (decode_range (c := PayloadInsertOrder.layout) (msg_payload msg)
      ltac:(rewrite Hl; vm_compute; lia) Hb).
  - apply (decode_range (c := PayloadCancelOrder.layout) (msg_payload msg)
      ltac:(rewrite Hl; vm_compute; lia) Hb).
  - apply (decode_range (c := PayloadAmendOrder.layout) (msg_payload msg)
      ltac:(rewrite Hl; vm_compute; lia) Hb).
Qed.

Lemma request_client msg r : request_of msg = Some r → client_of r = msg.(connection_id).
Proof. unfold request_of. by destruct (MessageType_of_u8 _); intros [= <-]. Qed.

Lemma dispatch_request x msg r now now_match now_add :
  request_of msg = Some r →
  dispatch_ x msg (now, now_match, now_add) =
    with_book x (OrderBook.run_request x.(order_book_) r now now_match now_add).
Proof. unfold request_of, dispatch_. by destruct (MessageType_of_u8 _); intros [= <-]. Qed.

(** ** What every message preserves *)

Record exchange_ok (x : t) (A : ABook) : Prop := MkExchangeOk {
  eo_table : table_ok x;
  eo_book : represents x.(order_book_) A;
  eo_sequence : is_u32 x.(sequence_number_);
  eo_subscribers : Forall is_u32 x.(market_data_subscribers_);
  eo_next : is_u32 x.(next_connection_id_)
}.

(** What one message does, by the request it makes. *)
Inductive dispatched (x : t) (A : ABook) (msg : InboundMessage) (times : Times) :
    t → list Call → ABook → Prop :=
  | dp_request r book evs A' :
      request_of msg = Some r → book_step A times.1.1 times.1.2 times.2 r A' evs →
      let x1 := set_book x book x.(trade_id_) x.(sequence_number_) in
      dispatched x A msg times (foldl numbered x1 evs) (calls_of x1 evs) A'
  | dp_subscribe bid_volumes bid_prices ask_volumes ask_prices :
      MessageType_of_u8 msg.(message_type) = SUBSCRIBE →
      OrderBook.build_snapshot x.(order_book_) = Done ((bid_volumes, bid_prices), (ask_volumes, ask_prices)) →
      dispatched x A msg times
        (set_subscribers x (x.(market_data_subscribers_) ++ [msg.(connection_id)]))
        (if connected x msg.(connection_id)
         then [call_send_message_unbuffered (u64 msg.(connection_id))
                 (MessageType_to_u8 ORDER_BOOK_SNAPSHOT)
                 (payload_bytes (POrderBookSnapshot (make_order_book_snapshot (elements ask_prices)
                    (elements ask_volumes) (elements bid_prices) (elements bid_volumes)
                    x.(sequence_number_))))]
         else []) A
  | dp_unsubscribe :
      MessageType_of_u8 msg.(message_type) = UNSUBSCRIBE →
      dispatched x A msg times (unsubscribe_market_feed_ x msg.(connection_id)) [] A
  | dp_disconnect x' :
      MessageType_of_u8 msg.(message_type) = DISCONNECT →
      remove_connection_ x msg.(connection_id) = Done (x', [post_erase_client msg.(connection_id)]) →
      dispatched x A msg times x' [post_erase_client msg.(connection_id)] A
  | dp_ignored : dispatched x A msg times x [] A.

(** ** Unsubscribing *)

Lemma unsubscribe_Permutation x id :
  let x' := unsubscribe_market_feed_ x id in
  x' = set_subscribers x x'.(market_data_subscribers_) ∧
  (id ∈ x.(market_data_subscribers_) →
     x.(market_data_subscribers_) ≡ₚ id :: x'.(market_data_subscribers_)) ∧
  (id ∉ x.(market_data_subscribers_) → x' = x).
Proof.
  cbv zeta. unfold unsubscribe_market_feed_. set (subs := market_data_subscribers_ x).
  destruct (list_find _ _) as [[it y]|] eqn:E.
  - apply list_find_Some in E as (Hit & -> & _). split; [done|]. split.
    2:{ intros Hn. destruct Hn. by eapply list_elem_of_lookup_2. }
    intros _. cbn [market_data_subscribers_ set_subscribers set_clients].
    destruct subs as [|z l _] eqn:Es using rev_ind; [done|]. rewrite last_snoc, length_app.
    change (default 0 (Some z)) with z. cbn [length].
    replace (length l + 1 - 1)%nat with (length l) by lia.
    destruct (decide (it < length l)%nat) as [Hlt|Hge].
    + rewrite insert_app_l by done. rewrite take_app_length' by (by rewrite length_insert).
      rewrite lookup_app_l in Hit by done.
      rewrite (insert_take_drop l it z) by done. rewrite <- (take_drop_middle l it id Hit) at 1.
      rewrite !Permutation_middle. cbn. solve_Permutation.
    + rewrite lookup_app_r in Hit by lia. apply list_lookup_singleton_Some in Hit as [Hi ->].
      rewrite take_insert_ge, take_app_length by lia. by rewrite Permutation_app_comm.
  - apply list_find_None in E. split; [by destruct x|]. split; [|done].
    intros Hin. rewrite Forall_forall in E. by destruct (E id Hin).
Qed.

Lemma unsubscribe_table x id : table_ok x → table_ok (unsubscribe_market_feed_ x id).
Proof. destruct (unsubscribe_Permutation x id) as [-> _]. by intros []. Qed.

Lemma unsubscribe_subset x id cid :
  cid ∈ (unsubscribe_market_feed_ x id).(market_data_subscribers_) →
  cid ∈ x.(market_data_subscribers_).
Proof.
  destruct (unsubscribe_Permutation x id) as (_ & Hin & Hout).
  destruct (decide (id ∈ x.(market_data_subscribers_))) as [H|H].
  - rewrite (Hin H). by right.
  - by rewrite (Hout H).
Qed.

(** ** Disconnecting *)

Lemma remove_connection_ok x id :
  table_ok x →
  let x1 := unsubscribe_market_feed_ x id in
  ∃ conns, remove_connection_ x id =
      Done (set_clients x1 x1.(clients_) conns x1.(market_data_subscribers_) x1.(next_connection_id_),
            [post_erase_client id]) ∧
    arr_size conns = MAX_CONNECTIONS ∧
    ∀ i, 0 <= i < MAX_CONNECTIONS →
      arr_at conns i = if decide (i = u64 id) then None else arr_at x.(conn_by_id_) i.
Proof.
  intros HT x1. assert (x1.(conn_by_id_) = x.(conn_by_id_)) as Hc
    by (unfold x1; by destruct (unsubscribe_Permutation x id) as [-> _]).
  unfold remove_connection_. fold x1. rewrite Hc. pose proof (u64_range id).
  destruct HT as [Hs He]. destruct (u64 id <? MAX_CONNECTIONS) eqn:E.
  - rewrite arr_set_ok by (rewrite Hs; lia). eexists. split; [reflexivity|].
    rewrite arr_size_put. split; [done|]. intros i Hi. rewrite arr_at_put. repeat case_decide; congruence.
  - eexists. split; [reflexivity|]. split; [done|]. intros i Hi. rewrite decide_False by lia. done.
Qed.

Lemma remove_connection_table x id x' calls :
  table_ok x → remove_connection_ x id = Done (x', calls) → table_ok x'.
Proof.
  intros HT. destruct (remove_connection_ok x id HT) as (conns & -> & Hs & Hc). intros [= <- <-].
  split; [done|]. intros i c Hi. cbn. rewrite (Hc i Hi). case_decide; [done|]. by apply (tb_entry x HT).
Qed.

Lemma remove_connection_connected x id x' calls c :
  table_ok x → remove_connection_ x id = Done (x', calls) →
  connected x' c = connected x c && negb (u64 c =? u64 id).
Proof.
  intros HT. destruct (remove_connection_ok x id HT) as (conns & -> & _ & Hc). intros [= <- <-].
  unfold connected. cbn. pose proof (u64_range c). destruct (u64 c <? MAX_CONNECTIONS) eqn:E; [|done].
  cbn [andb]. rewrite Hc by lia. case_decide as Hd.
  - rewrite Hd, Z.eqb_refl, andb_false_r. rewrite bool_decide_false; [done | by intros []].
  - apply Z.eqb_neq in Hd as ->. by rewrite andb_true_r.
Qed.

(** ** Every message *)

Lemma next_id_of x A : exchange_ok x A → x.(order_book_).(OrderBook.order_id_) = A.(a_next_id).
Proof. intros [_ HR _ _ _]. by destruct (represents_next_id _ _ HR) as [-> _]. Qed.

Lemma numbered_sequence x e : is_u32 x.(sequence_number_) → is_u32 (numbered x e).(sequence_number_).
Proof. intros H. destruct e; try exact H; apply u32_range. Qed.

Lemma numbered_all_sequence x evs :
  is_u32 x.(sequence_number_) → is_u32 (foldl numbered x evs).(sequence_number_).
Proof.
  revert x. induction evs as [|e evs IH]; intros x H; [done|]. cbn [foldl]. by apply IH, numbered_sequence.
Qed.

(** No message of a client, whatever its bytes, is undefined behaviour. *)
Lemma dispatch_ok x A msg times :
  exchange_ok x A → well_formed msg → A.(a_next_id) + 1 < 2 ^ 32 →
  ∃ x' calls A', dispatch_ x msg times = Done (x', calls) ∧ exchange_ok x' A' ∧
    dispatched x A msg times x' calls A' ∧ A'.(a_next_id) <= A.(a_next_id) + 1.
Proof.
  intros [HT HR Hs Hsub Hnext] Hw Hid. destruct times as [[now now_match] now_add].
  destruct (request_of msg) as [r|] eqn:Er.
  { rewrite (dispatch_request x msg r) by done.
    destruct (request_refines x.(order_book_) A r now now_match now_add HR (request_valid _ _ Hw Er))
      as (b' & A' & evs & -> & Hstep & HR'); [by destruct (represents_next_id _ _ HR) as [<- _]|].
    unfold with_book. run_bind.
    set (x1 := set_book _ _ _ _). assert (table_ok x1) as HT1 by (by destruct HT).
    rewrite callbacks_ok by done. eexists _, _, A'. split; [reflexivity|]. split; [|split].
    - split.
      + by eapply same_table; [apply numbered_all_same|].
      + by rewrite numbered_book.
      + by apply numbered_all_sequence.
      + by rewrite (sc_subscribers _ _ (numbered_all_same x1 evs)).
      + by rewrite (sc_next _ _ (numbered_all_same x1 evs)).
    - by eapply (dp_request x A msg (now, now_match, now_add)).
    - destruct (represents_next_id _ _ HR) as [Hn Hr].
      apply (step_next_id _ _ _ _ _ _ _ Hstep); lia. }
  unfold request_of in Er. unfold dispatch_.
  destruct (MessageType_of_u8 (message_type msg)) eqn:Et; try done.
  all: try (eexists x, [], A; split; [reflexivity|]; split; [by split|]; split; [constructor | lia]).
  - destruct (remove_connection_ok x (connection_id msg) HT) as (conns & E & _ & _).
    rewrite E. eexists _, _, A. split; [reflexivity|]. split; [|split; [by constructor | lia]].
    assert (order_book_ (unsubscribe_market_feed_ x (connection_id msg)) = order_book_ x ∧
      sequence_number_ (unsubscribe_market_feed_ x (connection_id msg)) = sequence_number_ x) as [E1 E2]
      by (by destruct (unsubscribe_Permutation x (connection_id msg)) as [-> _]).
    split; [by eapply remove_connection_table | cbn; by rewrite E1 | cbn; by rewrite E2 | |].
    2:{ cbn. by destruct (unsubscribe_Permutation x (connection_id msg)) as [-> _]. }
    cbn. apply Forall_forall. intros cid Hc%unsubscribe_subset. rewrite Forall_forall in Hsub. by apply Hsub.
  - unfold subscribe_market_feed_. cbn [order_book_ set_subscribers set_clients].
    destruct (snapshot_defined _ _ HR) as ([bv bp] & [av ap] & ES). rewrite ES. run_bind.
    rewrite conn_ptr_ok by (by destruct HT). run_bind.
    assert (exchange_ok (set_subscribers x (market_data_subscribers_ x ++ [connection_id msg])) A) as HE.
    { split; [by destruct HT | done | done | | done]. cbn. apply Forall_app. split; [done|].
      constructor; [apply Hw | done]. }
    eexists _, _, A. split; [|split; [exact HE | split; [by eapply dp_subscribe | lia]]].
    change (connected (set_subscribers x ?l) ?id) with (connected x id). by destruct (connected x _).
  - eexists _, _, A. split; [reflexivity|]. split; [|split; [by constructor | lia]].
    destruct (unsubscribe_Permutation x (connection_id msg)) as [E _].
    split; [by apply unsubscribe_table | by rewrite E | by rewrite E | | by rewrite E].
    apply Forall_forall. intros cid Hc%unsubscribe_subset. rewrite Forall_forall in Hsub. by apply Hsub.
Qed.

(** ** Accepting a connection *)

Lemma accept_ok x A :
  exchange_ok x A →
  ∃ x', on_accepted_ x = Done x' ∧ exchange_ok x' A ∧
    x'.(market_data_subscribers_) = x.(market_data_subscribers_) ∧
    x'.(sequence_number_) = x.(sequence_number_) ∧ x'.(order_book_) = x.(order_book_) ∧
    ∀ c, is_u32 c →
      connected x' c = connected x c || (c =? x.(next_connection_id_)) && (c <? MAX_CONNECTIONS).
Proof.
  intros [[Hs He] HR Hseq Hsub Hnext]. unfold on_accepted_, accept_connection, publish_connection_.
  set (id := next_connection_id_ x). cbn [conn_by_id_ clients_ set_clients].
  assert (u64 id = id) as Hid by (apply u64_small; unfold is_u32 in Hnext; unfold id; lia).
  rewrite Hid. destruct (MAX_CONNECTIONS <=? id) eqn:E.
  - eexists. split; [reflexivity|]. split; [split; try done; apply u32_range|].
    split; [done|]. split; [done|]. split; [done|]. intros c Hc.
    destruct (c =? id) eqn:Ec; [|by rewrite orb_false_r].
    rewrite (proj2 (Z.ltb_ge _ _)) by lia. by rewrite orb_false_r.
  - rewrite arr_set_ok by (unfold is_u32, id in *; rewrite Hs; lia). run_bind.
    eexists. split; [reflexivity|]. split; [|split; [done|split; [done|split; [done|]]]].
    + split; try done; [|apply u32_range]. split; [done|]. intros i c Hi. cbn.
      rewrite arr_at_put. case_decide; [by intros [= <-] | by apply He].
    + intros c Hc. unfold connected. cbn. rewrite (u64_small c) by (unfold is_u32 in Hc; lia).
      rewrite arr_at_put. case_decide as Hd.
      * subst c. rewrite Z.eqb_refl, (proj2 (Z.ltb_lt _ _)) by lia. cbn. by rewrite orb_true_r.
      * rewrite (proj2 (Z.eqb_neq c id)) by done. cbn. by rewrite orb_false_r.
Qed.

Lemma fresh_ok : exchange_ok Exchange empty_book.
Proof.
  split; [split; [done | by intros i c _; cbn; rewrite arr_at_make] | apply initial_book | done | done | done].
Qed.

(** ** Sessions *)

Lemma input_ok x A i :
  exchange_ok x A → valid_input i → A.(a_next_id) + 1 < 2 ^ 32 →
  ∃ x' calls A', handle_input x i = Done (x', calls) ∧ exchange_ok x' A' ∧
    A'.(a_next_id) <= A.(a_next_id) + 1.
Proof.
  intros HE Hv Hid. destruct i as [|msg times]; cbn [handle_input].
  - destruct (accept_ok x A HE) as (x' & -> & HE' & _). eexists x', _, A. split; [reflexivity|]. split; [done | lia].
  - destruct Hv as [Hw _]. destruct (dispatch_ok x A msg times HE Hw Hid) as (x' & calls & A' & -> & HE' & _ & Hn).
    eauto 10.
Qed.

Lemma run_inputs_ok x A ins :
  exchange_ok x A → Forall valid_input ins → A.(a_next_id) + Z.of_nat (length ins) < 2 ^ 32 →
  ∃ x' calls A', run_inputs x ins = Done (x', calls) ∧ exchange_ok x' A' ∧
    A'.(a_next_id) <= A.(a_next_id) + Z.of_nat (length ins).
Proof.
  intros HE Hv. revert x A HE. induction Hv as [|i ins Hi _ IH]; intros x A HE Hid; cbn [run_inputs length] in *.
  { exists x, [], A. split; [done|]. split; [done | lia]. }
  destruct (input_ok x A i HE Hi) as (x1 & calls1 & A1 & -> & HE1 & Hn1); [lia|]. run_bind.
  destruct (IH x1 A1 HE1) as (x2 & calls2 & A2 & -> & HE2 & Hn2); [lia|]. run_bind.
  exists x2, (calls1 ++ calls2), A2. split; [done|]. split; [done | lia].
Qed.
