(* ===== verification/ExchangeFeed.v ===== *)
(** The feed of one subscriber over a session: the order, the numbers and the
    content of the public messages it is sent. *)

From stdpp Require Import functions.
From S2P Require Import Prelude Types OrderBook BookSpec BookLinks BookView BookRep BookRefinement BookFeed Codec Payloads Protocol SpscQueue Connection Exchange ExchangeCalls ExchangeEvents ExchangeSession.
Import Exchange.

(** ** A subscriber *)

(** How often [c] is in the list of subscribers. *)
Definition subscriptions (x : t) (c : Id_t) : nat :=
  length (filter (c =.) x.(market_data_subscribers_)).

(** [c] is connected and subscribed once. *)
Definition listening (x : t) (c : Id_t) : bool :=
  connected x c && (subscriptions x c =? 1)%nat.

(** The input is not a request of [c] to change its subscription or leave. *)
Definition stays (c : Id_t) (i : Input) : bool :=
  match i with
  | Accept => true
  | Inbound msg _ =>
      negb (msg.(connection_id) =? c) ||
      match MessageType_of_u8 msg.(message_type) with
      | SUBSCRIBE | UNSUBSCRIBE | DISCONNECT => false
      | _ => true
      end
  end.

Lemma u64_u32 c : is_u32 c → u64 c = c.
Proof. intros H. apply u64_small. unfold is_u32 in H. lia. Qed.

Lemma copies_subscriptions x A c :
  exchange_ok x A → is_u32 c → copies x c = if connected x c then subscriptions x c else 0%nat.
Proof.
  intros HE Hc. unfold copies, audience, subscriptions.
  pose proof (eo_subscribers _ _ HE) as Hs.
  induction Hs as [|cid cids Hcid _ IH]; [by destruct (connected x c)|].
  rewrite !filter_cons. destruct (connected x cid) eqn:E.
  - rewrite decide_True by done. cbn [map]. rewrite filter_cons, u64_u32 by done.
    destruct (decide (c = cid)) as [<-|Hne]; [|done]. rewrite E in IH |- *. cbn [length]. by rewrite IH.
  - rewrite decide_False by done. rewrite IH. destruct (connected x c) eqn:Ec; [|done].
    rewrite decide_False by (intros ->; congruence). done.
Qed.

Lemma listening_copies x A c :
  exchange_ok x A → is_u32 c → listening x c = true → copies x c = 1%nat.
Proof.
  intros HE Hc [Hl Hs]%andb_true_iff. rewrite (copies_subscriptions x A c HE Hc), Hl. by apply Nat.eqb_eq.
Qed.

Lemma subscriptions_other x id c :
  id ≠ c → subscriptions (unsubscribe_market_feed_ x id) c = subscriptions x c.
Proof.
  intros Hne. destruct (unsubscribe_Permutation x id) as (_ & Hin & Hout). unfold subscriptions.
  destruct (decide (id ∈ x.(market_data_subscribers_))) as [H|H]; [|by rewrite (Hout H)].
  rewrite (Hin H), filter_cons_False by congruence. done.
Qed.

Lemma subscriptions_snoc x id c :
  id ≠ c → subscriptions (set_subscribers x (x.(market_data_subscribers_) ++ [id])) c = subscriptions x c.
Proof.
  intros Hne. unfold subscriptions. cbn. rewrite filter_app, filter_cons_False by congruence.
  by rewrite app_nil_r.
Qed.

Lemma same_listening x x' c : same_clients x x' → listening x' c = listening x c.
Proof.
  intros HS. unfold listening, subscriptions. by rewrite (same_connected _ _ _ HS), (sc_subscribers _ _ HS).
Qed.

Lemma unsubscribe_connected x id c : connected (unsubscribe_market_feed_ x id) c = connected x c.
Proof. by destruct (unsubscribe_Permutation x id) as [-> _]. Qed.

(** ** Reading the feed *)

(** What a subscriber does with a message of the feed. *)
Definition client_replay (f : Feed) (m : Message) : Feed :=
  match MessageType_of_u8 m.1 with
  | PRICE_LEVEL_UPDATE =>
      let p := decode PayloadPriceLevelUpdate.layout m.2 in
      let side := if p.(PayloadPriceLevelUpdate.side) =? Side_to_u8 BUY then BUY else SELL in
      λ side' price', if decide (side' = side ∧ price' = p.(PayloadPriceLevelUpdate.price))
                      then p.(PayloadPriceLevelUpdate.total_volume) else f side' price'
  | _ => f
  end.

Definition same_feed (f g : Feed) : Prop := ∀ side price, f side price = g side price.

Lemma client_replay_same f g m : same_feed f g → same_feed (client_replay f m) (client_replay g m).
Proof.
  intros H side price. unfold client_replay.
  destruct (MessageType_of_u8 m.1); try apply H. case_decide; [done | apply H].
Qed.

Lemma client_replay_all_same f g ms : same_feed f g → same_feed (foldl client_replay f ms) (foldl client_replay g ms).
Proof. revert f g. induction ms as [|m ms IH]; intros f g H; [done|]. by apply IH, client_replay_same. Qed.

(** Decoding the message of an event replays the event. *)
Lemma client_replay_event f seq trade e :
  is_u32 seq → update_fits e →
  same_feed (foldl client_replay f (option_list (publication seq trade e))) (replay f e).
Proof.
  intros Hs He side price. destruct e; try done.
  destruct He as (Hp & Ht & Hn). cbn [publication option_list option_rect foldl].
  unfold client_replay. cbn [fst snd payload_bytes].
  change (MessageType_of_u8 (MessageType_to_u8 PRICE_LEVEL_UPDATE)) with PRICE_LEVEL_UPDATE. cbv iota.
  set (p := make_price_level_update _ _ _ _ _).
  assert (decode PayloadPriceLevelUpdate.layout (encode PayloadPriceLevelUpdate.layout p) = p) as ->.
  { rewrite <- (app_nil_r (encode _ _)). apply decode_encode.
    unfold MINIMUM_BID, MAXIMUM_ASK, is_u32, is_time in *. cbn. destruct side0; cbn; lia. }
  by destruct side0.
Qed.

Lemma client_replay_feed f x evs :
  is_u32 x.(sequence_number_) → Forall update_fits evs →
  same_feed (foldl client_replay f (feed_of x evs)) (foldl replay f evs).
Proof.
  intros Hs Hev. revert f x Hs. induction Hev as [|e evs He _ IH]; intros f x Hs; [done|].
  cbn [feed_of foldl]. rewrite foldl_app. intros side price.
  rewrite (client_replay_all_same _ (replay f e)) by (by apply client_replay_event).
  apply IH, numbered_sequence, Hs.
Qed.

(** ** One input *)

Lemma feed_numbers x evs :
  is_u32 x.(sequence_number_) →
  map sequence_of (feed_of x evs) = map u32 (seqZ x.(sequence_number_) (Z.of_nat (length (feed_of x evs)))) ∧
  (foldl numbered x evs).(sequence_number_) = u32 (x.(sequence_number_) + Z.of_nat (length (feed_of x evs))).
Proof.
  intros Hs. destruct (feed_sequence x evs Hs) as [E1 E2].
  assert (length (feed_of x evs) = length (filter (λ e, published e = true) evs)) as ->; [|done].
  apply (f_equal length) in E1. rewrite !length_map, length_seqZ in E1. lia.
Qed.

(** What the feed of [c] is to an input: the public messages [ms], which are
    logged, numbered from the current number on, and show [c] the new book. *)
Record fed (x : t) (A : ABook) (c : Id_t) (calls : list Call) (x' : t) (A' : ABook) : Prop := MkFed {
  fd_logged : feed_to c calls = logged calls;
  fd_numbers : map sequence_of (feed_to c calls) =
    map u32 (seqZ x.(sequence_number_) (Z.of_nat (length (feed_to c calls))));
  fd_next : x'.(sequence_number_) = u32 (x.(sequence_number_) + Z.of_nat (length (feed_to c calls)));
  fd_knows f : knows_book f A → knows_book (foldl client_replay f (feed_to c calls)) A'
}.

Lemma fed_nothing x A c calls x' :
  exchange_ok x A → (∀ d, sent_to d calls = []) → logged calls = [] →
  x'.(sequence_number_) = x.(sequence_number_) → fed x A c calls x' A.
Proof.
  intros HE Hs Hl Hn. unfold feed_to.
  split; unfold feed_to; rewrite ?(Hs c); cbn; [done | done | | done].
  rewrite Hn, Z.add_0_r. symmetry. apply u32_small, HE.
Qed.

Lemma concat_single {A} (l : list A) : concat (map (replicate 1) l) = l.
Proof. induction l as [|a l IH]; cbn in *; congruence. Qed.

Lemma fed_request x A c book evs A' now now_match now_add r :
  exchange_ok x A → is_u32 c → listening x c = true →
  is_time now → is_time now_match → is_time now_add →
  book_step A now now_match now_add r A' evs →
  let x1 := set_book x book x.(trade_id_) x.(sequence_number_) in
  fed x A c (calls_of x1 evs) (foldl numbered x1 evs) A'.
Proof.
  intros HE Hc Hl Hn Hm Ha Hstep x1.
  assert (feed_to c (calls_of x1 evs) = feed_of x1 evs) as Hfeed.
  { destruct (feed_calls c x1 evs) as [-> _]. rewrite (same_copies x) by apply set_book_same.
    by rewrite (listening_copies x A), concat_single. }
  assert (is_u32 x1.(sequence_number_)) as Hs by apply HE.
  destruct (feed_numbers x1 evs Hs) as [E1 E2].
  split; rewrite ?Hfeed; [|done | done |].
  - by destruct (feed_calls c x1 evs) as [_ ->].
  - intros f Hf bid k.
    assert (Forall update_fits evs) as Hfit.
    { eapply step_fits; [|apply Hn | apply Hm | apply Ha | done].
      intros b. eapply represents_best_range, HE. }
    rewrite (client_replay_feed f x1 evs Hs Hfit). by apply (step_replay _ _ _ _ _ _ _ _ Hstep).
Qed.

Lemma input_fed x A c i :
  exchange_ok x A → is_u32 c → valid_input i → A.(a_next_id) + 1 < 2 ^ 32 →
  listening x c = true → stays c i = true →
  ∃ x' calls A', handle_input x i = Done (x', calls) ∧ exchange_ok x' A' ∧
    A'.(a_next_id) <= A.(a_next_id) + 1 ∧ listening x' c = true ∧ fed x A c calls x' A'.
Proof.
  intros HE Hc Hv Hid Hl Hst. destruct i as [|msg times]; cbn [handle_input].
  { destruct (accept_ok x A HE) as (x' & -> & HE' & Hsub & Hseq & _ & Hcon).
    eexists x', [], A. split; [reflexivity|]. split; [done|]. split; [lia|]. split; [|by eapply fed_nothing].
    unfold listening, subscriptions in *. rewrite Hsub, Hcon by done.
    apply andb_true_iff in Hl as [-> ->]. done. }
  destruct Hv as [Hw Ht].
  destruct (dispatch_ok x A msg times HE Hw Hid) as (x' & calls & A' & -> & HE' & Hd & Hn).
  exists x', calls, A'. split; [done|]. split; [done|]. split; [done|].
  assert (∀ type, MessageType_of_u8 msg.(message_type) = type →
    type = SUBSCRIBE ∨ type = UNSUBSCRIBE ∨ type = DISCONNECT → msg.(connection_id) ≠ c) as Hne.
  { intros type Ety Hty Ec. cbn in Hst. rewrite Ec, Z.eqb_refl, Ety in Hst. by destruct Hty as [-> | [-> | ->]]. }
  destruct Hd as [r book evs A' Er Hstep x1 | bv bp av ap Ety ES | Ety | x' Ety Er | ].
  - destruct times as [[now now_match] now_add], Ht as (Hnow & Hm & Ha). cbn in Hstep. split.
    + rewrite (same_listening x1) by apply numbered_all_same. by rewrite (same_listening x).
    + by apply (fed_request x A c book evs A' now now_match now_add r).
  - specialize (Hne _ Ety ltac:(auto)). split.
    + unfold listening in *. by rewrite subscriptions_snoc.
    + by apply fed_nothing; [done | intros d; destruct (connected _ _) | destruct (connected _ _) |].
  - specialize (Hne _ Ety ltac:(auto)). split.
    + unfold listening in *. by rewrite subscriptions_other, unsubscribe_connected.
    + apply fed_nothing; [done..|]. by destruct (unsubscribe_Permutation x (connection_id msg)) as [-> _].
  - specialize (Hne _ Ety ltac:(auto)).
    pose proof (remove_connection_connected _ _ _ _ c (eo_table _ _ HE) Er) as Hcon.
    destruct (remove_connection_ok x (connection_id msg) (eo_table _ _ HE)) as (conns & E & _).
    rewrite E in Er. injection Er as <-. split.
    + unfold listening in *. rewrite Hcon. apply andb_true_iff in Hl as [-> Hl].
      rewrite !u64_u32, (proj2 (Z.eqb_neq _ _)) by (done || apply Hw || congruence). cbn [andb negb].
      rewrite <- (subscriptions_other x (connection_id msg) c Hne) in Hl. exact Hl.
    + apply fed_nothing; [done..|]. cbn. by destruct (unsubscribe_Permutation x (connection_id msg)) as [-> _].
  - split; [done | by apply fed_nothing].
Qed.

(** ** A session *)

Lemma fed_app x A c calls x1 A1 calls' x2 A2 :
  fed x A c calls x1 A1 → fed x1 A1 c calls' x2 A2 → fed x A c (calls ++ calls') x2 A2.
Proof.
  intros [L1 N1 E1 K1] [L2 N2 E2 K2]. split; rewrite ?feed_to_app, ?logged_app.
  - congruence.
  - rewrite map_app, N1, N2, E1, wrap_seqZ, length_app, Nat2Z.inj_add, seqZ_app by lia. by rewrite map_app.
  - rewrite E2, E1, u32_add_l, length_app. f_equal. lia.
  - intros f Hf. rewrite foldl_app. by apply K2, K1.
Qed.

Lemma session_fed x A c ins :
  exchange_ok x A → is_u32 c → Forall valid_input ins →
  A.(a_next_id) + Z.of_nat (length ins) < 2 ^ 32 →
  listening x c = true → forallb (stays c) ins = true →
  ∃ x' calls A', run_inputs x ins = Done (x', calls) ∧ exchange_ok x' A' ∧
    listening x' c = true ∧ fed x A c calls x' A'.
Proof.
  intros HE Hc Hv. revert x A HE. induction Hv as [|i ins Hi _ IH]; intros x A HE Hid Hl Hst;
    cbn [run_inputs length forallb] in *.
  { exists x, [], A. split; [done|]. split; [done|]. split; [done | by apply fed_nothing]. }
  apply andb_true_iff in Hst as [Hst1 Hst].
  destruct (input_fed x A c i HE Hc Hi) as (x1 & calls1 & A1 & -> & HE1 & Hn1 & Hl1 & HF1);
    [lia | done | done |]. run_bind.
  destruct (IH x1 A1 HE1) as (x2 & calls2 & A2 & -> & HE2 & Hl2 & HF2); [lia | done | done |].
  run_bind. exists x2, (calls1 ++ calls2), A2.
  split; [done|]. split; [done|]. split; [done | by eapply fed_app].
Qed.

(** ** Silence *)

(** All that is sent to a connection, through its queue or around it. *)
Definition reached (c : Id_t) (calls : list Call) : bool :=
  existsb (λ call, match call with
                   | call_send_message d _ _ | call_send_message_unbuffered d _ _ => d =? c
                   | _ => false
                   end) calls.

Lemma reached_app c calls calls' : reached c (calls ++ calls') = reached c calls || reached c calls'.
Proof. apply existsb_app. Qed.

Lemma connected_u64 x d : connected x (u64 d) = connected x d.
Proof. unfold connected. by rewrite (u64_small (u64 d)) by apply u64_range. Qed.

Lemma absent_private x c ds : connected x c = false → reached c (send_private x ds) = false.
Proof.
  intros Hcon. unfold send_private. induction ds as [|[d [ty pl]] ds IH]; [done|]. cbn [map concat].
  rewrite reached_app, IH, orb_false_r. destruct (connected x d) eqn:E; [|done]. cbn.
  rewrite orb_false_r. apply Z.eqb_neq. intros Ed. rewrite <- connected_u64, Ed in E. congruence.
Qed.

Lemma absent_public x c m : connected x c = false → reached c (send_public x m) = false.
Proof.
  intros Hcon. destruct m as [[ty pl]|]; [|done]. cbn [send_public]. rewrite reached_app.
  change (reached c [call_log_message _ _]) with false. rewrite orb_false_r. unfold audience. induction (market_data_subscribers_ x) as [|d ds IH]; [done|].
  rewrite filter_cons. destruct (connected x d) eqn:E; [|by rewrite decide_False].
  rewrite decide_True by done. cbn [map]. unfold reached in *. cbn [existsb].
  rewrite IH, orb_false_r. apply Z.eqb_neq. intros Ed.
  rewrite <- connected_u64, Ed in E. congruence.
Qed.

Lemma absent_calls x c evs : connected x c = false → reached c (calls_of x evs) = false.
Proof.
  revert x. induction evs as [|e evs IH]; intros x Hcon; [done|]. cbn [calls_of].
  rewrite !reached_app, absent_private, absent_public by done. apply IH.
  by rewrite (same_connected x) by apply numbered_same.
Qed.

(** A connection that is not in the table, and whose id has been given out or is
    beyond the table, stays out of it and is sent nothing. *)
Lemma input_silent x A c i :
  exchange_ok x A → is_u32 c → valid_input i → A.(a_next_id) + 1 < 2 ^ 32 →
  connected x c = false → c < x.(next_connection_id_) ∨ MAX_CONNECTIONS <= c →
  x.(next_connection_id_) + 1 < 2 ^ 32 →
  ∃ x' calls A', handle_input x i = Done (x', calls) ∧ exchange_ok x' A' ∧
    A'.(a_next_id) <= A.(a_next_id) + 1 ∧ connected x' c = false ∧ reached c calls = false ∧
    x.(next_connection_id_) <= x'.(next_connection_id_) <= x.(next_connection_id_) + 1.
Proof.
  intros HE Hc Hv Hid Hcon Hgone Hwrap. destruct i as [|msg times]; cbn [handle_input].
  { destruct (accept_ok x A HE) as (x' & E & HE' & _ & _ & _ & Hcon'). rewrite E.
    eexists x', [], A. split; [reflexivity|]. split; [done|]. split; [lia|]. split; [|split; [done|]].
    - rewrite Hcon' by done. rewrite Hcon. cbn. destruct Hgone as [H|H].
      + by rewrite (proj2 (Z.eqb_neq _ _)) by lia.
      + rewrite (proj2 (Z.ltb_ge _ _)) by lia. apply andb_false_r.
    - unfold on_accepted_, accept_connection, publish_connection_ in E.
      pose proof (eo_next _ _ HE) as Hn. unfold is_u32 in Hn.
      assert (next_connection_id_ x' = u32 (next_connection_id_ x + 1)) as ->; [|rewrite u32_small; lia].
      destruct (_ <=? _); [by injection E as <-|]. destruct (arr_set _ _ _); [by injection E as <- | done | done]. }
  destruct Hv as [Hw Ht].
  destruct (dispatch_ok x A msg times HE Hw Hid) as (x' & calls & A' & -> & HE' & Hd & Hn).
  exists x', calls, A'. split; [done|]. split; [done|]. split; [done|].
  destruct Hd as [r book evs A' Er Hstep x1 | bv bp av ap Ety ES | Ety | x' Ety Er | ].
  - assert (same_clients x (foldl numbered x1 evs)) as HS
      by (eapply same_clients_trans; [apply set_book_same | apply numbered_all_same]).
    rewrite (same_connected _ _ _ HS), (sc_next _ _ HS). split; [done|]. split; [by apply absent_calls | lia].
  - split; [done|]. split; [|cbn; lia]. destruct (connected x (connection_id msg)) eqn:E; [|done]. cbn.
    rewrite orb_false_r. apply Z.eqb_neq. intros Ed. rewrite <- connected_u64, Ed in E. congruence.
  - rewrite unsubscribe_connected. split; [done|]. split; [done|].
    destruct (unsubscribe_Permutation x (connection_id msg)) as [-> _]. cbn. lia.
  - rewrite (remove_connection_connected _ _ _ _ c (eo_table _ _ HE) Er), Hcon. split; [done|]. split; [done|].
    destruct (remove_connection_ok x (connection_id msg) (eo_table _ _ HE)) as (conns & E & _).
    rewrite E in Er. injection Er as <-. cbn.
    destruct (unsubscribe_Permutation x (connection_id msg)) as [-> _]. cbn. lia.
  - split; [done|]. split; [done | lia].
Qed.

Lemma session_silent x A c ins :
  exchange_ok x A → is_u32 c → Forall valid_input ins →
  A.(a_next_id) + Z.of_nat (length ins) < 2 ^ 32 →
  connected x c = false → c < x.(next_connection_id_) ∨ MAX_CONNECTIONS <= c →
  x.(next_connection_id_) + Z.of_nat (length ins) < 2 ^ 32 →
  ∃ x' calls, run_inputs x ins = Done (x', calls) ∧ reached c calls = false ∧ connected x' c = false.
Proof.
  intros HE Hc Hv. revert x A HE. induction Hv as [|i ins Hi _ IH]; intros x A HE Hid Hcon Hgone Hwrap;
    cbn [run_inputs length] in *; [by exists x, []|].
  destruct (input_silent x A c i HE Hc Hi) as (x1 & calls1 & A1 & -> & HE1 & Hn1 & Hc1 & Hr1 & Hx1);
    [lia | done | done | lia |]. run_bind.
  destruct (IH x1 A1 HE1) as (x2 & calls2 & -> & Hr2 & Hc2); [lia | done | lia | lia |].
  run_bind. exists x2, (calls1 ++ calls2). rewrite reached_app, Hr1, Hr2. done.
Qed.
