(* ===== verification/ExchangeReplies.v ===== *)
(** Who is sent what for a request: the reply to the client that made it, fills
    to the owners of the orders, and the public feed. *)

From S2P Require Import Prelude Types OrderBook BookSpec BookLinks BookView BookRep BookRefinement Codec Payloads Protocol SpscQueue Connection Exchange ExchangeCalls ExchangeEvents.
Import Exchange.

(** Confirmations and errors; each starts with the id of the request. *)
Definition is_reply_message (m : Message) : bool :=
  match MessageType_of_u8 m.1 with
  | CONFIRM_ORDER_INSERTED | CONFIRM_ORDER_CANCELLED | CONFIRM_ORDER_AMENDED | ERROR_MSG => true
  | _ => false
  end.

Definition request_id (m : Message) : Z := le_decode 4 m.2.

Definition replies_to (c : Id_t) (calls : list Call) : list Message :=
  filter (λ m, is_reply_message m = true) (sent_to c calls).

Lemma replies_to_app c calls calls' :
  replies_to c (calls ++ calls') = replies_to c calls ++ replies_to c calls'.
Proof. unfold replies_to. by rewrite sent_to_app, filter_app. Qed.

(** A message of the feed is not a reply. *)
Lemma publication_public seq trade e m : publication seq trade e = Some m → is_public m = true.
Proof. by destruct e; intros [= <-]. Qed.

Lemma public_not_reply m : is_public m = true → is_reply_message m = false.
Proof. unfold is_public, is_reply_message. by destruct (MessageType_of_u8 m.1). Qed.

Lemma sent_public x c seq trade e m :
  m ∈ sent_to c (send_public x (publication seq trade e)) → is_public m = true.
Proof.
  destruct (publication seq trade e) as [[ty pl]|] eqn:E; [|by intros Hn%list_elem_of_In].
  apply publication_public in E. cbn [send_public]. rewrite sent_to_app, sent_broadcast, elem_of_app.
  intros [H|H]; [|by apply list_elem_of_In in H]. apply elem_of_replicate in H as [-> _]. done.
Qed.

Lemma no_public_replies x c seq trade e :
  replies_to c (send_public x (publication seq trade e)) = [].
Proof.
  apply filter_none. intros m Hm%sent_public%public_not_reply. congruence.
Qed.

(** One reply, which starts with the id of the request. *)
Lemma reply_single c type payload req :
  is_reply_message (MessageType_to_u8 type, payload) = true → (∃ rest, payload = le_encode 4 req ++ rest) →
  is_u32 req →
  map request_id (replies_to c [call_send_message c (MessageType_to_u8 type) payload]) = [req].
Proof.
  intros Hr [rest ->] Hreq. unfold replies_to, sent_to. cbn [omap list_omap]. rewrite Z.eqb_refl.
  cbn [list_filter filter]. rewrite decide_True by done. unfold request_id. cbn [map snd].
  by rewrite le_decode_encode.
Qed.

(** A fill is not a reply. *)
Lemma fill_not_reply c (b : bool) d payload :
  replies_to c (if b then [call_send_message d (MessageType_to_u8 PARTIAL_FILL_ORDER) payload] else []) = [].
Proof.
  destruct b; [|done]. unfold replies_to, sent_to. cbn [omap list_omap]. by destruct (d =? c).
Qed.

(** The reply an event makes, seen by the client of the request. *)
Lemma private_replies x client req trade e :
  answers client req e → is_u32 client → is_u32 req → connected x client = true →
  map request_id (replies_to client (send_private x (private trade e))) =
    if is_reply e then [req] else [].
Proof.
  intros He Hc Hr Hcon. assert (u64 client = client) as Hu by (apply u64_small; unfold is_u32 in Hc; lia).
  unfold send_private. destruct e as [maker taker order price total cumulative traded now | r o now
    | r o now | r old o now | side price total now | c r code text now]; cbn [answers] in He;
    [subst taker; cbn [private map concat]; by rewrite app_nil_r, replies_to_app, !fill_not_reply
    | destruct He as [-> Ho] | destruct He as [-> Ho] | destruct He as [-> Ho] | | destruct He as [-> ->]];
    try rewrite <- Ho in *; cbn [private map concat]; rewrite ?app_nil_r, ?Hcon, ?Hu; try done.
  all: apply reply_single; [done | | done]; eexists; cbn -[le_encode]; rewrite <- ?app_assoc; reflexivity.
Qed.

Lemma replies_of_events x client req evs :
  Forall (answers client req) evs → is_u32 client → is_u32 req → connected x client = true →
  map request_id (replies_to client (calls_of x evs)) =
    map (λ _, req) (filter (λ e, is_reply e = true) evs).
Proof.
  intros Hev Hc Hr. revert x. induction Hev as [|e evs He _ IH]; intros x Hcon; [done|]. cbn [calls_of].
  rewrite !replies_to_app, no_public_replies, app_nil_r, map_app, (private_replies _ _ req) by done.
  rewrite IH by (by rewrite (same_connected x) by apply numbered_same). rewrite filter_cons.
  by destruct (is_reply e).
Qed.

(** A fill of an order of the client [d] that rests in the book: it names the order,
    trades at its price a positive quantity of what is left of it, and accounts for
    its quantities. *)
Definition own_fill (A : ABook) (d : Id_t) (m : Message) : Prop :=
  ∃ is_bid k o trade traded now,
    o ∈ (a_side A is_bid).(a_queue) k ∧ u64 o.(od_client_id) = d ∧ 0 < traded <= o.(od_remaining) ∧
    m = (MessageType_to_u8 PARTIAL_FILL_ORDER,
         payload_bytes (PPartialFill (make_partial_fill o.(od_order_id) trade o.(od_price) traded
           (o.(od_remaining) - traded) (o.(od_cumulative) + traded) now))).

(** Something is left of every order that rests in the book. *)
Definition all_remaining (A : ABook) : Prop :=
  ∀ is_bid k o, o ∈ (a_side A is_bid).(a_queue) k → 0 < od_remaining o.

Lemma represents_remaining b A : represents b A → all_remaining A.
Proof.
  intros (ls & fl & D & HR) is_bid k o Ho. pose proof (rb_side _ _ _ _ _ HR is_bid) as HS.
  rewrite (rp_queue _ _ _ _ _ _ HS) in Ho. apply list_elem_of_fmap in Ho as (i & -> & Hi).
  by eapply gd_remaining, (rp_good _ _ _ _ _ _ HS).
Qed.

(** Another client is sent public messages and fills of its own orders only. *)
Lemma private_others x A client req trade e d m :
  all_remaining A → answers client req e → (∃ bid, fills_order (a_side A bid).(a_queue) e) → is_u32 client → d ≠ client →
  m ∈ sent_to d (send_private x (private trade e)) → own_fill A d m.
Proof.
  intros Hrem He [bid Hfill] Hc Hne. assert (u64 client = client) as Hu by (apply u64_small; unfold is_u32 in Hc; lia).
  assert (∀ type payload, m ∉ sent_to d (if connected x client
    then [call_send_message (u64 client) type payload] else [])) as Hno.
  { intros ty pl. destruct (connected x client); unfold sent_to; cbn; [|apply not_elem_of_nil].
    rewrite Hu, (proj2 (Z.eqb_neq client d)) by done. apply not_elem_of_nil. }
  unfold send_private. destruct e as [maker taker order price total cumulative traded now | r o now
    | r o now | r old o now | side price total now | c r code text now]; cbn [answers] in He;
    [subst taker | destruct He as [-> Ho] | destruct He as [-> Ho] | destruct He as [-> Ho] | | destruct He as [-> ->]];
    cbn [private map concat]; rewrite ?app_nil_r, ?Ho; try (intros Hm; by apply Hno in Hm).
  - rewrite sent_to_app, elem_of_app. intros [Hm|Hm]; [|by apply Hno in Hm].
    destruct Hfill as (k & o & Ho & -> & -> & Hle & Hpos). specialize (Hpos (Hrem _ _ _ Ho)). cbn [fill od_client_id od_order_id od_remaining od_cumulative] in Hm.
    destruct (connected x (od_client_id o)); [|by apply not_elem_of_nil in Hm].
    unfold sent_to in Hm. cbn [omap list_omap] in Hm. destruct (Z.eqb_spec (u64 (od_client_id o)) d) as [Ed|]; [|by apply elem_of_nil in Hm].
    apply list_elem_of_singleton in Hm as ->. by exists bid, k, o, trade, traded, now.
  - by intros ?%not_elem_of_nil.
Qed.

Lemma events_others x A client req evs d m :
  all_remaining A →
  Forall (answers client req) evs → Forall (λ e, ∃ bid, fills_order (a_side A bid).(a_queue) e) evs →
  is_u32 client → d ≠ client → m ∈ sent_to d (calls_of x evs) → is_public m = true ∨ own_fill A d m.
Proof.
  intros Hrem Hev Hfill Hc Hne. revert x Hfill. induction Hev as [|e evs He _ IH]; intros x Hfill; cbn [calls_of].
  { by intros ?%not_elem_of_nil. }
  apply Forall_cons in Hfill as [Hf Hfill].
  rewrite !sent_to_app, !elem_of_app. intros [[Hm|Hm]|Hm].
  - right. by eapply private_others.
  - left. by eapply sent_public.
  - by eapply IH.
Qed.
