(* ===== verification/ExchangeTheorems.v ===== *)
(** What the exchange guarantees for every session that starts with the
    constructed [Exchange]: connections are accepted and messages of any bytes
    arrive, in any order. *)

From stdpp Require Import functions.
From S2P Require Import Prelude Types OrderBook BookSpec BookLinks BookView BookRep BookRefinement BookDebug BookFeed Codec Payloads Protocol SpscQueue Connection Exchange ExchangeCalls ExchangeEvents ExchangeSession ExchangeFeed ExchangeReplies.
Import Exchange.

(** ** The start of a session *)

Lemma session_ok ins :
  Forall valid_input ins → Z.of_nat (length ins) < 2 ^ 32 →
  ∃ x calls A, run_inputs Exchange ins = Done (x, calls) ∧ exchange_ok x A ∧
    A.(a_next_id) <= Z.of_nat (length ins).
Proof.
  intros Hv Hl. destruct (run_inputs_ok Exchange empty_book ins fresh_ok Hv) as (x & calls & A & E & HE & Hn);
    [cbn; lia|]. exists x, calls, A. split; [done|]. split; [done|]. cbn in Hn. lia.
Qed.

(** The next id of a connection is bounded by the length of the session. *)
Lemma input_next x A i x' calls :
  exchange_ok x A → valid_input i → A.(a_next_id) + 1 < 2 ^ 32 → x.(next_connection_id_) + 1 < 2 ^ 32 →
  handle_input x i = Done (x', calls) → x'.(next_connection_id_) <= x.(next_connection_id_) + 1.
Proof.
  intros HE Hv Hid Hn. destruct (decide (connected x MAX_CONNECTIONS = false)) as [Hc|Hc].
  2:{ destruct Hc. unfold connected. by rewrite (u64_small MAX_CONNECTIONS). }
  destruct (input_silent x A MAX_CONNECTIONS i HE) as (x1 & calls1 & A1 & -> & _ & _ & _ & _ & Hx);
    [done | done | done | done | right; lia | done |]. intros [= <- <-]. lia.
Qed.

Lemma run_inputs_next x A ins x' calls :
  exchange_ok x A → Forall valid_input ins → A.(a_next_id) + Z.of_nat (length ins) < 2 ^ 32 →
  x.(next_connection_id_) + Z.of_nat (length ins) < 2 ^ 32 →
  run_inputs x ins = Done (x', calls) →
  x'.(next_connection_id_) <= x.(next_connection_id_) + Z.of_nat (length ins).
Proof.
  intros HE Hv. revert x A calls HE. induction Hv as [|i ins Hi _ IH]; intros x A calls HE Hid Hn;
    cbn [run_inputs length] in *; [intros [= <- <-]; lia|].
  destruct (input_ok x A i HE Hi) as (x1 & calls1 & A1 & E1 & HE1 & Hn1); [lia|].
  pose proof (input_next x A i x1 calls1 HE Hi ltac:(lia) ltac:(lia) E1). rewrite E1. run_bind.
  destruct (run_inputs x1 ins) as [[x2 calls2]| |] eqn:E2; [|done|done]. run_bind.
  intros [= -> <-]. pose proof (IH x1 A1 calls2 HE1 ltac:(lia) ltac:(lia) E2). lia.
Qed.

(** Validity of inputs, as a check. *)
Definition check_input (i : Input) : bool :=
  match i with
  | Accept => true
  | Inbound msg ((now, now_match), now_add) =>
      (length msg.(msg_payload) =? MAX_PAYLOAD_SIZE_BUFFER)%nat &&
      forallb (λ b, (0 <=? b) && (b <? 2 ^ 8)) msg.(msg_payload) &&
      forallb (λ z, (0 <=? z) && (z <? 2 ^ 32)) [msg.(connection_id)] &&
      forallb (λ z, (0 <=? z) && (z <? 2 ^ 64)) [now; now_match; now_add]
  end.

Lemma check_input_ok ins : forallb check_input ins = true → Forall valid_input ins.
Proof.
  rewrite forallb_forall, Forall_forall. intros H i Hi%list_elem_of_In. specialize (H i Hi).
  destruct i as [|msg [[now now_match] now_add]]; [done|]. cbn [check_input] in H.
  apply andb_true_iff in H as [[[Hl Hb]%andb_true_iff Hid]%andb_true_iff Ht].
  cbn in Hid, Ht. split; [split; [by apply Nat.eqb_eq | split]|].
  - apply Forall_forall. intros b Hin%list_elem_of_In. rewrite forallb_forall in Hb. specialize (Hb b Hin).
    unfold is_byte. lia.
  - unfold is_u32. lia.
  - unfold well_timed, is_time. lia.
Qed.

(** ** Guarantees *)

(** C2: whatever bytes the clients send and whenever they connect, the exchange
    executes every session of fewer than 2{^32} inputs without undefined
    behaviour and within the fuel of the book's loops, and its book is one of
    the abstract specification. *)
Theorem any_bytes_are_safe (ins : list Input) :
  Forall valid_input ins → Z.of_nat (length ins) < 2 ^ 32 →
  ∃ x calls A, run_inputs Exchange ins = Done (x, calls) ∧ represents x.(order_book_) A.
Proof.
  intros Hv Hl. destruct (session_ok ins Hv Hl) as (x & calls & A & E & HE & _).
  exists x, calls, A. split; [done | apply HE].
Qed.

(** A session: two clients connect and both subscribe, client 0 bids, client 1
    hits the bid with a truncated message that is followed by zeros, client 0
    unsubscribes. *)
Definition message (id : Id_t) (type : MessageType) (payload : bytes) : InboundMessage :=
  queued id (MessageType_to_u8 type) payload.

Definition bid_message : InboundMessage :=
  message 0 INSERT_ORDER
    (payload_bytes (PInsertOrder (make_insert_order 7 BUY 100 10 GOOD_FOR_DAY))).
Definition ask_message : InboundMessage :=
  message 1 INSERT_ORDER
    (payload_bytes (PInsertOrder (make_insert_order 8 SELL 100 4 GOOD_FOR_DAY))).
Definition truncated_message : InboundMessage := message 1 INSERT_ORDER [9; 0; 0; 0; 1].

Definition opening : list Input :=
  [Accept; Accept; Inbound (message 0 SUBSCRIBE []) (1, 2, 3);
   Inbound (message 1 SUBSCRIBE [4; 0; 0; 0]) (4, 5, 6)].
Definition trading : list Input :=
  [Inbound bid_message (7, 8, 9); Inbound ask_message (10, 11, 12);
   Inbound truncated_message (13, 14, 15); Inbound (message 0 UNSUBSCRIBE []) (16, 17, 18)].


Lemma any_bytes_are_safe_witness :
  ∃ x calls A, run_inputs Exchange (opening ++ trading) = Done (x, calls) ∧ represents x.(order_book_) A.
Proof. apply (any_bytes_are_safe (opening ++ trading)); [apply check_input_ok; vm_compute|]; reflexivity. Defined.

(** C13: a subscriber's feed has no gap and no duplicate.  From any point of a
    session at which client [c] is connected and subscribed once, and for as long
    as it stays, the public messages it is sent are those written to the event
    log, in the same order, and carry consecutive sequence numbers starting with
    the current one. *)
Theorem feed_gapless (before ins : list Input) (c : Id_t) x calls0 :
  Forall valid_input (before ++ ins) → Z.of_nat (length (before ++ ins)) < 2 ^ 32 → is_u32 c →
  run_inputs Exchange before = Done (x, calls0) → listening x c = true →
  forallb (stays c) ins = true →
  ∃ x' calls, run_inputs x ins = Done (x', calls) ∧ listening x' c = true ∧
    feed_to c calls = logged calls ∧
    map sequence_of (feed_to c calls) =
      map u32 (seqZ x.(sequence_number_) (Z.of_nat (length (feed_to c calls)))) ∧
    x'.(sequence_number_) = u32 (x.(sequence_number_) + Z.of_nat (length (feed_to c calls))).
Proof.
  intros [Hv1 Hv2]%Forall_app Hl Hc E Hlis Hst. rewrite length_app in Hl.
  destruct (session_ok before Hv1) as (y & calls1 & A & E1 & HE & Hn); [lia|].
  rewrite E in E1. injection E1 as <- <-.
  destruct (session_fed x A c ins HE Hc Hv2) as (x' & calls & A' & E' & _ & Hl' & [F1 F2 F3 _]); [lia | done | done |].
  exists x', calls. auto.
Qed.

(** The exchange after the opening, which client 0 and 1 listen to. *)
Definition result_of (r : outcome (t * list Call)) : t * list Call :=
  match r with Done r => r | _ => (Exchange, []) end.

Definition opened : t * list Call := result_of (run_inputs Exchange opening).

Lemma opened_run : run_inputs Exchange opening = Done (opened.1, opened.2).
Proof.
  assert (match run_inputs Exchange opening with Done _ => true | _ => false end = true) as H
    by (vm_compute; reflexivity).
  unfold opened. by destruct (run_inputs Exchange opening) as [[x calls]| |].
Qed.

Lemma opened_book : opened.1.(order_book_) = OrderBook.OrderBook.
Proof. cbv [opened]. lazy. reflexivity. Qed.

(** What client 1 sees while the clients trade: a level update, an order, a
    trade, a level update. *)
Lemma feed_gapless_witness :
  ∃ x' calls, run_inputs opened.1 trading = Done (x', calls) ∧ feed_to 1 calls = logged calls ∧
    map sequence_of (feed_to 1 calls) = [0; 1; 2; 3] ∧ map fst (feed_to 1 calls) = [27; 24; 23; 27].
Proof.
  destruct (feed_gapless opening trading 1 opened.1 opened.2) as (x' & calls & E & _ & F & N & _).
  - apply check_input_ok. vm_compute. reflexivity.
  - vm_compute. reflexivity.
  - vm_compute. split; congruence.
  - exact opened_run.
  - vm_compute. reflexivity.
  - vm_compute. reflexivity.
  - exists x', calls. split; [exact E|]. split; [exact F|].
    assert (calls = (result_of (run_inputs opened.1 trading)).2) as -> by (rewrite E; reflexivity).
    split; vm_compute; reflexivity.
Defined.

(** [f] knows the total of every price level of the book. *)
Definition shows_levels (f : Feed) (b : OrderBook.t) : Prop :=
  ∀ bid k, 0 <= k < NUM_BOOK_LEVELS →
    ∃ level, OrderBookSide.get_level (OrderBook.get_side b bid) k = Done level ∧
      f (side_of bid) level.(PriceLevel.price_) = level.(PriceLevel.total_quantity_).

Lemma represents_level b A bid k :
  represents b A → 0 <= k < NUM_BOOK_LEVELS →
  ∃ level, OrderBookSide.get_level (OrderBook.get_side b bid) k = Done level ∧
    level.(PriceLevel.price_) = level_price k ∧
    level.(PriceLevel.total_quantity_) = queue_total ((a_side A bid).(a_queue) k).
Proof.
  intros (ls & fl & D & HR) Hk. eexists.
  split; [apply (rep_get_level (rb_side _ _ _ _ _ HR bid) k Hk)|]. cbn. split; [done|].
  unfold totals. by rewrite (rp_queue _ _ _ _ _ _ (rb_side _ _ _ _ _ HR bid)).
Qed.

Lemma knows_shows f b A : represents b A → knows_book f A → shows_levels f b.
Proof.
  intros HR Hf bid k Hk. destruct (represents_level b A bid k HR Hk) as (level & E & Hp & Ht).
  exists level. split; [done|]. rewrite Hp, Ht. apply Hf.
Qed.

(** Outside the levels of the book there is nothing to know. *)
Definition within_levels (f : Feed) : Feed :=
  λ side price, if (MINIMUM_BID <=? price) && (price <=? MAXIMUM_ASK) then f side price else 0.

Lemma shows_knows f b A : represents b A → shows_levels f b → knows_book (within_levels f) A.
Proof.
  intros HR Hf bid k. unfold within_levels.
  destruct (decide (0 <= k < NUM_BOOK_LEVELS)) as [Hk|Hk].
  - pose proof (level_price_range k Hk). rewrite !(proj2 (Z.leb_le _ _)) by lia. cbn [andb].
    destruct (Hf bid k Hk) as (level & E & Hl). destruct (represents_level b A bid k HR Hk) as (level' & E' & Hp & Ht).
    rewrite E in E'. injection E' as <-. by rewrite <- Hp, Hl, Ht.
  - replace (_ && _) with false.
    + destruct HR as (ls & fl & D & HR). rewrite (rp_queue _ _ _ _ _ _ (rb_side _ _ _ _ _ HR bid)).
      by rewrite (sh_outside _ _ _ _ _ _ (sv_shape _ _ _ _ _ _ _ _ (rp_view _ _ _ _ _ _ (rb_side _ _ _ _ _ HR bid))) k Hk).
    + symmetry. apply andb_false_iff. rewrite num_book_levels_val in Hk.
      unfold level_price, MINIMUM_BID, MAXIMUM_ASK. rewrite !Z.leb_gt. lia.
Qed.

Lemma client_replay_point f g ms side price :
  f side price = g side price →
  foldl client_replay f ms side price = foldl client_replay g ms side price.
Proof.
  revert f g. induction ms as [|m ms IH]; intros f g H; [done|]. cbn [foldl]. apply IH.
  unfold client_replay. destruct (MessageType_of_u8 m.1); try apply H. case_decide; done.
Qed.

(** C9: the market data is exact.  A client that is connected and subscribed once,
    that knows the total of every level (as it does from the start, when all are
    zero), and that decodes the level updates it is sent, knows the total of
    every level of the exchange's book at any later point of the session. *)
Theorem market_data_exact (before ins : list Input) (c : Id_t) x calls0 (f : Feed) :
  Forall valid_input (before ++ ins) → Z.of_nat (length (before ++ ins)) < 2 ^ 32 → is_u32 c →
  run_inputs Exchange before = Done (x, calls0) → listening x c = true →
  forallb (stays c) ins = true → shows_levels f x.(order_book_) →
  ∃ x' calls, run_inputs x ins = Done (x', calls) ∧
    shows_levels (foldl client_replay f (feed_to c calls)) x'.(order_book_).
Proof.
  intros [Hv1 Hv2]%Forall_app Hl Hc E Hlis Hst Hf. rewrite length_app in Hl.
  destruct (session_ok before Hv1) as (y & calls1 & A & E1 & HE & Hn); [lia|].
  rewrite E in E1. injection E1 as <- <-.
  destruct (session_fed x A c ins HE Hc Hv2) as (x' & calls & A' & E' & HE' & _ & [_ _ _ F]); [lia | done | done |].
  exists x', calls. split; [done|].
  pose proof (knows_shows _ _ _ (eo_book _ _ HE') (F _ (shows_knows f _ _ (eo_book _ _ HE) Hf))) as HS.
  intros bid k Hk. destruct (HS bid k Hk) as (level & El & Hlev). exists level. split; [done|]. rewrite <- Hlev.
  destruct (represents_level _ _ bid k (eo_book _ _ HE') Hk) as (level' & El' & Hp & _).
  rewrite El in El'. injection El' as <-. apply client_replay_point. unfold within_levels.
  pose proof (level_price_range k Hk). rewrite Hp, !(proj2 (Z.leb_le _ _)) by lia. done.
Qed.

(** Client 1, from an empty book: after the trades it knows that 6 are bid at 100. *)
Lemma market_data_exact_witness :
  ∃ x' calls, run_inputs opened.1 trading = Done (x', calls) ∧
    shows_levels (foldl client_replay empty_feed (feed_to 1 calls)) x'.(order_book_) ∧
    foldl client_replay empty_feed (feed_to 1 calls) BUY 100 = 6.
Proof.
  destruct (market_data_exact opening trading 1 opened.1 opened.2 empty_feed) as (x' & calls & E & F).
  - apply check_input_ok. vm_compute. reflexivity.
  - vm_compute. reflexivity.
  - vm_compute. split; congruence.
  - exact opened_run.
  - vm_compute. reflexivity.
  - vm_compute. reflexivity.
  - rewrite opened_book.
    apply (knows_shows _ _ empty_book initial_book empty_knows).
  - exists x', calls. split; [exact E|]. split; [exact F|].
    assert (calls = (result_of (run_inputs opened.1 trading)).2) as -> by (rewrite E; reflexivity).
    vm_compute. reflexivity.
Defined.

(** Subscribing adds the client to the subscribers and sends it one snapshot:
    the ten best levels of each side, as [build_snapshot] gives them, under the
    sequence number that the next published event will carry. *)
Theorem subscription_snapshot (before : list Input) x calls0 msg times :
  Forall valid_input before → Z.of_nat (length before) + 1 < 2 ^ 32 → well_formed msg →
  run_inputs Exchange before = Done (x, calls0) →
  MessageType_of_u8 msg.(message_type) = SUBSCRIBE → connected x msg.(connection_id) = true →
  ∃ x' bid_volumes bid_prices ask_volumes ask_prices,
    OrderBook.build_snapshot x.(order_book_) = Done ((bid_volumes, bid_prices), (ask_volumes, ask_prices)) ∧
    dispatch_ x msg times = Done (x',
      [call_send_message_unbuffered msg.(connection_id) (MessageType_to_u8 ORDER_BOOK_SNAPSHOT)
         (payload_bytes (POrderBookSnapshot (make_order_book_snapshot (elements ask_prices)
            (elements ask_volumes) (elements bid_prices) (elements bid_volumes) x'.(sequence_number_))))]) ∧
    x'.(order_book_) = x.(order_book_) ∧
    subscriptions x' msg.(connection_id) = S (subscriptions x msg.(connection_id)).
Proof.
  intros Hv Hl Hw E Ety Hcon. destruct (session_ok before Hv) as (y & calls1 & A & E1 & HE & Hn); [lia|].
  rewrite E in E1. injection E1 as <- <-.
  destruct (dispatch_ok x A msg times HE Hw) as (x' & calls & A' & E' & _ & Hd & _); [lia|].
  unfold dispatch_ in E'. rewrite Ety in E'. destruct times as [[now now_match] now_add].
  unfold dispatch_. rewrite Ety. unfold subscribe_market_feed_ in E' |- *. cbn [order_book_ set_subscribers set_clients] in *.
  destruct (OrderBook.build_snapshot _) as [[[bv bp] [av ap]]| |]; [|done|done].
  run_bind in *. rewrite conn_ptr_ok in * by (by destruct (eo_table _ _ HE)).
  change (connected (set_subscribers x ?l) ?id) with (connected x id) in *. rewrite Hcon in *.
  run_bind in *. rewrite u64_u32 in * by apply Hw.
  do 5 eexists. split; [done|]. split; [done|]. split; [done|].
  unfold subscriptions. cbn. rewrite filter_app, filter_cons_True, length_app by done. cbn. lia.
Qed.

Lemma subscription_snapshot_witness :
  ∃ x x' bid_volumes bid_prices ask_volumes ask_prices,
    OrderBook.build_snapshot x.(order_book_) = Done ((bid_volumes, bid_prices), (ask_volumes, ask_prices)) ∧
    dispatch_ x (message 0 SUBSCRIBE []) (7, 8, 9) = Done (x',
      [call_send_message_unbuffered 0 (MessageType_to_u8 ORDER_BOOK_SNAPSHOT)
         (payload_bytes (POrderBookSnapshot (make_order_book_snapshot (elements ask_prices)
            (elements ask_volumes) (elements bid_prices) (elements bid_volumes) 0)))]).
Proof.
  destruct (subscription_snapshot opening opened.1 opened.2 (message 0 SUBSCRIBE []) (7, 8, 9))
    as (x' & bv & bp & av & ap & E1 & E2 & _).
  - apply check_input_ok. vm_compute. reflexivity.
  - vm_compute. reflexivity.
  - apply (Forall_inv (check_input_ok [Inbound (message 0 SUBSCRIBE []) (7, 8, 9)] ltac:(vm_compute; reflexivity))).
  - exact opened_run.
  - reflexivity.
  - vm_compute. reflexivity.
  - exists opened.1, x', bv, bp, av, ap. split; [exact E1|].
    assert (x'.(sequence_number_) = 0) as Hs.
    { assert (x' = (result_of (dispatch_ opened.1 (message 0 SUBSCRIBE []) (7, 8, 9))).1) as ->
        by (rewrite E2; reflexivity). vm_compute. reflexivity. }
    rewrite Hs in E2. exact E2.
Defined.

(** Once the exchange has handled a client's DISCONNECT, nothing is ever sent
    to that client again, whatever its orders and subscriptions were. *)
Theorem disconnected_is_silent (before ins : list Input) x calls0 msg times :
  Forall valid_input (before ++ ins) → Z.of_nat (length (before ++ ins)) + 1 < 2 ^ 32 →
  well_formed msg → run_inputs Exchange before = Done (x, calls0) →
  MessageType_of_u8 msg.(message_type) = DISCONNECT →
  msg.(connection_id) < x.(next_connection_id_) →
  ∃ x1 calls1 x' calls, dispatch_ x msg times = Done (x1, calls1) ∧
    run_inputs x1 ins = Done (x', calls) ∧ reached msg.(connection_id) (calls1 ++ calls) = false.
Proof.
  intros [Hv1 Hv2]%Forall_app Hl Hw E Ety Hid. rewrite length_app in Hl.
  destruct (session_ok before Hv1) as (y & calls' & A & E1 & HE & Hn); [lia|].
  rewrite E in E1. injection E1 as <- <-.
  destruct (dispatch_ok x A msg times HE Hw) as (x1 & calls1 & A1 & E' & HE1 & Hd & Hn1); [lia|].
  pose proof (run_inputs_next Exchange empty_book before x calls0 fresh_ok Hv1 ltac:(cbn; lia) ltac:(cbn; lia) E) as Hx.
  cbn in Hx. exists x1, calls1. unfold dispatch_ in E'. rewrite Ety in E'. destruct times as [[now now_match] now_add].
  destruct (remove_connection_ok x (connection_id msg) (eo_table _ _ HE)) as (conns & Er & _).
  pose proof E' as Ec. rewrite Er in Ec. injection Ec as Ex <-.
  assert (connected x1 (connection_id msg) = false) as Hcon.
  { rewrite (remove_connection_connected _ _ _ _ (connection_id msg) (eo_table _ _ HE) E').
    by rewrite Z.eqb_refl, andb_false_r. }
  assert (next_connection_id_ x1 = next_connection_id_ x) as Hnext.
  { rewrite <- Ex. cbn. by destruct (unsubscribe_Permutation x (connection_id msg)) as [-> _]. }
  destruct (session_silent x1 A1 (connection_id msg) ins HE1) as (x' & calls & -> & Hr & _);
    [apply Hw | done | lia | done | left; lia | lia |].
  exists x', calls. unfold dispatch_. rewrite Ety. split; [done|]. split; [done|]. by rewrite reached_app, Hr.
Qed.

(** After client 1 has left, its resting order is still filled, and no one tells it. *)
Lemma disconnected_is_silent_witness :
  let msg := message 1 DISCONNECT [] in
  ∃ x1 calls1 x' calls, dispatch_ opened.1 msg (7, 8, 9) = Done (x1, calls1) ∧
    run_inputs x1 trading = Done (x', calls) ∧ reached 1 (calls1 ++ calls) = false.
Proof.
  apply (disconnected_is_silent opening trading opened.1 opened.2 (message 1 DISCONNECT []) (7, 8, 9)).
  - apply check_input_ok. vm_compute. reflexivity.
  - vm_compute. reflexivity.
  - apply (Forall_inv (check_input_ok [Inbound (message 1 DISCONNECT []) (7, 8, 9)] ltac:(vm_compute; reflexivity))).
  - exact opened_run.
  - reflexivity.
  - vm_compute. reflexivity.
Defined.

(** Connections beyond the table are accepted and read, but never sent
    anything: with 32 entries that are not reused, only the first 32 connections
    of a run are ever served. *)
Theorem beyond_capacity_is_silent (ins : list Input) (c : Id_t) :
  Forall valid_input ins → Z.of_nat (length ins) < 2 ^ 32 → is_u32 c → MAX_CONNECTIONS <= c →
  ∃ x calls, run_inputs Exchange ins = Done (x, calls) ∧ reached c calls = false.
Proof.
  intros Hv Hl Hc Hmax.
  destruct (session_silent Exchange empty_book c ins fresh_ok Hc Hv) as (x & calls & E & Hr & _);
    [cbn; lia | | by right | cbn; lia | by exists x, calls].
  unfold connected. rewrite u64_u32 by done. by rewrite (proj2 (Z.ltb_ge _ _)).
Qed.

(** The 33rd connection submits an order, which rests in the book. *)
Definition crowd : list Input :=
  repeat Accept 33 ++
  [Inbound (message 32 INSERT_ORDER
     (payload_bytes (PInsertOrder (make_insert_order 7 BUY 100 10 GOOD_FOR_DAY)))) (7, 8, 9)].

Lemma beyond_capacity_is_silent_witness :
  ∃ x calls, run_inputs Exchange crowd = Done (x, calls) ∧ reached 32 calls = false.
Proof.
  apply (beyond_capacity_is_silent crowd 32);
    [apply check_input_ok; vm_compute; reflexivity | vm_compute; reflexivity
    | vm_compute; split; congruence | vm_compute; congruence].
Defined.

(** C16: requests are answered, and only their client is.  A request of a connected
    client for the book is sent no reply but to that client; a cancel or amend gets
    exactly one, an insert at most one, each under the request's own id; any other
    client is sent only public messages and fills of its own orders, that is of orders
    it has resting in the book, at their price and for a positive quantity of what is
    left of them. *)
Theorem requests_answered (before : list Input) x calls0 msg times r :
  Forall valid_input before → Z.of_nat (length before) + 1 < 2 ^ 32 → well_formed msg →
  run_inputs Exchange before = Done (x, calls0) →
  request_of msg = Some r → connected x msg.(connection_id) = true →
  ∃ x' calls n A, dispatch_ x msg times = Done (x', calls) ∧ represents x.(order_book_) A ∧
    map request_id (replies_to msg.(connection_id) calls) = replicate n (request_id_of r) ∧
    (n <= 1)%nat ∧ (match r with OrderBook.Submit _ _ _ _ _ => True | _ => n = 1%nat end) ∧
    ∀ d m, d ≠ msg.(connection_id) → m ∈ sent_to d calls → is_public m = true ∨ own_fill A d m.
Proof.
  intros Hv Hl Hw E Er Hcon. pose proof (request_id_u32 _ _ Hw Er) as Hid.
  destruct (session_ok before Hv) as (y & calls1 & A & E1 & HE & Hn); [lia|].
  rewrite E in E1. injection E1 as <- <-. destruct times as [[now now_match] now_add].
  rewrite (dispatch_request x msg r) by done.
  destruct (request_refines x.(order_book_) A r now now_match now_add (eo_book _ _ HE) (request_valid _ _ Hw Er))
    as (b' & A' & evs & -> & Hstep & _); [rewrite (next_id_of x A HE); lia|].
  unfold with_book. run_bind. set (x1 := set_book _ _ _ _).
  assert (table_ok x1) as HT by (by destruct (eo_table _ _ HE)). rewrite callbacks_ok by done.
  destruct (step_answers _ _ _ _ _ _ _ Hstep) as (Hans & Hle & Hone).
  rewrite (request_client _ _ Er) in Hans.
  exists (foldl numbered x1 evs), (calls_of x1 evs), (length (filter (λ e, is_reply e = true) evs)), A.
  split; [done|]. split; [apply HE|]. split.
  { rewrite (replies_of_events x1 _ _ evs Hans); [|apply Hw | exact Hid | exact Hcon].
    clear. induction (filter _ evs) as [|e es IH]; [done|]. cbn [map length replicate]. by rewrite IH. }
  split; [done|]. split; [destruct r; auto|].
  intros d m Hne Hm. eapply events_others; [eapply represents_remaining, HE | exact Hans | by eapply step_fills | apply Hw | exact Hne | exact Hm].
Qed.

(** Client 0 cancels an order that does not exist: one error, under id 5.  Client 1
    hits the bid of client 0, which is sent the fill of its order. *)
Definition bidding : list Input := opening ++ [Inbound bid_message (7, 8, 9)].

Lemma requests_answered_witness :
  (∃ x' calls, dispatch_ opened.1
      (message 0 CANCEL_ORDER (payload_bytes (PCancelOrder (make_cancel_order 5 77)))) (7, 8, 9) =
    Done (x', calls) ∧ map request_id (replies_to 0 calls) = [5]) ∧
  ∃ x calls0 x' calls A m, run_inputs Exchange bidding = Done (x, calls0) ∧
    dispatch_ x ask_message (10, 11, 12) = Done (x', calls) ∧ m ∈ sent_to 0 calls ∧ own_fill A 0 m.
Proof.
  split.
  - set (msg := message 0 CANCEL_ORDER _).
    destruct (requests_answered opening opened.1 opened.2 msg (7, 8, 9) (OrderBook.Cancel 0 5 77))
      as (x' & calls & n & A & E & _ & Hr & _ & Hn & _).
    + apply check_input_ok. vm_compute. reflexivity.
    + vm_compute. reflexivity.
    + apply (Forall_inv (check_input_ok [Inbound msg (7, 8, 9)] ltac:(vm_compute; reflexivity))).
    + exact opened_run.
    + vm_compute. reflexivity.
    + vm_compute. reflexivity.
    + exists x', calls. split; [exact E|]. rewrite Hn in Hr. exact Hr.
  - assert (match run_inputs Exchange bidding with
            | Done (x, _) => connected x 1 && match dispatch_ x ask_message (10, 11, 12) with
                | Done (_, calls) => existsb (λ m, negb (is_public m)) (sent_to 0 calls)
                | _ => false end
            | _ => false end = true) as Hrun by (vm_compute; reflexivity).
    destruct (run_inputs Exchange bidding) as [[x calls0]| |] eqn:E0; [|discriminate Hrun..].
    apply andb_true_iff in Hrun as [Hcon Hrun].
    destruct (requests_answered bidding x calls0 ask_message (10, 11, 12) (OrderBook.Submit 100 4 false 1 8))
      as (x' & calls & n & A & E & _ & _ & _ & _ & Ho).
    + apply check_input_ok. vm_compute. reflexivity.
    + vm_compute. reflexivity.
    + apply (Forall_inv (check_input_ok [Inbound ask_message (7, 8, 9)] ltac:(vm_compute; reflexivity))).
    + exact E0.
    + vm_compute. reflexivity.
    + exact Hcon.
    + rewrite E in Hrun. apply existsb_exists in Hrun as (m & Hm%list_elem_of_In & Hpub%negb_true_iff).
      exists x, calls0, x', calls, A, m. split; [reflexivity|]. split; [exact E|]. split; [exact Hm|].
      destruct (Ho 0 m ltac:(discriminate) Hm) as [Hp|Hf]; [rewrite Hp in Hpub; discriminate Hpub | exact Hf].
Defined.
