(* ===== verification/ExchangeLife.v ===== *)
(** The lifetime of connections: the accept strand creates, publishes and
    destroys them while the engine strand uses them through [conn_by_id_]. *)

From S2P Require Import Prelude Types OrderBook BookSpec BookRefinement Codec Payloads Protocol SpscQueue Connection ConnectionWrite Exchange ExchangeCalls ExchangeEvents ExchangeSession ExchangeFeed.
Import Exchange.

(** ** Executing calls *)

(** The payload of a call covers what [send_message] reads of it. *)
Definition sized (m : Message) : Prop :=
  (payload_size_for_type (MessageType_of_u8 m.1) <= length m.2)%nat.

Lemma make_error_length req code text now :
  length (make_error req code text now).(PayloadError.message) = 32%nat.
Proof.
  unfold make_error. cbn [PayloadError.message]. rewrite length_insert, length_app, length_take, length_drop.
  rewrite length_replicate. change (Z.to_nat ERROR_TEXT_LEN) with 32%nat. lia.
Qed.

Lemma publication_sized seq trade e m : publication seq trade e = Some m → sized m.
Proof. by destruct e; intros [= <-]; apply Nat.leb_le. Qed.

Lemma private_sized trade e : Forall (λ x, sized x.2) (private trade e).
Proof.
  destruct e as [| | | | |client req code text now]; cbn [private];
    repeat (apply Forall_cons_2; [|]); try apply Forall_nil_2; try (by apply Nat.leb_le).
  assert (∀ bs, length (concat (map (le_encode 1) bs)) = length bs) as Hc
    by (intros bs; induction bs as [|b bs IH]; [done|]; cbn [map concat];
      by rewrite length_app, le_encode_length, IH).
  unfold sized. cbn [snd payload_bytes]. set (p := make_error _ _ _ _).
  assert (encode PayloadError.layout p =
    ((le_encode 4 p.(PayloadError.client_request_id) ++ le_encode 2 p.(PayloadError.code)) ++
     concat (map (le_encode 1) p.(PayloadError.message))) ++ le_encode 8 p.(PayloadError.timestamp)) as -> by done.
  rewrite !length_app, Hc, !le_encode_length. unfold p. rewrite make_error_length. by apply Nat.leb_le.
Qed.

(** Every client's outbox is a queue. *)
Definition outboxes_ok (clients : gmap Id_t ClientState) : Prop :=
  map_Forall (λ _ st, ∃ items, holds OUTBOUND_Q_LOG st.(outbox) items) clients.

Lemma send_message_ok c outbox type payload items :
  holds OUTBOUND_Q_LOG outbox items → sized (type, payload) →
  ∃ c' outbox' effs, Connection.send_message c outbox type payload = Done (c', outbox', effs) ∧
    ∃ items', holds OUTBOUND_Q_LOG outbox' items'.
Proof.
  intros HQ Hs. unfold Connection.send_message, Connection.push_message. unfold sized in Hs. cbn in Hs.
  destruct (_ <? _)%nat; [cbn; eauto 10|]. rewrite (proj2 (Nat.ltb_ge _ _)) by done.
  set (msg := queued _ _ _). destruct (try_push_ok _ outbound_log outbox items msg HQ) as (q' & -> & HQ').
  run_bind. destruct (bool_decide _); [|eauto 10].
  destruct (Connection.schedule_drain_writes_ c). eauto 10.
Qed.

(** A call that can be executed: its connection exists. *)
Definition callable (clients : gmap Id_t ClientState) (call : Call) : Prop :=
  match call with
  | call_send_message c type payload => is_Some (clients !! c) ∧ sized (type, payload)
  | call_send_message_unbuffered c _ _ => is_Some (clients !! c)
  | _ => True
  end.

(** Executing calls changes the connections and their outboxes only. *)
Record performed (x x' : t) : Prop := MkPerformed {
  pf_dom c : is_Some (x'.(clients_) !! c) ↔ is_Some (x.(clients_) !! c);
  pf_outboxes : outboxes_ok x'.(clients_);
  pf_rest : x' = set_clients x x'.(clients_) x.(conn_by_id_) x.(market_data_subscribers_) x.(next_connection_id_)
}.

Lemma perform_ok x call :
  outboxes_ok x.(clients_) → callable x.(clients_) call →
  ∃ x' tasks, perform x call = Done (x', tasks) ∧ performed x x' ∧
    (∀ id, erase_task id ∈ tasks ↔ call = post_erase_client id).
Proof.
  intros Ho Hc. assert (performed x x) as Hx by (split; [done | done | by destruct x]).
  destruct call as [c type payload | c type payload | type payload | id |]; cbn [perform callable] in *.
  - destruct Hc as [[st Hst] Hs]. rewrite Hst. cbn [deref mbind outcome_bind].
    destruct (Ho c st Hst) as [items HQ].
    destruct (send_message_ok st.(conn) _ type payload items HQ Hs) as (c' & q' & effs & -> & Hq').
    run_bind. eexists _, _. split; [reflexivity|]. split.
    + split; cbn; [|by apply map_Forall_insert_2 | done].
      intros d. destruct (decide (c = d)) as [<-|Hne]; [rewrite lookup_insert_eq; by split; eauto|].
      by rewrite lookup_insert_ne.
    + intros id. split; [|done]. by intros (? & ? & ?)%list_elem_of_fmap.
  - destruct Hc as [st ->]. cbn [deref mbind outcome_bind]. eexists _, _. split; [reflexivity|].
    split; [done|]. intros id. split; [|done]. by intros (? & ? & ?)%list_elem_of_fmap.
  - eexists _, _. split; [reflexivity|]. split; [done|]. intros id. rewrite list_elem_of_singleton. naive_solver.
  - eexists _, _. split; [reflexivity|]. split; [done|]. intros id'. rewrite list_elem_of_singleton. naive_solver.
  - eexists _, _. split; [reflexivity|]. split; [done|]. intros id. rewrite list_elem_of_singleton. naive_solver.
Qed.

Lemma performed_trans x y z : performed x y → performed y z → performed x z.
Proof.
  intros [D1 O1 R1] [D2 O2 R2]. split; [|done|].
  - intros c. by rewrite D2.
  - rewrite R2 at 1. rewrite R1. done.
Qed.

Lemma callable_dom clients clients' call :
  (∀ c, is_Some (clients' !! c) ↔ is_Some (clients !! c)) → callable clients call → callable clients' call.
Proof. intros H. destruct call; cbn; rewrite ?H; done. Qed.

Lemma perform_all_ok x calls :
  outboxes_ok x.(clients_) → Forall (callable x.(clients_)) calls →
  ∃ x' tasks, perform_all x calls = Done (x', tasks) ∧ performed x x' ∧
    (∀ id, erase_task id ∈ tasks ↔ post_erase_client id ∈ calls).
Proof.
  intros Ho Hc. revert x Ho Hc. induction calls as [|call calls IH]; intros x Ho Hc; cbn [perform_all].
  { exists x, []. split; [done|]. split; [split; [done | done | by destruct x]|]. by intros id; rewrite !elem_of_nil. }
  apply Forall_cons in Hc as [Hc1 Hc]. destruct (perform_ok x call Ho Hc1) as (x1 & tasks1 & -> & HP1 & HE1).
  run_bind. destruct (IH x1) as (x2 & tasks2 & -> & HP2 & HE2); [apply HP1 | |].
  { eapply Forall_impl; [exact Hc|]. intros call'. apply callable_dom, HP1. }
  run_bind. exists x2, (tasks1 ++ tasks2). split; [done|].
  split; [by eapply performed_trans|]. intros id. rewrite elem_of_app, elem_of_cons, HE1, HE2. naive_solver.
Qed.

(** ** Calls of a handler *)

(** Every pointer of the table refers to a client that exists. *)
Definition no_dangling (x : t) : Prop :=
  ∀ c, connected x c = true → is_Some (x.(clients_) !! u64 c).

Lemma same_no_dangling x x' : same_clients x x' → no_dangling x → no_dangling x'.
Proof.
  intros HS H c. rewrite (same_connected _ _ _ HS), (sc_clients _ _ HS). apply H.
Qed.

Lemma calls_of_callable x evs : no_dangling x → Forall (callable x.(clients_)) (calls_of x evs).
Proof.
  intros Hd. revert x Hd. induction evs as [|e evs IH]; intros x Hd; [constructor|]. cbn [calls_of].
  apply Forall_app. split; [apply Forall_app; split|].
  - unfold send_private. apply Forall_concat, Forall_map.
    eapply Forall_impl; [apply private_sized|]. intros [c [type payload]] Hs. cbn in Hs.
    destruct (connected x c) eqn:E; [|constructor]. constructor; [|constructor]. split; [by apply Hd | done].
  - destruct (publication _ _ e) as [[type payload]|] eqn:E; [|constructor]. cbn [send_public].
    apply Forall_app. split; [|by repeat constructor]. unfold audience. rewrite map_map. apply Forall_map.
    apply Forall_forall. intros c [Hc _]%list_elem_of_filter.
    split; [by apply Hd | by eapply publication_sized].
  - rewrite <- (sc_clients _ _ (numbered_same x e)). apply IH.
    by eapply same_no_dangling; [apply numbered_same|].
Qed.

Lemma no_erase_of_events x evs id : post_erase_client id ∉ calls_of x evs.
Proof.
  revert x. induction evs as [|e evs IH]; intros x; [apply not_elem_of_nil|]. cbn [calls_of].
  rewrite !not_elem_of_app. split; [split|apply IH].
  - unfold send_private. rewrite list_elem_of_In, in_concat. intros (l & Hl & Hin).
    apply in_map_iff in Hl as ([c [type payload]] & <- & _). by destruct (connected x c); destruct Hin.
  - destruct (publication _ _ e) as [[type payload]|]; [|apply not_elem_of_nil]. cbn [send_public].
    rewrite not_elem_of_app. split; [by intros (? & ? & ?)%list_elem_of_fmap|].
    by rewrite list_elem_of_singleton.
Qed.

(** What a handler does to the table and to the clients. *)
Lemma dispatched_life x A msg times x' calls A' :
  exchange_ok x A → no_dangling x → dispatched x A msg times x' calls A' →
  Forall (callable x'.(clients_)) calls ∧ x'.(clients_) = x.(clients_) ∧
  x'.(next_connection_id_) = x.(next_connection_id_) ∧
  (∀ c, connected x' c = true → connected x c = true) ∧
  (∀ id, post_erase_client id ∈ calls → id = msg.(connection_id) ∧ connected x' id = false).
Proof.
  intros HE Hd HD.
  destruct HD as [r book evs A' Er Hstep x1 | bv bp av ap Ety ES | Ety | x' Ety Er | ].
  - assert (same_clients x1 (foldl numbered x1 evs)) as HS by apply numbered_all_same.
    rewrite (sc_clients _ _ HS), (sc_next _ _ HS). split; [by apply calls_of_callable|].
    split; [done|]. split; [done|]. split.
    + intros c. by rewrite (same_connected x1).
    + by intros id ?%no_erase_of_events.
  - destruct (connected x (connection_id msg)) eqn:E.
    + split; [constructor; [by apply Hd | constructor]|]. split; [done|]. split; [done|]. split; [done|].
      by intros id ?%list_elem_of_singleton.
    + split; [constructor|]. split; [done|]. split; [done|]. split; [done|]. by intros id ?%elem_of_nil.
  - destruct (unsubscribe_Permutation x (connection_id msg)) as [-> _]. split; [constructor|].
    split; [done|]. split; [done|]. split; [done|]. by intros id ?%elem_of_nil.
  - pose proof (λ c, remove_connection_connected _ _ _ _ c (eo_table _ _ HE) Er) as Hcon.
    destruct (remove_connection_ok x (connection_id msg) (eo_table _ _ HE)) as (conns & E & _).
    rewrite E in Er. injection Er as <-. cbn [clients_ next_connection_id_ set_clients].
    split; [by repeat constructor|].
    destruct (unsubscribe_Permutation x (connection_id msg)) as [Eu _]. split; [by rewrite Eu|].
    split; [by rewrite Eu|]. split.
    + intros c. rewrite Hcon. by intros [? _]%andb_true_iff.
    + intros id [= ->]%list_elem_of_singleton. split; [done|]. by rewrite Hcon, Z.eqb_refl, andb_false_r.
  - split; [constructor|]. split; [done|]. split; [done|]. split; [done|]. by intros id ?%elem_of_nil.
Qed.

(** ** The two strands *)

(** The exchange, a client created and not yet published, and the erasures
    posted to the accept strand. *)
Record World := MkWorld {
  ex : t;
  created : option (Id_t * ClientState);
  erasures : list Id_t
}.

(** A step of a strand: [Create] and [Publish] are the two halves of
    [on_accepted_], around which the accept strand runs nothing else. *)
Inductive Step :=
  | Create
  | Publish
  | Erase
  | Engine (msg : InboundMessage) (times : Times).

Definition erased_by (tasks : list Task) : list Id_t :=
  omap (λ task, match task with erase_task id => Some id | _ => None end) tasks.

(** A step that is not possible leaves the world as it is. *)
Definition world_step (w : World) (s : Step) : outcome World :=
  match s, w.(created) with
  | Create, None =>
      let '(x, id, st) := accept_connection w.(ex) in Done (MkWorld x (Some (id, st)) w.(erasures))
  | Publish, Some (id, st) =>
      x ← publish_connection_ w.(ex) id st; Done (MkWorld x None w.(erasures))
  | Erase, None =>
      match w.(erasures) with
      | [] => Done w
      | id :: ids => Done (MkWorld (erase_client w.(ex) id) None ids)
      end
  | Engine msg times, _ =>
      '(x, calls) ← dispatch_ w.(ex) msg times;
      '(x, tasks) ← perform_all x calls;
      Done (MkWorld x w.(created) (w.(erasures) ++ erased_by tasks))
  | _, _ => Done w
  end.

Fixpoint world_run (w : World) (ss : list Step) : outcome World :=
  match ss with
  | [] => Done w
  | s :: ss => w ← world_step w s; world_run w ss
  end.

Definition first_world : World := MkWorld Exchange None [].

(** The message comes from a connection that has been published, or dropped for
    want of room, before the engine handles it. *)
Definition after_publish (w : World) (s : Step) : bool :=
  match s with
  | Engine msg _ =>
      (msg.(connection_id) <? w.(ex).(next_connection_id_)) &&
      match w.(created) with Some (id, _) => negb (msg.(connection_id) =? id) | None => true end
  | _ => true
  end.

Fixpoint disciplined (w : World) (ss : list Step) : bool :=
  match ss with
  | [] => true
  | s :: ss =>
      after_publish w s && match world_step w s with Done w => disciplined w ss | _ => true end
  end.

Definition valid_step (s : Step) : Prop :=
  match s with Engine msg times => well_formed msg | _ => True end.

(** ** The invariant *)

Record world_ok (w : World) (A : ABook) : Prop := MkWorldOk {
  wo_exchange : exchange_ok w.(ex) A;
  wo_live : no_dangling w.(ex);
  wo_outboxes : outboxes_ok w.(ex).(clients_);
  wo_fresh c : is_u32 c → connected w.(ex) c = true → c < w.(ex).(next_connection_id_);
  wo_created id st : w.(created) = Some (id, st) →
    is_u32 id ∧ id < w.(ex).(next_connection_id_) ∧ connected w.(ex) id = false ∧
    holds OUTBOUND_Q_LOG st.(outbox) [];
  wo_erasures id : id ∈ w.(erasures) →
    is_u32 id ∧ id < w.(ex).(next_connection_id_) ∧ connected w.(ex) id = false ∧
    ∀ st, w.(created) ≠ Some (id, st)
}.

Lemma first_world_ok : world_ok first_world empty_book.
Proof.
  assert (∀ c, connected Exchange c = false) as Hc.
  { intros c. unfold connected. rewrite bool_decide_false; [apply andb_false_r|].
    cbn. rewrite arr_at_make. by intros []. }
  split; cbn [ex created erasures first_world]; try done.
  - apply fresh_ok.
  - intros c. by rewrite Hc.
  - intros c _. by rewrite Hc.
  - intros id. by rewrite elem_of_nil.
Qed.

Lemma create_ok w A x id st :
  world_ok w A → w.(created) = None → w.(ex).(next_connection_id_) + 1 < 2 ^ 32 →
  accept_connection w.(ex) = (x, id, st) →
  world_ok (MkWorld x (Some (id, st)) w.(erasures)) A ∧ x.(next_connection_id_) = w.(ex).(next_connection_id_) + 1.
Proof.
  intros [HE Hl Ho Hf Hc He] Hnone Hn E. unfold accept_connection in E. injection E as <- <- <-.
  pose proof (eo_next _ _ HE) as Hr. unfold is_u32 in Hr.
  assert (u32 (next_connection_id_ (ex w) + 1) = next_connection_id_ (ex w) + 1) as Hu by (apply u32_small; lia).
  split; [|done]. cbn. rewrite Hu. split; cbn [ex created erasures]; try done.
  - destruct HE as [[H1 H2] HR Hs Hsub _]. split; try done. unfold is_u32. cbn. lia.
  - intros c Hc32 Hcon. specialize (Hf c Hc32 Hcon). cbn. lia.
  - intros id st [= <- <-]. cbn. split; [done|]. split; [lia|]. split.
    + change (connected (ex w) (next_connection_id_ (ex w)) = false).
      destruct (connected _ _) eqn:E; [|done]. specialize (Hf _ Hr E). lia.
    + apply new_queue_holds, outbound_log.
  - intros id Hid. destruct (He id Hid) as (H1 & H2 & H3 & _). cbn. split; [done|]. split; [lia|].
    split; [done|]. intros st [= Heq _]. lia.
Qed.

Lemma publish_ok w A id st :
  world_ok w A → w.(created) = Some (id, st) →
  ∃ x, publish_connection_ w.(ex) id st = Done x ∧ world_ok (MkWorld x None w.(erasures)) A ∧
    x.(next_connection_id_) = w.(ex).(next_connection_id_).
Proof.
  intros [HE Hl Ho Hf Hc He] Hsome. destruct (Hc id st Hsome) as (Hid & Hlt & Hcon & HQ).
  unfold publish_connection_. rewrite (u64_u32 id Hid).
  assert (∀ id', id' ∈ erasures w → id' ≠ id) as Hne.
  { intros id' Hin ->. destruct (He id Hin) as (_ & _ & _ & Hn). by apply (Hn st). }
  destruct (MAX_CONNECTIONS <=? id) eqn:E.
  { eexists. split; [reflexivity|]. split; [|done]. split; try done. intros id' Hin.
    destruct (He id' Hin) as (? & ? & ? & _). done. }
  destruct HE as [[Hs Hent] HR Hseq Hsub Hnext]. unfold is_u32 in Hid.
  rewrite arr_set_ok by (rewrite Hs; lia). run_bind. eexists. split; [reflexivity|].
  split; [|done].
  set (clients := match clients_ (ex w) !! id with Some _ => _ | None => _ end).
  assert (∀ c, is_Some (clients !! c) ↔ c = id ∨ is_Some (clients_ (ex w) !! c)) as Hdom.
  { intros c. unfold clients. destruct (clients_ (ex w) !! id) eqn:Ei; [naive_solver|].
    destruct (decide (id = c)) as [<-|Hn]; [rewrite lookup_insert_eq; naive_solver|].
    rewrite lookup_insert_ne by done. naive_solver. }
  set (x := set_clients _ _ _ _ _).
  assert (∀ c, connected x c = (u64 c =? id) || connected (ex w) c) as Hcon'.
  { intros c. unfold connected, x. cbn. rewrite arr_at_put. pose proof (u64_range c).
    case_decide as Hd; [|by rewrite (proj2 (Z.eqb_neq _ _)) by done].
    rewrite <- Hd, Z.eqb_refl, (proj2 (Z.ltb_lt _ _)) by lia. done. }
  split; cbn [ex created erasures].
  - split; try done. split; [done|]. intros i c Hi. cbn. rewrite arr_at_put.
    case_decide; [by intros [= <-] | by apply Hent].
  - intros c. rewrite Hcon'. intros [->%Z.eqb_eq|H]%orb_true_iff; apply Hdom; [by left | right; by apply Hl].
  - unfold outboxes_ok. cbn. unfold clients. destruct (clients_ (ex w) !! id); [done|].
    apply map_Forall_insert_2; [by exists [] | done].
  - intros c Hc32. rewrite Hcon', (u64_u32 c) by done.
    intros [->%Z.eqb_eq|H]%orb_true_iff; [done | by apply Hf].
  - done.
  - intros id' Hin. destruct (He id' Hin) as (H1 & H2 & H3 & _). split; [done|]. split; [done|].
    split; [|done]. rewrite Hcon', (u64_u32 id' H1), H3, (proj2 (Z.eqb_neq _ _)) by (by apply Hne). done.
Qed.

Lemma erase_ok w A id ids :
  world_ok w A → w.(created) = None → w.(erasures) = id :: ids →
  world_ok (MkWorld (erase_client w.(ex) id) None ids) A.
Proof.
  intros [HE Hl Ho Hf Hc He] Hnone Heq. destruct (He id ltac:(rewrite Heq; by left)) as (Hid & Hlt & Hcon & _).
  split; cbn [ex created erasures]; try done.
  - by destruct HE as [[] ? ? ? ?].
  - intros c Hc'. change (connected (ex w) c = true) in Hc'. cbn. rewrite lookup_delete_ne; [by apply Hl|].
    intros ->. rewrite connected_u64 in Hcon. congruence.
  - by apply map_Forall_delete.
  - intros id' Hin. rewrite Hnone in He. apply He. rewrite Heq. by right.
Qed.

Lemma engine_ok w A msg times :
  world_ok w A → well_formed msg → after_publish w (Engine msg times) = true →
  A.(a_next_id) + 1 < 2 ^ 32 →
  ∃ w' A', world_step w (Engine msg times) = Done w' ∧ world_ok w' A' ∧
    A'.(a_next_id) <= A.(a_next_id) + 1 ∧
    w'.(ex).(next_connection_id_) = w.(ex).(next_connection_id_).
Proof.
  intros [HE Hl Ho Hf Hc He] Hw Hpub Hid. cbn [world_step].
  destruct (dispatch_ok _ _ msg times HE Hw Hid) as (x1 & calls & A' & -> & HE1 & Hd & Hn).
  run_bind.
  destruct (dispatched_life _ _ _ _ _ _ _ HE Hl Hd) as (Hcall & Hcl & Hnext & Hcon & Her).
  destruct (perform_all_ok x1 calls) as (x2 & tasks & -> & [Hdom Hout Hrest] & Htask);
    [by rewrite Hcl | done |]. run_bind.
  eexists _, A'. split; [reflexivity|]. split; [|split; [done|]].
  2:{ cbn [ex]. rewrite Hrest. done. }
  assert (∀ c, connected x2 c = connected x1 c) as Hc2 by (intros c; by rewrite Hrest).
  assert (next_connection_id_ x2 = next_connection_id_ (ex w)) as Hn2 by (by rewrite Hrest).
  split; cbn [ex created erasures].
  - destruct HE1 as [[] ? ? ? ?]. by rewrite Hrest.
  - intros c. rewrite Hc2, Hdom, Hcl. intros H. by apply Hl, Hcon.
  - done.
  - intros c Hc32. rewrite Hc2, Hn2. intros H. by apply Hf, Hcon.
  - intros id st Hs. destruct (Hc id st Hs) as (H1 & H2 & H3 & H4). rewrite Hn2, Hc2.
    split; [done|]. split; [done|]. split; [|done]. destruct (connected x1 id) eqn:E; [|done].
    apply Hcon in E. congruence.
  - intros id. rewrite elem_of_app, Hn2, Hc2. intros [Hin|Hin].
    + destruct (He id Hin) as (H1 & H2 & H3 & H4). split; [done|]. split; [done|]. split; [|done].
      destruct (connected x1 id) eqn:E; [|done]. apply Hcon in E. congruence.
    + apply list_elem_of_omap in Hin as (task & Hin & Etask). destruct task; try done.
      injection Etask as ->. apply Htask, Her in Hin as [-> Hoff].
      cbn [after_publish] in Hpub. apply andb_true_iff in Hpub as [Hlt Hpub].
      split; [apply Hw|]. split; [lia|]. split; [done|]. intros st Hs. rewrite Hs in Hpub.
      by rewrite Z.eqb_refl in Hpub.
Qed.

Lemma world_run_ok w A ss :
  world_ok w A → Forall valid_step ss → disciplined w ss = true →
  A.(a_next_id) + Z.of_nat (length ss) < 2 ^ 32 →
  w.(ex).(next_connection_id_) + Z.of_nat (length ss) < 2 ^ 32 →
  ∃ w' A', world_run w ss = Done w' ∧ world_ok w' A'.
Proof.
  intros HW Hv. revert w A HW. induction Hv as [|s ss Hs _ IH]; intros w A HW Hd Hid Hn;
    cbn [world_run disciplined length] in *; [by exists w, A|].
  apply andb_true_iff in Hd as [Hpub Hd].
  assert (∃ w1 A1, world_step w s = Done w1 ∧ world_ok w1 A1 ∧ A1.(a_next_id) <= A.(a_next_id) + 1 ∧
    w1.(ex).(next_connection_id_) <= w.(ex).(next_connection_id_) + 1) as (w1 & A1 & E & HW1 & H1 & H2).
  { assert (∃ w1 A1, Done w = Done w1 ∧ world_ok w1 A1 ∧ A1.(a_next_id) <= A.(a_next_id) + 1 ∧
      w1.(ex).(next_connection_id_) <= w.(ex).(next_connection_id_) + 1) as Hidle
      by (exists w, A; split; [done|]; split; [done | lia]).
    destruct s as [| | |msg times].
    - cbn [world_step]. destruct (created w) eqn:Ec; [done|].
      destruct (accept_connection (ex w)) as [[x id] st] eqn:Ea.
      destruct (create_ok w A x id st HW Ec ltac:(lia) Ea) as [HW' Hx].
      eexists _, A. split; [reflexivity|]. split; [done | cbn; lia].
    - cbn [world_step]. destruct (created w) as [[id st]|] eqn:Ec; [|done].
      destruct (publish_ok w A id st HW Ec) as (x & -> & HW' & Hx).
      eexists _, A. split; [reflexivity|]. split; [done | cbn; lia].
    - cbn [world_step]. destruct (created w) eqn:Ec; [done|]. destruct (erasures w) as [|id ids] eqn:Ee; [done|].
      eexists _, A. split; [reflexivity|]. split; [by apply erase_ok | cbn; lia].
    - destruct (engine_ok w A msg times HW Hs Hpub ltac:(lia)) as (w1 & A1 & E & HW1 & H1 & H2).
      exists w1, A1. split; [done|]. split; [done | lia]. }
  rewrite E in Hd |- *. run_bind. by apply (IH w1 A1); [..|lia|lia].
Qed.

(** ** Guarantees *)

(** C12: no use after free.  In every interleaving of the accept strand (creating,
    publishing and destroying clients) with the engine strand in which the engine
    handles a connection's messages only after the connection is published, every
    message is handled and every call it makes reaches a connection that exists;
    all that is sent is queued or dropped, never undefined. *)
Theorem no_use_after_free (ss : list Step) :
  Forall valid_step ss → disciplined first_world ss = true → Z.of_nat (length ss) < 2 ^ 32 →
  ∃ w, world_run first_world ss = Done w ∧ no_dangling w.(ex).
Proof.
  intros Hv Hd Hl. destruct (world_run_ok first_world empty_book ss first_world_ok Hv Hd)
    as (w & A & E & HW); [cbn; lia | cbn; lia|]. exists w. split; [done | apply HW].
Qed.

Definition insert_message (id : Id_t) (side : Side) : InboundMessage :=
  queued id (MessageType_to_u8 INSERT_ORDER)
    (payload_bytes (PInsertOrder (make_insert_order 1 side 100 5 GOOD_FOR_DAY))).
Definition leave_message (id : Id_t) : InboundMessage := queued id (MessageType_to_u8 DISCONNECT) [].

(** Two clients; the second bids and leaves, then the first sells. *)
Definition orderly_departure : list Step :=
  [Create; Publish; Create; Publish; Engine (insert_message 1 BUY) (1, 2, 3);
   Engine (leave_message 1) (4, 5, 6); Erase; Engine (insert_message 0 SELL) (7, 8, 9)].

(** The same, but the engine handles the second client's two messages before
    [on_accepted_] has published it. *)
Definition early_departure : list Step :=
  [Create; Publish; Create; Engine (insert_message 1 BUY) (1, 2, 3);
   Engine (leave_message 1) (4, 5, 6); Publish; Erase; Engine (insert_message 0 SELL) (7, 8, 9)].

Definition check_step (s : Step) : bool :=
  match s with
  | Engine msg _ =>
      (length msg.(msg_payload) =? MAX_PAYLOAD_SIZE_BUFFER)%nat &&
      forallb (λ b, (0 <=? b) && (b <? 2 ^ 8)) msg.(msg_payload) &&
      (0 <=? msg.(connection_id)) && (msg.(connection_id) <? 2 ^ 32)
  | _ => true
  end.

Lemma check_step_ok ss : forallb check_step ss = true → Forall valid_step ss.
Proof.
  rewrite forallb_forall, Forall_forall. intros H s Hs%list_elem_of_In. specialize (H s Hs).
  destruct s as [| | |msg times]; try done. cbn [check_step] in H.
  apply andb_true_iff in H as [[[Hl Hb]%andb_true_iff H0]%andb_true_iff H1].
  split; [by apply Nat.eqb_eq | split; [|unfold is_u32; lia]].
  apply Forall_forall. intros b Hin%list_elem_of_In. rewrite forallb_forall in Hb. specialize (Hb b Hin).
  unfold is_byte. lia.
Qed.

Lemma no_use_after_free_witness :
  ∃ w, world_run first_world orderly_departure = Done w ∧ no_dangling w.(ex).
Proof.
  apply (no_use_after_free orderly_departure); [apply check_step_ok|..]; vm_compute; reflexivity.
Defined.

(** The order of [on_accepted_] matters: it starts reading from a connection
    before it publishes it, and when the engine handles the connection's messages
    in between, a client that leaves at once is erased while [conn_by_id_] still
    points to it; the next fill of an order it left dereferences that pointer. *)
Theorem early_departure_dangles : world_run first_world early_departure = Undefined.
Proof. vm_compute. reflexivity. Qed.
