(* ===== verification/ExchangeAccept.v ===== *)
(** The acceptor of the exchange ([exchange.cpp]): errors of accept, the next
    accept, and what [start], [stop] and a removal ask of the acceptor and of the
    sockets.

    What a strand is asked to do is a task; the acceptor is the number of accepts
    that are outstanding and whether it is open. *)

From S2P Require Import Prelude Types OrderBook BookSpec Codec Payloads Protocol SpscQueue Connection Exchange ExchangeCalls ExchangeSession.
Import Exchange.

(** The [error_code] of a completed accept. *)
Inductive AcceptError := operation_aborted | accept_failed.

Inductive AcceptTask :=
  | async_accept
  | async_read (id : Id_t)
  | close_acceptor
  | close_connection (id : Id_t).

(** [close] and the destructor of a connection. *)
Definition close (id : Id_t) : list AcceptTask := [close_connection id].

(** [do_accept_] *)
Definition do_accept_ : list AcceptTask := [async_accept].

(** [on_accepted_], with what it starts: the new connection reads before it is
    published. *)
Definition on_accept_completed (x : t) (ec : option AcceptError) (is_open : bool) : outcome (t * list AcceptTask) :=
  match ec with
  | Some operation_aborted => Done (x, [])
  | Some accept_failed => Done (x, if is_open then do_accept_ else [])
  | None =>
      let id := x.(next_connection_id_) in
      x ← on_accepted_ x;
      Done (x, async_read id :: if is_open then do_accept_ else [])
  end.

(** [start], and the lambda it dispatches. *)
Definition start_accepting (x : t) : t * list AcceptTask := (start x, do_accept_).

(** The lambda [stop] dispatches, on the clients that are there when it runs. *)
Definition close_all (clients : gmap Id_t ClientState) : list AcceptTask :=
  close_acceptor :: concat (map (λ client, close client.1) (map_to_list clients)).

(** The lambda [remove_connection_] dispatches. *)
Definition close_client (x : t) (connection_id : Id_t) : t * list AcceptTask :=
  match x.(clients_) !! connection_id with
  | Some _ => (erase_client x connection_id, close connection_id)
  | None => (x, [])
  end.

Module Acceptor.
Record t := Make {
  exchange : Exchange.t;
  is_open : bool;
  outstanding : nat
}.

(** What the I/O library does with a task. *)
Definition absorb (a : t) (task : AcceptTask) : t :=
  match task with
  | async_accept => Make a.(exchange) a.(is_open) (S a.(outstanding))
  | close_acceptor => Make a.(exchange) false a.(outstanding)
  | _ => a
  end.

Definition absorb_all (a : t) (x : Exchange.t) (tasks : list AcceptTask) : t :=
  foldl absorb (Make x a.(is_open) a.(outstanding)) tasks.

(** An accept completes, the close that [stop] dispatched runs, or a client is removed. *)
Inductive Step :=
  | Completed (ec : option AcceptError)
  | Closed
  | Removed (id : Id_t).

Definition step (a : t) (s : Step) : outcome t :=
  match s with
  | Completed ec =>
      '(x, tasks) ← on_accept_completed a.(exchange) ec a.(is_open);
      Done (absorb_all (Make x a.(is_open) (a.(outstanding) - 1)) x tasks)
  | Closed => Done (absorb_all a a.(exchange) (close_all a.(exchange).(clients_)))
  | Removed id => let '(x, tasks) := close_client a.(exchange) id in Done (absorb_all a x tasks)
  end.

(** An accept that is outstanding completes; it is aborted only when the acceptor
    is closed. *)
Definition enabled (a : t) (s : Step) : bool :=
  match s with
  | Completed (Some operation_aborted) => (0 <? a.(outstanding))%nat && negb a.(is_open)
  | Completed _ => (0 <? a.(outstanding))%nat
  | _ => true
  end.

Fixpoint run (a : t) (steps : list Step) : outcome t :=
  match steps with
  | [] => Done a
  | s :: steps => a ← step a s; run a steps
  end.

(** Completions are of accepts that are outstanding. *)
Fixpoint possible (a : t) (steps : list Step) : bool :=
  match steps with
  | [] => true
  | s :: steps => enabled a s && match step a s with Done a => possible a steps | _ => true end
  end.

Definition listening (x : Exchange.t) : t :=
  let '(x, tasks) := start_accepting x in
  absorb_all (Make x true 0) x tasks.
End Acceptor.
Import Acceptor.

(** ** Accepting *)

Lemma absorb_closes a clients :
  foldl absorb a (close_all clients) = Make a.(exchange) false a.(outstanding).
Proof.
  unfold close_all. cbn [foldl].
  assert (∀ b, foldl absorb b (concat (map (λ client, close client.1) (map_to_list clients))) = b) as ->; [|done].
  induction (map_to_list clients) as [|c cs IH]; intros b; [done|]. cbn. apply IH.
Qed.

(** One accept is outstanding while the acceptor is open, and at most one after. *)
Record accepting (a : Acceptor.t) (A : ABook) : Prop := MkAccepting {
  ac_ok : exchange_ok a.(exchange) A;
  ac_open : a.(is_open) = true → a.(outstanding) = 1%nat;
  ac_closed : (a.(outstanding) <= 1)%nat
}.

Lemma erase_keeps x A id : exchange_ok x A → exchange_ok (erase_client x id) A.
Proof. by intros [[] ? ? ? ?]. Qed.

Lemma accepting_step a A s :
  accepting a A → enabled a s = true → ∃ a', step a s = Done a' ∧ accepting a' A.
Proof.
  intros [HE Ho Hc] Hen. destruct s as [ec| |id]; cbn [step].
  - destruct ec as [[]|]; cbn [on_accept_completed enabled] in *.
    + apply andb_true_iff in Hen as [_ Hcl%negb_true_iff]. run_bind. eexists. split; [reflexivity|].
      split; cbn; [done | by rewrite Hcl | lia].
    + run_bind. eexists. split; [reflexivity|]. destruct (is_open a) eqn:E; (split; cbn; rewrite ?E; [done | | lia]).
      * intros _. by rewrite Ho.
      * done.
    + destruct (accept_ok _ _ HE) as (x' & -> & HE' & _). run_bind. eexists. split; [reflexivity|].
      destruct (is_open a) eqn:E; (split; cbn; rewrite ?E; [done | | lia]).
      * intros _. by rewrite Ho.
      * done.
  - unfold absorb_all. rewrite absorb_closes. eexists. split; [reflexivity|]. by split.
  - unfold close_client. destruct (clients_ (exchange a) !! id); (eexists; split; [reflexivity|]; split; cbn; try done).
    by apply erase_keeps.
Qed.

(** The exchange accepts as long as it listens: whatever completes, errors
    included, and whatever clients leave, exactly one accept is outstanding until
    the acceptor is closed, and then at most the one that is to be aborted. *)
Theorem always_accepting (steps : list Acceptor.Step) :
  possible (listening Exchange.Exchange) steps = true →
  ∃ a, run (listening Exchange.Exchange) steps = Done a ∧
    if a.(is_open) then a.(outstanding) = 1%nat else (a.(outstanding) <= 1)%nat.
Proof.
  assert (accepting (listening Exchange.Exchange) empty_book) as HA by (split; [destruct fresh_ok as [[] ? ? ? ?]; by split | done | cbn; lia]).
  revert HA. generalize (listening Exchange.Exchange) as a. induction steps as [|s steps IH]; intros a HA Hp; cbn [run possible] in *.
  { exists a. split; [done|]. destruct (is_open a) eqn:E; [by apply HA | apply HA]. }
  apply andb_true_iff in Hp as [Hen Hp]. destruct (accepting_step a empty_book s HA Hen) as (a' & E & HA').
  rewrite E in *. run_bind. by apply IH.
Qed.

Lemma always_accepting_witness :
  ∃ a, run (listening Exchange.Exchange) [Completed None; Completed (Some accept_failed); Removed 0; Completed None; Closed;
                                          Completed (Some operation_aborted)] = Done a ∧
    a.(is_open) = false ∧ (a.(outstanding) <= 1)%nat.
Proof.
  destruct (always_accepting [Completed None; Completed (Some accept_failed); Removed 0; Completed None; Closed;
    Completed (Some operation_aborted)]) as (a & E & H).
  - vm_compute. reflexivity.
  - exists a. split; [exact E|].
    assert (a.(is_open) = false) as Ho.
    { assert (match run (listening Exchange.Exchange) [Completed None; Completed (Some accept_failed); Removed 0;
        Completed None; Closed; Completed (Some operation_aborted)] with Done a => is_open a | _ => true end = false) as Hr
        by (vm_compute; reflexivity). by rewrite E in Hr. }
    rewrite Ho in H. split; [exact Ho | exact H].
Defined.
