(* ===== verification/Server.v ===== *)
(** The exchange with the connections of its clients: reads that complete, the
    tasks that connections post to be heard and the drains the engine posts
    itself, as steps in any order.

    [exchange.cpp] installs the hooks [disconnected] and [inbound_ready] on a
    connection; [connectivity.cpp] calls them from its handlers.  A step is one
    handler with the hooks it calls.  What the engine asks of the connections is
    recorded, not executed: it changes the sending half of a connection only
    ([ConnectionWrite]), and the destruction of a closed connection is the matter
    of [ExchangeLife]. *)

From S2P Require Import Prelude Types OrderBook Codec Payloads Protocol SpscQueue Connection ConnectionRead Exchange ExchangeCalls ExchangeEvents ExchangeSession.
Import Exchange.

Definition is_drain (call : Call) : bool := match call with post_engine_drain => true | _ => false end.

Module Server.
(** [drains] and [ready] are the tasks that are posted and have not run: drains
    of the engine, and the lambdas of [notify_inbound_ready_], by connection. *)
Record t := Make {
  ex : Exchange.t;
  drains : nat;
  ready : list Id_t;
  sent : list Call
}.

(** The constructed exchange, started. *)
Definition started : t := Make (start Exchange.Exchange) 0 [] [].

Inductive Step :=
  | Connect
  | Received (id : Id_t) (data : bytes)
  | Failed (id : Id_t)
  | Ready (id : Id_t)
  | Drain (clock : nat → Time_t * Time_t * Time_t).

(** The calls of a handler: drains are posted, the others recorded. *)
Definition post (s : t) (x : Exchange.t) (calls : list Call) : t :=
  Make x (s.(drains) + length (filter (λ call, is_drain call = true) calls)) s.(ready)
    (s.(sent) ++ filter (λ call, is_drain call = false) calls).

(** What a connection's handler asked for. *)
Definition effect (s : t) (id : Id_t) (e : Effect) : outcome t :=
  match e with
  | post_inbound_ready => Done (Make s.(ex) s.(drains) (s.(ready) ++ [id]) s.(sent))
  | call_disconnected => '(x, calls) ← hook_disconnected s.(ex) id; Done (post s x calls)
  | call_inbound_ready => let '(x, calls) := hook_inbound_ready s.(ex) in Done (post s x calls)
  | _ => Done s
  end.

Fixpoint effects (s : t) (id : Id_t) (effs : list Effect) : outcome t :=
  match effs with
  | [] => Done s
  | e :: effs => s ← effect s id e; effects s id effs
  end.

(** The connection of a client and the inbox after a handler. *)
Definition set_conn (x : Exchange.t) (id : Id_t) (client : ClientState) (conn : Connection.t) (inbox : Queue)
    : Exchange.t :=
  set_engine
    (set_clients x (<[id := MkClientState client.(outbox) conn]> x.(clients_)) x.(conn_by_id_)
       x.(market_data_subscribers_) x.(next_connection_id_))
    inbox x.(running_) x.(engine_drain_scheduled_).

Definition set_exchange (s : t) (x : Exchange.t) : t := Make x s.(drains) s.(ready) s.(sent).

(** A completed read, with the bytes or with an error. *)
Definition complete_read (s : t) (id : Id_t) (read : option bytes) : outcome t :=
  client ← deref (s.(ex).(clients_) !! id);
  '(conn, inbox, effs) ← Connection.handle_read_ client.(conn) s.(ex).(inbox_) read;
  effects (set_exchange s (set_conn s.(ex) id client conn inbox)) id effs.

(** The queue of tasks without the one that runs. *)
Fixpoint without (id : Id_t) (ids : list Id_t) : list Id_t :=
  match ids with
  | [] => []
  | id' :: ids => if id' =? id then ids else id' :: without id ids
  end.

(** A posted [notify_inbound_ready_] lambda. *)
Definition run_ready (s : t) (id : Id_t) : outcome t :=
  client ← deref (s.(ex).(clients_) !! id);
  let '(conn, effs) := Connection.run_inbound_ready client.(conn) in
  effects (Make (set_conn s.(ex) id client conn s.(ex).(inbox_)) s.(drains) (without id s.(ready)) s.(sent))
    id effs.

Definition step (s : t) (a : Step) : outcome t :=
  match a with
  | Connect => x ← on_accepted_ s.(ex); Done (set_exchange s x)
  | Received id data => complete_read s id (Some data)
  | Failed id => complete_read s id None
  | Ready id => run_ready s id
  | Drain clock =>
      '(x, calls) ← engine_drain s.(ex) clock;
      Done (post (Make s.(ex) (s.(drains) - 1) s.(ready) s.(sent)) x calls)
  end.

(** A read completes while the connection reads, a task runs when it is posted. *)
Definition reading (s : t) (id : Id_t) : bool :=
  match s.(ex).(clients_) !! id with
  | Some client => negb client.(conn).(Connection.disconnect_notified_)
  | None => false
  end.

Definition enabled (s : t) (a : Step) : bool :=
  match a with
  | Connect => true
  | Received id data => reading s id && (Z.of_nat (length data) <=? READ_SIZE)
  | Failed id => reading s id
  | Ready id => bool_decide (id ∈ s.(ready))
  | Drain _ => (0 <? s.(drains))%nat
  end.

Fixpoint run (s : t) (steps : list Step) : outcome t :=
  match steps with
  | [] => Done s
  | a :: steps => s ← step s a; run s steps
  end.

(** Steps that can happen one after the other. *)
Fixpoint possible (s : t) (steps : list Step) : bool :=
  match steps with
  | [] => true
  | a :: steps => enabled s a && match step s a with Done s => possible s steps | _ => false end
  end.
End Server.
Import Server.

(** ** What is expected of a client's connection *)

(** The bytes a client sent, and whether its connection failed. *)
Definition bytes_of (id : Id_t) (a : Step) : bytes :=
  match a with Received id' data => if id' =? id then data else [] | _ => [] end.
Definition fails (id : Id_t) (a : Step) : bool := match a with Failed id' => id' =? id | _ => false end.

Definition stream (id : Id_t) (steps : list Step) : bytes := concat (map (bytes_of id) steps).

(** The frames that are queued for the engine when there is room, and whether the
    connection is closed for a frame that is too long. *)
Definition heard (fs : list (Message_t * bytes)) : list (Message_t * bytes) * bool := taken (length fs) fs.

Definition closed (id : Id_t) (steps : list Step) : bool :=
  (heard (frames (stream id steps)).1).2 || existsb (fails id) steps.

Definition disconnect_message (id : Id_t) : InboundMessage := queued id (MessageType_to_u8 DISCONNECT) [].

(** The messages of a client, from the bytes it sent and the end of its connection. *)
Definition messages_of (id : Id_t) (steps : list Step) : list InboundMessage :=
  map (delivered id) (heard (frames (stream id steps)).1).1 ++
  if closed id steps then [disconnect_message id] else [].

(** There is room in the inbox for the frames a read completes and for a
    disconnection, and ids are not used up. *)
Definition roomy (s : Server.t) (a : Step) : bool :=
  let size := size_approx s.(ex).(inbox_) in
  match a with
  | Connect => s.(ex).(next_connection_id_) + 1 <? 2 ^ 32
  | Received id data =>
      match s.(ex).(clients_) !! id with
      | Some client =>
          size + Z.of_nat (length (frames (client.(conn).(Connection.in_accum_) ++ data)).1)
            <? CapacityPow2 INBOUND_Q_LOG
      | None => true
      end
  | Failed _ => size <? CapacityPow2 INBOUND_Q_LOG
  | Ready _ => true
  | Drain _ => s.(ex).(order_book_).(OrderBook.OrderBook.order_id_) + size <? 2 ^ 32
  end.

(** Steps that can happen one after the other, and each of which finds room. *)
Fixpoint orderly (s : Server.t) (steps : list Step) : bool :=
  match steps with
  | [] => true
  | a :: steps =>
      enabled s a && roomy s a && match step s a with Done s => orderly s steps | _ => false end
  end.

(** Bytes are bytes, readings of the clock are 64-bit. *)
Definition well_typed (a : Step) : Prop :=
  match a with
  | Received _ data => Forall is_byte data
  | Drain clock => ∀ n, well_timed (clock n)
  | _ => True
  end.

(** The messages of a session. *)
Definition inbound (ins : list Input) : list InboundMessage :=
  omap (λ i, match i with Inbound msg _ => Some msg | Accept => None end) ins.

Definition from (id : Id_t) (ms : list InboundMessage) : list InboundMessage :=
  filter (λ m, m.(connection_id) = id) ms.

(** ** Handling a message looks at neither the inbox nor the clients *)

Section engine.
Context (clients : gmap Id_t ClientState) (inbox : Queue) (running scheduled : bool).

(** The exchange, and the result of a handler, with other clients and another inbox. *)
Definition moved (x : Exchange.t) : Exchange.t :=
  Exchange.Make clients x.(conn_by_id_) inbox x.(market_data_subscribers_) x.(order_book_)
    x.(next_connection_id_) x.(trade_id_) x.(sequence_number_) running scheduled.

Definition moved_result (res : outcome (Exchange.t * list Call)) : outcome (Exchange.t * list Call) :=
  '(x, calls) ← res;
  Done (moved x, calls).
End engine.
