(* ===== verification/ServerTheorems.v ===== *)
(** What the exchange and its connections guarantee together. *)

From S2P Require Import Prelude Types OrderBook BookSpec BookRep Codec Payloads Protocol SpscQueue Connection ConnectionRead Exchange ExchangeCalls ExchangeEvents ExchangeSession ExchangeTheorems Server.
Import Exchange Server.

(** ** Handlers of the engine *)

Section engine.
Context (clients : gmap Id_t ClientState) (inbox : Queue) (running scheduled : bool).
#[local] Abbreviation moved := (moved clients inbox running scheduled).
#[local] Abbreviation moved_result := (moved_result clients inbox running scheduled).

Lemma table_moved x : table_ok x → table_ok (moved x).
Proof. by intros [H1 H2]. Qed.

Lemma numbered_moved x e : numbered (moved x) e = moved (numbered x e).
Proof. by destruct e. Qed.

Lemma calls_moved x evs : calls_of (moved x) evs = calls_of x evs.
Proof. revert x. induction evs as [|e evs IH]; intros x; [done|]. cbn [calls_of]. by rewrite numbered_moved, IH. Qed.

Lemma numbered_all_moved x evs : foldl numbered (moved x) evs = moved (foldl numbered x evs).
Proof. revert x. induction evs as [|e evs IH]; intros x; [done|]. cbn [foldl]. by rewrite numbered_moved, IH. Qed.

Lemma with_book_moved x result : table_ok x → with_book (moved x) result = moved_result (with_book x result).
Proof.
  intros HT. unfold with_book. destruct result as [[book evs]| |]; run_bind; [|done..].
  change (set_book (moved x) book _ _) with (moved (set_book x book (trade_id_ x) (sequence_number_ x))).
  rewrite !callbacks_ok by (destruct HT; by split). unfold Server.moved_result. run_bind.
  by rewrite calls_moved, numbered_all_moved.
Qed.

Lemma unsubscribe_moved x id : unsubscribe_market_feed_ (moved x) id = moved (unsubscribe_market_feed_ x id).
Proof. unfold unsubscribe_market_feed_. cbn [market_data_subscribers_ Server.moved]. by destruct (list_find _ _) as [[]|]. Qed.

Lemma dispatch_moved x msg times : table_ok x → dispatch_ (moved x) msg times = moved_result (dispatch_ x msg times).
Proof.
  intros HT. unfold dispatch_. destruct times as [[now now_match] now_add].
  destruct (MessageType_of_u8 msg.(message_type)); try done; try by rewrite <- with_book_moved.
  - unfold remove_connection_. rewrite unsubscribe_moved. unfold Server.moved_result.
    cbn [conn_by_id_ clients_ market_data_subscribers_ next_connection_id_ Server.moved].
    by destruct (if u64 _ <? _ then arr_set _ _ None else _) as [conns| |].
  - unfold subscribe_market_feed_, Server.moved_result. cbn [order_book_ Server.moved set_subscribers set_clients].
    destruct (OrderBook.OrderBook.build_snapshot _) as [[[bv bp] [av ap]]| |]; run_bind; [|done..].
    unfold conn_ptr_. cbn [conn_by_id_ set_subscribers set_clients Server.moved].
    destruct (_ <=? _); [done|]. by destruct (arr_get _ _) as [[c|]| |].
  - unfold Server.moved_result. run_bind. by rewrite unsubscribe_moved.
Qed.

(** Accepting: the new client is the next id, if that is within the limit. *)
Lemma accept_moved y y' :
  clients !! y.(next_connection_id_) = None → on_accepted_ y = Done y' →
  let id := y.(next_connection_id_) in
  ∃ clients', on_accepted_ (moved y) = Done (Server.moved clients' inbox running scheduled y') ∧
    clients' = if MAX_CONNECTIONS <=? u64 id then clients else <[id := (accept_connection y).2]> clients.
Proof.
  intros Hn. unfold on_accepted_, accept_connection, publish_connection_. cbn.
  destruct (_ <=? _); [intros [= <-]; by eexists|].
  destruct (arr_set _ _ _) as [conns| |]; [|done..]. run_bind. intros [= <-].
  rewrite Hn. eexists. split; [|reflexivity]. done.
Qed.
End engine.

(** No handler of a message posts a drain. *)
Definition no_drain (calls : list Call) : Prop := Forall (λ call, is_drain call = false) calls.

Lemma no_drain_events x evs : no_drain (calls_of x evs).
Proof.
  revert x. induction evs as [|e evs IH]; intros x; [by constructor|]. cbn [calls_of].
  repeat (apply Forall_app; split); [| |apply IH].
  - unfold send_private. apply Forall_concat, Forall_map, Forall_true. intros [c [type payload]].
    destruct (connected x c); by repeat constructor.
  - destruct (publication _ _ e) as [[type payload]|]; [|constructor]. cbn [send_public].
    apply Forall_app. split; [|by repeat constructor]. by apply Forall_map, Forall_true.
Qed.

Lemma no_drain_dispatched x A msg times x' calls A' : dispatched x A msg times x' calls A' → no_drain calls.
Proof. intros []; try destruct (connected _ _); try by repeat constructor. apply no_drain_events. Qed.

Lemma run_inputs_app x ins ins' :
  run_inputs x (ins ++ ins') =
    ('(y, calls) ← run_inputs x ins; '(z, calls') ← run_inputs y ins'; Done (z, calls ++ calls')).
Proof.
  revert x. induction ins as [|i ins IH]; intros x; cbn [app run_inputs].
  { run_bind. by destruct (run_inputs x ins') as [[]| |]. }
  destruct (handle_input x i) as [[x1 c1]| |]; run_bind; [|done..]. rewrite IH.
  destruct (run_inputs x1 ins) as [[x2 c2]| |]; run_bind; [|done..].
  destruct (run_inputs x2 ins') as [[x3 c3]| |]; run_bind; [|done..]. by rewrite app_assoc.
Qed.

(** ** Draining the inbox *)

(** The messages a drain of [budget] takes, with the readings of its clock. *)
Fixpoint drained (budget : nat) (clock : nat → Times) (items : list InboundMessage) : list Input :=
  match budget, items with
  | S budget, m :: items => Inbound m (clock budget) :: drained budget clock items
  | _, _ => []
  end.

Lemma drain_messages_ok clients running scheduled budget clock : ∀ inbox items y A,
  holds INBOUND_Q_LOG inbox items → Forall well_formed items → exchange_ok y A →
  A.(a_next_id) + Z.of_nat (length items) < 2 ^ 32 →
  ∃ y' A' inbox' calls,
    drain_messages budget (moved clients inbox running scheduled y) clock =
      Done (moved clients inbox' running scheduled y', calls) ∧
    run_inputs y (drained budget clock items) = Done (y', calls) ∧
    holds INBOUND_Q_LOG inbox' (drop budget items) ∧ exchange_ok y' A' ∧ no_drain calls ∧
    y'.(next_connection_id_) = y.(next_connection_id_) ∧
    A'.(a_next_id) + Z.of_nat (length (drop budget items)) <= A.(a_next_id) + Z.of_nat (length items).
Proof.
  induction budget as [|budget IH]; intros inbox items y A HQ HW HE Hid; cbn [drain_messages drained].
  { exists y, A, inbox, []. repeat (split; [done|]). split; [constructor | by split]. }
  destruct (try_pop_ok _ inbound_log inbox items HQ) as (inbox1 & E & HQ1).
  cbn [inbox_ Server.moved]. rewrite E. run_bind.
  destruct items as [|m items]; cbn [head tail drained drop].
  { exists y, A, inbox1, []. repeat (split; [done|]). split; [constructor | by split]. }
  apply Forall_cons in HW as [Hm HW]. cbn [length] in Hid.
  change (set_engine _ inbox1 _ _) with (moved clients inbox1 running scheduled y).
  destruct (dispatch_ok y A m (clock budget) HE Hm ltac:(lia)) as (y1 & calls1 & A1 & E1 & HE1 & HD & Hn).
  rewrite dispatch_moved, E1 by apply HE. unfold moved_result. cbn [run_inputs handle_input]. rewrite E1. run_bind.
  destruct (IH inbox1 items y1 A1 HQ1 HW HE1 ltac:(lia)) as (y2 & A2 & inbox2 & calls2 & -> & -> & HQ2 & HE2 & Hd & Hnext & Hn2).
  run_bind. exists y2, A2, inbox2, (calls1 ++ calls2). repeat (split; [done|]). split; [|split; [|cbn [length]; lia]].
  - apply Forall_app. split; [by eapply no_drain_dispatched | done].
  - rewrite Hnext. destruct HD as [r book evs A1 _ _ x1| | |x' _ Hx'|]; try done.
    + apply (sc_next _ _ (numbered_all_same x1 evs)).
    + by destruct (unsubscribe_Permutation y (connection_id m)) as [-> _].
    + revert Hx'. unfold remove_connection_.
      destruct (if u64 _ <? _ then _ else _) as [conns| |]; [|done..]. run_bind. intros [= <-]. cbn.
      by destruct (unsubscribe_Permutation y (connection_id m)) as [-> _].
Qed.

(** ** What is heard of a stream *)

Lemma taken_enough room fs : (length fs <= room)%nat → taken room fs = heard fs.
Proof.
  unfold heard. revert room. induction fs as [|f fs IH]; intros room Hl; [done|]. cbn [taken length] in *.
  destruct (_ <? _)%nat; [done|]. destruct (_ <=? _)%nat.
  - destruct room as [|room]; [lia|]. by rewrite IH by lia.
  - rewrite IH by lia. symmetry. rewrite IH by lia. done.
Qed.

Lemma heard_length fs : (length (heard fs).1 <= length fs)%nat.
Proof. apply taken_room. Qed.

Lemma heard_app fs fs' :
  heard (fs ++ fs') =
    let '(ms, c) := heard fs in
    if c : bool then (ms, true) else let '(ms', c') := heard fs' in (ms ++ ms', c').
Proof.
  pose proof (heard_length fs) as Hl. unfold heard at 1. rewrite taken_app, taken_enough by (rewrite length_app; lia).
  destruct (heard fs) as [ms []]; [done|]. cbn [fst] in Hl. rewrite taken_enough; [done|]. rewrite length_app. lia.
Qed.

Lemma taken_bufferable room fs : Forall bufferable (taken room fs).1 ∧ (taken room fs).1 ⊆ fs.
Proof.
  revert room. induction fs as [|f fs IH]; intros room; cbn [taken]; [by split|].
  destruct (_ <? _)%nat; [split; [constructor | set_solver]|].
  destruct (_ <=? _)%nat eqn:E; [|destruct (IH room); split; [done | set_solver]].
  destruct room as [|room]; [split; [constructor | set_solver]|]. destruct (IH room) as [H1 H2].
  destruct (taken room fs) as [ms c]. cbn [fst] in *. split.
  - constructor; [by apply Nat.leb_le | done].
  - set_solver.
Qed.

Lemma frames_bytes bs : Forall is_byte bs → Forall (λ f, Forall is_byte f.2) (frames bs).1 ∧ Forall is_byte (frames bs).2.
Proof.
  remember (length bs) as n eqn:Hn. revert bs Hn. induction n as [n IH] using lt_wf_ind. intros bs Hn Hb.
  rewrite frames_unfold. destruct (next_frame bs) as [[f rest]|] eqn:E; [|by split].
  pose proof (next_frame_length _ _ _ E). unfold next_frame in E.
  destruct bs as [|t [|b0 [|b1 r]]]; try done. destruct (_ <? _)%nat; [done|]. injection E as <- <-.
  apply Forall_cons in Hb as [_ [_ [_ Hb]%Forall_cons]%Forall_cons].
  set (k := Z.to_nat (read_u16_be b0 b1)) in *.
  destruct (IH (length (drop k r)) ltac:(lia) (drop k r) eq_refl) as [H1 H2]; [by apply Forall_drop|]. split; [constructor; [by apply Forall_take | done] | done].
Qed.

Lemma queued_well_formed id type payload :
  is_u32 id → (length payload <= MAX_PAYLOAD_SIZE_BUFFER)%nat → Forall is_byte payload →
  well_formed (queued id type payload).
Proof.
  intros Hid Hl Hb. split; [|split; [|done]].
  - unfold queued. cbn [msg_payload]. rewrite length_app, length_replicate. lia.
  - apply Forall_app. split; [done|]. apply Forall_replicate. unfold is_byte. lia.
Qed.

Lemma delivered_well_formed id bs room :
  is_u32 id → Forall is_byte bs → Forall well_formed (map (delivered id) (taken room (frames bs).1).1).
Proof.
  intros Hid Hb. apply Forall_map, Forall_forall. intros f Hf.
  destruct (taken_bufferable room (frames bs).1) as [H1 H2]. destruct (frames_bytes bs Hb) as [H3 _].
  rewrite Forall_forall in H1, H3. apply queued_well_formed; [done | by apply H1 | by apply H3, H2].
Qed.

Lemma disconnect_well_formed id : is_u32 id → well_formed (disconnect_message id).
Proof. intros Hid. apply queued_well_formed; [done | cbn; lia | constructor]. Qed.

(** ** Steps and histories *)

Lemma stream_snoc id h a : stream id (h ++ [a]) = stream id h ++ bytes_of id a.
Proof. unfold stream. rewrite map_app, concat_app. cbn. by rewrite app_nil_r. Qed.

Lemma fails_snoc id h a : existsb (fails id) (h ++ [a]) = existsb (fails id) h || fails id a.
Proof. rewrite existsb_app. cbn. by rewrite orb_false_r. Qed.

Lemma stream_bytes id h a : well_typed a → Forall is_byte (stream id h) → Forall is_byte (stream id (h ++ [a])).
Proof.
  intros Ha H. rewrite stream_snoc. apply Forall_app. split; [done|].
  destruct a; cbn; try constructor. by destruct (_ =? _); [|constructor].
Qed.

(** A step that is not a read of the connection. *)
Definition elsewhere (id : Id_t) (a : Step) : Prop := bytes_of id a = [] ∧ fails id a = false.

Lemma elsewhere_snoc id h a :
  elsewhere id a →
  stream id (h ++ [a]) = stream id h ∧ closed id (h ++ [a]) = closed id h ∧
  messages_of id (h ++ [a]) = messages_of id h.
Proof.
  intros [E1 E2]. unfold messages_of, closed. rewrite stream_snoc, fails_snoc, E1, E2, app_nil_r, orb_false_r. done.
Qed.

Lemma elsewhere_received id id' data : id ≠ id' → elsewhere id (Received id' data).
Proof. intros H. split; [|done]. cbn. by rewrite (proj2 (Z.eqb_neq id' id)). Qed.

Lemma elsewhere_failed id id' : id ≠ id' → elsewhere id (Failed id').
Proof. intros H. split; [done|]. cbn. by rewrite (proj2 (Z.eqb_neq id' id)). Qed.

Lemma from_app id ms ms' : from id (ms ++ ms') = from id ms ++ from id ms'.
Proof. apply filter_app. Qed.

Lemma from_all id ms : Forall (λ m, m.(connection_id) = id) ms → from id ms = ms.
Proof. intros H. unfold from. induction H as [|m ms Hm _ IH]; [done|]. by rewrite filter_cons_True, IH. Qed.

Lemma from_other id id' ms : id ≠ id' → Forall (λ m, m.(connection_id) = id') ms → from id ms = [].
Proof. intros Hne H. unfold from. rewrite Forall_forall in H. apply filter_none. intros m Hm. rewrite (H m Hm). congruence. Qed.

Lemma without_elem id ids id' : NoDup ids → id' ∈ without id ids ↔ id' ∈ ids ∧ id' ≠ id.
Proof.
  induction 1 as [|i ids Hi Hn IH]; cbn [without]; [set_solver|].
  destruct (Z.eqb_spec i id) as [->|Hne]; rewrite ?elem_of_cons, ?IH; set_solver.
Qed.

Lemma without_NoDup id ids : NoDup ids → NoDup (without id ids).
Proof.
  induction 1 as [|i ids Hi Hn IH]; cbn [without]; [constructor|].
  destruct (i =? id); [done|]. constructor; [|done]. rewrite without_elem by done. tauto.
Qed.

(** ** The invariant *)

(** The receiving half of a client's connection. *)
Record client_ok (id : Id_t) (c : Connection.t) (h : list Step) (ids : list Id_t) : Prop := MkClientOk {
  cl_id : c.(Connection.id_) = id;
  cl_hooks : c.(Connection.hooks) = MkHooks true false true;
  cl_closed : c.(Connection.disconnect_notified_) = closed id h;
  cl_idle : closed id h = false → idle c ∧ c.(Connection.in_accum_) = (frames (stream id h)).2;
  cl_ready : c.(Connection.inbound_ready_pending_) = bool_decide (id ∈ ids)
}.

(** After the steps [h]: the engine is the exchange that handled the inputs [ins],
    with the messages [items] still in its inbox; what has been queued by each
    client is what it is to be heard; and somebody will wake the engine. *)
Record serving (h : list Step) (s : Server.t) (y : Exchange.t) (A : ABook) (ins : list Input)
    (items : list InboundMessage) : Prop := MkServing {
  sv_run : run_inputs Exchange.Exchange ins = Done (y, s.(sent));
  sv_valid : Forall valid_input ins;
  sv_ok : exchange_ok y A;
  sv_engine : s.(ex) = moved s.(ex).(clients_) s.(ex).(inbox_) true (0 <? s.(drains))%nat y;
  sv_inbox : holds INBOUND_Q_LOG s.(ex).(inbox_) items;
  sv_items : Forall well_formed items;
  sv_messages id : from id (inbound ins ++ items) = messages_of id h;
  sv_bytes id : Forall is_byte (stream id h);
  sv_none id : s.(ex).(clients_) !! id = None → stream id h = [] ∧ existsb (fails id) h = false;
  sv_bound id : is_Some (s.(ex).(clients_) !! id) → 0 <= id < y.(next_connection_id_);
  sv_client id st : s.(ex).(clients_) !! id = Some st → client_ok id st.(conn) h s.(ready);
  sv_ready id : id ∈ s.(ready) → is_Some (s.(ex).(clients_) !! id);
  sv_once : NoDup s.(ready);
  sv_drains : (s.(drains) <= 1)%nat;
  sv_wake : items = [] ∨ (0 < s.(drains))%nat ∨ ∃ id, id ∈ s.(ready) ∧ reading s id = true
}.

Lemma serving_u32 h s y A ins items id :
  serving h s y A ins items → is_Some (s.(ex).(clients_) !! id) → is_u32 id.
Proof. intros HS Hid. pose proof (sv_bound _ _ _ _ _ _ HS id Hid). destruct (eo_next _ _ (sv_ok _ _ _ _ _ _ HS)). unfold is_u32. lia. Qed.

Lemma started_serving : serving [] started Exchange.Exchange empty_book [] [].
Proof.
  split; try done.
  - apply fresh_ok.
  - apply new_queue_holds, inbound_log.
  - by intros id [].
  - intros id Hid. by apply elem_of_nil in Hid.
  - constructor.
  - cbn. lia.
  - by left.
Qed.

(** A handler of the connection [id] ran in the step [a]: it queued [new]. *)
Record heard_from (h : list Step) (s : Server.t) (y : Exchange.t) (A : ABook) (ins : list Input)
    (items : list InboundMessage) (a : Step) (id : Id_t) (st : ClientState) (c' : Connection.t)
    (inbox' : Queue) (new : list InboundMessage) (drains' : nat) (ready' : list Id_t) : Prop := MkHeard {
  hf_client : s.(ex).(clients_) !! id = Some st;
  hf_elsewhere id' : id ≠ id' → elsewhere id' a;
  hf_inbox : holds INBOUND_Q_LOG inbox' (items ++ new);
  hf_new : Forall well_formed new;
  hf_from : Forall (λ m, m.(connection_id) = id) new;
  hf_messages : messages_of id (h ++ [a]) = messages_of id h ++ new;
  hf_ok : client_ok id c' (h ++ [a]) ready';
  hf_ready id' : id' ∈ ready' → id' ∈ s.(ready) ∨ id' = id;
  hf_others id' : id ≠ id' → id' ∈ ready' ↔ id' ∈ s.(ready);
  hf_once : NoDup ready';
  hf_drains : (drains' <= 1)%nat;
  hf_wake : items ++ new = [] ∨ (0 < drains')%nat ∨
    ∃ id', id' ∈ ready' ∧ if id' =? id then c'.(Connection.disconnect_notified_) = false else reading s id' = true
}.

Definition after_read (s : Server.t) (id : Id_t) (st : ClientState) (c' : Connection.t) (inbox' : Queue)
    (drains' : nat) (ready' : list Id_t) : Server.t :=
  Make (set_engine (set_conn s.(ex) id st c' inbox') inbox' s.(ex).(running_) (0 <? drains')%nat)
    drains' ready' s.(sent).

Lemma serving_heard h s y A ins items a id st c' inbox' new drains' ready' :
  serving h s y A ins items → well_typed a → heard_from h s y A ins items a id st c' inbox' new drains' ready' →
  serving (h ++ [a]) (after_read s id st c' inbox' drains' ready') y A ins (items ++ new).
Proof.
  intros [Hrun Hval HE Heng HQ HW Hmsg Hby Hnone Hbnd Hcl Hrd Hon _ _] Ht [Hst Hel HQ' HW' Hfr Hm Hok Hr Ho Hon' Hdr Hwk].
  assert (∀ id', is_Some (<[id := MkClientState (outbox st) c']> (clients_ (ex s)) !! id') ↔
    is_Some (clients_ (ex s) !! id')) as Hdom.
  { intros id'. destruct (decide (id = id')) as [<-|Hne].
    - rewrite lookup_insert_eq, Hst. by split; eauto.
    - by rewrite lookup_insert_ne. }
  split; cbn [after_read ex drains ready sent set_engine set_conn set_clients clients_ inbox_]; try done.
  - by rewrite Heng.
  - apply Forall_app. done.
  - intros id'. rewrite app_assoc, from_app, Hmsg. destruct (decide (id = id')) as [<-|Hne].
    + by rewrite Hm, from_all.
    + destruct (elsewhere_snoc id' h a (Hel id' Hne)) as (_ & _ & ->). by rewrite (from_other id' id), app_nil_r by done.
  - intros id'. by apply stream_bytes.
  - intros id' Hn. destruct (decide (id = id')) as [<-|Hne]; [by rewrite lookup_insert_eq in Hn|].
    rewrite lookup_insert_ne in Hn by done. destruct (elsewhere_snoc id' h a (Hel id' Hne)) as (-> & _ & _).
    rewrite fails_snoc. destruct (Hel id' Hne) as [_ ->]. rewrite orb_false_r. by apply Hnone.
  - intros id'. rewrite Hdom. apply Hbnd.
  - intros id' st'. destruct (decide (id = id')) as [<-|Hne].
    + rewrite lookup_insert_eq. by intros [= <-].
    + rewrite lookup_insert_ne by done. intros [Hi Hh Hc Hid Hp]%Hcl.
      destruct (elsewhere_snoc id' h a (Hel id' Hne)) as (Es & Ec & _).
      split; rewrite ?Es, ?Ec; try done. rewrite Hp. apply bool_decide_ext. symmetry. by apply Ho.
  - intros id' [Hin| ->]%Hr; rewrite Hdom; [by apply Hrd | by rewrite Hst; eauto].
  - destruct Hwk as [?|[?|(id' & Hin & Hid')]]; [by left | by right; left|]. right. right. exists id'. split; [done|].
    unfold reading. cbn [after_read ex set_engine set_conn set_clients clients_]. destruct (Z.eqb_spec id' id) as [->|Hne].
    + rewrite lookup_insert_eq. cbn [conn]. by rewrite Hid'.
    + by rewrite lookup_insert_ne by done.
Qed.

(** ** Reads *)

Lemma messages_received id h data :
  closed id h = false →
  let '(fs, lft) := frames ((frames (stream id h)).2 ++ data) in
  let '(ms, c) := heard fs in
  let h' := h ++ [Received id data] in
  closed id h' = c ∧ (frames (stream id h')).2 = lft ∧
  messages_of id h' = messages_of id h ++ map (delivered id) ms ++ if c then [disconnect_message id] else [].
Proof.
  intros Hc. unfold messages_of. rewrite Hc. unfold closed in *. rewrite stream_snoc, fails_snoc. cbn [bytes_of fails].
  rewrite Z.eqb_refl, orb_false_r. apply orb_false_iff in Hc as [Hc ->].
  rewrite (frames_app (stream id h)). destruct (frames (stream id h)) as [fs0 lft0]. cbn [fst snd] in *.
  destruct (frames (lft0 ++ data)) as [fs lft]. cbn [fst snd]. rewrite heard_app.
  destruct (heard fs0) as [ms0 c0]. cbn [fst snd] in Hc |- *. subst c0. destruct (heard fs) as [ms c].
  cbn [fst snd]. rewrite orb_false_r, app_nil_r, map_app, app_assoc. done.
Qed.

Lemma messages_failed id h :
  closed id h = false →
  let h' := h ++ [Failed id] in
  closed id h' = true ∧ messages_of id h' = messages_of id h ++ [disconnect_message id].
Proof.
  intros Hc. unfold messages_of. rewrite Hc. unfold closed in *. rewrite stream_snoc, fails_snoc. cbn [bytes_of fails].
  rewrite Z.eqb_refl, !orb_true_r, !app_nil_r. done.
Qed.

Lemma effects_large s id effs : effects s id effs = effects s id (filter (λ e, is_large e = false) effs).
Proof.
  revert s. induction effs as [|e effs IH]; intros s; [done|]. rewrite filter_cons. cbn [effects].
  case_decide as Hl; [|destruct e; try done; apply IH]. cbn [effects]. destruct (effect s id e); run_bind; [apply IH | done..].
Qed.

(** A connection that ends tells the engine, if there is room. *)
Lemma effect_disconnected s id items :
  holds INBOUND_Q_LOG s.(ex).(inbox_) items → Z.of_nat (length items) < CapacityPow2 INBOUND_Q_LOG →
  s.(ex).(engine_drain_scheduled_) = (0 <? s.(drains))%nat →
  ∃ inbox', effect s id call_disconnected =
      Done (Make (set_engine s.(ex) inbox' s.(ex).(running_) true) (Nat.max 1 s.(drains)) s.(ready) s.(sent)) ∧
    holds INBOUND_Q_LOG inbox' (items ++ [disconnect_message id]).
Proof.
  intros HQ Hroom Hs. cbn [effect]. unfold hook_disconnected. fold (disconnect_message id).
  destruct (try_push_ok _ inbound_log _ items (disconnect_message id) HQ) as (inbox' & -> & HQ').
  rewrite bool_decide_true in HQ' |- * by done. exists inbox'. split; [|done]. run_bind.
  unfold schedule_engine_drain, post. cbn [engine_drain_scheduled_ set_engine running_ inbox_]. rewrite Hs.
  destruct (drains s) as [|d]; cbn; by rewrite ?app_nil_r, ?Nat.add_0_r.
Qed.

(** A connection that is heard is woken for, unless it already is. *)
Lemma effects_wakeup s id c ms effs :
  effects s id (wakeup c ms ++ effs) =
    effects (Make s.(ex) s.(drains)
      (s.(ready) ++ match ms with
                    | [] => []
                    | _ => if negb c.(Connection.hooks).(inbound_ready) || c.(Connection.inbound_ready_pending_)
                           then [] else [id]
                    end) s.(sent)) id effs.
Proof. unfold wakeup. destruct s, ms; [by rewrite app_nil_r|]. destruct (_ || _); [by rewrite app_nil_r | done]. Qed.

Lemma reading_client s id :
  reading s id = true → ∃ st, s.(ex).(clients_) !! id = Some st ∧ st.(conn).(Connection.disconnect_notified_) = false.
Proof. unfold reading. destruct (_ !! id) as [st|]; [|done]. intros H. exists st. by destruct (Connection.disconnect_notified_ _). Qed.

(** Who is to wake the engine: the ready tasks after a read that queued [ms]. *)
Definition woken (ids : list Id_t) (id : Id_t) (ms : list (Message_t * bytes)) : list Id_t :=
  match ms with [] => ids | _ => if decide (id ∈ ids) then ids else ids ++ [id] end.

Lemma woken_elem ids id ms id' :
  id' ∈ woken ids id ms ↔ id' ∈ ids ∨ id' = id ∧ ms ≠ [].
Proof. unfold woken. destruct ms; [naive_solver|]. case_decide; rewrite ?elem_of_app, ?list_elem_of_singleton; naive_solver. Qed.

Lemma woken_NoDup ids id ms : NoDup ids → NoDup (woken ids id ms).
Proof.
  intros H. unfold woken. destruct ms; [done|]. case_decide; [done|]. apply NoDup_app. split; [done|].
  split; [|apply NoDup_singleton]. intros x Hx. rewrite list_elem_of_singleton. by intros ->.
Qed.

(** The tasks after a read: those that wake up for [ms]. *)
Lemma woken_ready ids id c ms :
  c.(Connection.hooks) = MkHooks true false true → c.(Connection.inbound_ready_pending_) = bool_decide (id ∈ ids) →
  ids ++ match ms with
         | [] => []
         | _ => if negb c.(Connection.hooks).(inbound_ready) || c.(Connection.inbound_ready_pending_) then [] else [id]
         end = woken ids id ms.
Proof.
  intros -> ->. unfold woken. destruct ms; [by rewrite app_nil_r|]. cbn [negb inbound_ready orb].
  case_decide; [rewrite bool_decide_true | rewrite bool_decide_false]; by rewrite ?app_nil_r.
Qed.

Lemma pending_woken ids id ms :
  bool_decide (id ∈ ids) || true && negb (bool_decide (ms = [])) = bool_decide (id ∈ woken ids id ms).
Proof.
  destruct (decide (id ∈ woken ids id ms)) as [H|H].
  - rewrite (bool_decide_true (id ∈ woken _ _ _)) by done. apply woken_elem in H as [H|[_ H]].
    + by rewrite bool_decide_true.
    + by rewrite (bool_decide_false (ms = [])), orb_true_r.
  - rewrite (bool_decide_false (id ∈ woken _ _ _)) by done. rewrite woken_elem in H.
    rewrite (bool_decide_false (id ∈ ids)) by tauto. destruct ms; [done | naive_solver].
Qed.

Lemma received_ok h s y A ins items id data :
  serving h s y A ins items → enabled s (Received id data) = true → roomy s (Received id data) = true →
  Forall is_byte data →
  ∃ st c' inbox' new drains' ready',
    step s (Received id data) = Done (after_read s id st c' inbox' drains' ready') ∧
    heard_from h s y A ins items (Received id data) id st c' inbox' new drains' ready'.
Proof.
  intros HS [Hrd Hlen]%andb_true_iff Hroom Hbytes. apply Z.leb_le in Hlen.
  apply reading_client in Hrd as (st & Hst & Hn). pose proof (sv_client _ _ _ _ _ _ HS id st Hst) as [Hi Hh Hc Hidle Hp].
  rewrite Hn in Hc. symmetry in Hc. destruct (Hidle Hc) as [HI Hacc].
  pose proof (messages_received id h data Hc) as HM. rewrite <- Hacc in HM.
  pose proof (handle_read_ok (conn st) _ items data HI (sv_inbox _ _ _ _ _ _ HS) Hlen) as HR.
  unfold roomy in Hroom. rewrite Hst, (holds_size _ inbound_log _ items) in Hroom by apply HS. apply Z.ltb_lt in Hroom.
  assert (is_u32 id) as Hu by (eapply serving_u32; [exact HS | eauto]).
  assert (Forall is_byte (Connection.in_accum_ (conn st) ++ data)) as Hb.
  { apply Forall_app. split; [|done]. rewrite Hacc. apply frames_bytes, HS. }
  pose proof (delivered_well_formed id _ (length (frames (Connection.in_accum_ (conn st) ++ data)).1) Hu Hb) as Hwf.
  change (taken (length ?fs) ?fs) with (heard fs) in Hwf.
  destruct (frames (Connection.in_accum_ (conn st) ++ data)) as [fs lft]. cbn [fst] in Hroom, Hwf.
  pose proof (heard_length fs) as Hms.
  pose proof (sv_drains _ _ _ _ _ _ HS) as Hone.
  rewrite taken_enough in HR by (unfold room_left; lia). destruct (heard fs) as [ms c].
  destruct HR as (c' & inbox' & effs & E & HQ & Hid' & Hh' & _ & Hd' & Ho' & Hp' & He). destruct HM as (Hcl & Hlft & Hmsg).
  exists st, c'. unfold step, complete_read. rewrite Hst. cbn [deref]. run_bind. rewrite E. run_bind.
  rewrite effects_large, He, effects_wakeup, (woken_ready _ id) by done. rewrite Hi in *. cbn [fst] in *.
  assert (∀ inbox1 new drains', new = map (delivered id) ms ++ (if c then [disconnect_message id] else []) →
    holds INBOUND_Q_LOG inbox1 (items ++ new) → (c = true → (0 < drains')%nat) → (s.(drains) <= drains' <= 1)%nat →
    heard_from h s y A ins items (Received id data) id st c' inbox1 new drains' (woken (ready s) id ms)) as Hheard.
  { intros inbox1 new drains' -> HQ1 Hdr Hle. split; try done; try lia.
    - intros id' Hne. apply elsewhere_received. congruence.
    - apply Forall_app. split; [done|]. destruct c; [|constructor].
      constructor; [by apply disconnect_well_formed | constructor].
    - apply Forall_app. split; [by apply Forall_map, Forall_true|]. by destruct c; repeat constructor.
    - split; rewrite ?Hcl, ?Hlft; try done; [congruence|]. rewrite Hp', Hp, Hh. apply pending_woken.
    - intros id'. rewrite woken_elem. tauto.
    - intros id' Hne. rewrite woken_elem. split; [intros [Hin|[Hid1 _]]; [done | congruence] | by left].
    - apply woken_NoDup, HS.
    - destruct c; [right; left; auto|]. rewrite app_nil_r.
      destruct ms as [|m ms].
      + rewrite app_nil_r. destruct (sv_wake _ _ _ _ _ _ HS) as [|[|(id' & Hin & Hrd)]]; [by left | right; left; lia |].
        right. right. exists id'. split; [done|]. by destruct (id' =? id).
      + right. right. exists id. rewrite Z.eqb_refl. split; [|done]. apply woken_elem. by right. }
  assert (engine_drain_scheduled_ (ex s) = (0 <? drains s)%nat) as Hsched by (by rewrite (sv_engine _ _ _ _ _ _ HS)).
  destruct c; cbn [app effects].
  - rewrite Hh. cbn [disconnected effects]. destruct (effect_disconnected (Make (set_conn (ex s) id st c' inbox') (drains s)
      (woken (ready s) id ms) (sent s)) id (items ++ map (delivered id) ms)) as (inbox1 & E1 & HQ1).
    { exact HQ. } { rewrite length_app, length_map. lia. } { exact Hsched. }
    cbn [effect] in E1 |- *. run_bind. cbn [ex set_exchange drains ready sent] in E1 |- *. rewrite E1. run_bind.
    exists inbox1, (map (delivered id) ms ++ [disconnect_message id]), (Nat.max 1 (drains s)), (woken (ready s) id ms).
    split; [|apply Hheard; [done | by rewrite app_assoc | lia | lia]].
    unfold after_read. by rewrite (proj2 (Nat.ltb_lt 0 (Nat.max 1 (drains s)))) by lia.
  - cbn [effect]. run_bind. exists inbox', (map (delivered id) ms), (drains s), (woken (ready s) id ms).
    split; [|apply Hheard; [by rewrite app_nil_r | done | done | lia]].
    unfold after_read. by rewrite <- Hsched.
Qed.

Lemma failed_ok h s y A ins items id :
  serving h s y A ins items → enabled s (Failed id) = true → roomy s (Failed id) = true →
  ∃ st c' inbox' new drains' ready',
    step s (Failed id) = Done (after_read s id st c' inbox' drains' ready') ∧
    heard_from h s y A ins items (Failed id) id st c' inbox' new drains' ready'.
Proof.
  intros HS Hrd Hroom. apply reading_client in Hrd as (st & Hst & Hn).
  pose proof (sv_client _ _ _ _ _ _ HS id st Hst) as [Hi Hh Hc _ Hp]. rewrite Hn in Hc. symmetry in Hc.
  destruct (messages_failed id h Hc) as [Hcl Hmsg]. pose proof (sv_inbox _ _ _ _ _ _ HS) as HQ.
  unfold roomy in Hroom. rewrite (holds_size _ inbound_log _ items HQ) in Hroom. apply Z.ltb_lt in Hroom.
  destruct (disconnect_flagged (conn st) Hn) as (c' & effs & E & HF & Hd' & Hp' & ->).
  unfold step, complete_read. rewrite Hst. cbn [deref]. run_bind. cbn [Connection.handle_read_]. rewrite E. run_bind.
  rewrite Hh. cbn [disconnected effects]. cbn [effect]. run_bind.
  destruct (effect_disconnected (set_exchange s (set_conn (ex s) id st c' (inbox_ (ex s)))) id items)
    as (inbox1 & E1 & HQ1); [done | done | by rewrite (sv_engine _ _ _ _ _ _ HS) |].
  cbn [effect] in E1. rewrite E1. run_bind.
  exists st, c', inbox1, [disconnect_message id], (Nat.max 1 (drains s)), (ready s). split.
  { unfold after_read. by rewrite (proj2 (Nat.ltb_lt 0 (Nat.max 1 (drains s)))) by lia. }
  split; try done.
  - intros id' Hne. apply elsewhere_failed. congruence.
  - constructor; [|constructor]. apply disconnect_well_formed. eapply serving_u32; [exact HS | eauto].
  - by repeat constructor.
  - split; rewrite ?Hcl; try done; [by rewrite (fg_id _ _ HF) | by rewrite (fg_hooks _ _ HF) | congruence].
  - tauto.
  - apply HS.
  - pose proof (sv_drains _ _ _ _ _ _ HS). lia.
  - right. left. lia.
Qed.

(** ** The tasks connections post *)

Lemma elsewhere_ready id id' : elsewhere id' (Ready id).
Proof. done. Qed.

Lemma ready_ok h s y A ins items id :
  serving h s y A ins items → enabled s (Ready id) = true →
  ∃ st c' drains', step s (Ready id) = Done (after_read s id st c' (inbox_ (ex s)) drains' (without id (ready s))) ∧
    heard_from h s y A ins items (Ready id) id st c' (inbox_ (ex s)) [] drains' (without id (ready s)) ∧
    (reading s id = true → (0 < drains')%nat).
Proof.
  intros HS Hin%bool_decide_eq_true. destruct (sv_ready _ _ _ _ _ _ HS id Hin) as [st Hst].
  pose proof (sv_client _ _ _ _ _ _ HS id st Hst) as [Hi Hh Hc Hidle Hp].
  pose proof (sv_once _ _ _ _ _ _ HS) as Hon. pose proof (without_elem id (ready s)) as Hwo.
  destruct (elsewhere_snoc id h (Ready id) (elsewhere_ready id id)) as (Es & Ec & Em).
  set (c' := Connection.set_flags (conn st) (Connection.disconnect_notified_ (conn st)) false).
  assert (engine_drain_scheduled_ (ex s) = (0 <? drains s)%nat ∧ running_ (ex s) = true) as [Hsched Hrun]
    by (by rewrite (sv_engine _ _ _ _ _ _ HS)).
  exists st, c'. set (drains' := if closed id h then drains s else Nat.max 1 (drains s)). exists drains'. split; [|split].
  - unfold step, run_ready. rewrite Hst. cbn [deref]. run_bind. unfold Connection.run_inbound_ready. fold c'.
    rewrite Hh, Hc. cbn [inbound_ready andb]. unfold after_read, drains'. destruct (closed id h); cbn [negb effects].
    + by rewrite <- Hsched.
    + cbn [effect ex drains ready sent]. unfold hook_inbound_ready, schedule_engine_drain.
      cbn [set_conn set_engine running_ engine_drain_scheduled_ inbox_]. rewrite Hrun, Hsched. cbn [negb].
      destruct (drains s) as [|d]; run_bind; unfold post; cbn -[set_conn]; rewrite ?app_nil_r, ?Nat.add_0_r;
        unfold set_conn, set_engine; cbn; by rewrite ?Hsched, ?Hrun.
  - split; try done.
    + rewrite app_nil_r. apply HS.
    + by rewrite Em, app_nil_r.
    + split; rewrite ?Es, ?Ec; try done; [intros Hcf; by destruct (Hidle Hcf) as [[] ?]|]. symmetry. apply bool_decide_eq_false. rewrite Hwo by done. tauto.
    + intros id' [H _]%Hwo; tauto.
    + intros id' Hne. rewrite Hwo by done. split; [tauto|]. intros H. split; [done | congruence].
    + by apply without_NoDup.
    + pose proof (sv_drains _ _ _ _ _ _ HS). unfold drains'. destruct (closed id h); lia.
    + rewrite app_nil_r. unfold drains'. destruct (closed id h) eqn:Ecl; [|right; left; lia].
      destruct (sv_wake _ _ _ _ _ _ HS) as [|[|(id' & Hin' & Hrd)]]; [by left | by right; left |].
      right. right. exists id'. destruct (Z.eqb_spec id' id) as [->|Hne].
      * unfold reading in Hrd. by rewrite Hst, Hc in Hrd.
      * split; [|done]. by apply Hwo.
  - unfold reading. rewrite Hst, Hc. unfold drains'. destruct (closed id h); [done | lia].
Qed.

(** ** Connecting *)

Lemma accept_next y y' : on_accepted_ y = Done y' → y'.(next_connection_id_) = u32 (y.(next_connection_id_) + 1).
Proof.
  unfold on_accepted_, accept_connection, publish_connection_. cbn. destruct (_ <=? _); [by intros [= <-]|].
  destruct (arr_set _ _ _); [|done..]. run_bind. by intros [= <-].
Qed.

Lemma fresh_client id h ids :
  stream id h = [] → existsb (fails id) h = false → id ∉ ids →
  client_ok id (Connection.Connection id (MkHooks true false true)) h ids.
Proof.
  intros Es Ef Hid. assert (closed id h = false) as Hc by (unfold closed; by rewrite Es, Ef).
  split; try done; [intros _; rewrite Es; split; [split; cbn; auto | done] | by rewrite bool_decide_false].
Qed.

Lemma client_elsewhere id c h a ids : elsewhere id a → client_ok id c h ids → client_ok id c (h ++ [a]) ids.
Proof. intros [Es [Ec _]]%(elsewhere_snoc id h a) []. by split; rewrite ?Es, ?Ec. Qed.

Lemma inbound_app ins ins' : inbound (ins ++ ins') = inbound ins ++ inbound ins'.
Proof. apply omap_app. Qed.

Lemma connect_ok h s y A ins items :
  serving h s y A ins items → roomy s Connect = true →
  ∃ s' y', step s Connect = Done s' ∧ serving (h ++ [Connect]) s' y' A (ins ++ [Accept]) items.
Proof.
  intros HS Hroom. destruct (accept_ok y A (sv_ok _ _ _ _ _ _ HS)) as (y' & Ey & HE' & _).
  pose proof (accept_next y y' Ey) as Hnext. set (id := next_connection_id_ y) in *.
  assert (is_u32 id) as Hu by apply HS.
  assert (id + 1 < 2 ^ 32) as Hlt.
  { unfold roomy in Hroom. apply Z.ltb_lt in Hroom. by rewrite (sv_engine _ _ _ _ _ _ HS) in Hroom. }
  rewrite u32_small in Hnext by (unfold is_u32 in Hu; lia).
  assert (clients_ (ex s) !! id = None) as Hnew.
  { destruct (clients_ (ex s) !! id) as [st|] eqn:E; [|done].
    pose proof (sv_bound _ _ _ _ _ _ HS id ltac:(eauto)). unfold id in *. lia. }
  destruct (accept_moved (clients_ (ex s)) (inbox_ (ex s)) true (0 <? drains s)%nat y y' Hnew Ey)
    as (clients' & Eacc & Hcl'). fold id in Hcl'. cbn [accept_connection snd] in Hcl'. fold id in Hcl'.
  rewrite <- (sv_engine _ _ _ _ _ _ HS) in Eacc.
  exists (set_exchange s (moved clients' (inbox_ (ex s)) true (0 <? drains s)%nat y')), y'. cbn [step].
  rewrite Eacc. run_bind. split; [done|]. destruct (sv_none _ _ _ _ _ _ HS id Hnew) as [Es0 Ef0].
  assert (id ∉ ready s) as Hnr by (intros Hin%(sv_ready _ _ _ _ _ _ HS); rewrite Hnew in Hin; by destruct Hin).
  assert (∀ id' st, clients' !! id' = Some st →
    clients_ (ex s) !! id' = Some st ∨ id' = id ∧ st.(conn) = Connection.Connection id (MkHooks true false true)) as Hcl.
  { intros id' st. rewrite Hcl'. destruct (_ <=? _); [by left|]. destruct (decide (id = id')) as [<-|Hne];
      [rewrite lookup_insert_eq; intros [= <-]; by right | rewrite lookup_insert_ne by done; by left]. }
  assert (∀ id', is_Some (clients_ (ex s) !! id') → clients' !! id' = clients_ (ex s) !! id') as Hold.
  { intros id' Hi. rewrite Hcl'. destruct (_ <=? _); [done|]. rewrite lookup_insert_ne; [done|].
    intros <-. rewrite Hnew in Hi. by destruct Hi. }
  assert (∀ id', elsewhere id' Connect) as Hel by done.
  split; cbn [set_exchange ex drains ready sent moved clients_ inbox_]; try done; try apply HS.
  - rewrite run_inputs_app, (sv_run _ _ _ _ _ _ HS). run_bind. cbn [run_inputs handle_input]. rewrite Ey. run_bind.
    by rewrite app_nil_r.
  - apply Forall_app. split; [apply HS | by repeat constructor].
  - intros id'. rewrite inbound_app, app_nil_r. destruct (elsewhere_snoc id' h Connect (Hel id')) as (_ & _ & ->). apply HS.
  - intros id'. destruct (elsewhere_snoc id' h Connect (Hel id')) as (-> & _). apply HS.
  - intros id' Hn. destruct (elsewhere_snoc id' h Connect (Hel id')) as (-> & _). rewrite fails_snoc, orb_false_r.
    apply (sv_none _ _ _ _ _ _ HS). destruct (clients_ (ex s) !! id') eqn:E; [|done]. by rewrite Hold, E in Hn by (rewrite E; eauto).
  - intros id' [st [Hst|[-> _]]%Hcl]; [|unfold is_u32, id in *; lia].
    pose proof (sv_bound _ _ _ _ _ _ HS id' ltac:(eauto)). unfold id in *. lia.
  - intros id' st [Hst|[-> ->]]%Hcl; apply client_elsewhere; try done; [by apply HS | by apply fresh_client].
  - intros id' Hin%(sv_ready _ _ _ _ _ _ HS). by rewrite Hold.
  - destruct (sv_wake _ _ _ _ _ _ HS) as [?|[?|(id' & Hin & Hrd)]]; [by left | by right; left|].
    right. right. exists id'. split; [done|]. unfold reading in *. cbn [set_exchange ex moved clients_].
    rewrite Hold; [done|]. by apply HS.
Qed.

(** ** Draining *)

Lemma drained_inbound budget clock items : inbound (drained budget clock items) = take budget items.
Proof. revert items. induction budget as [|b IH]; intros [|m items]; cbn; try done. by f_equal. Qed.

Lemma drained_valid budget clock items :
  Forall well_formed items → (∀ n, well_timed (clock n)) → Forall valid_input (drained budget clock items).
Proof.
  intros Hw Ht. revert items Hw. induction budget as [|b IH]; intros [|m items] Hw; cbn; try constructor.
  - apply Forall_cons in Hw as [Hm _]. by split.
  - apply IH. by apply Forall_cons in Hw as [_ Hw].
Qed.

Lemma filter_no_drain calls :
  no_drain calls → filter (λ call, is_drain call = true) calls = [] ∧ filter (λ call, is_drain call = false) calls = calls.
Proof.
  induction 1 as [|call calls Hc _ [IH1 IH2]]; [done|]. rewrite !filter_cons, Hc, IH1, IH2. done.
Qed.

(** A drain handles the oldest messages, in order, and is posted again for the others. *)
Lemma drain_served h s y A ins items clock :
  serving h s y A ins items → enabled s (Drain clock) = true → roomy s (Drain clock) = true →
  (∀ n, well_timed (clock n)) →
  let budget := Z.to_nat ENGINE_BUDGET in
  ∃ s' y' A', step s (Drain clock) = Done s' ∧
    serving (h ++ [Drain clock]) s' y' A' (ins ++ drained budget clock items) (drop budget items) ∧
    roomy s' (Drain clock) = true ∧ (drop budget items = [] ∨ (0 < s'.(drains))%nat).
Proof.
  intros HS Hdr%Nat.ltb_lt Hroom Ht budget. pose proof (sv_drains _ _ _ _ _ _ HS) as Hone.
  pose proof (sv_inbox _ _ _ _ _ _ HS) as HQ. pose proof (sv_ok _ _ _ _ _ _ HS) as HE.
  unfold roomy in Hroom. rewrite (holds_size _ inbound_log _ items HQ) in Hroom. apply Z.ltb_lt in Hroom.
  assert (order_book_ (ex s) = order_book_ y) as Ebook by (by rewrite (sv_engine _ _ _ _ _ _ HS)).
  rewrite Ebook, (next_id_of _ _ HE) in Hroom.
  destruct (drain_messages_ok (clients_ (ex s)) true false budget clock (inbox_ (ex s)) items y A HQ
    (sv_items _ _ _ _ _ _ HS) HE Hroom) as (y' & A' & inbox' & calls & E & Erun & HQ' & HE' & Hnd & Hnext & Hnid).
  destruct (filter_no_drain calls Hnd) as [Hf1 Hf2].
  set (left := (0 <? length (drop budget items))%nat).
  exists (Make (moved (clients_ (ex s)) inbox' true left y') (if left then 1 else 0) (ready s) (sent s ++ calls)), y', A'.
  split.
  - cbn [step]. unfold engine_drain. fold budget.
    replace (set_engine (ex s) (inbox_ (ex s)) (running_ (ex s)) false)
      with (moved (clients_ (ex s)) (inbox_ (ex s)) true false y) by (by rewrite (sv_engine _ _ _ _ _ _ HS)).
    rewrite E. run_bind. cbn [running_ moved inbox_ andb]. rewrite (holds_size _ inbound_log _ _ HQ').
    unfold left, post. destruct (drop budget items) as [|m rest].
    + rewrite Z.eqb_refl. cbn [negb]. run_bind. rewrite Hf1, Hf2. cbn [drains ready sent length].
      by replace (drains s - 1 + 0)%nat with 0%nat by lia.
    + rewrite (proj2 (Z.eqb_neq _ 0)) by (cbn [length]; lia). cbn [negb schedule_engine_drain engine_drain_scheduled_ moved].
      run_bind. rewrite !filter_app, Hf1, Hf2, app_nil_r. cbn [drains ready sent].
      change (length ([] ++ _)) with 1%nat. by replace (drains s - 1 + 1)%nat with 1%nat by lia.
  - assert (∀ id', elsewhere id' (Drain clock)) as Hel by done.
    split; [|split].
    2:{ unfold roomy. cbn [ex moved inbox_ order_book_]. rewrite (holds_size _ inbound_log _ _ HQ'), (next_id_of _ _ HE'). lia. }
    2:{ unfold left. destruct (drop budget items); [by left | right; cbn; lia]. }
    split; cbn [ex drains ready sent moved clients_ inbox_]; try done; try apply HS.
    + rewrite run_inputs_app, (sv_run _ _ _ _ _ _ HS). run_bind. by rewrite Erun.
    + apply Forall_app. split; [apply HS | by apply drained_valid, Ht; apply HS].
    + unfold left. by destruct (drop budget items).
    + apply Forall_drop, HS.
    + intros id'. rewrite inbound_app, drained_inbound, <- app_assoc, take_drop.
      destruct (elsewhere_snoc id' h _ (Hel id')) as (_ & _ & ->). apply HS.
    + intros id'. destruct (elsewhere_snoc id' h _ (Hel id')) as (-> & _). apply HS.
    + intros id' Hn. destruct (elsewhere_snoc id' h _ (Hel id')) as (-> & _). rewrite fails_snoc, orb_false_r.
      by apply (sv_none _ _ _ _ _ _ HS).
    + intros id' Hin. rewrite Hnext. by apply (sv_bound _ _ _ _ _ _ HS).
    + intros id' st Hst. apply client_elsewhere; [done|]. by apply HS.
    + destruct left; lia.
    + unfold left. destruct (drop budget items); [by left | right; left; cbn; lia].
Qed.

(** ** Every step *)

Lemma step_serving h s y A ins items a :
  serving h s y A ins items → enabled s a = true → roomy s a = true → well_typed a →
  ∃ s' y' A' ins' items', step s a = Done s' ∧ serving (h ++ [a]) s' y' A' ins' items'.
Proof.
  intros HS Hen Hroom Ht. destruct a as [|id data|id|id|clock].
  - destruct (connect_ok h s y A ins items HS Hroom) as (s' & y' & E & HS'). eauto 10.
  - destruct (received_ok h s y A ins items id data HS Hen Hroom Ht) as (st & c' & inbox' & new & dr & rd & E & HF).
    eexists _, _, _, _, _. split; [exact E|]. by eapply serving_heard.
  - destruct (failed_ok h s y A ins items id HS Hen Hroom) as (st & c' & inbox' & new & dr & rd & E & HF).
    eexists _, _, _, _, _. split; [exact E|]. by eapply serving_heard.
  - destruct (ready_ok h s y A ins items id HS Hen) as (st & c' & dr & E & HF & _).
    eexists _, _, _, _, _. split; [exact E|]. by eapply serving_heard.
  - destruct (drain_served h s y A ins items clock HS Hen Hroom Ht) as (s' & y' & A' & E & HS' & _). eauto 10.
Qed.

Lemma run_serving h s y A ins items steps :
  serving h s y A ins items → orderly s steps = true → Forall well_typed steps →
  ∃ s' y' A' ins' items', run s steps = Done s' ∧ serving (h ++ steps) s' y' A' ins' items'.
Proof.
  intros HS Ho Ht. revert h s y A ins items HS Ho. induction Ht as [|a steps Ha _ IH]; intros h s y A ins items HS Ho.
  { rewrite app_nil_r. cbn [run]. eauto 10. }
  cbn [orderly run] in *. apply andb_true_iff in Ho as [[Hen Hroom]%andb_true_iff Ho].
  destruct (step_serving h s y A ins items a HS Hen Hroom Ha) as (s1 & y1 & A1 & ins1 & items1 & E & HS1).
  rewrite E in *. run_bind. destruct (IH _ _ _ _ _ _ HS1 Ho) as (s2 & y2 & A2 & ins2 & items2 & E2 & HS2).
  rewrite <- app_assoc in HS2. eauto 10.
Qed.

(** ** Catching up *)

(** A task the connections or the engine posted. *)
Definition is_task (a : Step) : bool := match a with Ready _ | Drain _ => true | _ => false end.

Lemma tasks_silent id h tasks :
  Forall (λ a, is_task a = true) tasks → messages_of id (h ++ tasks) = messages_of id h.
Proof.
  intros H. revert h. induction H as [|a tasks Ha _ IH]; intros h; [by rewrite app_nil_r|].
  replace (h ++ a :: tasks) with ((h ++ [a]) ++ tasks) by (by rewrite <- app_assoc). rewrite IH.
  assert (elsewhere id a) as Hel by (by destruct a). by destruct (elsewhere_snoc id h a Hel) as (_ & _ & ->).
Qed.

(** What is reached from [s] by at most [n] posted tasks. *)
Definition catches_up (n : nat) (h : list Step) (s : Server.t) : Prop :=
  ∃ tasks s' y A ins, (length tasks <= n)%nat ∧ Forall (λ a, is_task a = true) tasks ∧
    possible s tasks = true ∧ run s tasks = Done s' ∧ serving (h ++ tasks) s' y A ins [].

Lemma catches_up_done n h s y A ins : serving h s y A ins [] → catches_up n h s.
Proof. intros HS. exists [], s, y, A, ins. rewrite app_nil_r. cbn. split; [lia|]. split; [constructor | done]. Qed.

Lemma catches_up_step n h s a s' :
  is_task a = true → enabled s a = true → step s a = Done s' → catches_up n (h ++ [a]) s' → catches_up (S n) h s.
Proof.
  intros Ha Hen E (tasks & s2 & y & A & ins & Hl & Ht & Hp & Er & HS). exists (a :: tasks), s2, y, A, ins.
  cbn [length possible run]. rewrite Hen, E. run_bind. rewrite <- app_assoc in HS. split; [lia|]. split; [by constructor | done].
Qed.

Lemma drain_catches_up n h s y A ins items clock :
  serving h s y A ins items → (0 < s.(drains))%nat → roomy s (Drain clock) = true → (∀ k, well_timed (clock k)) →
  (length items <= n * Z.to_nat ENGINE_BUDGET)%nat → catches_up n h s.
Proof.
  revert h s y A ins items. induction n as [|n IH]; intros h s y A ins items HS Hdr Hroom Ht Hl.
  { destruct items; [by eapply catches_up_done | cbn in Hl; lia]. }
  destruct (drain_served h s y A ins items clock HS) as (s' & y' & A' & E & HS' & Hroom' & Hpend);
    [by apply Nat.ltb_lt | done | done |].
  apply (catches_up_step n h s (Drain clock) s'); [done | by apply Nat.ltb_lt | done |].
  destruct Hpend as [Hn|Hd]; [rewrite Hn in HS'; by eapply catches_up_done|].
  eapply IH; [exact HS' | done..|]. rewrite length_drop. lia.
Qed.

Lemma capacity_drains : CapacityPow2 INBOUND_Q_LOG <= 2 * ENGINE_BUDGET.
Proof. apply Z.leb_le. vm_compute. reflexivity. Qed.

(** From a state that is reached, at most three posted tasks empty the inbox. *)
Lemma tasks_catch_up (steps : list Step) s (clock : nat → Times) :
  orderly started steps = true → Forall well_typed steps → run started steps = Done s →
  roomy s (Drain clock) = true → (∀ n, well_timed (clock n)) → catches_up 3 steps s.
Proof.
  intros Ho Hty Er Hroom Ht. destruct (run_serving [] started _ _ _ _ steps started_serving Ho Hty)
    as (s1 & y & A & ins & items & E & HS). rewrite Er in E. injection E as <-. cbn [app] in HS.
  assert (length items <= 2 * Z.to_nat ENGINE_BUDGET)%nat as Hl.
  { pose proof (sv_inbox _ _ _ _ _ _ HS) as [t [Hc _ _ _ _]]. pose proof capacity_drains. lia. }
  destruct (sv_wake _ _ _ _ _ _ HS) as [->|[Hd|(id & Hin & Hrd)]]; [by eapply catches_up_done | |].
  - eapply drain_catches_up; [exact HS | done..|]. lia.
  - destruct (ready_ok steps s y A ins items id HS) as (st & c' & dr & E1 & HF & Hdr); [by apply bool_decide_eq_true|].
    eapply (catches_up_step 2 _ _ (Ready id)); [done | by apply bool_decide_eq_true | exact E1 |].
    assert (well_typed (Ready id)) as Hty1 by done.
    pose proof (serving_heard _ _ _ _ _ _ _ _ _ _ _ _ _ _ HS Hty1 HF) as HS1. rewrite app_nil_r in HS1.
    eapply drain_catches_up; [exact HS1 | by apply Hdr | exact Hroom | done | done].
Qed.

(** ** Guarantees *)

(** C3: the exchange serves its connections.  Whatever bytes the clients send,
    however they are cut into reads and in whatever order connections are accepted,
    reads complete or fail and posted tasks run, as long as the inbox has room: the
    exchange has behaved as if it had been given one message after the other, the
    messages it handled and those waiting are, for each client, the frames of its
    stream in order, followed by one disconnection if its connection ended, and
    when messages wait a drain is posted or a task of a connection that will post
    one. *)
Theorem exchange_serves_connections (steps : list Step) :
  orderly started steps = true → Forall well_typed steps →
  ∃ s y ins items, run started steps = Done s ∧
    Forall valid_input ins ∧ run_inputs Exchange.Exchange ins = Done (y, s.(sent)) ∧
    s.(ex) = moved s.(ex).(clients_) s.(ex).(inbox_) true (0 <? s.(drains))%nat y ∧
    holds INBOUND_Q_LOG s.(ex).(inbox_) items ∧
    (∀ id, from id (inbound ins ++ items) = messages_of id steps) ∧
    (items = [] ∨ (0 < s.(drains))%nat ∨ ∃ id, id ∈ s.(ready) ∧ reading s id = true).
Proof.
  intros Ho Ht. destruct (run_serving [] started _ _ _ _ steps started_serving Ho Ht)
    as (s & y & A & ins & items & E & HS). exists s, y, ins, items. split; [done|].
  repeat (split; [apply HS|]). apply HS.
Qed.

(** C17: the engine catches up.  From every such state at most three posted tasks
    handle everything that waits: then the exchange has handled exactly the
    messages of every client. *)
Theorem engine_catches_up (steps : list Step) s (clock : nat → Times) :
  orderly started steps = true → Forall well_typed steps → run started steps = Done s →
  roomy s (Drain clock) = true → (∀ n, well_timed (clock n)) →
  ∃ tasks s' y ins, (length tasks <= 3)%nat ∧ Forall (λ a, is_task a = true) tasks ∧
    possible s tasks = true ∧ run s tasks = Done s' ∧
    run_inputs Exchange.Exchange ins = Done (y, s'.(sent)) ∧ size_approx s'.(ex).(inbox_) = 0 ∧
    ∀ id, from id (inbound ins) = messages_of id steps.
Proof.
  intros Ho Hty Er Hroom Ht.
  destruct (tasks_catch_up steps s clock Ho Hty Er Hroom Ht) as (tasks & s' & y' & A' & ins' & Hn & Htasks & Hp & Er' & HS').
  exists tasks, s', y', ins'. do 4 (split; [done|]). split; [apply HS'|].
  split; [by rewrite (holds_size _ inbound_log _ [] (sv_inbox _ _ _ _ _ _ HS'))|].
  intros id. rewrite <- (tasks_silent id steps tasks Htasks), <- (sv_messages _ _ _ _ _ _ HS'). by rewrite app_nil_r.
Qed.

(** Two clients.  Client 0 subscribes and bids, in two reads; the second frame is cut
    in the middle.  Client 1 sends a frame and fails before the engine runs. *)
Definition bid_frame : bytes :=
  Connection.frame (MessageType_to_u8 INSERT_ORDER)
    (payload_bytes (PInsertOrder (make_insert_order 7 BUY 100 10 GOOD_FOR_DAY))).
Definition subscribe_frame : bytes := Connection.frame (MessageType_to_u8 SUBSCRIBE) [].

Definition some_clock : nat → Times := λ n, (1, 2, 3).

Definition conversation : list Step :=
  [Connect; Received 0 (subscribe_frame ++ take 5 bid_frame); Connect; Received 1 subscribe_frame; Ready 0;
   Received 0 (drop 5 bid_frame); Failed 1; Ready 1].

(** Bytes are bytes, as a check. *)
Lemma check_bytes_ok steps :
  forallb (λ a, match a with
                | Received _ data => forallb (λ b, (0 <=? b) && (b <? 2 ^ 8)) data
                | Drain _ => false
                | _ => true
                end) steps = true → Forall well_typed steps.
Proof.
  rewrite forallb_forall, Forall_forall. intros H a Ha%list_elem_of_In. specialize (H a Ha).
  destruct a as [|id data| | |]; try done. cbn [well_typed]. rewrite forallb_forall in H. apply Forall_forall.
  intros b Hb%list_elem_of_In. specialize (H b Hb). unfold is_byte. lia.
Qed.

Lemma some_clock_timed n : well_timed (some_clock n).
Proof. cbn. unfold is_time. lia. Qed.

Lemma exchange_serves_connections_witness :
  let steps := conversation ++ [Drain some_clock] in
  ∃ s y ins, run started steps = Done s ∧ run_inputs Exchange.Exchange ins = Done (y, s.(sent)) ∧
    from 0 (inbound ins) = [message 0 SUBSCRIBE []; bid_message] ∧
    from 1 (inbound ins) = [message 1 SUBSCRIBE []; message 1 DISCONNECT []].
Proof.
  cbv zeta. destruct (exchange_serves_connections (conversation ++ [Drain some_clock]))
    as (s & y & ins & items & E & _ & Er & _ & HQ & Hm & _).
  - vm_compute. reflexivity.
  - apply Forall_app. split; [apply check_bytes_ok; vm_compute; reflexivity|].
    constructor; [exact some_clock_timed | constructor].
  - exists s, y, ins. split; [exact E|]. split; [exact Er|].
    assert (items = []) as ->.
    { apply (holds_size _ inbound_log) in HQ. destruct items; [reflexivity|]. exfalso.
      assert (match run started (conversation ++ [Drain some_clock]) with
              | Done s => size_approx s.(ex).(inbox_) | _ => 1 end = 0) as Hz by (vm_compute; reflexivity).
      rewrite E in Hz. rewrite Hz in HQ. cbn [length] in HQ. lia. }
    pose proof (Hm 0) as H0. pose proof (Hm 1) as H1'. rewrite app_nil_r in H0, H1'. rewrite H0, H1'.
    split; vm_compute; reflexivity.
Defined.

(** Client 1's last frame is handled although its connection has failed. *)
Lemma engine_catches_up_witness :
  ∃ tasks s s' y ins, run started conversation = Done s ∧ run s tasks = Done s' ∧
    run_inputs Exchange.Exchange ins = Done (y, s'.(sent)) ∧
    from 1 (inbound ins) = [message 1 SUBSCRIBE []; message 1 DISCONNECT []].
Proof.
  assert (match run started conversation with Done s => roomy s (Drain some_clock) | _ => false end = true) as Hroom
    by (vm_compute; reflexivity).
  destruct (run started conversation) as [s| |] eqn:E; [|discriminate..].
  destruct (engine_catches_up conversation s some_clock) as (tasks & s' & y & ins & _ & _ & _ & Er & Ei & _ & Hm).
  - vm_compute. reflexivity.
  - apply check_bytes_ok. vm_compute. reflexivity.
  - exact E.
  - exact Hroom.
  - exact some_clock_timed.
  - exists tasks, s, s', y, ins. split; [exact (eq_refl)|]. split; [exact Er|]. split; [exact Ei|].
    rewrite Hm. vm_compute. reflexivity.
Defined.
