(* ===== verification/ServerStall.v ===== *)
(** What happens when the inbox has no room: a client that sends more small frames
    in one read than the inbox holds stops the exchange for ever. *)

From S2P Require Import Prelude Types OrderBook BookSpec BookRep Codec Payloads Protocol SpscQueue Connection ConnectionRead Exchange ExchangeCalls ExchangeEvents ExchangeSession ExchangeTheorems Server ServerTheorems.
Import Exchange Server.

(** ** A full inbox that nobody is to drain *)

Record stalled (s : Server.t) : Prop := MkStalled {
  st_full : ∃ items, holds INBOUND_Q_LOG s.(ex).(inbox_) items ∧
    Z.of_nat (length items) = CapacityPow2 INBOUND_Q_LOG;
  st_drains : s.(drains) = 0%nat;
  st_ready : s.(ready) = [];
  st_sent : s.(sent) = [];
  st_idle id st : s.(ex).(clients_) !! id = Some st → st.(conn).(Connection.disconnect_notified_) = false → idle st.(conn)
}.

Lemma taken_full fs : ∃ c, taken 0 fs = ([], c).
Proof.
  induction fs as [|f fs IH]; cbn [taken]; [by eexists|].
  destruct (_ <? _)%nat; [by eexists|]. by destruct (_ <=? _)%nat; [eexists|].
Qed.

(** The disconnection is refused, and then nobody wakes the engine. *)
Lemma hook_disconnected_full x id items :
  holds INBOUND_Q_LOG x.(inbox_) items → Z.of_nat (length items) = CapacityPow2 INBOUND_Q_LOG →
  ∃ inbox', hook_disconnected x id = Done (set_engine x inbox' x.(running_) x.(engine_drain_scheduled_), []) ∧
    holds INBOUND_Q_LOG inbox' items.
Proof.
  intros HQ Hf. unfold hook_disconnected.
  destruct (try_push_ok _ inbound_log _ items (queued id (MessageType_to_u8 DISCONNECT) []) HQ) as (inbox' & -> & HQ').
  rewrite bool_decide_false in HQ' |- * by lia. run_bind. by exists inbox'.
Qed.

(** Whatever a connection does after a handler that queued nothing, it stays so. *)
Lemma stalled_effects s id st c' inbox' items :
  stalled s → s.(ex).(clients_) !! id = Some st →
  holds INBOUND_Q_LOG inbox' items → Z.of_nat (length items) = CapacityPow2 INBOUND_Q_LOG →
  (c'.(Connection.disconnect_notified_) = false → idle c') →
  ∀ effs, effs ⊆ [close_socket; call_disconnected; start_read] →
  ∃ s', effects (set_exchange s (set_conn s.(ex) id st c' inbox')) id effs = Done s' ∧ stalled s'.
Proof.
  intros HS Hst HQ Hf Hidle. assert (∃ items, holds INBOUND_Q_LOG inbox' items ∧
    Z.of_nat (length items) = CapacityPow2 INBOUND_Q_LOG) as Hfull by eauto.
  clear HQ Hf items. intros effs. set (x := set_conn (ex s) id st c' inbox').
  assert (stalled (set_exchange s x)) as HX.
  { destruct HS as [_ Hd Hr Hs Hi]. split; cbn; try done. intros id' st'. destruct (decide (id = id')) as [<-|Hne].
    - rewrite lookup_insert_eq. intros [= <-]. exact Hidle.
    - rewrite lookup_insert_ne by done. apply Hi. }
  revert HX. generalize (set_exchange s x). clear. induction effs as [|e effs IH]; intros s HX Hsub; cbn [effects]; [eauto|].
  assert (∃ s', effect s id e = Done s' ∧ stalled s') as (s1 & -> & HX1).
  { assert (e ∈ [close_socket; call_disconnected; start_read]) as He by (apply Hsub; by left).
    rewrite !elem_of_cons in He. destruct He as [->|[->|[->|[]%elem_of_nil]]]; cbn [effect]; [by eexists| |by eexists].
    destruct HX as [(items & HQ & Hf) Hd Hr Hs Hi].
    destruct (hook_disconnected_full (ex s) id items HQ Hf) as (inbox' & -> & HQ'). run_bind.
    eexists. split; [reflexivity|]. split; cbn; try done; [eauto | by rewrite Hd | by rewrite Hs]. }
  run_bind. apply IH; [done|]. set_solver.
Qed.

Lemma end_effects (c b : bool) :
  (if c then close_socket :: if b then [call_disconnected] else [] else [start_read])
    ⊆ [close_socket; call_disconnected; start_read].
Proof. destruct c, b; set_solver. Qed.

Lemma stalled_ends (r : outcome Server.t) s' : (∃ s, r = Done s ∧ stalled s) → r = Done s' → stalled s'.
Proof. intros (s & -> & HS). by intros [= <-]. Qed.

Lemma stalled_step s a s' : stalled s → enabled s a = true → step s a = Done s' → stalled s'.
Proof.
  intros HS Hen E. pose proof HS as [(items & HQ & Hf) Hd Hr Hs Hi].
  destruct a as [|id data|id|id|clock]; cbn [enabled step] in *.
  - unfold on_accepted_, accept_connection, publish_connection_ in E. cbn in E.
    destruct (_ <=? _); [injection E as <-; split; cbn; try done; eauto|].
    destruct (arr_set _ _ _) as [conns| |]; [|discriminate..]. injection E as <-. split; cbn; try done; [eauto|].
    intros id' st'. destruct (clients_ (ex s) !! _); [apply Hi|].
    destruct (decide (next_connection_id_ (ex s) = id')) as [<-|Hne].
    + rewrite lookup_insert_eq. intros [= <-] _. split; cbn; auto.
    + rewrite lookup_insert_ne by done. apply Hi.
  - apply andb_true_iff in Hen as [(st & Hst & Hn)%reading_client Hl%Z.leb_le].
    pose proof (handle_read_ok (conn st) _ items data (Hi id st Hst Hn) HQ Hl) as HR.
    replace (room_left items) with O in HR by (unfold room_left; lia).
    destruct (frames _) as [fs lft], (taken_full fs) as [c Ec]. rewrite Ec in HR.
    destruct HR as (c' & inbox' & effs & Eh & HQ' & _ & _ & _ & Hd' & Ho & _ & He).
    unfold complete_read in E. rewrite Hst in E. cbn [deref mbind outcome_bind] in E. rewrite Eh in E. cbn [mbind outcome_bind] in E.
    rewrite effects_large, He in E. cbn [map wakeup app] in HQ', E. rewrite app_nil_r in HQ'.
    assert (Connection.disconnect_notified_ c' = false → idle c') as Hidle by (rewrite Hd'; apply Ho).
    eapply stalled_ends; [|exact E]. apply (stalled_effects s id st c' inbox' items HS Hst HQ' Hf Hidle).
    apply end_effects.
  - apply reading_client in Hen as (st & Hst & Hn). destruct (disconnect_flagged (conn st) Hn) as (c' & effs & Eh & HF & Hd' & _ & ->).
    unfold complete_read in E. rewrite Hst in E. cbn [deref mbind outcome_bind Connection.handle_read_] in E.
    rewrite Eh in E. cbn [mbind outcome_bind] in E.
    assert (Connection.disconnect_notified_ c' = false → idle c') as Hidle by (by rewrite Hd').
    eapply stalled_ends; [|exact E]. apply (stalled_effects s id st c' _ items HS Hst HQ Hf Hidle).
    apply (end_effects true).
  - apply bool_decide_eq_true in Hen. rewrite Hr in Hen. by apply elem_of_nil in Hen.
  - by rewrite Hd in Hen.
Qed.

Lemma stalled_run s steps :
  stalled s → possible s steps = true → ∃ s', run s steps = Done s' ∧ stalled s'.
Proof.
  revert s. induction steps as [|a steps IH]; intros s HS Hp; cbn [possible run] in *; [eauto|].
  apply andb_true_iff in Hp as [Hen Hp]. destruct (step s a) as [s1| |] eqn:E; [|discriminate..]. run_bind.
  apply IH; [by eapply stalled_step | done].
Qed.

(** ** A burst *)

(** One more frame than the inbox holds, each of three bytes: 49155 bytes, which
    one read can bring. *)
Definition burst_frames : list (Message_t * bytes) := replicate 16385 (0, []).
Definition burst : bytes := concat (map (λ f, Connection.frame f.1 f.2) burst_frames).

Lemma burst_length : Z.of_nat (length burst) <= READ_SIZE.
Proof. apply Z.leb_le. vm_compute. reflexivity. Qed.

Lemma frames_burst : frames burst = (burst_frames, []).
Proof.
  apply framing_roundtrip. unfold burst_frames. apply Forall_replicate. split; [done|]. unfold is_byte. cbn. lia.
Qed.

Lemma taken_replicate room n f :
  (length f.2 <= MAX_PAYLOAD_SIZE_BUFFER)%nat →
  taken room (replicate (room + S n) f) = (replicate room f, true).
Proof.
  intros Hf. pose proof buffer_max. induction room as [|room IH]; cbn [Nat.add replicate taken];
    rewrite (proj2 (Nat.ltb_ge _ _)), (proj2 (Nat.leb_le _ _)) by lia; [done|]. by rewrite IH.
Qed.

(** The exchange with its first client. *)
Definition first_client : Server.t :=
  set_exchange started
    (set_clients (start Exchange.Exchange)
       {[ 0 := MkClientState (new_queue OUTBOUND_Q_LOG no_message) (Connection.Connection 0 (MkHooks true false true)) ]}
       (arr_put (arr_make MAX_CONNECTIONS (λ _, None)) 0 (Some 0)) [] 1).

Lemma first_client_ok : step started Connect = Done first_client.
Proof. reflexivity. Qed.

(** The wake-up that a closed connection had posted does nothing. *)
Lemma run_ready_closed s id st :
  s.(ex).(clients_) !! id = Some st → st.(conn).(Connection.disconnect_notified_) = true →
  step s (Ready id) =
    Done (Make (set_conn s.(ex) id st (Connection.set_flags st.(conn) true false) s.(ex).(inbox_)) s.(drains)
            (without id s.(ready)) s.(sent)).
Proof.
  intros Hst Hd. cbn [step]. unfold run_ready, Connection.run_inbound_ready. rewrite Hst. cbn [deref].
  run_bind. by rewrite Hd, andb_false_r.
Qed.

(** A first read that fills the inbox and is closed for it, and its wake-up. *)
Lemma filling_read_ok data ms :
  Z.of_nat (length data) <= READ_SIZE → taken (room_left []) (frames data).1 = (ms, true) →
  Z.of_nat (length ms) = CapacityPow2 INBOUND_Q_LOG →
  ∃ s s', step first_client (Received 0 data) = Done s ∧ enabled s (Ready 0) = true ∧
    step s (Ready 0) = Done s' ∧ stalled s'.
Proof.
  set (c0 := Connection.Connection 0 (MkHooks true false true)). intros Hlen Ht Hl.
  assert (idle c0) as HI by (split; cbn; auto).
  pose proof (handle_read_ok c0 _ [] data HI (new_queue_holds INBOUND_Q_LOG inbound_log no_message) Hlen) as HR.
  change (Connection.in_accum_ c0 ++ data) with data in HR. destruct (frames data) as [fs lft]. cbn [fst] in Ht. rewrite Ht in HR.
  destruct ms as [|m ms]; [pose proof (capacity_range _ inbound_log); cbn in Hl; lia|].
  destruct HR as (c' & inbox' & effs & Eh & HQ & _ & _ & _ & Hd & _ & _ & He).
  assert (Z.of_nat (length (map (delivered 0) (m :: ms))) = CapacityPow2 INBOUND_Q_LOG) as Hf by (by rewrite length_map).
  set (st := MkClientState (new_queue OUTBOUND_Q_LOG no_message) c0).
  destruct (hook_disconnected_full (set_conn (ex first_client) 0 st c' inbox') 0 _ HQ Hf) as (inbox2 & E2 & HQ2).
  set (s1 := Make (set_engine (set_conn (ex first_client) 0 st c' inbox') inbox2 true false) 0 [0] []).
  set (s2 := Make (set_conn (ex s1) 0 (MkClientState (outbox st) c') (Connection.set_flags c' true false) inbox2) 0 [] []).
  assert (clients_ (ex s1) !! 0 = Some (MkClientState (outbox st) c')) as Hc1 by (cbn; apply lookup_insert_eq).
  exists s1, s2. split; [|split; [done | split]].
  - cbn [step]. unfold complete_read. rewrite (lookup_singleton_eq 0 st : clients_ (ex first_client) !! 0 = Some st).
    cbn [deref]. run_bind. cbn [conn st]. change (inbox_ (ex first_client)) with (new_queue INBOUND_Q_LOG no_message).
    rewrite Eh. run_bind. rewrite effects_large, He, effects_wakeup. cbn [disconnected Connection.hooks c0 Connection.Connection effects effect].
    run_bind. cbn [ex set_exchange drains ready sent]. rewrite E2. run_bind. reflexivity.
  - exact (run_ready_closed s1 0 _ Hc1 Hd).
  - split; [exists (map (delivered 0) (m :: ms)); split; [exact HQ2 | exact Hf] | reflexivity..|].
    intros id st' Hst. assert (st'.(conn) = Connection.set_flags c' true false ∨ st'.(conn) = c') as Hcon.
    { change (clients_ (ex s2)) with (<[0 := MkClientState (outbox st) (Connection.set_flags c' true false)]> (clients_ (ex s1))) in Hst.
      destruct (decide (0 = id)) as [<-|Hne]; [rewrite lookup_insert_eq in Hst; injection Hst as <-; by left|].
      rewrite lookup_insert_ne in Hst by done. change (clients_ (ex s1)) with
        (<[0 := MkClientState (outbox st) c']> ({[ 0 := st ]} : gmap Id_t ClientState)) in Hst.
      rewrite lookup_insert_ne, lookup_singleton_ne in Hst by done. discriminate Hst. }
    destruct Hcon as [-> | ->]; [intros Hf'; discriminate Hf' | by rewrite Hd].
Qed.

Lemma full_read_stalls data ms :
  Z.of_nat (length data) <= READ_SIZE → taken (room_left []) (frames data).1 = (ms, true) →
  Z.of_nat (length ms) = CapacityPow2 INBOUND_Q_LOG →
  let steps := [Connect; Received 0 data; Ready 0] in
  possible started steps = true ∧
  ∃ s, run started steps = Done s ∧
    ∀ more, possible s more = true →
      ∃ s', run s more = Done s' ∧ s'.(sent) = [] ∧ s'.(drains) = 0%nat ∧
        size_approx s'.(ex).(inbox_) = CapacityPow2 INBOUND_Q_LOG.
Proof.
  intros Hlen Ht Hl. cbv zeta. destruct (filling_read_ok data ms Hlen Ht Hl) as (s1 & s2 & E1 & Hen & E2 & HS). split.
  - assert (enabled first_client (Received 0 data) = true) as Hen0
      by (cbn [enabled]; rewrite (proj2 (Z.leb_le _ _) Hlen); reflexivity).
    cbn [possible]. rewrite first_client_ok. cbn [possible]. rewrite Hen0, E1. cbn [possible andb].
    rewrite Hen, E2. reflexivity.
  - exists s2. split.
    { cbn [run]. rewrite first_client_ok. run_bind. rewrite E1. run_bind. by rewrite E2. }
    intros more Hp. destruct (stalled_run s2 more HS Hp) as (s' & E & [(items & HQ & Hf) Hd _ Hs _]).
    exists s'. repeat (split; [done|]). by rewrite (holds_size _ inbound_log _ items HQ).
Qed.

Lemma burst_taken : taken (room_left []) (frames burst).1 = (replicate (room_left []) (0, []), true).
Proof.
  rewrite frames_burst. cbn [fst]. unfold burst_frames.
  replace 16385%nat with (room_left [] + 1)%nat by (vm_compute; reflexivity). apply taken_replicate. cbn. lia.
Qed.

(** C18: a burst stops the exchange.  A client that connects and sends, in one
    read, 16385 frames without payload fills the inbox and is disconnected for the
    frame that finds no room; the disconnection itself finds no room, and the task
    that was to wake the engine is skipped, because the connection is closed.  From
    then on, whatever connects, arrives or runs, the inbox stays full, no message
    is handled and nothing is sent. *)
Theorem burst_stalls_engine :
  let steps := [Connect; Received 0 burst; Ready 0] in
  possible started steps = true ∧
  ∃ s, run started steps = Done s ∧
    ∀ more, possible s more = true →
      ∃ s', run s more = Done s' ∧ s'.(sent) = [] ∧ s'.(drains) = 0%nat ∧
        size_approx s'.(ex).(inbox_) = CapacityPow2 INBOUND_Q_LOG.
Proof.
  apply (full_read_stalls burst (replicate (room_left []) (0, [])) burst_length burst_taken).
  rewrite length_replicate. vm_compute. reflexivity.
Qed.
