(* ===== verification/OrderFlow.v ===== *)
(** The orders of a client on their way to the engine: what a client's connection
    accepts and writes is what the exchange's book executes for that client. *)

From S2P Require Import Prelude Types OrderBook BookSpec BookRep Codec Payloads Protocol SpscQueue Connection ConnectionRead ConnectionWrite ConnectionBytes Exchange ExchangeCalls ExchangeEvents ExchangeSession ExchangeTheorems Server ServerTheorems.
Import Server.

(** ** Requests as messages *)

(** What a client asks of the exchange, as the payload it sends. *)
Inductive ClientRequest :=
  | Place (payload : PayloadInsertOrder.t)
  | Withdraw (payload : PayloadCancelOrder.t)
  | Resize (payload : PayloadAmendOrder.t).

Definition request_message (r : ClientRequest) : Message :=
  match r with
  | Place p => (MessageType_to_u8 INSERT_ORDER, payload_bytes (PInsertOrder p))
  | Withdraw p => (MessageType_to_u8 CANCEL_ORDER, payload_bytes (PCancelOrder p))
  | Resize p => (MessageType_to_u8 AMEND_ORDER, payload_bytes (PAmendOrder p))
  end.

(** The members are values of their types. *)
Definition typed_request (r : ClientRequest) : Prop :=
  match r with
  | Place p => in_range PayloadInsertOrder.layout p
  | Withdraw p => in_range PayloadCancelOrder.layout p
  | Resize p => in_range PayloadAmendOrder.layout p
  end.

(** What the book is asked on behalf of client [id]. *)
Definition book_request (id : Id_t) (r : ClientRequest) : OrderBook.OrderBook.Request :=
  match r with
  | Place p =>
      OrderBook.OrderBook.Submit p.(PayloadInsertOrder.price) p.(PayloadInsertOrder.quantity)
        (p.(PayloadInsertOrder.side) =? Side_to_u8 BUY) id p.(PayloadInsertOrder.client_request_id)
  | Withdraw p =>
      OrderBook.OrderBook.Cancel id p.(PayloadCancelOrder.client_request_id) p.(PayloadCancelOrder.exchange_order_id)
  | Resize p =>
      OrderBook.OrderBook.Amend id p.(PayloadAmendOrder.client_request_id) p.(PayloadAmendOrder.exchange_order_id)
        p.(PayloadAmendOrder.new_total_quantity)
  end.

Lemma request_length r :
  typed_request r → length (request_message r).2 = payload_size_for_type (MessageType_of_u8 (request_message r).1).
Proof.
  destruct r as [p|p|p]; intros Hr; cbn [request_message fst snd payload_bytes].
  - by rewrite (encode_length (c := PayloadInsertOrder.layout)).
  - by rewrite (encode_length (c := PayloadCancelOrder.layout)).
  - by rewrite (encode_length (c := PayloadAmendOrder.layout)).
Qed.

Lemma request_sendable r : typed_request r → sendable (request_message r).
Proof.
  intros Hr. split; [destruct r; split; cbn; lia|]. split; [destruct r; by apply Nat.leb_le | by rewrite request_length].
Qed.

Lemma request_on_wire r : typed_request r → on_wire (request_message r) = request_message r.
Proof. intros Hr. unfold on_wire. rewrite <- request_length, firstn_all by done. by destruct (request_message r). Qed.

(** The engine decodes what the client encoded. *)
Lemma request_of_delivered id r :
  typed_request r → request_of (delivered id (request_message r)) = Some (book_request id r).
Proof.
  intros Hr. destruct r as [p|p|p]; unfold request_of, delivered, queued;
    cbn [request_message fst snd message_type msg_payload connection_id payload_bytes book_request].
  - change (MessageType_of_u8 _) with INSERT_ORDER. by rewrite (decode_encode (c := PayloadInsertOrder.layout)).
  - change (MessageType_of_u8 _) with CANCEL_ORDER. by rewrite (decode_encode (c := PayloadCancelOrder.layout)).
  - change (MessageType_of_u8 _) with AMEND_ORDER. by rewrite (decode_encode (c := PayloadAmendOrder.layout)).
Qed.

Lemma requests_delivered id rs :
  Forall typed_request rs → omap request_of (map (delivered id) (map request_message rs)) = map (book_request id) rs.
Proof.
  induction 1 as [|r rs Hr _ IH]; [done|]. cbn [map omap list_omap]. rewrite request_of_delivered by done. by f_equal.
Qed.

(** ** Requests in the stream of a client *)

Lemma bufferable_request r : typed_request r → bufferable (request_message r).
Proof. intros Hr. unfold bufferable. rewrite request_length by done. destruct r; by apply Nat.leb_le. Qed.

Lemma requests_heard id h rs id' :
  Forall typed_request rs → stream id h = ConnectionWrite.stream (map (as_queued id') (map request_message rs)) →
  existsb (fails id) h = false → messages_of id h = map (delivered id) (map request_message rs).
Proof.
  intros Hrs Hst Hf. unfold messages_of, closed. rewrite Hst, Hf, stream_frames by
    (apply Forall_map; eapply Forall_impl; [exact Hrs|]; apply request_sendable). cbn [fst].
  assert (map on_wire (map request_message rs) = map request_message rs) as ->.
  { rewrite map_map. apply map_ext_in. intros r Hr%list_elem_of_In. apply request_on_wire.
    rewrite Forall_forall in Hrs. by apply Hrs. }
  unfold heard. rewrite taken_all; [by rewrite app_nil_r | | done].
  apply Forall_map. eapply Forall_impl; [exact Hrs|]. apply bufferable_request.
Qed.

(** Requests in the stream of a client are executed for it, in order. *)
Lemma requests_executed rs id' (id : Id_t) (steps : list Step) s clock :
  Forall typed_request rs → orderly started steps = true → Forall well_typed steps → run started steps = Done s →
  stream id steps = ConnectionWrite.stream (map (as_queued id') (map request_message rs)) →
  existsb (fails id) steps = false → roomy s (Drain clock) = true → (∀ n, well_timed (clock n)) →
  ∃ tasks s' y ins, (length tasks <= 3)%nat ∧ Forall (λ a, is_task a = true) tasks ∧
    possible s tasks = true ∧ run s tasks = Done s' ∧
    run_inputs Exchange.Exchange ins = Done (y, s'.(sent)) ∧
    y.(Exchange.order_book_) = s'.(ex).(Exchange.order_book_) ∧
    omap request_of (from id (inbound ins)) = map (book_request id) rs.
Proof.
  intros Hrs Ho Hty Er Hst Hf Hroom Ht.
  destruct (tasks_catch_up steps s clock Ho Hty Er Hroom Ht) as (tasks & s' & y & A & ins & Hn & Htasks & Hp & Er' & HS).
  exists tasks, s', y, ins. do 4 (split; [done|]). split; [apply HS|].
  split; [by rewrite (sv_engine _ _ _ _ _ _ HS)|].
  pose proof (sv_messages _ _ _ _ _ _ HS id) as Hm. rewrite app_nil_r, tasks_silent in Hm by done.
  by rewrite Hm, (requests_heard id steps rs id'), requests_delivered.
Qed.

(** ** Guarantees *)

(** C5: orders arrive.  When a client's connection has accepted requests and has
    written them out, and the exchange's connection reads those bytes, cut in any
    way and among whatever other clients do, as long as the inbox has room, then
    after at most three more posted tasks the exchange has executed, for this
    client, exactly these requests, in this order and with these members: its book
    is the one after the session [ins], in which they are the requests of [id]. *)
Theorem orders_arrive (rs : list ClientRequest) id' hooks zero (w : System) (id : Id_t) (steps : list Step) s clock :
  Forall typed_request rs →
  write_reachable id' hooks zero w → quiet w → w.(accepted) = map (as_queued id') (map request_message rs) →
  orderly started steps = true → Forall well_typed steps → run started steps = Done s →
  stream id steps = w.(wire) → existsb (fails id) steps = false →
  roomy s (Drain clock) = true → (∀ n, well_timed (clock n)) →
  ∃ tasks s' y ins, (length tasks <= 3)%nat ∧ Forall (λ a, is_task a = true) tasks ∧
    possible s tasks = true ∧ run s tasks = Done s' ∧
    run_inputs Exchange.Exchange ins = Done (y, s'.(sent)) ∧
    y.(Exchange.order_book_) = s'.(ex).(Exchange.order_book_) ∧
    omap request_of (from id (inbound ins)) = map (book_request id) rs.
Proof.
  intros Hrs HW Hq Hacc Ho Hty Er Hst Hf Hroom Ht. destruct (write_reachable_inv _ _ _ _ HW) as [items HI].
  rewrite (quiet_wire w items HI Hq), Hacc in Hst. by apply (requests_executed rs id' id steps s clock).
Qed.

(** Client 0 bids 10 at 100, raises the bid to 12 and takes it back. *)
Definition some_requests : list ClientRequest :=
  [Place (make_insert_order 7 BUY 100 10 GOOD_FOR_DAY); Resize (make_amend_order 8 1 12); Withdraw (make_cancel_order 9 1)].

Definition some_bytes : bytes := ConnectionWrite.stream (map (as_queued 3) (map request_message some_requests)).

Definition some_steps : list Step :=
  [Connect; Connect; Received 0 (take 5 some_bytes); Received 1 subscribe_frame; Ready 1;
   Received 0 (drop 5 some_bytes); Failed 1].

Lemma orders_arrive_witness :
  ∃ tasks s s' y ins, run started some_steps = Done s ∧ run s tasks = Done s' ∧
    run_inputs Exchange.Exchange ins = Done (y, s'.(sent)) ∧
    omap request_of (from 0 (inbound ins)) = map (book_request 0) some_requests.
Proof.
  assert (Forall typed_request some_requests) as Hrs by (repeat constructor; vm_compute; congruence).
  assert (Forall queueable (map request_message some_requests)) as Hq.
  { apply Forall_map. eapply Forall_impl; [exact Hrs|]. intros r Hr. apply request_sendable. exact Hr. }
  destruct (all_written 3 (MkHooks true false true) (queued 0 0 []) _ Hq) as (w & HW & Hquiet & Hacc); [vm_compute; congruence|].
  destruct (write_reachable_inv _ _ _ _ HW) as [items HI].
  assert (match run started some_steps with Done s => roomy s (Drain some_clock) | _ => false end = true) as Hroom
    by (vm_compute; reflexivity).
  destruct (run started some_steps) as [s| |] eqn:E; [|discriminate..].
  destruct (orders_arrive some_requests 3 (MkHooks true false true) (queued 0 0 []) w 0 some_steps s some_clock)
    as (tasks & s' & y & ins & _ & _ & _ & Er & Ei & _ & Hm).
  - exact Hrs.
  - exact HW.
  - exact Hquiet.
  - exact Hacc.
  - vm_compute. reflexivity.
  - apply check_bytes_ok. vm_compute. reflexivity.
  - exact E.
  - rewrite (quiet_wire w items HI Hquiet), Hacc. vm_compute. reflexivity.
  - reflexivity.
  - exact Hroom.
  - exact some_clock_timed.
  - exists tasks, s, s', y, ins. split; [exact eq_refl|]. split; [exact Er|]. split; [exact Ei | exact Hm].
Defined.
