(* ===== verification/Logger.v ===== *)
(** [binary_logger.hpp]: the event log.  The engine pushes payloads to one queue
    per message type; a writer thread moves them to a staging buffer per file and
    writes the buffers out.

    The five queues and the five sinks are indexed by [Channel].  A call of
    [WriteFile] is recorded as the bytes it is given; files are never read. *)

From stdpp Require Import functions.
From S2P Require Import Prelude Types Codec Payloads Protocol SpscQueue.

(** The suffix of [q_plu_], [sink_plu_] and so on, in the order the writer
    serves them. *)
Inductive Channel := plu | trade | insert_ | cancel | amend.

#[global] Instance Channel_eq_dec : EqDecision Channel.
Proof. solve_decision. Defined.

Definition channels : list Channel := [plu; trade; insert_; cancel; amend].

(** The type whose messages a sink holds: the calls of [open_sink_]. *)
Definition channel_type (ch : Channel) : MessageType :=
  match ch with
  | plu => PRICE_LEVEL_UPDATE
  | trade => TRADE_EVENT
  | insert_ => ORDER_INSERTED_EVENT
  | cancel => ORDER_CANCELLED_EVENT
  | amend => ORDER_AMENDED_EVENT
  end.

(** The [switch] of [log_message]. *)
Definition channel_of (type : MessageType) : option Channel :=
  match type with
  | PRICE_LEVEL_UPDATE => Some plu
  | TRADE_EVENT => Some trade
  | ORDER_INSERTED_EVENT => Some insert_
  | ORDER_CANCELLED_EVENT => Some cancel
  | ORDER_AMENDED_EVENT => Some amend
  | _ => None
  end.

(** log2 of [Q_PLU_CAP] = [Q_TRADE_CAP] = [1u << 15] and [Q_MISC_CAP] = [1u << 14]. *)
Definition Q_LOG (ch : Channel) : Z :=
  match ch with plu | trade => 15 | _ => 14 end.

Definition MAX_LOGGED_SIZE : nat :=
  max_size
    [size_of PayloadTradeEvent.layout; size_of PayloadOrderInsertedEvent.layout;
     size_of PayloadOrderCancelledEvent.layout; size_of PayloadOrderAmendedEvent.layout;
     size_of PayloadPriceLevelUpdate.layout].

Definition message_type_to_string (t : MessageType) : string :=
  match t with
  | PRICE_LEVEL_UPDATE => "price_level_update"
  | TRADE_EVENT => "trade"
  | ORDER_INSERTED_EVENT => "insert_order"
  | ORDER_CANCELLED_EVENT => "cancel_order"
  | ORDER_AMENDED_EVENT => "amend_order"
  | _ => String.append "type_" (pretty.pretty (MessageType_to_u8 t))
  end.

Definition make_typed_filename (dir base_ts : string) (type : MessageType) : string :=
  String.append dir (String.append "/" (String.append base_ts (String.append "_"
    (String.append (message_type_to_string type) ".bin")))).

(** ** Sinks *)

Definition STAGING_BYTES : nat := Z.to_nat (64 * 1024).

Module FileSink.
(** [staging] is the first [offset] bytes of the buffer; [has_file] is
    [file != INVALID_HANDLE_VALUE]. *)
Record t := Make {
  has_file : bool;
  staging : bytes;
  payload_size : nat;
  opened : bool
}.

Definition FileSink : t := Make false [] 0 false.
Definition set_staging (s : t) (bs : bytes) : t :=
  Make s.(has_file) bs s.(payload_size) s.(opened).
End FileSink.

Definition usable (s : FileSink.t) : bool := s.(FileSink.opened) && s.(FileSink.has_file).

(** The sink after the call, and the bytes given to [WriteFile]. *)
Definition flush_sink_ (s : FileSink.t) : FileSink.t * bytes :=
  if negb (usable s) then (s, [])
  else if (length s.(FileSink.staging) =? 0)%nat then (s, [])
  else (FileSink.set_staging s [], s.(FileSink.staging)).

Definition write_direct_ (s : FileSink.t) (data : bytes) : bytes :=
  if negb (usable s) then [] else data.

Definition flush_sink_if_nonempty_ (s : FileSink.t) : FileSink.t * bytes :=
  if ((0 <? length s.(FileSink.staging)) && (4096 <=? length s.(FileSink.staging)))%nat
  then flush_sink_ s else (s, []).

(** [open_sink_], given whether [CreateFileA] succeeded; [None] is an exception. *)
Definition open_sink_ (type : MessageType) (created : bool) : option FileSink.t :=
  if negb created then None
  else
    let payload_size := payload_size_for_type type in
    if (MAX_LOGGED_SIZE <? payload_size)%nat then None
    else Some (FileSink.Make true [] payload_size true).

Definition close_sink_ (s : FileSink.t) : FileSink.t :=
  if negb (usable s) then s else FileSink.Make false [] s.(FileSink.payload_size) false.

(** ** Queues and writer *)

Abbreviation PayloadItem := bytes.
Abbreviation LogQueue := (SPSCQueue (T := bytes)).

(** [PayloadItem item{}] *)
Definition zero_item : PayloadItem := replicate MAX_LOGGED_SIZE 0.

(** One iteration of [drain_queue_] with the item [tmp]. *)
Definition stage (s : FileSink.t) (tmp : PayloadItem) : outcome (FileSink.t * bytes) :=
  let psz := s.(FileSink.payload_size) in
  if (length tmp <? psz)%nat then Undefined
  else if (STAGING_BYTES <? psz)%nat then
    let '(s, out) := flush_sink_ s in
    Done (s, out ++ write_direct_ s (take psz tmp))
  else
    let '(s, out) :=
      if (STAGING_BYTES <? length s.(FileSink.staging) + psz)%nat then flush_sink_ s else (s, []) in
    if (STAGING_BYTES <? length s.(FileSink.staging) + psz)%nat then Undefined
    else
      let s := FileSink.set_staging s (s.(FileSink.staging) ++ take psz tmp) in
      if (STAGING_BYTES - 4096 <=? length s.(FileSink.staging))%nat then
        let '(s, out') := flush_sink_ s in
        Done (s, out ++ out')
      else Done (s, out).

(** [drain_queue_]: whether it did anything, the queue and the sink after it,
    and the bytes written. *)
Fixpoint drain_queue_ (m : Z) (batch : nat) (q : LogQueue) (s : FileSink.t)
    : outcome (bool * LogQueue * FileSink.t * bytes) :=
  match batch with
  | O => Done (false, q, s, [])
  | S batch =>
      '(tmp, q) ← try_pop m q;
      match tmp with
      | None => Done (false, q, s, [])
      | Some tmp =>
          '(s, out) ← stage s tmp;
          '(_, q, s, out') ← drain_queue_ m batch q s;
          Done (true, q, s, out ++ out')
      end
  end.

Module Logger.
Record t := Make {
  q : Channel → LogQueue;
  sink : Channel → FileSink.t
}.

(** The constructor, given which files could be created; an exception when one
    could not. *)
Fixpoint open_all (chs : list Channel) (created : Channel → bool) (sinks : Channel → FileSink.t)
    : option (Channel → FileSink.t) :=
  match chs with
  | [] => Some sinks
  | ch :: chs =>
      s ← open_sink_ (channel_type ch) (created ch);
      open_all chs created (<[ch := s]> sinks)
  end.

Definition BinaryEventLogger (created : Channel → bool) : option t :=
  sinks ← open_all channels created (λ _, FileSink.FileSink);
  Some (Make (λ ch, new_queue (Q_LOG ch) zero_item) sinks).

(** [log_message]: whether the message was queued. *)
Definition log_message (lg : t) (type : MessageType) (payload : bytes) : outcome (bool * t) :=
  match channel_of type with
  | None => Done (false, lg)
  | Some ch =>
      let psz := (lg.(sink) ch).(FileSink.payload_size) in
      if ((length payload <? psz) || (MAX_LOGGED_SIZE <? psz))%nat then Undefined
      else
        '(pushed, q') ← try_push (Q_LOG ch) (lg.(q) ch) (take psz payload ++ drop psz zero_item);
        Done (pushed, Make (<[ch := q']> lg.(q)) lg.(sink))
  end.

Definition backlog_approx (lg : t) : Z :=
  foldl (λ n ch, u64 (n + size_approx (lg.(q) ch))) 0 channels.

Definition BATCH : nat := 256.

(** [did_work |= drain_queue_(...)] for one channel. *)
Definition drain (lg : t) (ch : Channel) (batch : nat) : outcome (bool * t * bytes) :=
  '(did, q', s, out) ← drain_queue_ (Q_LOG ch) batch (lg.(q) ch) (lg.(sink) ch);
  Done (did, Make (<[ch := q']> lg.(q)) (<[ch := s]> lg.(sink)), out).

(** What is written, per file. *)
Abbreviation Writes := (list (Channel * bytes)).

Fixpoint drain_all (lg : t) (chs : list Channel) : outcome (bool * t * Writes) :=
  match chs with
  | [] => Done (false, lg, [])
  | ch :: chs =>
      '(did, lg, out) ← drain lg ch BATCH;
      '(did', lg, outs) ← drain_all lg chs;
      Done (orb did did', lg, (ch, out) :: outs)
  end.

(** A flush of every sink, by [flush]. *)
Fixpoint flush_all (flush : FileSink.t → FileSink.t * bytes) (lg : t) (chs : list Channel) : t * Writes :=
  match chs with
  | [] => (lg, [])
  | ch :: chs =>
      let '(s, out) := flush (lg.(sink) ch) in
      let '(lg, outs) := flush_all flush (Make lg.(q) (<[ch := s]> lg.(sink))) chs in
      (lg, (ch, out) :: outs)
  end.

(** The body of the loop of [writer_loop]. *)
Definition writer_round (lg : t) : outcome (t * Writes) :=
  '(did_work, lg, outs) ← drain_all lg channels;
  if did_work : bool then Done (lg, outs)
  else
    let '(lg, outs') := flush_all flush_sink_if_nonempty_ lg channels in
    Done (lg, outs ++ outs').

(** [writer_loop] once [running_] is false, when nothing is pushed any more. *)
Fixpoint writer_finish (fuel : nat) (lg : t) : outcome (t * Writes) :=
  if 0 <? backlog_approx lg then
    match fuel with
    | O => OutOfFuel
    | S fuel =>
        '(lg, outs) ← writer_round lg;
        '(lg, outs') ← writer_finish fuel lg;
        Done (lg, outs ++ outs')
    end
  else Done (flush_all flush_sink_ lg channels).

(** The destructor, after [running_.store(false)]: join the writer, flush and
    close. *)
Definition destroy (fuel : nat) (lg : t) : outcome (t * Writes) :=
  '(lg, outs) ← writer_finish fuel lg;
  let '(lg, outs') := flush_all flush_sink_ lg channels in
  Done (Make lg.(q) (λ ch, close_sink_ (lg.(sink) ch)), outs ++ outs').
End Logger.
