(* ===== verification/LoggerTheorems.v ===== *)
(** The event log loses nothing it accepted: whatever the interleaving of the
    engine's [log_message] with the writer, a file holds the payloads accepted
    for it, in order, once the logger is destroyed; and destroying it ends. *)

From stdpp Require Import functions.
From S2P Require Import Prelude Types Codec Payloads Protocol SpscQueue Logger.
Import Logger.

(** ** Sizes *)

Definition psz (ch : Channel) : nat := payload_size_for_type (channel_type ch).

Lemma psz_bounds ch : (0 < psz ch <= MAX_LOGGED_SIZE)%nat.
Proof. destruct ch; vm_compute; lia. Qed.

Lemma max_logged_val : MAX_LOGGED_SIZE = 29%nat.
Proof. reflexivity. Qed.

Lemma staging_val : Z.of_nat STAGING_BYTES = 65536.
Proof. unfold STAGING_BYTES. lia. Qed.

#[local] Opaque STAGING_BYTES MAX_LOGGED_SIZE.

Lemma q_log_range ch : 1 <= Q_LOG ch < 64.
Proof. destruct ch; cbn; lia. Qed.

(** ** One sink *)

(** An open sink between two items. *)
Record sink_ok (ch : Channel) (s : FileSink.t) : Prop := MkSinkOk {
  so_usable : usable s = true;
  so_size : s.(FileSink.payload_size) = psz ch;
  so_room : Z.of_nat (length s.(FileSink.staging)) < 65536 - 4096
}.

Lemma flush_ok ch s :
  usable s = true → s.(FileSink.payload_size) = psz ch →
  sink_ok ch (flush_sink_ s).1 ∧ (flush_sink_ s).1.(FileSink.staging) = [] ∧
  (flush_sink_ s).2 = s.(FileSink.staging).
Proof.
  intros Hu Hp. unfold flush_sink_. rewrite Hu. cbn [negb].
  destruct (_ =? 0)%nat eqn:E.
  - apply Nat.eqb_eq, nil_length_inv in E. cbn [fst snd]. split; [|by rewrite E].
    split; [done..|]. rewrite E. cbn. lia.
  - cbn. split; [|done]. split; cbn; [done | done | lia].
Qed.

Lemma stage_ok ch s tmp :
  sink_ok ch s → length tmp = MAX_LOGGED_SIZE →
  ∃ s' out, stage s tmp = Done (s', out) ∧ sink_ok ch s' ∧
    out ++ s'.(FileSink.staging) = s.(FileSink.staging) ++ take (psz ch) tmp.
Proof.
  intros [Hu Hp Hr] Ht. unfold stage. rewrite Hp, Ht. pose proof (psz_bounds ch) as Hpb.
  pose proof staging_val as Hs. rewrite max_logged_val in *.
  rewrite (proj2 (Nat.ltb_ge _ _)) by lia. rewrite (proj2 (Nat.ltb_ge STAGING_BYTES _)) by lia.
  rewrite (proj2 (Nat.ltb_ge STAGING_BYTES (length s.(FileSink.staging) + _))) by lia.
  rewrite (proj2 (Nat.ltb_ge STAGING_BYTES (length s.(FileSink.staging) + _))) by lia.
  set (s1 := FileSink.set_staging s _).
  destruct (_ <=? _)%nat eqn:E.
  - destruct (flush_ok ch s1) as (H1 & H2 & H3); [done | done |].
    destruct (flush_sink_ s1) as [s2 out]. cbn in *. exists s2, out. subst out.
    split; [done|]. split; [done|]. rewrite H2. by rewrite app_nil_r.
  - apply Nat.leb_gt in E. exists s1, []. split; [done|]. split; [|done]. split; [done | done | lia].
Qed.

(** ** One queue *)

Definition items_ok (items : list PayloadItem) : Prop :=
  Forall (λ item, length item = MAX_LOGGED_SIZE) items.

(** The bytes that queued items put into the file. *)
Definition file_bytes (ch : Channel) (items : list PayloadItem) : bytes :=
  concat (map (take (psz ch)) items).

Lemma file_bytes_app ch l l' : file_bytes ch (l ++ l') = file_bytes ch l ++ file_bytes ch l'.
Proof. unfold file_bytes. by rewrite map_app, concat_app. Qed.

Lemma drain_queue_ok ch batch q s items :
  holds (Q_LOG ch) q items → items_ok items → sink_ok ch s →
  ∃ q' s' out, drain_queue_ (Q_LOG ch) batch q s =
      Done (negb (Nat.min batch (length items) =? 0)%nat, q', s', out) ∧
    holds (Q_LOG ch) q' (drop batch items) ∧ sink_ok ch s' ∧
    out ++ s'.(FileSink.staging) = s.(FileSink.staging) ++ file_bytes ch (take batch items).
Proof.
  revert q s items. induction batch as [|batch IH]; intros q s items HQ Hi Hs; cbn [drain_queue_].
  { exists q, s, []. split; [done|]. split; [by rewrite drop_0|]. split; [done | by rewrite app_nil_r]. }
  destruct (try_pop_ok _ (q_log_range ch) q items HQ) as (q1 & -> & HQ1). run_bind.
  destruct items as [|item items]; cbn [head tail] in *.
  { exists q1, s, []. split; [done|]. split; [done|]. split; [done | by rewrite app_nil_r]. }
  apply Forall_cons in Hi as [Hi1 Hi]. destruct (stage_ok ch s item Hs Hi1) as (s1 & out1 & -> & Hs1 & E1).
  run_bind. destruct (IH q1 s1 items HQ1 Hi Hs1) as (q2 & s2 & out2 & -> & HQ2 & Hs2 & E2).
  run_bind. exists q2, s2, (out1 ++ out2). split; [done|]. split; [done|]. split; [done|].
  rewrite <- app_assoc, E2, app_assoc, E1, <- app_assoc. done.
Qed.

(** ** The logger *)

Definition log_ok (lg : t) (items : Channel → list PayloadItem) : Prop :=
  ∀ ch, holds (Q_LOG ch) (lg.(q) ch) (items ch) ∧ items_ok (items ch) ∧ sink_ok ch (lg.(sink) ch).

(** What was accepted and is not yet in the file. *)
Definition unwritten (lg : t) (items : Channel → list PayloadItem) (ch : Channel) : bytes :=
  (lg.(sink) ch).(FileSink.staging) ++ file_bytes ch (items ch).

Definition written (outs : Writes) (ch : Channel) : bytes :=
  concat (map snd (filter (λ w, w.1 = ch) outs)).

Lemma written_app outs outs' ch : written (outs ++ outs') ch = written outs ch ++ written outs' ch.
Proof. unfold written. by rewrite filter_app, map_app, concat_app. Qed.

Lemma written_cons c out outs ch :
  written ((c, out) :: outs) ch = (if decide (c = ch) then out else []) ++ written outs ch.
Proof. unfold written. rewrite filter_cons. cbn. by case_decide. Qed.

(** A step writes the front of what was unwritten. *)
Definition writes (lg : t) items (lg' : t) items' (outs : Writes) : Prop :=
  ∀ ch, written outs ch ++ unwritten lg' items' ch = unwritten lg items ch.

Lemma writes_trans lg1 i1 lg2 i2 lg3 i3 outs outs' :
  writes lg1 i1 lg2 i2 outs → writes lg2 i2 lg3 i3 outs' → writes lg1 i1 lg3 i3 (outs ++ outs').
Proof. intros H1 H2 ch. by rewrite written_app, <- app_assoc, H2, H1. Qed.

Lemma drain_sink_ok lg items ch batch :
  log_ok lg items →
  let items' := <[ch := drop batch (items ch)]> items in
  ∃ lg' out, drain lg ch batch = Done (negb (Nat.min batch (length (items ch)) =? 0)%nat, lg', out) ∧
    log_ok lg' items' ∧ writes lg items lg' items' [(ch, out)].
Proof.
  intros HL items'. destruct (HL ch) as (HQ & Hi & Hs). unfold drain.
  destruct (drain_queue_ok ch batch _ _ _ HQ Hi Hs) as (q' & s' & out & -> & HQ' & Hs' & E).
  run_bind. eexists _, out. split; [reflexivity|]. split.
  - intros c. cbn. unfold items'. destruct (decide (c = ch)) as [->|Hne].
    + rewrite !fn_lookup_insert. split; [done|]. split; [by apply Forall_drop | done].
    + rewrite !fn_lookup_insert_ne by done. apply HL.
  - intros c. rewrite written_cons. unfold unwritten, items'. cbn.
    destruct (decide (c = ch)) as [->|Hne].
    + rewrite decide_True, !fn_lookup_insert, app_nil_r, app_assoc, E by done.
      by rewrite <- app_assoc, <- file_bytes_app, take_drop.
    + rewrite decide_False, !fn_lookup_insert_ne by done. done.
Qed.

(** A flush of all sinks by a function that flushes a sink or leaves it. *)
Definition flushes (flush : FileSink.t → FileSink.t * bytes) : Prop :=
  ∀ s, flush s = flush_sink_ s ∨ flush s = (s, []).

Lemma flush_all_ok flush lg items chs :
  flushes flush → log_ok lg items →
  log_ok (flush_all flush lg chs).1 items ∧
  writes lg items (flush_all flush lg chs).1 items (flush_all flush lg chs).2 ∧
  (flush_all flush lg chs).1.(q) = lg.(q).
Proof.
  intros Hf. revert lg. induction chs as [|ch chs IH]; intros lg HL; cbn [flush_all]; [by split|].
  destruct (flush (lg.(sink) ch)) as [s out] eqn:E. set (lg1 := Make _ _).
  destruct (HL ch) as (HQ & Hi & Hs).
  assert (sink_ok ch s ∧ out ++ s.(FileSink.staging) = (lg.(sink) ch).(FileSink.staging)) as [Hs' Eout].
  { destruct (flush_ok ch (lg.(sink) ch)) as (H1 & H2 & H3); [apply Hs..|].
    destruct (Hf (lg.(sink) ch)) as [Ef|Ef]; rewrite Ef in E.
    - rewrite E in H1, H2, H3. cbn in *. subst out. by rewrite H2, app_nil_r.
    - by injection E as <- <-. }
  assert (log_ok lg1 items) as HL1.
  { intros c. cbn. destruct (decide (c = ch)) as [->|Hne]; [by rewrite fn_lookup_insert|].
    rewrite fn_lookup_insert_ne by done. apply HL. }
  destruct (IH lg1 HL1) as (H1 & H2 & H3). destruct (flush_all flush lg1 chs) as [lg2 outs]. cbn in *.
  split; [done|]. split; [|done]. apply (writes_trans lg items lg1 items lg2 items [(ch, out)] outs); [|done].
  intros c. rewrite written_cons. unfold unwritten, lg1. cbn. destruct (decide (c = ch)) as [->|Hne].
  - by rewrite decide_True, fn_lookup_insert, app_nil_r, app_assoc, Eout.
  - by rewrite decide_False, fn_lookup_insert_ne by done.
Qed.

(** Flushing a channel empties its buffer. *)
Lemma flush_all_empties lg items chs ch :
  log_ok lg items → ch ∈ chs →
  ((flush_all flush_sink_ lg chs).1.(sink) ch).(FileSink.staging) = [].
Proof.
  revert lg. induction chs as [|c chs IH]; intros lg HL Hin; [by apply elem_of_nil in Hin|].
  cbn [flush_all]. destruct (flush_sink_ (lg.(sink) c)) as [s out] eqn:E. set (lg1 := Make _ _).
  destruct (HL c) as (HQ & Hi & Hs). destruct (flush_ok c (lg.(sink) c)) as (H1 & H2 & H3); [apply Hs..|].
  rewrite E in H1, H2. cbn in H1, H2.
  assert (log_ok lg1 items) as HL1.
  { intros d. cbn. destruct (decide (d = c)) as [->|Hne]; [by rewrite fn_lookup_insert|].
    rewrite fn_lookup_insert_ne by done. apply HL. }
  specialize (IH lg1 HL1). destruct (flush_all flush_sink_ lg1 chs) as [lg2 outs] eqn:E2. cbn in *.
  destruct (decide (ch ∈ chs)) as [Hc|Hc]; [by apply IH|].
  apply elem_of_cons in Hin as [->|Hin]; [|done].
  assert (∀ chs lg, c ∉ chs → (flush_all flush_sink_ lg chs).1.(sink) c = lg.(sink) c) as Hkeep.
  { clear. intros chs. induction chs as [|d chs IH]; intros lg Hn; [done|]. cbn [flush_all].
    apply not_elem_of_cons in Hn as [Hne Hn]. destruct (flush_sink_ (sink lg d)) as [s out].
    specialize (IH (Make lg.(q) (<[d := s]> lg.(sink))) Hn).
    destruct (flush_all _ _ _) as [lg' outs]. cbn in *. rewrite IH. by rewrite fn_lookup_insert_ne. }
  specialize (Hkeep chs lg1 Hc). rewrite E2 in Hkeep. cbn in Hkeep. by rewrite Hkeep, fn_lookup_insert.
Qed.

(** ** The writer *)

Definition drained (chs : list Channel) (items : Channel → list PayloadItem) (ch : Channel)
    : list PayloadItem :=
  if decide (ch ∈ chs) then drop BATCH (items ch) else items ch.

Lemma log_ok_ext lg items items' : (∀ ch, items ch = items' ch) → log_ok lg items → log_ok lg items'.
Proof. intros E HL ch. rewrite <- E. apply HL. Qed.

Lemma drain_all_ok lg items chs :
  NoDup chs → log_ok lg items →
  ∃ did lg' outs, drain_all lg chs = Done (did, lg', outs) ∧ log_ok lg' (drained chs items) ∧
    writes lg items lg' (drained chs items) outs ∧
    (did = false → ∀ ch, ch ∈ chs → items ch = []).
Proof.
  revert lg items. induction chs as [|ch chs IH]; intros lg items Hnd HL; cbn [drain_all].
  { exists false, lg, []. split; [done|]. split; [by eapply log_ok_ext; [|exact HL]|]. split; [done|].
    by intros _ ch ?%elem_of_nil. }
  apply NoDup_cons in Hnd as [Hn Hnd]. destruct (drain_sink_ok lg items ch BATCH HL) as (lg1 & out & -> & HL1 & W1).
  run_bind. set (items1 := <[ch := _]> items) in *.
  destruct (IH lg1 items1 Hnd HL1) as (did & lg2 & outs & -> & HL2 & W2 & Hd). run_bind.
  assert (∀ c, drained chs items1 c = drained (ch :: chs) items c) as Hext.
  { intros c. unfold drained, items1. destruct (decide (c = ch)) as [->|Hne].
    - rewrite decide_False, decide_True, fn_lookup_insert by (done || by left). done.
    - rewrite fn_lookup_insert_ne by done. repeat case_decide; set_solver. }
  eexists _, lg2, _. split; [reflexivity|]. split; [by eapply log_ok_ext|]. split.
  - intros c. specialize (writes_trans _ _ _ _ _ _ _ _ W1 W2 c) as W. unfold unwritten in *.
    by rewrite Hext in W.
  - intros [Hdid Hrest]%orb_false_iff c Hc. apply negb_false_iff, Nat.eqb_eq in Hdid.
    destruct (decide (c = ch)) as [->|Hne].
    + apply nil_length_inv. change BATCH with 256%nat in Hdid. lia.
    + specialize (Hd Hrest c). unfold items1 in Hd. rewrite fn_lookup_insert_ne in Hd by done.
      apply Hd. set_solver.
Qed.

Lemma all_channels ch : ch ∈ channels.
Proof. destruct ch; set_solver. Qed.

Lemma channels_NoDup : NoDup channels.
Proof. by apply (bool_decide_unpack _). Qed.

(** The number of items still queued. *)
Definition queued_items (items : Channel → list PayloadItem) : nat :=
  foldr (λ ch n, (length (items ch) + n)%nat) 0%nat channels.

Lemma backlog_ok lg items : log_ok lg items → backlog_approx lg = Z.of_nat (queued_items items).
Proof.
  intros HL. assert (∀ ch, size_approx (lg.(q) ch) = Z.of_nat (length (items ch)) ∧
    Z.of_nat (length (items ch)) <= 2 ^ 15) as Hq.
  { intros ch. destruct (HL ch) as (HQ & _ & _).
    split; [by eapply holds_size; [apply (q_log_range ch)|]|].
    destruct HQ as [t [Hc _ _ _ _]]. unfold CapacityPow2 in Hc.
    assert (2 ^ Q_LOG ch <= 2 ^ 15) by (by destruct ch). lia. }
  unfold backlog_approx, queued_items, channels. cbn [foldl foldr].
  pose proof (Hq plu) as [-> ?]. pose proof (Hq trade) as [-> ?]. pose proof (Hq insert_) as [-> ?].
  pose proof (Hq cancel) as [-> ?]. pose proof (Hq amend) as [-> ?].
  set (a := length (items plu)) in *. set (b := length (items trade)) in *.
  set (c := length (items insert_)) in *. set (d := length (items cancel)) in *.
  rewrite (u64_small (0 + Z.of_nat a)), (u64_small (_ + Z.of_nat b)), (u64_small (_ + Z.of_nat c)),
    (u64_small (_ + Z.of_nat d)), u64_small by lia. lia.
Qed.

Lemma nothing_unwritten lg items ch :
  queued_items items = 0%nat → (lg.(sink) ch).(FileSink.staging) = [] → unwritten lg items ch = [].
Proof.
  intros Hq Hst. unfold unwritten. rewrite Hst. assert (items ch = []) as ->; [|done].
  apply nil_length_inv. unfold queued_items, channels in Hq. cbn in Hq. destruct ch; lia.
Qed.

Lemma queued_drained items : (0 < queued_items items)%nat →
  (queued_items (drained channels items) < queued_items items)%nat.
Proof.
  unfold queued_items, drained. cbn [foldr channels]. intros H.
  rewrite !decide_True by apply all_channels. rewrite !length_drop. change BATCH with 256%nat. lia.
Qed.

Lemma round_ok lg items :
  log_ok lg items →
  ∃ lg' outs, writer_round lg = Done (lg', outs) ∧ log_ok lg' (drained channels items) ∧
    writes lg items lg' (drained channels items) outs.
Proof.
  intros HL. unfold writer_round.
  destruct (drain_all_ok lg items channels channels_NoDup HL) as (did & lg1 & outs & -> & HL1 & W1 & _).
  run_bind. destruct did; [by eauto|].
  destruct (flush_all_ok flush_sink_if_nonempty_ lg1 (drained channels items) channels) as (HL2 & W2 & _); [|done|].
  { intros s. unfold flush_sink_if_nonempty_. destruct (_ && _); auto. }
  destruct (flush_all flush_sink_if_nonempty_ lg1 channels) as [lg2 outs2]. cbn in *.
  eexists _, _. split; [reflexivity|]. split; [done|]. by eapply writes_trans.
Qed.

Lemma finish_ok fuel lg items :
  log_ok lg items → (queued_items items <= fuel)%nat →
  ∃ lg' items' outs, writer_finish fuel lg = Done (lg', outs) ∧ log_ok lg' items' ∧
    writes lg items lg' items' outs ∧ queued_items items' = 0%nat ∧
    ∀ ch, (lg'.(sink) ch).(FileSink.staging) = [].
Proof.
  assert (∀ lg items, log_ok lg items → queued_items items = 0%nat →
    ∃ lg' items' outs, Done (flush_all flush_sink_ lg channels) = Done (lg', outs) ∧ log_ok lg' items' ∧
      writes lg items lg' items' outs ∧ queued_items items' = 0%nat ∧
      ∀ ch, (lg'.(sink) ch).(FileSink.staging) = []) as Hend.
  { intros lg0 items0 HL Hq. destruct (flush_all_ok flush_sink_ lg0 items0 channels) as (H1 & H2 & _);
      [by left | done |]. exists (flush_all flush_sink_ lg0 channels).1, items0, (flush_all flush_sink_ lg0 channels).2.
    split; [by destruct (flush_all _ _ _)|]. split; [done|]. split; [done|]. split; [done|].
    intros ch. by apply (flush_all_empties lg0 items0); [|apply all_channels]. }
  revert lg items. induction fuel as [|fuel IH]; intros lg items HL Hf; cbn [writer_finish];
    rewrite (backlog_ok lg items HL).
  { rewrite (proj2 (Z.ltb_ge _ _)) by lia. apply Hend; [done | lia]. }
  destruct (0 <? _) eqn:E; [|apply Hend; [done | lia]].
  destruct (round_ok lg items HL) as (lg1 & outs1 & -> & HL1 & W1). run_bind.
  pose proof (queued_drained items ltac:(lia)).
  destruct (IH lg1 _ HL1) as (lg2 & items2 & outs2 & -> & HL2 & W2 & Hq & Hs); [lia|]. run_bind.
  exists lg2, items2, (outs1 ++ outs2). split; [done|]. split; [done|]. split; [by eapply writes_trans | done].
Qed.

(** ** Engine and writer, interleaved *)

(** The logger, the content of the files, and the payloads accepted so far. *)
Record LogSystem := MkLogSystem {
  logger : t;
  files : Channel → bytes;
  accepted : Channel → bytes
}.

(** A call of [log_message]; a part of a [drain_queue_] (one with a break in
    which the engine pushes is two drains of a smaller batch); an idle flush. *)
Inductive LogStep :=
  | Produce (type : MessageType) (payload : bytes)
  | Drain (ch : Channel) (batch : nat)
  | IdleFlush (ch : Channel).

Definition write_files (files : Channel → bytes) (outs : Writes) : Channel → bytes :=
  λ ch, files ch ++ written outs ch.

Definition log_step (s : LogSystem) (step : LogStep) : outcome LogSystem :=
  match step with
  | Produce type payload =>
      '(pushed, lg) ← log_message s.(logger) type payload;
      Done (MkLogSystem lg s.(files)
        match channel_of type with
        | Some ch => if pushed : bool then <[ch := s.(accepted) ch ++ take (psz ch) payload]> s.(accepted)
                     else s.(accepted)
        | None => s.(accepted)
        end)
  | Drain ch batch =>
      '(_, lg, out) ← drain s.(logger) ch batch;
      Done (MkLogSystem lg (write_files s.(files) [(ch, out)]) s.(accepted))
  | IdleFlush ch =>
      let '(lg, outs) := flush_all flush_sink_if_nonempty_ s.(logger) [ch] in
      Done (MkLogSystem lg (write_files s.(files) outs) s.(accepted))
  end.

Fixpoint log_run (s : LogSystem) (steps : list LogStep) : outcome LogSystem :=
  match steps with
  | [] => Done s
  | step :: steps => s ← log_step s step; log_run s steps
  end.

(** The payload a message is logged with covers its type. *)
Definition covers (step : LogStep) : bool :=
  match step with
  | Produce type payload => (payload_size_for_type type <=? length payload)%nat
  | _ => true
  end.

Definition system_ok (s : LogSystem) (items : Channel → list PayloadItem) : Prop :=
  log_ok s.(logger) items ∧
  ∀ ch, s.(files) ch ++ unwritten s.(logger) items ch = s.(accepted) ch.

Lemma write_files_ok s items lg' items' outs :
  system_ok s items → log_ok lg' items' → writes s.(logger) items lg' items' outs →
  system_ok (MkLogSystem lg' (write_files s.(files) outs) s.(accepted)) items'.
Proof.
  intros [_ Hf] HL HW. split; [done|]. intros ch. cbn. unfold write_files.
  rewrite <- app_assoc, HW. apply Hf.
Qed.

Lemma produce_ok s items type payload :
  system_ok s items → covers (Produce type payload) = true →
  ∃ s' items', log_step s (Produce type payload) = Done s' ∧ system_ok s' items'.
Proof.
  intros [HL Hf] Hc. cbn [log_step covers] in *. apply Nat.leb_le in Hc. unfold log_message.
  destruct (channel_of type) as [ch|] eqn:Ech; [|eexists _, items; split; [reflexivity | by split]].
  assert (channel_type ch = type) as <- by (destruct type; try discriminate; by injection Ech as <-). fold (psz ch) in Hc.
  destruct (HL ch) as (HQ & Hi & Hs). rewrite (so_size _ _ Hs). pose proof (psz_bounds ch) as Hp.
  rewrite (proj2 (Nat.ltb_ge (length payload) _)), (proj2 (Nat.ltb_ge MAX_LOGGED_SIZE _)) by lia.
  cbn [orb]. set (item := take (psz ch) payload ++ drop (psz ch) zero_item).
  assert (length item = MAX_LOGGED_SIZE) as Hlen.
  { unfold item, zero_item. rewrite length_app, length_take, length_drop, length_replicate. lia. }
  assert (take (psz ch) item = take (psz ch) payload) as Htake.
  { unfold item. rewrite take_app_le by (rewrite length_take; lia). by rewrite take_take, Nat.min_id. }
  destruct (try_push_ok _ (q_log_range ch) _ _ item HQ) as (q' & -> & HQ'). run_bind.
  destruct (bool_decide (Z.of_nat (length (items ch)) < _)).
  - eexists _, (<[ch := items ch ++ [item]]> items). split; [reflexivity|]. split; cbn.
    + intros c. cbn. destruct (decide (c = ch)) as [->|Hne].
      * rewrite !fn_lookup_insert. split; [done|]. split; [|done].
        apply Forall_app. by repeat constructor.
      * rewrite !fn_lookup_insert_ne by done. apply HL.
    + intros c. unfold unwritten. cbn. destruct (decide (c = ch)) as [->|Hne].
      * rewrite !fn_lookup_insert, file_bytes_app. unfold file_bytes at 2. cbn. rewrite app_nil_r, Htake.
        rewrite <- Hf. unfold unwritten. by rewrite !app_assoc.
      * rewrite !fn_lookup_insert_ne by done. apply Hf.
  - eexists _, items. split; [reflexivity|]. split; cbn; [|apply Hf]. intros c. cbn.
    destruct (decide (c = ch)) as [->|Hne]; [by rewrite fn_lookup_insert|].
    rewrite fn_lookup_insert_ne by done. apply HL.
Qed.

Lemma log_step_ok s items step :
  system_ok s items → covers step = true →
  ∃ s' items', log_step s step = Done s' ∧ system_ok s' items'.
Proof.
  intros HS Hc. destruct step as [type payload | ch batch | ch].
  - by eapply produce_ok.
  - cbn [log_step]. destruct (drain_sink_ok s.(logger) items ch batch) as (lg' & out & -> & HL & HW); [apply HS|].
    run_bind. eexists _, _. split; [reflexivity|]. by eapply write_files_ok.
  - cbn [log_step].
    destruct (flush_all_ok flush_sink_if_nonempty_ s.(logger) items [ch]) as (HL & HW & _); [|apply HS|].
    { intros f. unfold flush_sink_if_nonempty_. destruct (_ && _); auto. }
    destruct (flush_all _ _ _) as [lg' outs]. eexists _, items. split; [reflexivity|]. by eapply write_files_ok.
Qed.

Lemma log_run_ok s items steps :
  system_ok s items → forallb covers steps = true →
  ∃ s' items', log_run s steps = Done s' ∧ system_ok s' items'.
Proof.
  revert s items. induction steps as [|step steps IH]; intros s items HS Hc; cbn [log_run forallb] in *; [by eauto|].
  apply andb_true_iff in Hc as [Hc1 Hc]. destruct (log_step_ok s items step HS Hc1) as (s1 & items1 & -> & HS1).
  by apply (IH s1 items1).
Qed.

Definition opened_logger : option t := BinaryEventLogger (λ _, true).
Definition first_system (lg : t) : LogSystem := MkLogSystem lg (λ _, []) (λ _, []).

Lemma open_all_keeps chs created sinks sinks' ch :
  ch ∉ chs → open_all chs created sinks = Some sinks' → sinks' ch = sinks ch.
Proof.
  revert sinks. induction chs as [|c chs IH]; intros sinks Hn; cbn [open_all]; [by intros [= <-]|].
  apply not_elem_of_cons in Hn as [Hne Hn]. destruct (open_sink_ _ _) as [s|]; [|done]. cbn [mbind option_bind].
  intros E. rewrite (IH _ Hn E). by rewrite fn_lookup_insert_ne.
Qed.

Lemma open_all_ok chs created sinks sinks' ch :
  open_all chs created sinks = Some sinks' → ch ∈ chs → sink_ok ch (sinks' ch).
Proof.
  revert sinks. induction chs as [|c chs IH]; intros sinks; cbn [open_all]; [by intros _ ?%elem_of_nil|].
  destruct (open_sink_ (channel_type c) (created c)) as [s|] eqn:E; [|done]. cbn [mbind option_bind].
  intros Ho Hin. destruct (decide (ch ∈ chs)) as [H|H]; [by eapply IH|].
  apply elem_of_cons in Hin as [->|Hin]; [|done]. rewrite (open_all_keeps _ _ _ _ _ H Ho), fn_lookup_insert.
  unfold open_sink_ in E. destruct (created c); cbn [negb] in E; [|done].
  destruct (_ <? _)%nat; [done|]. injection E as <-. split; cbn; [done | done | lia].
Qed.

Lemma constructed_ok created lg :
  BinaryEventLogger created = Some lg → system_ok (first_system lg) (λ _, []).
Proof.
  unfold BinaryEventLogger. destruct (open_all channels created _) as [sinks|] eqn:E; [|done].
  intros [= <-].
  assert (∀ ch, sink_ok ch (sinks ch) ∧ (sinks ch).(FileSink.staging) = []) as Hs.
  { intros ch. split; [eapply open_all_ok, all_channels; exact E|].
    unfold channels in E. cbn in E. unfold open_sink_ in E.
    destruct (created plu), (created trade), (created insert_), (created cancel), (created amend);
      try discriminate; injection E as <-; by destruct ch. }
  split; cbn.
  - intros ch. split; [apply new_queue_holds, q_log_range|]. split; [constructor | apply Hs].
  - intros ch. unfold unwritten, file_bytes. cbn. destruct (Hs ch) as [_ ->]. done.
Qed.

(** ** Guarantees *)

(** C23: the event log is complete and in order.  Once the files are open, whatever
    the engine logs and however its calls interleave with the writer thread, each
    file is at any time a prefix of the payloads accepted for it, in order; and
    destroying the logger writes exactly the rest, whatever was queued or staged,
    and closes the files. *)
Theorem log_complete (created : Channel → bool) lg (steps : list LogStep) :
  BinaryEventLogger created = Some lg → forallb covers steps = true →
  ∃ s, log_run (first_system lg) steps = Done s ∧
    (∀ ch, ∃ rest, s.(accepted) ch = s.(files) ch ++ rest) ∧
    ∃ lg' outs, destroy (Z.to_nat (backlog_approx s.(logger))) s.(logger) = Done (lg', outs) ∧
      ∀ ch, s.(files) ch ++ written outs ch = s.(accepted) ch ∧ usable (lg'.(sink) ch) = false.
Proof.
  intros Hopen Hc. destruct (log_run_ok _ _ steps (constructed_ok _ _ Hopen) Hc) as (s & items & E & HL & Hf).
  exists s. split; [done|]. split; [intros ch; exists (unwritten s.(logger) items ch); by rewrite Hf|].
  rewrite (backlog_ok _ _ HL), Nat2Z.id. unfold destroy.
  destruct (finish_ok (queued_items items) s.(logger) items HL (le_n _)) as (lg1 & i1 & outs1 & -> & HL1 & W1 & Hq & Hst).
  run_bind.
  destruct (flush_all_ok flush_sink_ lg1 i1 channels) as (HL2 & W2 & _); [by left | done |].
  pose proof (λ ch, flush_all_empties lg1 i1 channels ch HL1 (all_channels ch)) as Hst2.
  destruct (flush_all flush_sink_ lg1 channels) as [lg2 outs2]. cbn [fst snd] in *.
  eexists _, _. split; [reflexivity|]. intros ch. split.
  - pose proof (writes_trans _ _ _ _ _ _ _ _ W1 W2 ch) as W. rewrite <- Hf, <- W. f_equal.
    rewrite nothing_unwritten; [by rewrite app_nil_r | done | apply Hst2].
  - cbn. unfold close_sink_. by rewrite (so_usable _ _ (proj2 (proj2 (HL2 ch)))).
Qed.

(** A trade is logged and drained, an order is logged, then the logger is destroyed. *)
Definition log_session : list LogStep :=
  [Produce TRADE_EVENT (payload_bytes (PTradeEvent (make_trade_event 5 1 100 3 BUY 9)));
   Drain trade 256; IdleFlush trade;
   Produce ORDER_INSERTED_EVENT (payload_bytes (POrderInsertedEvent (make_order_inserted_event 6 2 SELL 101 4 9)));
   Produce CONNECT []].

Lemma log_complete_witness :
  ∃ lg s lg' outs, BinaryEventLogger (λ _, true) = Some lg ∧ log_run (first_system lg) log_session = Done s ∧
    s.(files) trade = [] ∧
    destroy (Z.to_nat (backlog_approx s.(logger))) s.(logger) = Done (lg', outs) ∧
    written outs trade = payload_bytes (PTradeEvent (make_trade_event 5 1 100 3 BUY 9)).
Proof.
  destruct (BinaryEventLogger (λ _, true)) as [lg|] eqn:E; [|vm_compute in E; discriminate E].
  destruct (log_complete (λ _, true) lg log_session E) as (s & E1 & _ & lg' & outs & E2 & F);
    [vm_compute; reflexivity|].
  exists lg, s, lg', outs. split; [reflexivity|]. split; [exact E1|].
  assert (s.(files) trade = [] ∧
          s.(accepted) trade = payload_bytes (PTradeEvent (make_trade_event 5 1 100 3 BUY 9))) as [Hf Ha].
  { injection E as <-. vm_compute in E1. injection E1 as <-. vm_compute. split; reflexivity. }
  split; [exact Hf|]. split; [exact E2|]. destruct (F trade) as [Ft _]. rewrite Hf, Ha in Ft. exact Ft.
Defined.

(** C27: the writer thread ends, with everything written.  After [running_] is
    cleared the writer's loop runs at most as many rounds as there are items queued;
    then the queues and the staging buffers are empty and each file holds exactly the
    payloads accepted for it, so the flush of the destructor, which joins the
    writer first, writes nothing more. *)
Theorem writer_terminates (created : Channel → bool) lg (steps : list LogStep) s :
  BinaryEventLogger created = Some lg → forallb covers steps = true →
  log_run (first_system lg) steps = Done s →
  ∃ lg' outs, writer_finish (Z.to_nat (backlog_approx s.(logger))) s.(logger) = Done (lg', outs) ∧
    backlog_approx lg' = 0 ∧
    ∀ ch, (lg'.(sink) ch).(FileSink.staging) = [] ∧ s.(files) ch ++ written outs ch = s.(accepted) ch ∧
      written (flush_all flush_sink_ lg' channels).2 ch = [].
Proof.
  intros Hopen Hc E. destruct (log_run_ok _ _ steps (constructed_ok _ _ Hopen) Hc) as (s' & items & E' & HL & Hf).
  rewrite E in E'. injection E' as <-. rewrite (backlog_ok _ _ HL), Nat2Z.id.
  destruct (finish_ok (queued_items items) s.(logger) items HL (le_n _)) as (lg1 & i1 & outs1 & -> & HL1 & W1 & Hq & Hst).
  destruct (flush_all_ok flush_sink_ lg1 i1 channels) as (_ & W2 & _); [by left | done |].
  exists lg1, outs1. split; [done|]. split; [by rewrite (backlog_ok _ _ HL1), Hq|]. intros ch. split; [done|].
  pose proof (nothing_unwritten lg1 i1 ch Hq (Hst ch)) as Hn. specialize (W1 ch). specialize (W2 ch). rewrite Hn in W1, W2.
  split; [by rewrite <- Hf, <- W1, app_nil_r | by apply app_eq_nil in W2 as [? _]].
Qed.

Lemma writer_terminates_witness :
  ∃ lg s lg' outs, BinaryEventLogger (λ _, true) = Some lg ∧ log_run (first_system lg) log_session = Done s ∧
    backlog_approx s.(logger) = 1 ∧ writer_finish 1 s.(logger) = Done (lg', outs) ∧ backlog_approx lg' = 0 ∧
    written outs trade = payload_bytes (PTradeEvent (make_trade_event 5 1 100 3 BUY 9)).
Proof.
  destruct (BinaryEventLogger (λ _, true)) as [lg|] eqn:E; [|vm_compute in E; discriminate E].
  destruct (log_run (first_system lg) log_session) as [s| |] eqn:E1;
    [|injection E as <-; vm_compute in E1; discriminate E1..].
  destruct (writer_terminates (λ _, true) lg log_session s E) as (lg' & outs & E2 & B & F);
    [vm_compute; reflexivity | exact E1 |].
  assert (backlog_approx s.(logger) = 1) as Hb.
  { injection E as <-. vm_compute in E1. injection E1 as <-. vm_compute. reflexivity. }
  exists lg, s, lg', outs. rewrite Hb in E2. destruct (F trade) as (_ & Ft & _).
  assert (s.(files) trade = [] ∧
          s.(accepted) trade = payload_bytes (PTradeEvent (make_trade_event 5 1 100 3 BUY 9))) as [Hf Ha].
  { injection E as <-. vm_compute in E1. injection E1 as <-. vm_compute. split; reflexivity. }
  rewrite Hf, Ha in Ft. auto 10.
Defined.
