(* ===== verification/ShadowBook.v ===== *)
(** [shadow_order_book.hpp]: the market simulator's copy of the book, kept from
    the snapshot and the level updates it receives. *)

From stdpp Require Import sorting.
From S2P Require Import Prelude Types Codec Payloads.

(** ** [std::map<Price_t, Volume_t>]

    The entries of a map and the order in which they are iterated. *)
Abbreviation Levels := (gmap Z Z).

Definition by_price (l1 l2 : Price_t * Volume_t) : Prop := l1.1 <= l2.1.

#[global] Instance by_price_dec : RelDecision by_price.
Proof. intros l1 l2. unfold by_price. apply _. Defined.
#[global] Instance by_price_trans : Transitive by_price.
Proof. intros l1 l2 l3. unfold by_price. lia. Qed.
#[global] Instance by_price_total : Total by_price.
Proof. intros l1 l2. unfold by_price. lia. Qed.

Definition in_order (levels : Levels) : list (Price_t * Volume_t) :=
  merge_sort by_price (map_to_list levels).

Module ShadowOrderBook.
Record t := Make {
  bids_ : Levels;
  asks_ : Levels
}.

Definition ShadowOrderBook : t := Make ∅ ∅.

Definition levels (s : t) (side : Side) : Levels :=
  match side with BUY => s.(bids_) | SELL => s.(asks_) end.

(** [levels = update->side == Side::BUY ? bids_ : asks_] as an assignment. *)
Definition set_levels (s : t) (side : Side) (m : Levels) : t :=
  match side with BUY => Make m s.(asks_) | SELL => Make s.(bids_) m end.

(** The loop of [on_order_book_snapshot] over the four arrays. *)
Fixpoint load (s : t) (ask_prices ask_volumes bid_prices bid_volumes : list Z) : t :=
  match ask_prices, ask_volumes, bid_prices, bid_volumes with
  | ask_price :: ask_prices, ask_volume :: ask_volumes,
    bid_price :: bid_prices, bid_volume :: bid_volumes =>
      let asks := if 0 <? ask_volume then <[ask_price := ask_volume]> s.(asks_) else s.(asks_) in
      let bids := if 0 <? bid_volume then <[bid_price := bid_volume]> s.(bids_) else s.(bids_) in
      load (Make bids asks) ask_prices ask_volumes bid_prices bid_volumes
  | _, _, _, _ => s
  end.

Definition on_order_book_snapshot (s : t) (snapshot : PayloadOrderBookSnapshot.t) : t :=
  load (Make ∅ ∅) snapshot.(PayloadOrderBookSnapshot.ask_prices)
    snapshot.(PayloadOrderBookSnapshot.ask_volumes) snapshot.(PayloadOrderBookSnapshot.bid_prices)
    snapshot.(PayloadOrderBookSnapshot.bid_volumes).

(** [update->side == Side::BUY] *)
Definition update_side (side : Z) : Side := if side =? Side_to_u8 BUY then BUY else SELL.

Definition on_price_level_update (s : t) (update : PayloadPriceLevelUpdate.t) : t :=
  let side := update_side update.(PayloadPriceLevelUpdate.side) in
  let price := update.(PayloadPriceLevelUpdate.price) in
  let total_volume := update.(PayloadPriceLevelUpdate.total_volume) in
  if total_volume =? 0 then set_levels s side (delete price (levels s side))
  else set_levels s side (<[price := total_volume]> (levels s side)).

Definition best_bid_price (s : t) : option Price_t :=
  if decide (s.(bids_) = ∅) then None else fst <$> last (in_order s.(bids_)).

Definition best_ask_price (s : t) : option Price_t :=
  if decide (s.(asks_) = ∅) then None else fst <$> head (in_order s.(asks_)).

Definition mid_price (s : t) : outcome (option Price_t) :=
  match best_bid_price s, best_ask_price s with
  | Some best_bid, Some best_ask => sum ← in_i64 (best_bid + best_ask); Done (Some (sum ÷ 2))
  | _, _ => Done None
  end.

Definition spread (s : t) : outcome (option Price_t) :=
  match best_bid_price s, best_ask_price s with
  | Some best_bid, Some best_ask => d ← in_i64 (best_ask - best_bid); Done (Some d)
  | _, _ => Done None
  end.

Definition volume_at (s : t) (side : Side) (price : Price_t) : Volume_t :=
  default 0 (levels s side !! price).
End ShadowOrderBook.
Import ShadowOrderBook.

(** ** Iteration order *)

Lemma in_order_Permutation m : in_order m ≡ₚ map_to_list m.
Proof. apply merge_sort_Permutation. Qed.

Lemma in_order_sorted m : StronglySorted by_price (in_order m).
Proof. apply StronglySorted_merge_sort; apply _. Qed.

Lemma elem_of_in_order m price volume : (price, volume) ∈ in_order m ↔ m !! price = Some volume.
Proof. by rewrite in_order_Permutation, elem_of_map_to_list. Qed.

Lemma sorted_head l e e' : StronglySorted by_price l → head l = Some e → e' ∈ l → by_price e e'.
Proof.
  intros Hs. destruct Hs as [|x l _ Hall]; [done|]. intros [= ->] [->|Hin]%elem_of_cons; [unfold by_price; lia|].
  rewrite Forall_forall in Hall. by apply Hall.
Qed.

Lemma sorted_last l e e' : StronglySorted by_price l → last l = Some e → e' ∈ l → by_price e' e.
Proof.
  intros Hs Hl Hin. apply last_Some in Hl as [l' ->].
  apply elem_of_app in Hin as [Hin|Hin]; [|apply list_elem_of_singleton in Hin as ->; unfold by_price; lia].
  apply (StronglySorted_app_1_elem_of _ l' [e] e' e Hs Hin). by apply list_elem_of_singleton.
Qed.

Lemma in_order_nil m : in_order m = [] ↔ m = ∅.
Proof.
  split.
  - intros E. apply map_to_list_empty_iff, Permutation_nil_r. by rewrite <- in_order_Permutation, E.
  - intros ->. apply Permutation_nil_r. by rewrite in_order_Permutation, map_to_list_empty.
Qed.

(** The best prices: the highest key of [bids_] and the lowest of [asks_]. *)
Lemma best_bid_price_spec s p :
  best_bid_price s = Some p ↔ is_Some (s.(bids_) !! p) ∧ ∀ p', is_Some (s.(bids_) !! p') → p' <= p.
Proof.
  unfold best_bid_price. case_decide as He.
  { split; [done|]. intros [[v Hv] _]. rewrite He in Hv. by rewrite lookup_empty in Hv. }
  destruct (last (in_order (bids_ s))) as [[q v]|] eqn:El.
  2:{ apply last_None in El. by apply in_order_nil in El. }
  assert (s.(bids_) !! q = Some v) as Hq.
  { apply elem_of_in_order. apply last_Some in El as [l' ->]. apply elem_of_app. right. by apply list_elem_of_singleton. }
  assert (∀ p', is_Some (s.(bids_) !! p') → p' <= q) as Hmax.
  { intros p' [v' Hv']. by apply (sorted_last _ _ (p', v') (in_order_sorted _) El), elem_of_in_order. }
  cbn. split.
  - intros [= <-]. by eauto.
  - intros [Hp Hall]. f_equal. apply Z.le_antisymm; [by apply Hall | by apply Hmax].
Qed.

Lemma best_ask_price_spec s p :
  best_ask_price s = Some p ↔ is_Some (s.(asks_) !! p) ∧ ∀ p', is_Some (s.(asks_) !! p') → p <= p'.
Proof.
  unfold best_ask_price. case_decide as He.
  { split; [done|]. intros [[v Hv] _]. rewrite He in Hv. by rewrite lookup_empty in Hv. }
  destruct (head (in_order (asks_ s))) as [[q v]|] eqn:El.
  2:{ apply head_None in El. by apply in_order_nil in El. }
  assert (s.(asks_) !! q = Some v) as Hq.
  { apply elem_of_in_order. apply head_Some_elem_of in El. done. }
  assert (∀ p', is_Some (s.(asks_) !! p') → q <= p') as Hmin.
  { intros p' [v' Hv']. by apply (sorted_head _ _ (p', v') (in_order_sorted _) El), elem_of_in_order. }
  cbn. split.
  - intros [= <-]. by eauto.
  - intros [Hp Hall]. f_equal. apply Z.le_antisymm; [by apply Hmin | by apply Hall].
Qed.
