(* ===== verification/ShadowTheorems.v ===== *)
(** What the simulator's copy of the book promises: its entries are well typed
    whatever it is sent, a snapshot and the feed of the exchange make it the
    exchange's book, level by level. *)

From stdpp Require Import sorting functions.
From S2P Require Import Prelude Types OrderBook BookSpec BookLinks BookView BookRep BookRefinement BookInvariant BookPriority BookSnapshot BookFeed BookTheorems Codec Payloads Protocol SpscQueue Connection Exchange ExchangeCalls ExchangeEvents ExchangeSession ExchangeFeed ExchangeTheorems ShadowBook.
Import Exchange ShadowOrderBook.

(** ** Reading messages *)

(** What a message does to the shadow book, by [on_message] or
    [on_large_message] of the simulator. *)
Definition receive (s : ShadowOrderBook.t) (m : Message) : ShadowOrderBook.t :=
  match MessageType_of_u8 m.1 with
  | PRICE_LEVEL_UPDATE => on_price_level_update s (decode PayloadPriceLevelUpdate.layout m.2)
  | ORDER_BOOK_SNAPSHOT => on_order_book_snapshot s (decode PayloadOrderBookSnapshot.layout m.2)
  | _ => s
  end.

Definition all_entries (P : Price_t → Volume_t → Prop) (s : ShadowOrderBook.t) : Prop :=
  ∀ side price volume, levels s side !! price = Some volume → P price volume.

Lemma levels_set s side m side' :
  levels (set_levels s side m) side' = if decide (side' = side) then m else levels s side'.
Proof. by destruct side, side'. Qed.

Lemma update_entries P s update :
  all_entries P s →
  (update.(PayloadPriceLevelUpdate.total_volume) ≠ 0 →
   P update.(PayloadPriceLevelUpdate.price) update.(PayloadPriceLevelUpdate.total_volume)) →
  all_entries P (on_price_level_update s update).
Proof.
  intros HP Hu side price volume. unfold on_price_level_update.
  destruct (_ =? 0) eqn:E; rewrite levels_set; case_decide; try apply HP.
  - intros [_ H']%lookup_delete_Some. by eapply HP.
  - intros [[<- <-]|[_ H']]%lookup_insert_Some; [apply Hu; lia | by eapply HP].
Qed.

(** The entries of two arrays, in order, as an insertion of one side. *)
Definition put_entry (m : Levels) (e : Price_t * Volume_t) : Levels :=
  if 0 <? e.2 then <[e.1 := e.2]> m else m.

Lemma load_put s aps avs bps bvs :
  length aps = length avs → length aps = length bps → length aps = length bvs →
  load s aps avs bps bvs =
    ShadowOrderBook.Make (foldl put_entry s.(bids_) (zip bps bvs)) (foldl put_entry s.(asks_) (zip aps avs)).
Proof.
  revert s avs bps bvs. induction aps as [|ap aps IH]; intros s [|av avs] [|bp bps] [|bv bvs]; try done.
  { by destruct s. }
  cbn [length]. intros [= H1] [= H2] [= H3]. cbn [load]. rewrite IH by done. done.
Qed.

Lemma put_entries m es price volume :
  (foldl put_entry m es) !! price = Some volume →
  m !! price = Some volume ∨ (price, volume) ∈ es ∧ 0 < volume.
Proof.
  revert m. induction es as [|[p v] es IH]; intros m; [by left|]. cbn [foldl].
  intros [H|[H Hv]]%IH; [|right; split; [by right | done]].
  unfold put_entry in H. cbn in H. destruct (0 <? v) eqn:E; [|by left].
  apply lookup_insert_Some in H as [[<- <-]|[_ H]]; [right | by left]. split; [left | lia].
Qed.

Lemma snapshot_put s snapshot :
  in_range PayloadOrderBookSnapshot.layout snapshot →
  on_order_book_snapshot s snapshot =
    let put prices volumes := foldl put_entry ∅ (zip prices volumes) in
    ShadowOrderBook.Make
      (put snapshot.(PayloadOrderBookSnapshot.bid_prices) snapshot.(PayloadOrderBookSnapshot.bid_volumes))
      (put snapshot.(PayloadOrderBookSnapshot.ask_prices) snapshot.(PayloadOrderBookSnapshot.ask_volumes)).
Proof.
  intros [[[[[H1 _] [H2 _]] [H3 _]] [H4 _]] _]. cbn in H1, H2, H3, H4.
  unfold on_order_book_snapshot. by rewrite load_put by congruence.
Qed.

Definition typed_entry (price : Price_t) (volume : Volume_t) : Prop :=
  is_i64 price ∧ 0 < volume < 2 ^ 32.

Lemma zip_typed prices volumes :
  Forall (in_range signed64) prices → Forall (in_range (unsigned 4)) volumes →
  ∀ price volume, (price, volume) ∈ zip prices volumes → 0 < volume → typed_entry price volume.
Proof.
  intros Hp Hv price volume Hin Hpos. rewrite Forall_forall in Hp, Hv.
  pose proof (elem_of_zip_l _ _ _ _ Hin) as H1%Hp. pose proof (elem_of_zip_r _ _ _ _ Hin) as H2%Hv.
  cbn in H1, H2. split; [done | lia].
Qed.

Lemma snapshot_entries s snapshot :
  in_range PayloadOrderBookSnapshot.layout snapshot →
  all_entries typed_entry (on_order_book_snapshot s snapshot).
Proof.
  intros HR. rewrite (snapshot_put s _ HR). destruct HR as [[[[[_ H1] [_ H2]] [_ H3]] [_ H4]] _].
  intros [] price volume; cbn; intros [E|[Hin Hv]]%put_entries;
    try (by rewrite lookup_empty in E); cbn [fst snd] in *;
    [apply (zip_typed _ _ H1 H2 _ _ Hin Hv) | apply (zip_typed _ _ H3 H4 _ _ Hin Hv)].
Qed.

(** ** Mirrors of a book *)

(** The entries of [s] are exactly the levels of [b] that have volume. *)
Definition mirrors (s : ShadowOrderBook.t) (b : OrderBook.t) : Prop :=
  ∀ bid price volume, levels s (side_of bid) !! price = Some volume ↔
    volume ≠ 0 ∧ ∃ k level, 0 <= k < NUM_BOOK_LEVELS ∧
      OrderBookSide.get_level (OrderBook.get_side b bid) k = Done level ∧
      level.(PriceLevel.price_) = price ∧ level.(PriceLevel.total_quantity_) = volume.

(** The same in terms of the queues of an abstract book. *)
Definition holds_book (s : ShadowOrderBook.t) (A : ABook) : Prop :=
  ∀ bid k volume, levels s (side_of bid) !! level_price k = Some volume ↔
    volume ≠ 0 ∧ queue_total ((a_side A bid).(a_queue) k) = volume.

Lemma represents_outside b A bid k :
  represents b A → ¬ 0 <= k < NUM_BOOK_LEVELS → (a_side A bid).(a_queue) k = [].
Proof.
  intros (ls & fl & D & HR) Hk. rewrite (rp_queue _ _ _ _ _ _ (rb_side _ _ _ _ _ HR bid)).
  by rewrite (sh_outside _ _ _ _ _ _ (sv_shape _ _ _ _ _ _ _ _ (rp_view _ _ _ _ _ _ (rb_side _ _ _ _ _ HR bid))) k Hk).
Qed.

Lemma mirrors_holds s b A : represents b A → mirrors s b ↔ holds_book s A.
Proof.
  intros HR. unfold mirrors, holds_book. split; intros H.
  - intros bid k volume. rewrite H. split; intros [Hv Ht]; (split; [done|]).
    + destruct Ht as (k' & level & Hk & E & Hp & Hq).
      destruct (represents_level b A bid k' HR Hk) as (level' & E' & Hp' & Hq').
      rewrite E in E'. injection E' as <-. assert (k' = k) as -> by (apply level_price_inj; congruence). congruence.
    + destruct (decide (0 <= k < NUM_BOOK_LEVELS)) as [Hk|Hk].
      * destruct (represents_level b A bid k HR Hk) as (level & E & Hp & Hq). exists k, level.
        split; [done|]. split; [done|]. split; [done|]. congruence.
      * rewrite (represents_outside b A bid k HR Hk) in Ht. cbn in Ht. by destruct Hv.
  - intros bid price volume. replace price with (level_price (price_level price))
      by (unfold level_price, price_level; lia). rewrite (H bid). split; intros [Hv Ht]; (split; [done|]).
    + destruct (decide (0 <= price_level price < NUM_BOOK_LEVELS)) as [Hk|Hk].
      * destruct (represents_level b A bid _ HR Hk) as (level & E & Hp & Hq). exists (price_level price), level.
        split; [done|]. split; [done|]. split; [done|]. congruence.
      * rewrite (represents_outside b A bid _ HR Hk) in Ht. cbn in Ht. by destruct Hv.
    + destruct Ht as (k & level & Hk & E & Hp & Hq).
      destruct (represents_level b A bid k HR Hk) as (level' & E' & Hp' & Hq').
      rewrite E in E'. injection E' as <-.
      assert (price_level price = k) as -> by (apply level_price_inj; congruence). congruence.
Qed.

Lemma holds_knows s A :
  holds_book s A ↔ knows_book (volume_at s) A ∧ all_entries (λ _ volume, volume ≠ 0) s.
Proof.
  split.
  - intros H. split.
    + intros bid k. unfold volume_at. destruct (levels s (side_of bid) !! level_price k) as [v|] eqn:E; cbn.
      * by apply (H bid k v) in E as [_ ->].
      * destruct (decide (queue_total ((a_side A bid).(a_queue) k) = 0)) as [->|Hne]; [done|].
        rewrite (proj2 (H bid k _) (conj Hne eq_refl)) in E. done.
    + intros side price volume E. replace price with (level_price (price_level price)) in E
        by (unfold level_price, price_level; lia).
      destruct side; [apply (H false) in E | apply (H true) in E]; apply E.
  - intros [H Hn] bid k volume. specialize (H bid k). unfold volume_at in H. split.
    + intros E. rewrite E in H. cbn in H. split; [by eapply Hn | done].
    + intros [Hv E]. rewrite E in H. destruct (_ !! _) as [v|]; cbn in H; by subst.
Qed.

(** ** The feed *)

Lemma volume_at_update s update side price :
  volume_at (on_price_level_update s update) side price =
    if decide (side = update_side update.(PayloadPriceLevelUpdate.side) ∧
               price = update.(PayloadPriceLevelUpdate.price))
    then update.(PayloadPriceLevelUpdate.total_volume) else volume_at s side price.
Proof.
  unfold volume_at, on_price_level_update. destruct (_ =? 0) eqn:E; rewrite levels_set.
  - case_decide as H1; [subst side|by rewrite decide_False by naive_solver].
    destruct (decide (price = PayloadPriceLevelUpdate.price update)) as [->|Hne].
    + rewrite decide_True, lookup_delete_eq by done. cbn. lia.
    + by rewrite decide_False, lookup_delete_ne by naive_solver.
  - case_decide as H1; [subst side|by rewrite decide_False by naive_solver].
    destruct (decide (price = PayloadPriceLevelUpdate.price update)) as [->|Hne].
    + by rewrite decide_True, lookup_insert_eq by done.
    + by rewrite decide_False, lookup_insert_ne by naive_solver.
Qed.

(** A public message changes the volumes of the shadow book as it changes what a
    reader of the feed knows. *)
Lemma receive_replay s m :
  is_public m = true → same_feed (volume_at (receive s m)) (client_replay (volume_at s) m).
Proof.
  unfold is_public, receive, client_replay, same_feed.
  destruct (MessageType_of_u8 m.1); try done. intros _ side price. by rewrite volume_at_update.
Qed.

Lemma receive_all_replay s ms :
  Forall (λ m, is_public m = true) ms →
  same_feed (volume_at (foldl receive s ms)) (foldl client_replay (volume_at s) ms).
Proof.
  intros H. revert s. induction H as [|m ms Hm _ IH]; intros s; [done|]. cbn [foldl].
  intros side price. rewrite IH. by apply client_replay_all_same, receive_replay.
Qed.

Lemma receive_nonzero s m :
  is_public m = true → all_entries (λ _ volume, volume ≠ 0) s → all_entries (λ _ volume, volume ≠ 0) (receive s m).
Proof.
  unfold is_public, receive. destruct (MessageType_of_u8 m.1); try done. intros _ H. by apply update_entries.
Qed.

Lemma receive_all_nonzero s ms :
  Forall (λ m, is_public m = true) ms →
  all_entries (λ _ volume, volume ≠ 0) s → all_entries (λ _ volume, volume ≠ 0) (foldl receive s ms).
Proof.
  intros H. revert s. induction H as [|m ms Hm _ IH]; intros s Hs; [done|]. by apply IH, receive_nonzero.
Qed.

Lemma feed_to_public c calls : Forall (λ m, is_public m = true) (feed_to c calls).
Proof. apply Forall_forall. intros m Hm. unfold feed_to in Hm. by apply list_elem_of_filter in Hm as [? _]. Qed.

Lemma knows_same f g A : same_feed f g → knows_book f A → knows_book g A.
Proof. intros E H bid k. rewrite <- E. apply H. Qed.

Lemma fed_holds x A c calls x' A' s :
  fed x A c calls x' A' → holds_book s A → holds_book (foldl receive s (feed_to c calls)) A'.
Proof.
  intros HF [Hk Hn]%holds_knows. apply holds_knows. pose proof (feed_to_public c calls) as HP. split.
  - eapply knows_same; [|by apply (fd_knows _ _ _ _ _ _ HF)]. intros side price.
    symmetry. by apply receive_all_replay.
  - by apply receive_all_nonzero.
Qed.

(** ** The snapshot *)

Lemma put_zeros m n : foldl put_entry m (replicate n (0, 0)) = m.
Proof. induction n as [|n IH]; [done|]. exact IH. Qed.

Lemma put_distinct m es price volume :
  NoDup es.*1 → (∀ e, e ∈ es → 0 < e.2) →
  (foldl put_entry m es) !! price = Some volume ↔
    (price, volume) ∈ es ∨ (price ∉ (es.*1)) ∧ m !! price = Some volume.
Proof.
  revert m. induction es as [|[p v] es IH]; intros m Hd Hpos; cbn [foldl].
  { split; [right; split; [apply not_elem_of_nil | done] | intros [H%elem_of_nil|[_ H]]; done]. }
  cbn in Hd. apply NoDup_cons in Hd as [Hp Hd].
  rewrite IH by (done || intros e He; apply Hpos; by right). cbn.
  unfold put_entry. cbn. rewrite (proj2 (Z.ltb_lt 0 v)) by (apply (Hpos (p, v)); left).
  rewrite !elem_of_cons. destruct (decide (price = p)) as [->|Hne].
  - rewrite lookup_insert_eq. assert ((p, volume) ∉ es) as Hn.
    { intros H. apply Hp. apply list_elem_of_fmap. by exists (p, volume). }
    naive_solver.
  - rewrite lookup_insert_ne by congruence. naive_solver.
Qed.

Lemma shows_zip out acc :
  shows out acc →
  let shown := take (Z.to_nat ORDER_BOOK_MESSAGE_DEPTH) acc in
  zip (elements out.2) (elements out.1) =
    shown ++ replicate (Z.to_nat ORDER_BOOK_MESSAGE_DEPTH - length shown) (0, 0).
Proof.
  intros [_ _ Hc] shown. unfold elements.
  assert (∀ l, zip (map (arr_at out.2) l) (map (arr_at out.1) l) =
    map (λ i, default (0, 0) (acc !! Z.to_nat i)) (filter (λ i, 0 <= i < ORDER_BOOK_MESSAGE_DEPTH) l) ∨
    ¬ Forall (λ i, 0 <= i < ORDER_BOOK_MESSAGE_DEPTH) l) as Hl.
  { intros l. destruct (decide (Forall (λ i, 0 <= i < ORDER_BOOK_MESSAGE_DEPTH) l)) as [H|H]; [left | by right].
    induction H as [|i l Hi _ IH]; [done|]. rewrite filter_cons_True by done. cbn. rewrite IH. f_equal. by apply Hc. }
  destruct (Hl (seqZ 0 ORDER_BOOK_MESSAGE_DEPTH)) as [->|H]; [|destruct H; vm_compute; repeat constructor; congruence].
  change (filter _ _) with [0; 1; 2; 3; 4; 5; 6; 7; 8; 9].
  unfold shown, ORDER_BOOK_MESSAGE_DEPTH.
  do 11 (destruct acc as [|? acc]; [reflexivity|]). cbn. done.
Qed.

Lemma depth_view_prices bid s : NoDup (depth_view bid s).*1.
Proof.
  unfold depth_view. change (map ?f ?l) with (f <$> l). rewrite <- list_fmap_compose.
  change (fst ∘ _) with level_price. apply NoDup_fmap_2.
  - intros k k'. apply level_price_inj.
  - apply NoDup_filter. unfold all_levels. destruct bid; [apply NoDup_reverse|]; apply NoDup_seqZ.
Qed.

Lemma elem_of_depth_view bid s price volume :
  (price, volume) ∈ depth_view bid s ↔
    ∃ k, 0 <= k < NUM_BOOK_LEVELS ∧ s.(a_queue) k ≠ [] ∧ price = level_price k ∧ volume = queue_sum (s.(a_queue) k).
Proof.
  unfold depth_view. change (map ?f ?l) with (f <$> l). rewrite list_elem_of_fmap. split.
  - intros (k & [= -> ->] & [Hq Hk]%list_elem_of_filter). exists k.
    unfold all_levels in Hk. destruct bid; rewrite ?elem_of_reverse, elem_of_seqZ in Hk; repeat split; done || lia.
  - intros (k & Hk & Hq & -> & ->). exists k. split; [done|]. apply list_elem_of_filter. split; [done|].
    unfold all_levels. destruct bid; rewrite ?elem_of_reverse, elem_of_seqZ; lia.
Qed.

(** A side of a snapshot that shows the levels of [s]. *)
Definition shown_levels_of (bid : bool) (s : ASide) : list (Price_t * Volume_t) :=
  take (Z.to_nat ORDER_BOOK_MESSAGE_DEPTH) (depth_view bid s).

Section shown.
Context {bid : bool} {V next : Z} {s : ASide} {out : OrderBook.SnapshotSide}.
Hypotheses (HS : side_ok bid V next s) (HV : V < 2 ^ 32) (Hout : shows out (depth_view bid s)).

Lemma depth_view_entry e :
  e ∈ depth_view bid s → MINIMUM_BID <= e.1 <= MAXIMUM_ASK ∧ 0 < e.2 < 2 ^ 32.
Proof.
  destruct e as [price volume]. intros (k & Hk & Hq & -> & ->)%elem_of_depth_view.
  split; [by apply level_price_range|]. cbn.
  rewrite <- (queue_ok_total _ (so_queue _ _ _ _ HS k)) by done.
  split; [by apply (side_ok_shown bid V next s k HS HV) | unfold queue_total; apply u32_range].
Qed.

Lemma put_shown price volume :
  (foldl put_entry ∅ (zip (elements out.2) (elements out.1))) !! price = Some volume ↔
    (price, volume) ∈ shown_levels_of bid s.
Proof.
  rewrite (shows_zip _ _ Hout), foldl_app, put_zeros. fold (shown_levels_of bid s).
  rewrite put_distinct, lookup_empty; [naive_solver | |].
  - unfold shown_levels_of. rewrite fmap_take. eapply sublist_NoDup; [apply depth_view_prices | apply sublist_take].
  - intros e He. apply depth_view_entry. by eapply subseteq_take.
Qed.
End shown.

Lemma elements_length a : length (elements a) = Z.to_nat ORDER_BOOK_MESSAGE_DEPTH.
Proof. reflexivity. Qed.

(** The cells of an array of which [f] is a reading. *)
Lemma elements_Forall (P : Z → Prop) a :
  (∀ i, 0 <= i < ORDER_BOOK_MESSAGE_DEPTH → P (arr_at a i)) → Forall P (elements a).
Proof.
  intros H. unfold elements. apply Forall_map, Forall_forall. intros i Hi%elem_of_seqZ. by apply H.
Qed.

Lemma shown_cell {bid V next s out} i :
  side_ok bid V next s → V < 2 ^ 32 → shows out (depth_view bid s) → 0 <= i < ORDER_BOOK_MESSAGE_DEPTH →
  is_i64 (arr_at out.2 i) ∧ 0 <= arr_at out.1 i < 2 ^ 32.
Proof.
  intros HS HV Hout Hi. pose proof (sw_cells _ _ Hout i Hi) as E.
  destruct (depth_view bid s !! Z.to_nat i) as [[p v]|] eqn:El; cbn in E; injection E as -> ->.
  - apply list_elem_of_lookup_2, (depth_view_entry HS HV) in El. cbn in El.
    unfold is_i64, MINIMUM_BID, MAXIMUM_ASK in *. lia.
  - unfold is_i64. lia.
Qed.

Section snapshots.
Context {V : Z} {A : ABook} {bid ask : OrderBook.SnapshotSide} {seq : Z}.
Hypotheses (HB : book_ok V A) (HV : V < 2 ^ 32) (Hseq : is_u32 seq).
Hypotheses (Hbid : shows bid (depth_view true A.(a_bids))) (Hask : shows ask (depth_view false A.(a_asks))).

Definition snapshot_of : PayloadOrderBookSnapshot.t :=
  make_order_book_snapshot (elements ask.2) (elements ask.1) (elements bid.2) (elements bid.1) seq.

Lemma snapshot_fits : in_range PayloadOrderBookSnapshot.layout snapshot_of.
Proof.
  pose proof (λ i, shown_cell i (bo_side _ _ HB true) HV Hbid) as Hb.
  pose proof (λ i, shown_cell i (bo_side _ _ HB false) HV Hask) as Ha.
  repeat split; try (apply elements_Forall; intros i Hi; cbn; by (apply Hb || apply Ha)).
  all: apply Hseq.
Qed.

(** The entries of a shadow book after it has read the snapshot. *)
Lemma receive_snapshot s rest b price volume :
  levels (receive s (MessageType_to_u8 ORDER_BOOK_SNAPSHOT,
                     payload_bytes (POrderBookSnapshot snapshot_of) ++ rest)) (side_of b) !! price = Some volume ↔
    (price, volume) ∈ shown_levels_of b (a_side A b).
Proof.
  unfold receive. cbn [fst snd payload_bytes].
  change (MessageType_of_u8 (MessageType_to_u8 ORDER_BOOK_SNAPSHOT)) with ORDER_BOOK_SNAPSHOT. cbv iota.
  rewrite decode_encode, snapshot_put by apply snapshot_fits.
  destruct b; cbn -[elements].
  - apply (put_shown (bo_side _ _ HB true) HV Hbid).
  - apply (put_shown (bo_side _ _ HB false) HV Hask).
Qed.

Lemma shown_holds s :
  (∀ b, length (depth_view b (a_side A b)) <= Z.to_nat ORDER_BOOK_MESSAGE_DEPTH)%nat →
  (∀ b price volume, levels s (side_of b) !! price = Some volume ↔
     (price, volume) ∈ shown_levels_of b (a_side A b)) →
  holds_book s A.
Proof.
  intros Hlen H b k volume. rewrite H. unfold shown_levels_of. rewrite take_ge by apply Hlen.
  rewrite elem_of_depth_view. pose proof (bo_side _ _ HB b) as HS.
  pose proof (queue_ok_total _ (so_queue _ _ _ _ HS k) HV) as Ht.
  pose proof (side_ok_shown _ _ _ _ k HS HV) as Hne. split.
  - intros (k' & Hk & Hq & <-%level_price_inj & ->). rewrite <- Ht. split; [|done].
    apply Hne in Hq. lia.
  - intros [Hv <-]. exists k.
    assert (a_queue (a_side A b) k ≠ []) as Hq by (intros E; rewrite E in Hv; done).
    split; [by eapply so_range|]. by rewrite Ht.
Qed.
End snapshots.

(** ** Best prices *)

(** [level] is a level of side [bid] that shows volume. *)
Definition shown_level (b : OrderBook.t) (bid : bool) (level : PriceLevel.t) : Prop :=
  ∃ k, 0 <= k < NUM_BOOK_LEVELS ∧ OrderBookSide.get_level (OrderBook.get_side b bid) k = Done level ∧
    level.(PriceLevel.total_quantity_) ≠ 0.

(** [price] is the best price at which side [bid] shows volume. *)
Definition is_best (b : OrderBook.t) (bid : bool) (price : Price_t) : Prop :=
  (∃ level, shown_level b bid level ∧ level.(PriceLevel.price_) = price) ∧
  ∀ level, shown_level b bid level →
    if bid then level.(PriceLevel.price_) <= price else price <= level.(PriceLevel.price_).

Lemma mirrors_keys s b bid price :
  mirrors s b → is_Some (levels s (side_of bid) !! price) ↔ ∃ level, shown_level b bid level ∧ level.(PriceLevel.price_) = price.
Proof.
  intros H. unfold is_Some. split.
  - intros (v & Hv). apply (H bid) in Hv as (Hne & k & level & Hk & E & Hp & Hq).
    exists level. split; [|done]. exists k. split; [done|]. split; [done|]. by rewrite Hq.
  - intros (level & (k & Hk & E & Hne) & Hp). exists (PriceLevel.total_quantity_ level).
    apply (H bid). split; [done|]. by exists k, level.
Qed.

Lemma mirrors_best s b :
  mirrors s b →
  (∀ p, best_bid_price s = Some p ↔ is_best b true p) ∧ (∀ p, best_ask_price s = Some p ↔ is_best b false p).
Proof.
  intros H. pose proof (λ bid p, mirrors_keys s b bid p H) as Hk.
  split; intros p; [rewrite best_bid_price_spec | rewrite best_ask_price_spec]; unfold is_best.
  - rewrite <- (Hk true). cbn [levels side_of]. split; intros [H1 H2]; (split; [done|]).
    + intros level Hl. apply H2. apply (Hk true). eauto.
    + intros p' (level & Hl & <-)%(Hk true). by apply H2.
  - rewrite <- (Hk false). cbn [levels side_of]. split; intros [H1 H2]; (split; [done|]).
    + intros level Hl. apply H2. apply (Hk false). eauto.
    + intros p' (level & Hl & <-)%(Hk false). by apply H2.
Qed.

Lemma prices_in_range s :
  all_entries (λ price _, MINIMUM_BID <= price <= MAXIMUM_ASK) s →
  (∃ m, mid_price s = Done m ∧ ∀ p, m = Some p → MINIMUM_BID <= p <= MAXIMUM_ASK) ∧ ∃ d, spread s = Done d.
Proof.
  intros H.
  assert (∀ p, best_bid_price s = Some p → 1 <= p <= 10000) as Hb
    by (intros p [[v Hv] _]%best_bid_price_spec; by apply (H BUY p v)).
  assert (∀ p, best_ask_price s = Some p → 1 <= p <= 10000) as Ha
    by (intros p [[v Hv] _]%best_ask_price_spec; by apply (H SELL p v)).
  unfold mid_price, spread. destruct (best_bid_price s) as [p|]; [|by split; eexists].
  destruct (best_ask_price s) as [q|]; [|by split; eexists].
  specialize (Hb p eq_refl). specialize (Ha q eq_refl).
  rewrite !in_i64_ok by (unfold is_i64; lia). run_bind.
  split; [|by eexists]. eexists. split; [done|]. intros r [= <-]. unfold MINIMUM_BID, MAXIMUM_ASK.
  rewrite Z.quot_div_nonneg by lia. split; [apply Z.div_le_lower_bound; lia | apply Z.div_le_upper_bound; lia].
Qed.

Lemma mirrors_prices s b A :
  represents b A → mirrors s b → all_entries (λ price _, MINIMUM_BID <= price <= MAXIMUM_ASK) s.
Proof.
  intros HR H side price volume E.
  assert (∃ bid, levels s (side_of bid) !! price = Some volume) as [bid E'] by (destruct side; [by exists false | by exists true]).
  apply H in E' as (_ & k & level & Hk & El & <- & _).
  destruct (represents_level b A bid k HR Hk) as (level' & El' & Hp & _). rewrite El in El'. injection El' as <-.
  rewrite Hp. by apply level_price_range.
Qed.

(** ** Guarantees *)

(** A message of the market data, of any content. *)
Definition market_message (m : Message) : Prop :=
  Forall is_byte m.2 ∧
  match MessageType_of_u8 m.1 with
  | PRICE_LEVEL_UPDATE => (size_of PayloadPriceLevelUpdate.layout <= length m.2)%nat
  | ORDER_BOOK_SNAPSHOT => (size_of PayloadOrderBookSnapshot.layout <= length m.2)%nat
  | _ => True
  end.

(** C40: the shadow book is well typed.  Whatever snapshots and updates it reads,
    bytes of any value included, it stores no empty level: every entry has a
    64-bit price and a positive 32-bit volume, and the best prices are the highest
    bid and the lowest ask of its entries. *)
Theorem shadow_well_typed (ms : list Message) :
  Forall market_message ms →
  let s := foldl receive ShadowOrderBook.ShadowOrderBook ms in
  (∀ side price volume, levels s side !! price = Some volume → is_i64 price ∧ 0 < volume < 2 ^ 32) ∧
  (∀ p, best_bid_price s = Some p ↔ 0 < volume_at s BUY p ∧ ∀ p', 0 < volume_at s BUY p' → p' <= p) ∧
  (∀ p, best_ask_price s = Some p ↔ 0 < volume_at s SELL p ∧ ∀ p', 0 < volume_at s SELL p' → p <= p').
Proof.
  intros Hms. cbv zeta. set (s := foldl receive _ ms).
  assert (all_entries typed_entry s) as H.
  { unfold s. clear s. assert (all_entries typed_entry ShadowOrderBook.ShadowOrderBook) as H0
      by (intros [] price volume E; cbn in E; by rewrite lookup_empty in E).
    revert H0. generalize ShadowOrderBook.ShadowOrderBook as s0.
    induction Hms as [|m ms [Hb Hm] _ IH]; intros s0 H0; [done|]. cbn [foldl]. apply IH.
    unfold receive. destruct (MessageType_of_u8 m.1); try done.
    - apply snapshot_entries, decode_range; done.
    - pose proof (decode_range (c := PayloadPriceLevelUpdate.layout) m.2 Hm Hb) as HR.
      apply update_entries; [done|]. generalize dependent (decode PayloadPriceLevelUpdate.layout m.2). intros u HR Hne.
      destruct HR as [[[[_ _] Hp] Hv] _]. cbn in Hp, Hv. split; [done | lia]. }
  clearbody s. split; [exact H|].
  assert (∀ side p, is_Some (levels s side !! p) ↔ 0 < volume_at s side p) as Hpos.
  { intros side p. unfold volume_at. destruct (levels s side !! p) as [v|] eqn:E; cbn.
    - split; [intros _; apply (H _ _ _ E) | by eauto].
    - split; [by intros []%is_Some_None | lia]. }
  split; intros p; [rewrite best_bid_price_spec | rewrite best_ask_price_spec].
  - setoid_rewrite (Hpos BUY). done.
  - setoid_rewrite (Hpos SELL). done.
Qed.

(** Two updates of one level, one of another that is then emptied. *)
Definition updates : list Message :=
  map (λ p, (MessageType_to_u8 PRICE_LEVEL_UPDATE, payload_bytes (PPriceLevelUpdate p)))
    [make_price_level_update 0 BUY 100 7 1; make_price_level_update 1 BUY 101 2 2;
     make_price_level_update 2 BUY 101 0 3; make_price_level_update 3 SELL 104 5 4].

Lemma shadow_well_typed_witness :
  let s := foldl receive ShadowOrderBook.ShadowOrderBook updates in
  best_bid_price s = Some 100 ∧ mid_price s = Done (Some 102) ∧
  (∀ p', 0 < volume_at s BUY p' → p' <= 100).
Proof.
  intros s. assert (best_bid_price s = Some 100) as E by (vm_compute; reflexivity).
  split; [exact E|]. split; [vm_compute; reflexivity|].
  assert (Forall market_message updates) as Hms.
  { repeat (apply Forall_cons_2; [split; [apply encode_bytes | vm_compute; apply le_n]|]). constructor. }
  destruct (shadow_well_typed updates Hms) as (_ & Hb & _). exact (proj2 (proj1 (Hb 100) E)).
Defined.

(** C14: the shadow book is the exchange's book.  While a client is connected and
    subscribed once, a shadow book that holds exactly the levels with volume of
    the exchange's book, and reads the messages of its feed, holds exactly those
    levels at any later point of the session; its best bid, best ask, mid price
    and spread are those of the exchange's book and are computed without
    overflow. *)
Theorem shadow_follows_engine (before ins : list Input) (c : Id_t) x calls0 (s : ShadowOrderBook.t) :
  Forall valid_input (before ++ ins) → Z.of_nat (length (before ++ ins)) < 2 ^ 32 → is_u32 c →
  run_inputs Exchange before = Done (x, calls0) → listening x c = true →
  forallb (stays c) ins = true → mirrors s x.(order_book_) →
  ∃ x' calls, run_inputs x ins = Done (x', calls) ∧
    let s' := foldl receive s (feed_to c calls) in
    mirrors s' x'.(order_book_) ∧
    (∀ p, best_bid_price s' = Some p ↔ is_best x'.(order_book_) true p) ∧
    (∀ p, best_ask_price s' = Some p ↔ is_best x'.(order_book_) false p) ∧
    (∃ m, mid_price s' = Done m ∧ ∀ p, m = Some p → MINIMUM_BID <= p <= MAXIMUM_ASK) ∧
    ∃ d, spread s' = Done d.
Proof.
  intros [Hv1 Hv2]%Forall_app Hl Hc E Hlis Hst Hs. rewrite length_app in Hl.
  destruct (session_ok before Hv1) as (y & calls1 & A & E1 & HE & Hn); [lia|].
  rewrite E in E1. injection E1 as <- <-.
  destruct (session_fed x A c ins HE Hc Hv2) as (x' & calls & A' & E' & HE' & _ & HF); [lia | done | done |].
  exists x', calls. split; [done|]. cbv zeta.
  apply (mirrors_holds _ _ _ (eo_book _ _ HE)) in Hs. apply (fed_holds _ _ _ _ _ _ s HF) in Hs.
  apply (mirrors_holds _ _ _ (eo_book _ _ HE')) in Hs. split; [done|].
  destruct (mirrors_best _ _ Hs) as [Hbid Hask]. split; [done|]. split; [done|].
  by eapply prices_in_range, mirrors_prices; [apply (eo_book _ _ HE')|].
Qed.

Lemma empty_mirrors : mirrors ShadowOrderBook.ShadowOrderBook OrderBook.OrderBook.
Proof.
  apply (mirrors_holds _ _ empty_book initial_book), holds_knows. split; [intros [] k; done|].
  intros [] price volume E; cbn in E; by rewrite lookup_empty in E.
Qed.

(** Client 1 follows the trades from an empty book. *)
Lemma shadow_follows_engine_witness :
  ∃ x' calls, run_inputs opened.1 trading = Done (x', calls) ∧
    let s' := foldl receive ShadowOrderBook.ShadowOrderBook (feed_to 1 calls) in
    mirrors s' x'.(order_book_) ∧ best_bid_price s' = Some 100 ∧ is_best x'.(order_book_) true 100.
Proof.
  destruct (shadow_follows_engine opening trading 1 opened.1 opened.2 ShadowOrderBook.ShadowOrderBook)
    as (x' & calls & E & F & B & _).
  - apply check_input_ok. vm_compute. reflexivity.
  - vm_compute. reflexivity.
  - vm_compute. split; congruence.
  - exact opened_run.
  - vm_compute. reflexivity.
  - vm_compute. reflexivity.
  - rewrite opened_book. apply empty_mirrors.
  - exists x', calls. split; [exact E|]. split; [exact F|].
    assert (best_bid_price (foldl receive ShadowOrderBook.ShadowOrderBook (feed_to 1 calls)) = Some 100) as Hb.
    { assert (calls = (result_of (run_inputs opened.1 trading)).2) as -> by (rewrite E; reflexivity).
      vm_compute. reflexivity. }
    split; [exact Hb | apply B, Hb].
Defined.

(** The snapshot is a starting point.  After a healthy history, the snapshot
    that [build_snapshot] gives, encoded and read by a shadow book in any state,
    leaves it with exactly the ten best levels of each side with their volumes:
    with the exchange's book itself when neither side is deeper than that. *)
Theorem shadow_from_snapshot (rs : history) (s : ShadowOrderBook.t) (seq : Z) (rest : bytes) :
  healthy rs = true → is_u32 seq →
  ∃ b A evs bid ask, OrderBook.run OrderBook.OrderBook rs = Done (b, evs) ∧ represents b A ∧
    OrderBook.build_snapshot b = Done (bid, ask) ∧
    let s' := receive s (MessageType_to_u8 ORDER_BOOK_SNAPSHOT,
                         payload_bytes (POrderBookSnapshot (make_order_book_snapshot (elements ask.2)
                           (elements ask.1) (elements bid.2) (elements bid.1) seq)) ++ rest) in
    (∀ side price volume, levels s' (side_of side) !! price = Some volume ↔
       (price, volume) ∈ shown_levels_of side (a_side A side)) ∧
    ((∀ side, length (depth_view side (a_side A side)) <= 10)%nat → mirrors s' b).
Proof.
  intros Hh Hseq. pose proof Hh as (b & A & evs & E & _ & HR & HB)%healthy_run.
  apply healthy_bounds in Hh as [_ HV]. destruct (snapshot_ok b A _ HR HB) as (bid & ask & ES & H1 & H2); [lia|].
  exists b, A, evs, bid, ask. split; [done|]. split; [done|]. split; [done|]. cbv zeta.
  assert (submitted rs < 2 ^ 32) as HV' by lia.
  pose proof (receive_snapshot HB HV' Hseq H1 H2 s rest) as H. split; [exact H|].
  intros Hlen. apply (mirrors_holds _ _ _ HR). by apply (shown_holds HB HV').
Qed.

Lemma shadow_from_snapshot_witness :
  healthy session = true ∧ ∃ b A evs bid ask,
    OrderBook.run OrderBook.OrderBook session = Done (b, evs) ∧ represents b A ∧
    OrderBook.build_snapshot b = Done (bid, ask) ∧
    ∀ side price volume,
      levels (receive ShadowOrderBook.ShadowOrderBook (MessageType_to_u8 ORDER_BOOK_SNAPSHOT,
        payload_bytes (POrderBookSnapshot (make_order_book_snapshot (elements ask.2) (elements ask.1)
          (elements bid.2) (elements bid.1) 0)) ++ [])) (side_of side) !! price = Some volume ↔
      (price, volume) ∈ shown_levels_of side (a_side A side).
Proof.
  assert (healthy session = true) as H by (vm_compute; reflexivity). split; [exact H|].
  destruct (shadow_from_snapshot session ShadowOrderBook.ShadowOrderBook 0 [] H)
    as (b & A & evs & bid & ask & E & R & S & F & _); [vm_compute; split; congruence|].
  exists b, A, evs, bid, ask. auto.
Defined.
