(* ===== verification/Doubles.v ===== *)
(** [double]: IEEE 754 binary64 with rounding to nearest, as the Standard
    Library specifies it, and what the simulator uses of [cmath] and
    [algorithm] on it. *)

From Stdlib Require Import SpecFloat.
From S2P Require Import Prelude.

Abbreviation double := spec_float.

Definition fadd : double → double → double := SFadd 53 1024.
Definition fsub : double → double → double := SFsub 53 1024.
Definition fmul : double → double → double := SFmul 53 1024.
Definition fdiv : double → double → double := SFdiv 53 1024.
Definition fsqrt : double → double := SFsqrt 53 1024.
Definition fopp : double → double := SFopp.
Definition fabs : double → double := SFabs.
Definition flt (x y : double) : bool := SFltb x y.
Definition fle (x y : double) : bool := SFleb x y.

Declare Scope double_scope.
Delimit Scope double_scope with double.
Infix "+" := fadd : double_scope.
Infix "-" := fsub : double_scope.
Infix "*" := fmul : double_scope.
Infix "/" := fdiv : double_scope.
Infix "<?" := flt : double_scope.
Infix "<=?" := fle : double_scope.
Notation "- x" := (fopp x) : double_scope.

(** [static_cast<double>] of an integer. *)
Definition of_Z (z : Z) : double := binary_normalize 53 1024 z 0 false.

(** The literal [m * 10^-k], for [m] that is a [double] and [k] at most 22: both
    are exact, so their quotient is the literal rounded once. *)
Definition dec (m k : Z) : double := fdiv (of_Z m) (of_Z (10 ^ k)).

Definition fzero : double := S754_zero false.
Definition fone : double := of_Z 1.

Definition is_nan (x : double) : bool := match x with S754_nan => true | _ => false end.

(** [std::max], [std::min] and [std::clamp]. *)
Definition fmax (x y : double) : double := if flt x y then y else x.
Definition fmin (x y : double) : double := if flt y x then y else x.
Definition fclamp (v lo hi : double) : double :=
  if flt v lo then lo else if flt hi v then hi else v.

(** [std::floor] *)
Definition ffloor (x : double) : double :=
  match x with
  | S754_finite s m (Zneg p) => of_Z (Z.shiftr (cond_Zopp s (Zpos m)) (Zpos p))
  | _ => x
  end.

(** The integer part of a finite [double]. *)
Definition trunc (x : double) : option Z :=
  match x with
  | S754_zero _ => Some 0
  | S754_finite s m e => Some (cond_Zopp s (Z.shiftl (Zpos m) e))
  | _ => None
  end.

(** [static_cast<int64_t>]: undefined outside the range. *)
Definition to_i64 (x : double) : outcome Z :=
  match trunc x with Some z => in_i64 z | None => Undefined end.

(** [std::llround]: halves away from zero; outside the range its result is
    unspecified. *)
Definition llround (x : double) : outcome Z :=
  match x with
  | S754_zero _ => Done 0
  | S754_finite s m e =>
      in_i64 (cond_Zopp s (if 0 <=? e then Z.shiftl (Zpos m) e
                           else Z.shiftr (Zpos m + Z.shiftl 1 (- e - 1)) (- e)))
  | _ => Undefined
  end.

(** ** Order

    Comparison is lexicographic on sign, exponent and mantissa. *)

Definition key (x : double) : Z * Z * Z :=
  match x with
  | S754_infinity true => (-2, 0, 0)
  | S754_finite true m e => (-1, - e, Zneg m)
  | S754_zero _ | S754_nan => (0, 0, 0)
  | S754_finite false m e => (1, e, Zpos m)
  | S754_infinity false => (2, 0, 0)
  end.

Definition key_lt (j k : Z * Z * Z) : Prop :=
  j.1.1 < k.1.1 ∨ j.1.1 = k.1.1 ∧ (j.1.2 < k.1.2 ∨ j.1.2 = k.1.2 ∧ j.2 < k.2).

Lemma compare_key x y :
  is_nan x = false → is_nan y = false →
  match SFcompare x y with
  | Some Lt => key_lt (key x) (key y)
  | Some Eq => key x = key y
  | Some Gt => key_lt (key y) (key x)
  | None => False
  end.
Proof.
  intros Hx Hy. unfold key_lt.
  destruct x as [[]|[]| |[] mx ex], y as [[]|[]| |[] my ey]; try done; cbn; try lia.
  all: destruct (Z.compare_spec ex ey); cbn; try lia; subst.
  all: fold (Pos.compare mx my); destruct (Pos.compare_spec mx my); cbn; subst; try done; lia.
Qed.

Lemma key_lt_irrefl k : ¬ key_lt k k.
Proof. unfold key_lt. lia. Qed.

Lemma key_lt_trans j k l : key_lt j k → key_lt k l → key_lt j l.
Proof. unfold key_lt. lia. Qed.

Lemma flt_key x y : is_nan x = false → is_nan y = false → flt x y = true ↔ key_lt (key x) (key y).
Proof.
  intros Hx Hy. pose proof (compare_key x y Hx Hy) as H. unfold flt, SFltb.
  destruct (SFcompare x y) as [[]|]; [| | |done].
  - rewrite H. split; [done|]. by intros ?%key_lt_irrefl.
  - done.
  - split; [done|]. intros H'. by destruct (key_lt_irrefl (key x)); eapply key_lt_trans.
Qed.

Lemma fle_key x y : is_nan x = false → is_nan y = false → fle x y = true ↔ ¬ key_lt (key y) (key x).
Proof.
  intros Hx Hy. pose proof (compare_key x y Hx Hy) as H. unfold fle, SFleb.
  destruct (SFcompare x y) as [[]|]; [| | |done].
  - rewrite H. split; [|done]. by intros _ ?%key_lt_irrefl.
  - split; [|done]. intros _ H'. by destruct (key_lt_irrefl (key x)); eapply key_lt_trans.
  - split; [done|]. by intros [].
Qed.

(** With NaN, every comparison is false. *)
Lemma compare_nan x y : SFcompare x y = None ↔ is_nan x = true ∨ is_nan y = true.
Proof. destruct x as [[]|[]| |[]], y as [[]|[]| |[]]; cbn; naive_solver. Qed.

Lemma flt_not_nan x y : flt x y = true → is_nan x = false ∧ is_nan y = false.
Proof.
  intros H. split; apply not_true_is_false; intros Hn;
    unfold flt, SFltb in H; by rewrite (proj2 (compare_nan x y)) in H by auto.
Qed.

Lemma fle_not_nan x y : fle x y = true → is_nan x = false ∧ is_nan y = false.
Proof.
  intros H. split; apply not_true_is_false; intros Hn;
    unfold fle, SFleb in H; by rewrite (proj2 (compare_nan x y)) in H by auto.
Qed.

Lemma flt_irrefl x : flt x x = false.
Proof.
  apply not_true_is_false. intros H. pose proof (flt_not_nan _ _ H) as [Hx _].
  apply flt_key in H; [|done..]. by apply key_lt_irrefl in H.
Qed.

Lemma fle_refl x : is_nan x = false → fle x x = true.
Proof. intros H. apply fle_key; [done..|]. apply key_lt_irrefl. Qed.

Lemma fle_not_flt x y : is_nan x = false → is_nan y = false → fle x y = negb (flt y x).
Proof.
  intros Hx Hy. pose proof (fle_key x y Hx Hy) as H1. pose proof (flt_key y x Hy Hx) as H2.
  destruct (fle x y), (flt y x); naive_solver.
Qed.

Lemma flt_fle x y : flt x y = true → fle x y = true.
Proof. unfold flt, fle, SFltb, SFleb. by destruct (SFcompare x y) as [[]|]. Qed.

Lemma fle_trans x y z : fle x y = true → fle y z = true → fle x z = true.
Proof.
  intros H1 H2. pose proof (fle_not_nan _ _ H1) as [Hx Hy]. pose proof (fle_not_nan _ _ H2) as [_ Hz].
  rewrite fle_key in * by done. unfold key_lt in *. lia.
Qed.

Lemma fle_total x y : is_nan x = false → is_nan y = false → fle x y = true ∨ fle y x = true.
Proof. intros Hx Hy. rewrite !fle_key by done. unfold key_lt. lia. Qed.

Lemma fle_flt_trans x y z : fle x y = true → flt y z = true → flt x z = true.
Proof.
  intros H1 H2. pose proof (fle_not_nan _ _ H1) as [Hx Hy]. pose proof (flt_not_nan _ _ H2) as [_ Hz].
  rewrite fle_key in H1 by done. rewrite flt_key in * by done. unfold key_lt in *. lia.
Qed.

Lemma flt_fle_trans x y z : flt x y = true → fle y z = true → flt x z = true.
Proof.
  intros H1 H2. pose proof (flt_not_nan _ _ H1) as [Hx Hy]. pose proof (fle_not_nan _ _ H2) as [_ Hz].
  rewrite fle_key in H2 by done. rewrite flt_key in * by done. unfold key_lt in *. lia.
Qed.

(** ** Bounds of [std::clamp], [std::min], [std::max] *)

(** [x] is not below [lo] nor above [hi]; NaN is neither. *)
Definition within (lo hi x : double) : bool := negb (flt x lo) && negb (flt hi x).

Lemma fclamp_within v lo hi : fle lo hi = true → within lo hi (fclamp v lo hi) = true.
Proof.
  intros H. pose proof (fle_not_nan _ _ H) as [Hlo Hhi]. unfold fclamp, within.
  rewrite (fle_not_flt lo hi Hlo Hhi) in H. apply negb_true_iff in H.
  destruct (flt v lo) eqn:E1; [by rewrite flt_irrefl, H|].
  destruct (flt hi v) eqn:E2; [by rewrite flt_irrefl, H|]. by rewrite E1, E2.
Qed.

Lemma fclamp_nan v lo hi : is_nan lo = false → is_nan hi = false → is_nan (fclamp v lo hi) = is_nan v.
Proof.
  intros Hlo Hhi. unfold fclamp. destruct (flt v lo) eqn:E1; [|destruct (flt hi v) eqn:E2; [|done]].
  - by rewrite (proj1 (flt_not_nan _ _ E1)).
  - by rewrite (proj2 (flt_not_nan _ _ E2)).
Qed.

Lemma fmax_ge x y : is_nan x = false → fle x (fmax x y) = true.
Proof. intros H. unfold fmax. destruct (flt x y) eqn:E; [by apply flt_fle | by apply fle_refl]. Qed.

Lemma within_fle lo hi x :
  is_nan lo = false → is_nan hi = false → is_nan x = false →
  within lo hi x = true ↔ fle lo x = true ∧ fle x hi = true.
Proof.
  intros Hl Hh Hx. unfold within. rewrite andb_true_iff, !fle_not_flt by done. done.
Qed.
