(* ===== verification/DoublesExact.v ===== *)
(** Where binary64 arithmetic is exact: integers below 2{^53} convert exactly and
    in order, and a result that has at most 53 significant bits is not rounded. *)

From Stdlib Require Import SpecFloat.
From S2P Require Import Prelude Doubles.

(** ** Shifts *)

Lemma digits_log2 m : Zpos (digits2_pos m) = Z.log2 (Zpos m) + 1.
Proof.
  induction m as [m IH|m IH|]; cbn [digits2_pos]; [| |done].
  - change (Zpos m~1) with (2 * Zpos m + 1). rewrite Z.log2_succ_double by lia. lia.
  - change (Zpos m~0) with (2 * Zpos m). rewrite Z.log2_double by lia. lia.
Qed.

Lemma iter_xO m d : Zpos (Pos.iter xO m d) = Zpos m * 2 ^ Zpos d.
Proof.
  revert m. induction d as [|d IH] using Pos.peano_ind; intros m; [cbn; lia|].
  rewrite Pos.iter_succ, Pos2Z.inj_xO, IH, Pos2Z.inj_succ, Z.pow_succ_r by lia. lia.
Qed.

Lemma iter_pos_nat {A} (f : A → A) p x : SpecFloat.iter_pos f p x = Nat.iter (Pos.to_nat p) f x.
Proof.
  revert x. induction p as [p IH|p IH|]; intros x; cbn [SpecFloat.iter_pos].
  - rewrite !IH, Pos2Nat.inj_xI, Nat.iter_succ_r, <- Nat.iter_add. do 2 f_equal. lia.
  - rewrite !IH, Pos2Nat.inj_xO, <- Nat.iter_add. f_equal. lia.
  - done.
Qed.

(** A right shift halves the mantissa, rounding down. *)
Lemma shr_1_half r : 0 <= shr_m r → shr_m (shr_1 r) = shr_m r / 2.
Proof.
  destruct r as [m r s]. cbn. intros Hm. destruct m as [|[p|p|]|p]; try done; try lia.
  - change (Zpos p~1) with (2 * Zpos p + 1). cbn [shr_m]. apply Z.div_unique with 1; lia.
  - change (Zpos p~0) with (2 * Zpos p). cbn [shr_m]. apply Z.div_unique with 0; lia.
Qed.

Lemma iter_shr_m n r : 0 <= shr_m r → shr_m (Nat.iter n shr_1 r) = shr_m r / 2 ^ Z.of_nat n.
Proof.
  intros Hr. induction n as [|n IH]; [by rewrite Z.div_1_r|].
  change (Nat.iter (S n) shr_1 r) with (shr_1 (Nat.iter n shr_1 r)).
  rewrite shr_1_half by (rewrite IH; apply Z.div_pos; lia).
  rewrite IH, Z.div_div by lia. f_equal. rewrite Nat2Z.inj_succ, Z.pow_succ_r by lia. lia.
Qed.

Lemma shr_m_value r e n : 0 <= shr_m r → 0 <= n → shr_m (shr r e n).1 = shr_m r / 2 ^ n ∧ (shr r e n).2 = e + n.
Proof.
  intros Hr Hn. destruct n as [|p|p]; [|cbn [shr fst snd]|lia].
  - cbn. by rewrite Z.div_1_r, Z.add_0_r.
  - rewrite iter_pos_nat, iter_shr_m, positive_nat_Z by done. done.
Qed.

Lemma shl_align_value m e e' : e' <= e → Zpos (fst (shl_align m e e')) = Zpos m * 2 ^ (e - e').
Proof.
  intros He. unfold shl_align. destruct (e' - e) as [|p|p] eqn:E; [| lia |]; cbn [fst].
  - replace (e - e') with 0 by lia. lia.
  - rewrite iter_xO. do 2 f_equal. lia.
Qed.

(** Shifting out zero bits loses nothing. *)
Lemma shr_exact n m :
  0 < m → Nat.iter n shr_1 (Build_shr_record (m * 2 ^ Z.of_nat n) false false) = Build_shr_record m false false.
Proof.
  intros Hm. induction n as [|n IH]; [by cbn [Nat.iter]; rewrite Z.mul_1_r|].
  rewrite Nat.iter_succ_r, Nat2Z.inj_succ, Z.pow_succ_r by lia.
  assert (0 < m * 2 ^ Z.of_nat n) as Hp by (apply Z.mul_pos_pos; lia).
  replace (m * (2 * 2 ^ Z.of_nat n)) with (2 * (m * 2 ^ Z.of_nat n)) by lia.
  destruct (m * 2 ^ Z.of_nat n) as [|q|q] eqn:E; [lia| |lia]. exact IH.
Qed.

(** ** Exact results *)

(** The [double] of value [(-1)^s * m * 2^e], for [m] from 1 to 2{^53} - 1 and
    exponents of normal numbers. *)
Definition double_of (s : bool) (m e : Z) : double :=
  S754_finite s (Z.to_pos (m * 2 ^ (52 - Z.log2 m))) (e - (52 - Z.log2 m)).

Definition fits (m e : Z) : Prop := 0 < m < 2 ^ 53 ∧ -1074 <= e - (52 - Z.log2 m) <= 971.

Lemma log2_fits m : 0 < m < 2 ^ 53 → 0 <= Z.log2 m <= 52.
Proof. intros [H1 H2]. split; [apply Z.log2_nonneg|]. apply Z.log2_lt_pow2 in H2; lia. Qed.

Lemma log2_shift m k : 0 < m → 0 <= k → Z.log2 (m * 2 ^ k) = Z.log2 m + k.
Proof. intros Hm Hk. rewrite <- Z.shiftl_mul_pow2, Z.log2_shiftl by lia. done. Qed.

Lemma round_aux_exact s M e m k :
  Zpos M = m * 2 ^ k → 0 <= k → fits m (e + k) → 52 - Z.log2 m <= k →
  binary_round_aux 53 1024 s (Zpos M) e loc_Exact = double_of s m (e + k).
Proof.
  intros HM Hk [Hm He] Hl. pose proof (log2_fits m Hm) as Hlog.
  assert (fexp 53 1024 (Zdigits2 (Zpos M) + e) = e + k - (52 - Z.log2 m)) as Hf.
  { cbn [Zdigits2]. rewrite digits_log2, HM, log2_shift by lia. unfold fexp, emin. lia. }
  unfold binary_round_aux, shr_fexp. rewrite Hf. cbn [shr_record_of_loc].
  set (n := e + k - (52 - Z.log2 m) - e).
  assert (shr (Build_shr_record (Zpos M) false false) e n =
          (Build_shr_record (m * 2 ^ (52 - Z.log2 m)) false false, e + n)) as ->.
  { assert (Zpos M = m * 2 ^ (52 - Z.log2 m) * 2 ^ n) as ->.
    { rewrite HM, <- Z.mul_assoc, <- Z.pow_add_r by lia. do 2 f_equal. lia. }
    assert (0 < m * 2 ^ (52 - Z.log2 m)) as Hp by (apply Z.mul_pos_pos; lia).
    destruct n as [|p|p] eqn:En; [|clearbody n; subst n|lia].
    - cbn. f_equal; [f_equal; lia | lia].
    - cbn [shr]. rewrite iter_pos_nat. rewrite <- (positive_nat_Z p) at 1. by rewrite shr_exact. }
  cbn [shr_m loc_of_shr_record round_nearest_even].
  assert (0 < m * 2 ^ (52 - Z.log2 m)) as Hp by (apply Z.mul_pos_pos; lia).
  assert (fexp 53 1024 (Zdigits2 (m * 2 ^ (52 - Z.log2 m)) + (e + n)) - (e + n) = 0) as ->.
  { assert (Zdigits2 (m * 2 ^ (52 - Z.log2 m)) = 53) as ->.
    { destruct (m * 2 ^ (52 - Z.log2 m)) as [|p|p] eqn:Ep; [lia| |lia]. cbn [Zdigits2].
      rewrite digits_log2, <- Ep, log2_shift by lia. lia. }
    unfold fexp, emin. lia. }
  cbn [shr shr_m]. unfold double_of. destruct (m * 2 ^ (52 - Z.log2 m)) as [|p|p]; [lia| |lia].
  rewrite (proj2 (Z.leb_le _ _)) by lia. cbn [Z.to_pos]. f_equal. lia.
Qed.

Lemma round_exact s M e m k :
  Zpos M = m * 2 ^ k → 0 <= k → fits m (e + k) →
  binary_round 53 1024 s M e = double_of s m (e + k).
Proof.
  intros HM Hk Hf. pose proof Hf as [Hm He]. pose proof (log2_fits m Hm) as Hlog.
  unfold binary_round. rewrite digits_log2, HM, log2_shift by lia.
  assert (fexp 53 1024 (Z.log2 m + k + 1 + e) = e + k - (52 - Z.log2 m)) as -> by (unfold fexp, emin; lia).
  unfold shl_align. destruct (_ - e) as [|p|p] eqn:E.
  - apply round_aux_exact; done || lia.
  - apply round_aux_exact; done || lia.
  - assert (e + k - (52 - Z.log2 m) + (k + Zpos p) = e + k) as Ee by lia.
    rewrite (round_aux_exact s _ _ m (k + Zpos p)); rewrite ?Ee; [done | | lia | done | lia].
    rewrite iter_xO, HM, Z.pow_add_r by lia. lia.
Qed.

Lemma normalize_exact (s z : bool) m k e :
  0 <= k → fits m (e + k) →
  binary_normalize 53 1024 (cond_Zopp s (m * 2 ^ k)) e z = double_of s m (e + k).
Proof.
  intros Hk Hf. pose proof Hf as [Hm _].
  assert (0 < m * 2 ^ k) as Hp by (apply Z.mul_pos_pos; lia).
  destruct (m * 2 ^ k) as [|p|p] eqn:E; [lia| |lia].
  destruct s; cbn; by apply round_exact.
Qed.

(** ** Integers *)

Lemma of_Z_exact m : 0 < m < 2 ^ 53 → of_Z m = double_of false m 0.
Proof.
  intros Hm. pose proof (log2_fits m Hm). unfold of_Z.
  change 0 with (0 + 0) at 2. rewrite <- (normalize_exact false false m 0 0); [|lia|split; [done | lia]].
  cbn [cond_Zopp]. by rewrite Z.pow_0_r, Z.mul_1_r.
Qed.

Lemma of_Z_opp m : 0 < m < 2 ^ 53 → of_Z (- m) = double_of true m 0.
Proof.
  intros Hm. pose proof (log2_fits m Hm). unfold of_Z.
  change 0 with (0 + 0) at 2. rewrite <- (normalize_exact true false m 0 0); [|lia|split; [done | lia]].
  cbn [cond_Zopp]. by rewrite Z.pow_0_r, Z.mul_1_r.
Qed.

Lemma of_Z_not_nan z : - 2 ^ 53 < z < 2 ^ 53 → is_nan (of_Z z) = false.
Proof.
  intros Hz. destruct (Z.lt_trichotomy z 0) as [H|[->|H]]; [|done|].
  - rewrite <- (Z.opp_involutive z), of_Z_opp by lia. done.
  - by rewrite of_Z_exact by lia.
Qed.

Lemma scale_lt a b p q : a < 2 * b → 0 < a → 0 < p → 2 <= q → a * p < b * (p * q).
Proof. intros. assert (a * p < 2 * b * p) by nia. assert (0 < b * p) by nia. nia. Qed.

(** The order of exact values is that of their canonical forms. *)
Lemma double_of_lt m1 e1 m2 e2 :
  fits m1 e1 → fits m2 e2 →
  ∀ k, 0 <= e1 + k → 0 <= e2 + k →
  key_lt (key (double_of false m1 e1)) (key (double_of false m2 e2)) ↔ m1 * 2 ^ (e1 + k) < m2 * 2 ^ (e2 + k).
Proof.
  intros [Hm1 _] [Hm2 _] k Hk1 Hk2.
  pose proof (log2_fits m1 Hm1) as Hl1. pose proof (log2_fits m2 Hm2) as Hl2.
  assert (∀ m, 0 < m < 2 ^ 53 → 2 ^ 52 <= m * 2 ^ (52 - Z.log2 m) < 2 ^ 53) as Hn.
  { intros m Hm. pose proof (log2_fits m Hm). pose proof (Z.log2_spec m ltac:(lia)) as [Ha Hb].
    assert (0 < 2 ^ (52 - Z.log2 m)) by lia. split.
    - replace (2 ^ 52) with (2 ^ Z.log2 m * 2 ^ (52 - Z.log2 m)) by (rewrite <- Z.pow_add_r by lia; f_equal; lia). nia.
    - replace (2 ^ 53) with (2 ^ Z.succ (Z.log2 m) * 2 ^ (52 - Z.log2 m))
        by (rewrite <- Z.pow_add_r by lia; f_equal; lia). nia. }
  pose proof (Hn m1 Hm1) as H1. pose proof (Hn m2 Hm2) as H2.
  unfold double_of, key, key_lt. cbn [fst snd]. rewrite !Z2Pos.id by lia.
  set (M1 := m1 * 2 ^ (52 - Z.log2 m1)) in *. set (M2 := m2 * 2 ^ (52 - Z.log2 m2)) in *.
  set (f1 := e1 - (52 - Z.log2 m1)). set (f2 := e2 - (52 - Z.log2 m2)).
  assert (0 < 2 ^ 52) as H52 by lia.
  assert (∀ m e, 0 < m < 2 ^ 53 → 0 <= e + k →
    m * 2 ^ (e + k) * 2 ^ 52 = m * 2 ^ (52 - Z.log2 m) * 2 ^ (e - (52 - Z.log2 m) + k + 52)) as Hs.
  { intros m e Hm He. pose proof (log2_fits m Hm). rewrite <- !Z.mul_assoc, <- !Z.pow_add_r by lia.
    do 2 f_equal. lia. }
  pose proof (Hs m1 e1 Hm1 Hk1) as E1. pose proof (Hs m2 e2 Hm2 Hk2) as E2. fold M1 f1 in E1. fold M2 f2 in E2.
  assert (0 <= f1 + k + 52) as Hf1 by (unfold f1; lia). assert (0 <= f2 + k + 52) as Hf2 by (unfold f2; lia).
  transitivity (M1 * 2 ^ (f1 + k + 52) < M2 * 2 ^ (f2 + k + 52)); [|rewrite <- E1, <- E2; nia].
  clearbody M1 M2 f1 f2. clear E1 E2 Hs Hn.
  destruct (Z.lt_trichotomy f1 f2) as [Hf|[->|Hf]].
  - assert (2 ^ (f2 + k + 52) = 2 ^ (f1 + k + 52) * 2 ^ (f2 - f1)) as -> by (rewrite <- Z.pow_add_r by lia; f_equal; lia).
    assert (2 <= 2 ^ (f2 - f1)) as Hp by (change 2 with (2 ^ 1) at 1; apply Z.pow_le_mono_r; lia).
    assert (0 < 2 ^ (f1 + k + 52)) by lia. split; [intros _; apply scale_lt; lia | intros _; right; split; [done | by left]].
  - assert (0 < 2 ^ (f2 + k + 52)) by lia. split; [intros [?|(_ & [?|[_ ?]])]; nia | intros ?; right; split; [done|]; right; nia].
  - assert (2 ^ (f1 + k + 52) = 2 ^ (f2 + k + 52) * 2 ^ (f1 - f2)) as -> by (rewrite <- Z.pow_add_r by lia; f_equal; lia).
    assert (2 <= 2 ^ (f1 - f2)) as Hp by (change 2 with (2 ^ 1) at 1; apply Z.pow_le_mono_r; lia).
    assert (0 < 2 ^ (f2 + k + 52)) by lia. split; [intros [?|(_ & [?|[? _]])]; lia | intros Hlt; exfalso].
    pose proof (scale_lt M2 M1 (2 ^ (f2 + k + 52)) (2 ^ (f1 - f2))). lia.
Qed.

Lemma fits_int m : 0 < m < 2 ^ 53 → fits m 0.
Proof. intros H. pose proof (log2_fits m H). split; [done | lia]. Qed.

Lemma flt_of_Z a b : 0 <= a < 2 ^ 53 → 0 <= b < 2 ^ 53 → flt (of_Z a) (of_Z b) = (a <? b).
Proof.
  intros Ha Hb. apply eq_true_iff_eq. rewrite flt_key by (apply of_Z_not_nan; lia). rewrite Z.ltb_lt.
  destruct (Z.eq_dec a 0) as [->|Ha0], (Z.eq_dec b 0) as [->|Hb0].
  - split; [by intros ?%key_lt_irrefl | lia].
  - rewrite (of_Z_exact b) by lia. unfold key_lt. cbn. lia.
  - rewrite (of_Z_exact a) by lia. unfold key_lt. cbn. lia.
  - rewrite !of_Z_exact by lia. rewrite (double_of_lt a 0 b 0) with (k := 0) by (apply fits_int || idtac; lia).
    cbn. lia.
Qed.

Lemma fle_of_Z a b : 0 <= a < 2 ^ 53 → 0 <= b < 2 ^ 53 → fle (of_Z a) (of_Z b) = (a <=? b).
Proof.
  intros Ha Hb. rewrite fle_not_flt by (apply of_Z_not_nan; lia). rewrite flt_of_Z by done.
  destruct (b <? a) eqn:E; lia.
Qed.

