(* ===== verification/DoublesValue.v ===== *)
(** The rational number a finite [double] stands for, and how the operations that
    do not round act on it. *)

From Stdlib Require Import SpecFloat QArith Qpower Qabs Lqa.
From S2P Require Import Prelude Doubles DoublesExact.

(** ** Dyadic rationals *)

Definition p2 (e : Z) : Q := Qpower 2 e.

Lemma p2_pos e : (0 < p2 e)%Q.
Proof. by apply Qpower_0_lt. Qed.

Lemma p2_add a b : (p2 (a + b) == p2 a * p2 b)%Q.
Proof. by apply Qpower_plus. Qed.

Lemma p2_Z n : 0 <= n → (p2 n == inject_Z (2 ^ n))%Q.
Proof. intros H. symmetry. by apply Zpower_Qpower. Qed.

#[global] Opaque p2.
#[export] Hint Resolve p2_pos : core.

(** [m * 2^e] *)
Definition dyadic (m e : Z) : Q := (inject_Z m * p2 e)%Q.

Lemma inject_lt a b : a < b ↔ (inject_Z a < inject_Z b)%Q.
Proof. by rewrite Zlt_Qlt. Qed.

Lemma inject_le a b : a <= b ↔ (inject_Z a <= inject_Z b)%Q.
Proof. by rewrite Zle_Qle. Qed.

Lemma dyadic_lt a b e : a < b ↔ (dyadic a e < dyadic b e)%Q.
Proof. unfold dyadic. rewrite inject_lt. by rewrite Qmult_lt_r by auto. Qed.

Lemma dyadic_le a b e : a <= b ↔ (dyadic a e <= dyadic b e)%Q.
Proof. unfold dyadic. rewrite Zle_Qle. by rewrite Qmult_le_r by auto. Qed.

Lemma dyadic_zero e : (dyadic 0 e == 0)%Q.
Proof. unfold dyadic. change (inject_Z 0) with 0%Q. ring. Qed.

Lemma dyadic_add a b e : (dyadic (a + b) e == dyadic a e + dyadic b e)%Q.
Proof. unfold dyadic. rewrite inject_Z_plus. ring. Qed.

Lemma dyadic_opp a e : (dyadic (- a) e == - dyadic a e)%Q.
Proof. unfold dyadic. rewrite inject_Z_opp. ring. Qed.

Lemma dyadic_mul a b e f : (dyadic (a * b) (e + f) == dyadic a e * dyadic b f)%Q.
Proof. unfold dyadic. rewrite inject_Z_mult, p2_add. ring. Qed.

Lemma dyadic_shift m e f : e <= f → (dyadic m f == dyadic (m * 2 ^ (f - e)) e)%Q.
Proof.
  intros H. unfold dyadic. rewrite inject_Z_mult, <- p2_Z by lia.
  rewrite <- Qmult_assoc, <- p2_add. by replace (f - e + e) with f by lia.
Qed.

Lemma p2_dyadic n e : 0 <= n → (p2 (n + e) == dyadic (2 ^ n) e)%Q.
Proof. intros H. unfold dyadic. by rewrite p2_add, p2_Z. Qed.

Lemma p2_lt j k : j < k ↔ (p2 j < p2 k)%Q.
Proof.
  assert (∀ a b, a < b → (p2 a < p2 b)%Q) as Hlt.
  { intros a b Hab. replace b with (b - a + a) by lia. replace a with (0 + a) at 1 by lia.
    rewrite !p2_dyadic by lia. apply dyadic_lt. apply Z.pow_gt_1; lia. }
  split; [apply Hlt|]. intros H. destruct (Z.lt_trichotomy j k) as [|[->|Hgt]]; [done | lra |].
  specialize (Hlt k j Hgt). lra.
Qed.

Lemma dyadic_nonneg m e : 0 <= m ↔ (0 <= dyadic m e)%Q.
Proof. rewrite <- (dyadic_zero e). apply dyadic_le. Qed.

(** A number with at most [k] bits in the place of a multiple of a larger power. *)
Lemma dyadic_small a e b f k :
  a < 2 ^ k → 0 <= k → 2 ^ k <= b * 2 ^ (f - e) → e <= f → (dyadic a e < dyadic b f)%Q.
Proof. intros Ha Hk Hb He. rewrite (dyadic_shift b e f) by done. apply dyadic_lt. lia. Qed.

(** ** Values *)

(** A [double] that is a number, in the format. *)
Definition finite (x : double) : bool :=
  match x with
  | S754_zero _ => true
  | S754_finite _ m e => bounded 53 1024 m e
  | _ => false
  end.

Definition val (x : double) : Q :=
  match x with
  | S754_finite s m e => dyadic (cond_Zopp s (Zpos m)) e
  | _ => 0%Q
  end.

Lemma bounded_spec m e :
  bounded 53 1024 m e = true ↔ Z.max (Z.log2 (Zpos m) + 1 + e - 53) (-1074) = e ∧ e <= 971.
Proof.
  unfold bounded, canonical_mantissa. rewrite andb_true_iff, digits_log2, Z.leb_le.
  rewrite <- Zeq_is_eq_bool. unfold fexp, emin. done.
Qed.

Lemma log2_bound m k : 0 < m → Z.log2 m < k → m < 2 ^ k.
Proof. intros Hm H. by apply Z.log2_lt_pow2. Qed.

Lemma mantissa_range m e : bounded 53 1024 m e = true →
  Zpos m < 2 ^ 53 ∧ -1074 <= e <= 971 ∧ (e = -1074 ∨ 2 ^ 52 <= Zpos m).
Proof.
  intros [H1 H2]%bounded_spec. split; [apply log2_bound; lia|]. split; [lia|].
  destruct (Z.eq_dec e (-1074)) as [->|He]; [by left|]. right.
  pose proof (Z.log2_spec (Zpos m) ltac:(lia)) as [H _]. by replace (Z.log2 (Zpos m)) with 52 in H by lia.
Qed.

Lemma finite_not_nan x : finite x = true → is_nan x = false.
Proof. by destruct x. Qed.
#[export] Hint Resolve finite_not_nan : core.

Lemma val_zero s : (val (S754_zero s) == 0)%Q.
Proof. done. Qed.

Lemma finite_opp x : finite x = true → finite (fopp x) = true.
Proof. by destruct x. Qed.

Lemma val_opp x : (val (fopp x) == - val x)%Q.
Proof. destruct x as [| | |[] m e]; cbn; try done; rewrite <- dyadic_opp; done. Qed.

Lemma finite_abs x : finite x = true → finite (fabs x) = true.
Proof. by destruct x. Qed.

Lemma val_abs x : (val (fabs x) == Qabs (val x))%Q.
Proof.
  destruct x as [| | |[] m e]; cbn [fabs SFabs val cond_Zopp]; try done.
  - change (- Zpos m) with (Z.opp (Zpos m)). rewrite dyadic_opp, Qabs_opp.
    symmetry. apply Qabs_pos, dyadic_nonneg. lia.
  - symmetry. apply Qabs_pos, dyadic_nonneg. lia.
Qed.

(** ** Order *)

(** Canonical numbers with a larger exponent are larger. *)
Lemma exponent_lt m1 e1 m2 e2 :
  bounded 53 1024 m1 e1 = true → bounded 53 1024 m2 e2 = true → e1 < e2 →
  (dyadic (Zpos m1) e1 < dyadic (Zpos m2) e2)%Q.
Proof.
  intros (H1 & H2 & _)%mantissa_range (_ & H3 & [H4|H4])%mantissa_range He; [lia|].
  apply dyadic_small with 53; [done | lia | | lia].
  assert (2 <= 2 ^ (e2 - e1)) by (change 2 with (2 ^ 1) at 1; apply Z.pow_le_mono_r; lia). lia.
Qed.

Lemma dyadic_pos m e : (0 < dyadic (Zpos m) e)%Q.
Proof. rewrite <- (dyadic_zero e). apply dyadic_lt. lia. Qed.

Lemma positive_key m1 e1 m2 e2 :
  bounded 53 1024 m1 e1 = true → bounded 53 1024 m2 e2 = true →
  e1 < e2 ∨ e1 = e2 ∧ Zpos m1 < Zpos m2 ↔ (dyadic (Zpos m1) e1 < dyadic (Zpos m2) e2)%Q.
Proof.
  intros H1 H2. destruct (Z.lt_trichotomy e1 e2) as [He|[->|He]].
  - pose proof (exponent_lt m1 e1 m2 e2 H1 H2 He). naive_solver.
  - rewrite <- dyadic_lt. lia.
  - pose proof (exponent_lt m2 e2 m1 e1 H2 H1 He). split; [lia|]. intros ?. lra.
Qed.

(** The order of the machine is that of the values. *)
Lemma flt_val x y : finite x = true → finite y = true → flt x y = true ↔ (val x < val y)%Q.
Proof.
  intros Hx Hy. rewrite flt_key by auto. unfold key_lt.
  destruct x as [sx|[]| |sx m1 e1], y as [sy|[]| |sy m2 e2]; try done; cbn [finite] in *.
  - cbn. split; [lia|]. intros H. by destruct (Qlt_irrefl 0).
  - pose proof (dyadic_pos m2 e2). destruct sy; cbn -[Z.lt Qlt]; [rewrite (dyadic_opp (Zpos m2))|]; split; lia || lra.
  - pose proof (dyadic_pos m1 e1). destruct sx; cbn -[Z.lt Qlt]; [rewrite (dyadic_opp (Zpos m1))|]; split; lia || lra.
  - pose proof (dyadic_pos m1 e1). pose proof (dyadic_pos m2 e2).
    pose proof (positive_key m1 e1 m2 e2 Hx Hy). pose proof (positive_key m2 e2 m1 e1 Hy Hx).
    destruct sx, sy; cbn -[Z.lt Qlt]; rewrite ?(dyadic_opp (Zpos m1)), ?(dyadic_opp (Zpos m2)).
    + transitivity (dyadic (Zpos m2) e2 < dyadic (Zpos m1) e1)%Q; [|split; lra]. rewrite <- H2. lia.
    + split; [intros _; lra | lia].
    + split; [lia | intros ?; lra].
    + rewrite <- H1. lia.
Qed.

Lemma fle_val x y : finite x = true → finite y = true → fle x y = true ↔ (val x <= val y)%Q.
Proof.
  intros Hx Hy. rewrite fle_not_flt by auto. rewrite negb_true_iff, <- not_true_iff_false, flt_val by done.
  split; [apply Qnot_lt_le | apply Qle_not_lt].
Qed.

Lemma finite_max x y : finite x = true → finite y = true → finite (fmax x y) = true.
Proof. intros. unfold fmax. by destruct (flt _ _). Qed.

Lemma val_max x y : finite x = true → finite y = true →
  (val x <= val (fmax x y) ∧ val y <= val (fmax x y))%Q.
Proof.
  intros Hx Hy. unfold fmax. destruct (flt x y) eqn:E.
  - apply flt_val in E; [|done..]. split; lra.
  - apply not_true_iff_false in E. rewrite flt_val in E by done. split; lra.
Qed.

Lemma finite_min x y : finite x = true → finite y = true → finite (fmin x y) = true.
Proof. intros. unfold fmin. by destruct (flt _ _). Qed.

Lemma val_min x y : finite x = true → finite y = true →
  (val (fmin x y) <= val x ∧ val (fmin x y) <= val y ∧ (val (fmin x y) == val x ∨ val (fmin x y) == val y))%Q.
Proof.
  intros Hx Hy. unfold fmin. destruct (flt y x) eqn:E.
  - apply flt_val in E; [|done..]. repeat split; [lra | lra | by right].
  - apply not_true_iff_false in E. rewrite flt_val in E by done. repeat split; [lra | lra | by left].
Qed.

Lemma val_clamp v lo hi :
  finite v = true → finite lo = true → finite hi = true → (val lo <= val hi)%Q →
  finite (fclamp v lo hi) = true ∧ (val lo <= val (fclamp v lo hi) <= val hi)%Q.
Proof.
  intros Hv Hl Hh H. unfold fclamp. destruct (flt v lo) eqn:E1; [split; [done|]; lra|].
  destruct (flt hi v) eqn:E2; [split; [done|]; lra|]. split; [done|].
  apply not_true_iff_false in E1, E2. rewrite flt_val in E1, E2 by done. lra.
Qed.

(** ** Integers *)

Lemma finite_double_of s m e : fits m e → finite (double_of s m e) = true.
Proof.
  intros [Hm He]. pose proof (log2_fits m Hm). cbn [double_of finite]. apply bounded_spec.
  rewrite Z2Pos.id by (apply Z.mul_pos_pos; lia). rewrite log2_shift by lia. lia.
Qed.

Lemma val_double_of s m e : 0 < m < 2 ^ 53 → (val (double_of s m e) == dyadic (cond_Zopp s m) e)%Q.
Proof.
  intros Hm. pose proof (log2_fits m Hm). cbn [double_of val].
  rewrite Z2Pos.id by (apply Z.mul_pos_pos; lia).
  rewrite (dyadic_shift (cond_Zopp s m) (e - (52 - Z.log2 m)) e) by lia.
  replace (e - (e - (52 - Z.log2 m))) with (52 - Z.log2 m) by lia.
  destruct s; cbn [cond_Zopp]; [by rewrite Z.mul_opp_l | done].
Qed.

Lemma dyadic_int z : (dyadic z 0 == inject_Z z)%Q.
Proof. unfold dyadic. rewrite p2_Z by lia. change (inject_Z (2 ^ 0)) with 1%Q. ring. Qed.

Lemma of_Z_val z : - 2 ^ 53 < z < 2 ^ 53 → finite (of_Z z) = true ∧ (val (of_Z z) == inject_Z z)%Q.
Proof.
  intros Hz. destruct (Z.lt_trichotomy z 0) as [H|[->|H]]; [|done|].
  - rewrite <- (Z.opp_involutive z), of_Z_opp by lia. split; [apply finite_double_of, fits_int; lia|].
    rewrite val_double_of by lia. apply dyadic_int.
  - rewrite of_Z_exact by lia. split; [apply finite_double_of, fits_int; lia|].
    rewrite val_double_of by lia. apply dyadic_int.
Qed.
