(* ===== verification/DoublesRound.v ===== *)
(** Rounding to nearest is monotone: an operation whose exact result lies between
    two finite [double]s gives a finite [double] between them.  In particular an
    exact result that is a [double] is the result. *)

From Stdlib Require Import SpecFloat QArith Qabs Lqa.
From S2P Require Import Prelude Doubles DoublesExact DoublesValue.

(** ** The mantissa that is rounded *)

(** The number that is rounded is given by an increasing function [h] of it: the
    identity, or the square for a square root. *)
Section rounding.
Context (h : Q → Q) (c : Q).
Context (h_lt : ∀ a b, (0 <= a → a < b → h a < h b)%Q) (h_eq : ∀ a b, (a == b → h a == h b)%Q).

Lemma h_le a b : (0 <= a → a <= b → h a <= h b)%Q.
Proof.
  intros H0 H. destruct (Qlt_le_dec a b) as [Hlt|Hge].
  - apply Qlt_le_weak, h_lt; done.
  - rewrite (h_eq a b); [apply Qle_refl | lra].
Qed.

Lemma h_lt_inv a b : (0 <= b → h a < h b → a < b)%Q.
Proof.
  intros Hb H. destruct (Qlt_le_dec a b) as [|Hge]; [done|]. pose proof (h_le b a Hb Hge). lra.
Qed.

Lemma h_le_inv a b : (0 <= b → h a <= h b → a <= b)%Q.
Proof.
  intros Hb H. destruct (Qlt_le_dec b a) as [Hlt|]; [|done]. pose proof (h_lt b a Hb Hlt). lra.
Qed.

(** The mantissa is the exact number rounded down, and a bit is set when it is
    inexact. *)
Definition covers (r : shr_record) (e : Z) : Prop :=
  0 <= shr_m r ∧ (h (dyadic (shr_m r) e) <= c)%Q ∧ (c < h (dyadic (shr_m r + 1) e))%Q ∧
  (shr_r r || shr_s r = true → (h (dyadic (shr_m r) e) < c)%Q).

Lemma covers_half q b r s s' e :
  0 <= q → covers (Build_shr_record (2 * q + Z.b2z b) r s) e → s' = r || s →
  covers (Build_shr_record q b s') (e + 1).
Proof.
  intros Hq (_ & H1 & H2 & H3) ->. unfold covers. cbn [shr_m shr_r shr_s] in *.
  assert (∀ m, (dyadic m (e + 1) == dyadic (2 * m) e)%Q) as Hs.
  { intros m. rewrite (dyadic_shift m e (e + 1)) by lia. replace (e + 1 - e) with 1 by lia. by rewrite Z.mul_comm. }
  assert ((0 <= dyadic (2 * q) e)%Q) as H0 by (apply dyadic_nonneg; lia).
  rewrite !(h_eq _ _ (Hs _)). replace (2 * (q + 1)) with (2 * q + 2) by lia.
  assert ((dyadic (2 * q) e <= dyadic (2 * q + Z.b2z b) e)%Q) as Hb by (apply dyadic_le; destruct b; cbn; lia).
  assert ((dyadic (2 * q + Z.b2z b + 1) e <= dyadic (2 * q + 2) e)%Q) as Ht by (apply dyadic_le; destruct b; cbn; lia).
  pose proof (h_le _ _ H0 Hb). pose proof (h_le (dyadic (2 * q + Z.b2z b + 1) e) _ ltac:(apply dyadic_nonneg; destruct b; cbn; lia) Ht).
  split; [done|]. split; [lra|]. split; [lra|]. destruct b; cbn [orb].
  - intros _. assert ((dyadic (2 * q) e < dyadic (2 * q + Z.b2z true) e)%Q) as Hlt by (apply dyadic_lt; cbn; lia).
    pose proof (h_lt _ _ H0 Hlt). lra.
  - cbn [Z.b2z] in *. rewrite Z.add_0_r in *. done.
Qed.

Lemma covers_shr_1 r e : covers r e → covers (shr_1 r) (e + 1).
Proof.
  destruct r as [m r s]. intros H. pose proof H as [H0 _]. cbn [shr_m] in H0.
  destruct m as [|[p|p|]|p]; [| | | |lia]; cbn [shr_1];
    eapply covers_half; try reflexivity; try lia; exact H.
Qed.

Lemma covers_iter n r e : covers r e → covers (Nat.iter n shr_1 r) (e + Z.of_nat n).
Proof.
  intros H. induction n as [|n IH]; [by rewrite Z.add_0_r|].
  rewrite Nat2Z.inj_succ. replace (e + Z.succ (Z.of_nat n)) with (e + Z.of_nat n + 1) by lia.
  by apply covers_shr_1.
Qed.

Lemma covers_shr r e n : 0 <= n → covers r e → covers (shr r e n).1 (shr r e n).2.
Proof.
  intros Hn H. destruct n as [|p|p]; [done | | lia]. cbn [shr fst snd]. rewrite iter_pos_nat.
  rewrite <- (positive_nat_Z p). by apply covers_iter.
Qed.

(** Where rounding starts: no digit that will be kept is missing. *)
Definition fine (M e : Z) : Prop := e <= fexp 53 1024 (Zdigits2 M + e).

Lemma digits_bound M : 0 <= M → M < 2 ^ Zdigits2 M ∧ (0 < M → 2 ^ (Zdigits2 M - 1) <= M) ∧ 0 <= Zdigits2 M.
Proof.
  intros HM. destruct M as [|p|p]; [done| |lia]. cbn [Zdigits2]. rewrite digits_log2.
  pose proof (Z.log2_spec (Zpos p) ltac:(lia)) as [H1 H2]. pose proof (Z.log2_nonneg (Zpos p)).
  rewrite <- Z.add_1_r in H2. split; [done|]. split; [|lia].
  intros _. by replace (Z.log2 (Zpos p) + 1 - 1) with (Z.log2 (Zpos p)) by lia.
Qed.

(** After the first shift the mantissa has 53 digits, or the exponent is the
    least one. *)
Lemma first_shift M e l :
  0 <= M → fine M e → covers (shr_record_of_loc M l) e →
  let '(r, e') := shr_fexp 53 1024 M e l in
  covers r e' ∧ -1074 <= e' ∧ shr_m r < 2 ^ 53 ∧ (e' = -1074 ∨ 2 ^ 52 <= shr_m r).
Proof.
  intros HM Hf Hc. unfold shr_fexp. unfold fine in Hf. pose proof (digits_bound M HM) as (Hd1 & Hd2 & Hd0).
  set (n := fexp 53 1024 (Zdigits2 M + e) - e) in *. assert (0 <= n) as Hn by lia.
  pose proof (covers_shr _ e n Hn Hc) as Hc'.
  assert (shr_m (shr_record_of_loc M l) = M) as Em by (by destruct l as [|[]]).
  destruct (shr_m_value (shr_record_of_loc M l) e n) as [E1 E2]; [lia | done |]. rewrite Em in E1.
  destruct (shr (shr_record_of_loc M l) e n) as [r e']. cbn [fst snd] in *. subst e'.
  split; [done|]. unfold fexp, emin in n. split; [lia|]. rewrite E1.
  split; [apply Z.div_lt_upper_bound; [lia|]; eapply Z.lt_le_trans; [exact Hd1|];
          rewrite <- Z.pow_add_r by lia; apply Z.pow_le_mono_r; lia|].
  destruct (Z.eq_dec (e + n) (-1074)) as [|He]; [by left|]. right.
  destruct (Z.eq_dec M 0) as [->|]; [cbn in n; lia|].
  apply Z.div_le_lower_bound; [lia|]. rewrite <- Z.pow_add_r by lia.
  replace (n + 52) with (Zdigits2 M - 1) by lia. apply Hd2. lia.
Qed.

(** ** The result *)

(** The second shift only takes a carry back. *)
Lemma second_shift m e :
  0 <= m <= 2 ^ 53 → -1074 <= e → (e = -1074 ∨ 2 ^ 52 <= m) →
  let '(r, e') := shr_fexp 53 1024 m e loc_Exact in
  0 <= shr_m r ∧ (dyadic (shr_m r) e' == dyadic m e)%Q ∧
  (∀ p, shr_m r = Zpos p → Z.max (Z.log2 (Zpos p) + 1 + e' - 53) (-1074) = e').
Proof.
  intros Hm He Hn. unfold shr_fexp. destruct (Z.eq_dec m (2 ^ 53)) as [->|Hne].
  - assert (fexp 53 1024 (Zdigits2 (2 ^ 53) + e) - e = 1) as ->.
    { change (Zdigits2 (2 ^ 53)) with 54. unfold fexp, emin. lia. }
    change (shr (shr_record_of_loc (2 ^ 53) loc_Exact) e 1) with (Build_shr_record (2 ^ 52) false false, e + 1).
    cbn [shr_m]. split; [lia|]. split.
    + rewrite (dyadic_shift _ e (e + 1)) by lia. replace (e + 1 - e) with 1 by lia. done.
    + intros p <-. change (Z.log2 (2 ^ 52)) with 52. lia.
  - assert (fexp 53 1024 (Zdigits2 m + e) - e <= 0 ∧
            (∀ p, m = Zpos p → Z.max (Z.log2 (Zpos p) + 1 + e - 53) (-1074) = e)) as [Hle Hp].
    { unfold fexp, emin. destruct m as [|p|p]; [split; [cbn; lia | done]| |lia]. cbn [Zdigits2]. rewrite digits_log2.
      assert (Z.log2 (Zpos p) <= 52) by (apply Z.lt_succ_r, Z.log2_lt_pow2; lia).
      split; [lia|]. intros ? [= <-]. destruct Hn as [->|Hn]; [lia|].
      apply Z.log2_le_mono in Hn. rewrite Z.log2_pow2 in Hn by lia. lia. }
    assert (∀ r n, n <= 0 → shr r e n = (r, e)) as Hs by (intros r [|q|q]; done || lia).
    rewrite Hs by done.
    cbn [shr_record_of_loc shr_m]. split; [lia|]. by split.
Qed.

(** A finite [double] is a multiple of the last place, or below the mantissas with
    all their digits. *)
Lemma grid u m e :
  finite u = true → -1074 <= e → (e = -1074 ∨ 2 ^ 52 <= m) →
  (∃ q, (val u == dyadic q e)%Q) ∨ (val u < dyadic m e)%Q.
Proof.
  intros Hu He Hm. destruct u as [s|s| |s k g]; try done.
  { left. exists 0. by rewrite dyadic_zero. }
  cbn [finite val] in *. apply mantissa_range in Hu as (Hk & Hg & _).
  destruct (Z.le_gt_cases e g) as [Hle|Hlt].
  - left. exists (cond_Zopp s (Zpos k) * 2 ^ (g - e)). by apply dyadic_shift.
  - right. destruct Hm as [->|Hm]; [lia|]. apply dyadic_small with 53; [destruct s; cbn [cond_Zopp]; lia | lia | | lia].
    assert (2 <= 2 ^ (e - g)) by (change 2 with (2 ^ 1) at 1; apply Z.pow_le_mono_r; lia). lia.
Qed.

Definition signed (s : bool) (q : Q) : Q := if s then (- q)%Q else q.

#[export] Instance signed_proper s : Proper (Qeq ==> Qeq) (signed s).
Proof. intros a b E. destruct s; cbn [signed]; by rewrite E. Qed.

Lemma finite_result m e u :
  Z.max (Z.log2 (Zpos m) + 1 + e - 53) (-1074) = e →
  finite u = true → (dyadic (Zpos m) e <= val u)%Q → e <= 971.
Proof.
  intros Hm Hu Hle. destruct (Z.le_gt_cases e 971) as [|Hgt]; [done|exfalso].
  destruct (grid u (2 ^ 52) 972 Hu) as [[q Eq]|Hlt]; [lia | by right | |].
  - destruct u as [su|su| |su k g]; try done; [cbn in Hle; pose proof (dyadic_pos m e); lra|].
    cbn [finite val] in *. apply mantissa_range in Hu as (Hk & Hg & _).
    assert (dyadic (cond_Zopp su (Zpos k)) g < dyadic (Zpos m) e)%Q; [|lra].
    pose proof (Z.log2_spec (Zpos m) ltac:(lia)) as [H52 _].
    replace (Z.log2 (Zpos m)) with 52 in H52 by lia.
    apply dyadic_small with 53; [destruct su; cbn [cond_Zopp]; lia | lia | | lia].
    assert (2 <= 2 ^ (e - g)) by (change 2 with (2 ^ 1) at 1; apply Z.pow_le_mono_r; lia). lia.
  - pose proof (Z.log2_spec (Zpos m) ltac:(lia)) as [H52 _].
    replace (Z.log2 (Zpos m)) with 52 in H52 by lia.
    assert (dyadic (2 ^ 52) 972 <= dyadic (Zpos m) e)%Q; [|lra].
    rewrite (dyadic_shift (Zpos m) 972 e) by lia. apply dyadic_le.
    assert (1 <= 2 ^ (e - 972)) by lia. nia.
Qed.

(** What the first rounding decides. *)
Lemma rounded_mantissa r e :
  covers r e → -1074 <= e → (e = -1074 ∨ 2 ^ 52 <= shr_m r) →
  let m := round_nearest_even (shr_m r) (loc_of_shr_record r) in
  shr_m r <= m <= shr_m r + 1 ∧
  (∀ l, finite l = true → (h (val l) <= c)%Q → (val l <= dyadic m e)%Q) ∧
  (∀ u, finite u = true → (0 <= val u)%Q → (c <= h (val u))%Q → (dyadic m e <= val u)%Q).
Proof.
  intros (H0 & H1 & H2 & H3) He Hm m.
  assert ((m = shr_m r ∨ m = shr_m r + 1 ∧ (shr_r r || shr_s r = true))) as Hcase.
  { subst m. destruct r as [mr [] []]; cbn; try (destruct (Z.even mr)); auto. }
  assert ((0 <= dyadic (shr_m r) e)%Q) as Hp by (by apply dyadic_nonneg).
  split; [lia|]. split.
  - intros l Hl Hle.
    assert ((dyadic (shr_m r) e <= dyadic m e)%Q) as Hge by (apply dyadic_le; lia).
    destruct (grid l (shr_m r) e Hl He Hm) as [[q Eq]|Hlt]; [|lra].
    assert ((val l < dyadic (shr_m r + 1) e)%Q) as Hlt by (apply h_lt_inv; [apply dyadic_nonneg; lia | lra]).
    rewrite Eq in Hlt |- *. apply dyadic_lt in Hlt. apply dyadic_le. lia.
  - intros u Hu Hu0 Hle. destruct Hcase as [->|[-> Hflag]]; [apply h_le_inv; [done | lra]|].
    assert ((dyadic (shr_m r) e < val u)%Q) as Hlt by (apply h_lt_inv; [done | specialize (H3 Hflag); lra]).
    destruct (grid u (shr_m r) e Hu He Hm) as [[q Eq]|Hlt']; [|lra].
    rewrite Eq in Hlt |- *. apply dyadic_lt in Hlt. apply dyadic_le. lia.
Qed.

(** Rounding a number that is at most a finite [double] [u]. *)
Lemma round_aux_spec s M e l u :
  0 <= M → fine M e → covers (shr_record_of_loc M l) e →
  finite u = true → (0 <= val u)%Q → (c <= h (val u))%Q →
  let z := binary_round_aux 53 1024 s M e l in
  finite z = true ∧ ∃ v, (val z == signed s v)%Q ∧ (0 <= v)%Q ∧ (v <= val u)%Q ∧
    ∀ l, finite l = true → (h (val l) <= c)%Q → (val l <= v)%Q.
Proof.
  intros HM Hf Hc Hu Hu0 Hcu z. subst z. unfold binary_round_aux.
  pose proof (first_shift M e l HM Hf Hc) as H1. destruct (shr_fexp 53 1024 M e l) as [r e1].
  destruct H1 as (Hc1 & He1 & Hr1 & Hr2).
  pose proof (rounded_mantissa r e1 Hc1 He1 Hr2) as (Hm & Hlow & Hupp). destruct Hc1 as [Hr0 _].
  set (m := round_nearest_even _ _) in *.
  pose proof (second_shift m e1 ltac:(lia) He1 ltac:(lia)) as H2.
  destruct (shr_fexp 53 1024 m e1 loc_Exact) as [r2 e2]. destruct H2 as (H0 & E & Hcan).
  assert (finite u = true ∧ (dyadic (shr_m r2) e2 <= val u)%Q) as [_ Hle] by (rewrite E; auto).
  destruct (shr_m r2) as [|p|p] eqn:Ep; [| |lia].
  - split; [done|]. exists 0%Q. rewrite dyadic_zero in E. repeat split; try lra; [by destruct s|].
    intros l' Hl' Hle'. rewrite E. by apply Hlow.
  - specialize (Hcan p eq_refl). pose proof (finite_result p e2 u Hcan Hu Hle) as He2.
    rewrite (proj2 (Z.leb_le _ _)) by lia. split; [apply bounded_spec; lia|].
    exists (dyadic (Zpos p) e2). repeat split; [|apply dyadic_nonneg; lia | done |].
    + destruct s; cbn [val cond_Zopp signed]; [by rewrite <- dyadic_opp | done].
    + intros l' Hl' Hle'. rewrite E. by apply Hlow.
Qed.
End rounding.

Lemma covers_nonneg c r e : covers id c r e → (0 <= c)%Q.
Proof. intros (H0 & H1 & _). apply (dyadic_nonneg _ e) in H0. unfold id in H1. lra. Qed.

(** ** Between two finite numbers *)

Definition between (l x u : Q) : Prop := (l <= x ∧ x <= u)%Q.

#[export] Instance between_proper : Proper (Qeq ==> Qeq ==> Qeq ==> iff) between.
Proof. intros l l' El x x' Ex u u' Eu. unfold between. by rewrite El, Ex, Eu. Qed.

Lemma round_between s M e l c zl zu :
  0 <= M → fine M e → covers id c (shr_record_of_loc M l) e →
  finite zl = true → finite zu = true → between (val zl) (signed s c) (val zu) →
  let z := binary_round_aux 53 1024 s M e l in finite z = true ∧ between (val zl) (val z) (val zu).
Proof.
  intros HM Hf Hc Hl Hu [H1 H2]. pose proof (covers_nonneg _ _ _ Hc) as Hc0.
  assert (∀ a b, (0 <= a → a < b → id a < id b)%Q) as h_lt by auto.
  assert (∀ a b, (a == b → id a == id b)%Q) as h_eq by auto.
  set (u := if s then fopp zl else zu).
  assert (finite u = true ∧ (c <= val u)%Q) as [Hfu Hcu].
  { unfold u. destruct s; cbn [signed] in *; [rewrite val_opp, finite_opp; [|done]|]; split; done || lra. }
  destruct (round_aux_spec id c h_lt h_eq s M e l u HM Hf Hc Hfu) as (Hz & v & Ev & H0 & Hvu & Hlow);
    [lra | done |]. split; [done|].
  unfold between. rewrite Ev. unfold u in *. destruct s; cbn [signed] in *.
  - rewrite val_opp in Hvu. split; [lra|]. specialize (Hlow (fopp zu) (finite_opp _ Hu)).
    unfold id in Hlow. rewrite val_opp in Hlow. lra.
  - split; [|done]. specialize (Hlow zl Hl). unfold id in Hlow. lra.
Qed.

Lemma covers_exact M e : 0 <= M → covers id (dyadic M e) (shr_record_of_loc M loc_Exact) e.
Proof.
  intros HM. unfold covers, id. cbn. split; [done|]. split; [lra|]. split; [apply dyadic_lt; lia | done].
Qed.

(** [binary_round] rounds its argument itself. *)
Lemma aligned_form s m e :
  ∃ M f, binary_round 53 1024 s m e = binary_round_aux 53 1024 s M f loc_Exact ∧ 0 <= M ∧ fine M f ∧
    covers id (dyadic (Zpos m) e) (shr_record_of_loc M loc_Exact) f.
Proof.
  unfold binary_round. rewrite digits_log2. set (f := fexp 53 1024 (Z.log2 (Zpos m) + 1 + e)).
  unfold shl_align. destruct (f - e) as [|p|p] eqn:E.
  3:{ assert (Zpos (Pos.iter xO m p) = Zpos m * 2 ^ (e - f)) as Em by (rewrite iter_xO; do 2 f_equal; lia).
      eexists _, f. split; [reflexivity|]. split; [done|]. split.
      - unfold fine. cbn [Zdigits2]. rewrite digits_log2, Em, log2_shift by lia. unfold f.
        replace (Z.log2 _ + (e - _) + 1 + _) with (Z.log2 (Zpos m) + 1 + e) by lia. lia.
      - pose proof (covers_exact (Zpos (Pos.iter xO m p)) f ltac:(lia)) as Hc.
        rewrite Em in Hc at 1. unfold covers, id in *. rewrite (dyadic_shift (Zpos m) f e) by lia. exact Hc. }
  all: eexists _, e; (split; [reflexivity|]); (split; [done|]); (split; [|by apply covers_exact]);
    unfold fine; cbn [Zdigits2]; rewrite digits_log2; fold f; lia.
Qed.

Lemma aligned_between s m e zl zu :
  finite zl = true → finite zu = true → between (val zl) (signed s (dyadic (Zpos m) e)) (val zu) →
  let z := binary_round 53 1024 s m e in finite z = true ∧ between (val zl) (val z) (val zu).
Proof.
  intros Hl Hu H. destruct (aligned_form s m e) as (M & f & -> & HM & Hf & Hc).
  by apply (round_between _ _ _ _ (dyadic (Zpos m) e)).
Qed.

Lemma normalize_between m e sz zl zu :
  finite zl = true → finite zu = true → between (val zl) (dyadic m e) (val zu) →
  let z := binary_normalize 53 1024 m e sz in finite z = true ∧ between (val zl) (val z) (val zu).
Proof.
  intros Hl Hu H. unfold binary_normalize. destruct m as [|p|p].
  - split; [done|]. unfold between in *. rewrite dyadic_zero in H. done.
  - by apply aligned_between.
  - apply aligned_between; [done..|]. cbn [signed]. unfold between in *. by rewrite <- dyadic_opp.
Qed.

(** ** What is not NaN *)

Lemma round_not_nan s M e l c :
  0 <= M → fine M e → covers id c (shr_record_of_loc M l) e → is_nan (binary_round_aux 53 1024 s M e l) = false.
Proof.
  intros HM Hf Hc. unfold binary_round_aux.
  assert (∀ a b, (0 <= a → a < b → id a < id b)%Q) as h_lt by auto.
  assert (∀ a b, (a == b → id a == id b)%Q) as h_eq by auto.
  pose proof (first_shift id c h_lt h_eq M e l HM Hf Hc) as H1. destruct (shr_fexp 53 1024 M e l) as [r e1].
  destruct H1 as (Hc1 & He1 & Hr1 & Hr2).
  pose proof (rounded_mantissa id c h_lt h_eq r e1 Hc1 He1 Hr2) as (Hm & _). destruct Hc1 as [Hr0 _].
  set (m := round_nearest_even _ _) in *.
  pose proof (second_shift m e1 ltac:(lia) He1 ltac:(lia)) as H2.
  destruct (shr_fexp 53 1024 m e1 loc_Exact) as [r2 e2]. destruct H2 as (H0 & _).
  destruct (shr_m r2); [done | by destruct (_ <=? _) | lia].
Qed.

Lemma normalize_not_nan m e sz : is_nan (binary_normalize 53 1024 m e sz) = false.
Proof.
  unfold binary_normalize. destruct m as [|p|p]; [done|..].
  - destruct (aligned_form false p e) as (M & f & -> & HM & Hf & Hc). by eapply round_not_nan.
  - destruct (aligned_form true p e) as (M & f & -> & HM & Hf & Hc). by eapply round_not_nan.
Qed.

(** Adding a number keeps NaN away, even where the sum overflows. *)
Lemma fadd_not_nan x y : is_nan x = false → finite y = true → is_nan (fadd x y) = false.
Proof.
  intros Hx Hy. unfold fadd. destruct x as [sx|sx| |sx mx ex], y as [sy|sy| |sy my ey]; try done; cbn [SFadd].
  - by destruct sx, sy.
  - apply normalize_not_nan.
Qed.

(** ** The operations *)

Lemma finite_eq_between x y zl zu :
  finite x = true → (val x == y)%Q → between (val zl) y (val zu) →
  finite x = true ∧ between (val zl) (val x) (val zu).
Proof. intros Hx E [H1 H2]. split; [done|]. split; lra. Qed.

Lemma fadd_between x y zl zu :
  finite x = true → finite y = true → finite zl = true → finite zu = true →
  between (val zl) (val x + val y) (val zu) →
  finite (fadd x y) = true ∧ between (val zl) (val (fadd x y)) (val zu).
Proof.
  intros Hx Hy Hl Hu H. unfold fadd.
  destruct x as [sx|sx| |sx mx ex], y as [sy|sy| |sy my ey]; try done; cbn [SFadd].
  - destruct sx, sy; by (split; [done|]; unfold between in *; cbn in *; lra).
  - eapply finite_eq_between; [done| |exact H]. cbn. lra.
  - eapply finite_eq_between; [done| |exact H]. cbn. lra.
  - apply normalize_between; [done..|]. cbn [val] in H. unfold between in *.
    rewrite dyadic_add. rewrite (dyadic_shift _ (ex `min` ey) ex), (dyadic_shift _ (ex `min` ey) ey) in H by lia.
    destruct sx, sy; cbn [cond_Zopp] in *; rewrite !shl_align_value, ?Z.mul_opp_l in * by lia; exact H.
Qed.

Lemma fsub_opp x y : fsub x y = fadd x (fopp y).
Proof.
  unfold fsub, fadd, fopp. destruct x as [sx|sx| |sx mx ex], y as [sy|sy| |sy my ey]; try done.
  - by destruct sx, sy.
  - by destruct sx, sy.
  - cbn [SFopp SFsub SFadd]. cbv zeta. f_equal. destruct sx, sy; cbn [cond_Zopp negb]; lia.
Qed.

Lemma fsub_between x y zl zu :
  finite x = true → finite y = true → finite zl = true → finite zu = true →
  between (val zl) (val x - val y) (val zu) →
  finite (fsub x y) = true ∧ between (val zl) (val (fsub x y)) (val zu).
Proof.
  intros Hx Hy Hl Hu H. rewrite fsub_opp. apply fadd_between; [done | by apply finite_opp | done..|].
  unfold between in *. rewrite val_opp. exact H.
Qed.

Lemma signed_xorb s t m e : (dyadic (cond_Zopp s m) e == signed s (dyadic m e))%Q ∧
  (∀ a b, signed (xorb s t) (a * b) == signed s a * signed t b)%Q.
Proof. split; [destruct s; cbn; [apply dyadic_opp | done]|]. intros a b. destruct s, t; cbn; ring. Qed.

Lemma fine_product m1 e1 m2 e2 :
  bounded 53 1024 m1 e1 = true → bounded 53 1024 m2 e2 = true → fine (Zpos (m1 * m2)) (e1 + e2).
Proof.
  intros [H1 _]%bounded_spec [H2 _]%bounded_spec. unfold fine, fexp, emin. cbn [Zdigits2].
  rewrite digits_log2, Pos2Z.inj_mul. pose proof (Z.log2_mul_below (Zpos m1) (Zpos m2) ltac:(lia) ltac:(lia)).
  pose proof (Z.log2_nonneg (Zpos m1)). pose proof (Z.log2_nonneg (Zpos m2)). lia.
Qed.

Lemma fmul_between x y zl zu :
  finite x = true → finite y = true → finite zl = true → finite zu = true →
  between (val zl) (val x * val y) (val zu) →
  finite (fmul x y) = true ∧ between (val zl) (val (fmul x y)) (val zu).
Proof.
  intros Hx Hy Hl Hu H. unfold fmul.
  destruct x as [sx|sx| |sx mx ex], y as [sy|sy| |sy my ey]; try done; cbn [SFmul].
  1-2: eapply finite_eq_between; [done | | exact H]; cbn [val]; ring.
  apply round_between with (c := dyadic (Zpos (mx * my)) (ex + ey)); [lia | by apply fine_product | | done | done |].
  - apply covers_exact. lia.
  - unfold between in *. rewrite Pos2Z.inj_mul, dyadic_mul.
    destruct (signed_xorb sx sy (Zpos mx) ex) as [E1 E3]. destruct (signed_xorb sy sx (Zpos my) ey) as [E2 _].
    cbn [val] in H. rewrite E1, E2 in H. by rewrite E3.
Qed.

(** The quotient with its remainder covers the exact one. *)
Lemma new_location_flag q m r : let l := new_location m r in
  shr_r (shr_record_of_loc q l) || shr_s (shr_record_of_loc q l) = true → r ≠ 0.
Proof. cbn. intros H ->. unfold new_location, new_location_even, new_location_odd in H. by destruct (Z.even m). Qed.

Lemma div_core m1 e1 m2 e2 : 0 < m1 → 0 < m2 →
  let '(q, e, l) := SFdiv_core_binary 53 1024 m1 e1 m2 e2 in
  0 <= q ∧ fine q e ∧ covers id (dyadic m1 e1 / dyadic m2 e2)%Q (shr_record_of_loc q l) e.
Proof.
  intros H1 H2. unfold SFdiv_core_binary.
  set (D := Zdigits2 m1 + e1 - (Zdigits2 m2 + e2)). set (e := fexp 53 1024 D `min` (e1 - e2)).
  set (m' := match e1 - e2 - e with 0 => m1 | Zpos _ => _ | Zneg _ => 0 end).
  assert (m' = m1 * 2 ^ (e1 - e2 - e)) as Em.
  { unfold m'. destruct (e1 - e2 - e) as [|p|p] eqn:E; [lia | by rewrite Z.shiftl_mul_pow2 by lia | unfold e in E; lia]. }
  clearbody m'. pose proof (Z_div_mod m' m2 ltac:(lia)) as Hdiv. destruct (Z.div_eucl m' m2) as [q r].
  destruct Hdiv as [Hq Hr]. pose proof (digits_bound m1 ltac:(lia)) as (_ & Hd1 & _).
  pose proof (digits_bound m2 ltac:(lia)) as (Hd2 & _ & Hd2'). specialize (Hd1 H1).
  assert (0 <= m') as Hm' by (rewrite Em; lia). assert (0 <= q) as Hq0 by nia.
  pose proof (digits_bound q Hq0) as (Hdq & _ & Hdq'). split; [done|]. split.
  - assert (D <= Zdigits2 q + e) as HD; [|unfold fine, fexp in *; unfold fexp, e in *; lia].
    destruct (Z.le_gt_cases D (Zdigits2 q + e)) as [|Hgt]; [done|exfalso].
    assert (m' < 2 ^ Zdigits2 q * 2 ^ Zdigits2 m2) as Hlt by nia.
    rewrite <- Z.pow_add_r in Hlt by done.
    assert (2 ^ (Zdigits2 m1 - 1 + (e1 - e2 - e)) <= m') as Hge.
    { destruct (digits_bound m1 ltac:(lia)) as (_ & _ & Hn). destruct m1; [lia| |lia]. cbn [Zdigits2] in *.
      rewrite Z.pow_add_r by (unfold e; lia). rewrite Em. apply Z.mul_le_mono_nonneg_r; lia. }
    assert (2 ^ (Zdigits2 q + Zdigits2 m2) <= 2 ^ (Zdigits2 m1 - 1 + (e1 - e2 - e))); [|lia].
    apply Z.pow_le_mono_r; unfold D in *; lia.
  - assert ((0 < dyadic m2 e2)%Q) as Hpos by (rewrite <- (dyadic_zero e2); by apply dyadic_lt).
    assert ((dyadic m1 e1 == dyadic m' (e + e2))%Q) as Ec.
    { rewrite Em, (dyadic_shift m1 (e + e2) e1) by (unfold e; lia). by replace (e1 - (e + e2)) with (e1 - e2 - e) by lia. }
    unfold covers, id. rewrite Ec. replace (shr_m _) with q by (by destruct (new_location m2 r) as [|[]]).
    split; [done|]. split; [|split].
    + apply Qle_shift_div_l; [done|]. rewrite <- dyadic_mul. apply dyadic_le. nia.
    + apply Qlt_shift_div_r; [done|]. rewrite <- dyadic_mul. apply dyadic_lt. nia.
    + intros Hflag%new_location_flag. apply Qlt_shift_div_l; [done|]. rewrite <- dyadic_mul. apply dyadic_lt. nia.
Qed.

Lemma signed_div s t a b : ¬ (b == 0)%Q → (signed (xorb s t) (a / b) == signed s a / signed t b)%Q.
Proof. intros Hb. destruct s, t; cbn; by field. Qed.

Lemma fdiv_between x y zl zu :
  finite x = true → finite y = true → finite zl = true → finite zu = true →
  ¬ (val y == 0)%Q → between (val zl) (val x / val y) (val zu) →
  finite (fdiv x y) = true ∧ between (val zl) (val (fdiv x y)) (val zu).
Proof.
  intros Hx Hy Hl Hu Hy0 H. unfold fdiv.
  destruct y as [sy|sy| |sy my ey]; try done.
  destruct x as [sx|sx| |sx mx ex]; try done; cbn [SFdiv].
  { eapply finite_eq_between; [done | | exact H]. cbn [val]. by field. }
  pose proof (div_core (Zpos mx) ex (Zpos my) ey ltac:(lia) ltac:(lia)) as Hcore.
  destruct (SFdiv_core_binary 53 1024 (Zpos mx) ex (Zpos my) ey) as [[q e] l]. destruct Hcore as (Hq & Hf & Hc).
  apply round_between with (c := (dyadic (Zpos mx) ex / dyadic (Zpos my) ey)%Q); [done | done | done | done | done |].
  destruct (signed_xorb sx sy (Zpos mx) ex) as [E1 _]. destruct (signed_xorb sy sx (Zpos my) ey) as [E2 _].
  unfold between in *. cbn [val] in H. rewrite E1, E2 in H.
  rewrite signed_div; [done|]. pose proof (dyadic_pos my ey). lra.
Qed.

Definition square (a : Q) : Q := (a * a)%Q.

Lemma square_lt a b : (0 <= a → a < b → square a < square b)%Q.
Proof. unfold square. intros. nra. Qed.

Lemma square_eq a b : (a == b → square a == square b)%Q.
Proof. unfold square. by intros ->. Qed.

Lemma square_dyadic q e : (square (dyadic q e) == dyadic (q * q) (e + e))%Q.
Proof. unfold square. by rewrite dyadic_mul. Qed.

Lemma div2_le a : 2 * Z.div2 a <= a.
Proof. rewrite Z.div2_div. by apply Z.mul_div_le. Qed.

Lemma sqrt_core m e : 0 < m →
  let '(q, e', l) := SFsqrt_core_binary 53 1024 m e in
  0 <= q ∧ fine q e' ∧ covers square (dyadic m e) (shr_record_of_loc q l) e'.
Proof.
  intros Hm. unfold SFsqrt_core_binary.
  set (D := Z.div2 (Zdigits2 m + e + 1)). set (e' := fexp 53 1024 D `min` Z.div2 e).
  set (m' := match e - 2 * e' with 0 => m | Zpos _ => _ | Zneg _ => 0 end).
  assert (0 <= e - 2 * e') as Hs by (pose proof (div2_le e); unfold e'; lia).
  assert (m' = m * 2 ^ (e - 2 * e')) as Em.
  { unfold m'. destruct (e - 2 * e') as [|p|p] eqn:E; [lia | by rewrite Z.shiftl_mul_pow2 by lia | lia]. }
  assert (0 <= m') as Hm' by (rewrite Em; lia). clearbody m'.
  pose proof (Z.sqrtrem_spec m' Hm') as Hsq. destruct (Z.sqrtrem m') as [q r]. destruct Hsq as [Hq Hr].
  assert (0 <= q) as Hq0 by lia. pose proof (digits_bound q Hq0) as (Hdq & _ & Hdq').
  pose proof (digits_bound m ltac:(lia)) as (_ & Hd & Hdm). specialize (Hd Hm).
  split; [done|]. split.
  - assert (D <= Zdigits2 q + e') as HD; [|unfold fine, fexp in *; unfold fexp, e' in *; lia].
    assert (m' < 2 ^ Zdigits2 q * 2 ^ Zdigits2 q) as Hlt by nia. rewrite <- Z.pow_add_r in Hlt by done.
    destruct (Z.le_gt_cases D (Zdigits2 q + e')) as [|Hgt]; [done|exfalso].
    pose proof (div2_le (Zdigits2 m + e + 1)).
    assert (2 ^ (Zdigits2 q + Zdigits2 q) <= 2 ^ (Zdigits2 m - 1 + (e - 2 * e'))) as Hle.
    { apply Z.pow_le_mono_r; [lia|]. unfold D in Hgt. lia. }
    assert (0 <= Zdigits2 m - 1) as Hm1 by (destruct m; [lia| |lia]; cbn; lia).
    rewrite (Z.pow_add_r 2 (Zdigits2 m - 1)) in Hle by lia. nia.
  - assert ((dyadic m e == dyadic m' (e' + e'))%Q) as Ec.
    { rewrite Em, (dyadic_shift m (e' + e') e) by lia. by replace (e - (e' + e')) with (e - 2 * e') by lia. }
    unfold covers. rewrite !square_dyadic, Ec. set (l := if r =? 0 then _ else _).
    replace (shr_m (shr_record_of_loc q l)) with q by (by unfold l; destruct (r =? 0), (r <=? q)).
    split; [done|]. split; [apply dyadic_le; lia|]. split; [apply dyadic_lt; lia|].
    intros Hflag. apply dyadic_lt. unfold l in Hflag. destruct (Z.eqb_spec r 0); [done | lia].
Qed.

(** A square root, by numbers whose squares bound its argument. *)
Lemma fsqrt_between x zl zu :
  finite x = true → (0 <= val x)%Q → finite zl = true → (0 <= val zl)%Q → finite zu = true → (0 <= val zu)%Q →
  between (square (val zl)) (val x) (square (val zu)) →
  finite (fsqrt x) = true ∧ between (val zl) (val (fsqrt x)) (val zu).
Proof.
  intros Hx Hx0 Hl Hl0 Hu Hu0 [H1 H2]. unfold fsqrt.
  destruct x as [s|s| |[] m e]; try done; cbn [SFsqrt].
  - split; [done|]. cbn [val] in *. unfold square in H1. split; [nra | done].
  - cbn [val cond_Zopp] in Hx0. change (Zneg m) with (- Zpos m) in Hx0. rewrite dyadic_opp in Hx0.
    pose proof (dyadic_pos m e). lra.
  - pose proof (sqrt_core (Zpos m) e ltac:(lia)) as Hcore.
    destruct (SFsqrt_core_binary 53 1024 (Zpos m) e) as [[q e'] l]. destruct Hcore as (Hq & Hf & Hc).
    destruct (round_aux_spec square _ square_lt square_eq false q e' l zu Hq Hf Hc Hu Hu0 H2) as (Hz & v & Ev & H0 & Hvu & Hlow).
    split; [done|]. cbn [signed] in Ev. unfold between. rewrite Ev. split; [by apply Hlow | done].
Qed.
