(* ===== verification/DoublesRange.v ===== *)
(** Ranges of [double]s: an operation on finite arguments whose exact result lies
    between two numbers of the format gives a finite result between them; and
    exponential moving averages stay in the range of their arguments. *)

From Stdlib Require Import SpecFloat QArith Qabs Lqa.
From S2P Require Import Prelude Doubles DoublesExact DoublesValue DoublesRound.

(** ** Numbers of the format *)

Definition representable (q : Q) : Prop := ∃ w, finite w = true ∧ (val w == q)%Q.

#[export] Instance representable_proper : Proper (Qeq ==> iff) representable.
Proof. intros p q E. unfold representable. by setoid_rewrite E. Qed.

Lemma representable_val x : finite x = true → representable (val x).
Proof. intros H. by exists x. Qed.

Lemma representable_zero : representable 0.
Proof. exists fzero. split; reflexivity. Qed.

Lemma representable_one : representable 1.
Proof. exists (of_Z 1). split; reflexivity. Qed.

Lemma representable_opp q : representable q → representable (- q).
Proof. intros (w & Hw & E). exists (fopp w). split; [by apply finite_opp|]. by rewrite val_opp, E. Qed.

Lemma representable_Z z : - 2 ^ 53 < z < 2 ^ 53 → representable (inject_Z z).
Proof. intros H. destruct (of_Z_val z H). by exists (of_Z z). Qed.

Lemma representable_dyadic m e : 0 <= m < 2 ^ 53 → -1074 <= e <= 971 → representable (dyadic m e).
Proof.
  intros Hm He. destruct (Z.eq_dec m 0) as [->|Hm0]; [exists fzero; split; [done|]; by rewrite dyadic_zero|].
  assert (0 < m < 2 ^ 53) as Hm' by lia. pose proof (log2_fits m Hm') as Hl.
  destruct (Z.le_gt_cases (-1074) (e - (52 - Z.log2 m))) as [Hn|Hs].
  - exists (double_of false m e). split; [apply finite_double_of; split; [done | lia] | by rewrite val_double_of].
  - set (k := e + 1074). assert (0 < m * 2 ^ k) as Hp by (apply Z.mul_pos_pos; lia).
    exists (S754_finite false (Z.to_pos (m * 2 ^ k)) (-1074)). cbn [finite val cond_Zopp].
    rewrite Z2Pos.id by done. split.
    + apply bounded_spec. rewrite Z2Pos.id, log2_shift by lia. lia.
    + rewrite (dyadic_shift m (-1074) e) by lia. by replace (e - -1074) with k by lia.
Qed.

Lemma representable_p2 j : -1074 <= j <= 971 → representable (p2 j).
Proof.
  intros H. rewrite <- (Qmult_1_l (p2 j)). change (1 * p2 j)%Q with (dyadic 1 j). by apply representable_dyadic.
Qed.

(** ** Ranges *)

Definition in_range (lo hi : Q) (x : double) : Prop := finite x = true ∧ between lo (val x) hi.

#[export] Instance in_range_proper : Proper (Qeq ==> Qeq ==> eq ==> iff) in_range.
Proof. intros l l' El u u' Eu x ? <-. unfold in_range, between. by rewrite El, Eu. Qed.

Lemma in_range_finite lo hi x : in_range lo hi x → finite x = true.
Proof. by intros []. Qed.

Lemma in_range_le lo hi lo' hi' x : in_range lo hi x → (lo' <= lo)%Q → (hi <= hi')%Q → in_range lo' hi' x.
Proof. intros [H [H1 H2]] Hl Hh. split; [done|]. split; lra. Qed.

Section operations.
Context (lo hi : Q) (Hlo : representable lo) (Hhi : representable hi).

Lemma range_of z :
  (∀ zl zu, finite zl = true → finite zu = true → (val zl == lo)%Q → (val zu == hi)%Q →
     finite z = true ∧ between (val zl) (val z) (val zu)) → in_range lo hi z.
Proof.
  destruct Hlo as (zl & Hl & El), Hhi as (zu & Hu & Eu). intros H.
  destruct (H zl zu Hl Hu El Eu) as [Hz [H1 H2]]. split; [done|]. split; lra.
Qed.

Lemma between_eq zl x zu : (val zl == lo)%Q → (val zu == hi)%Q → between lo x hi → between (val zl) x (val zu).
Proof. intros E1 E2 [H1 H2]. split; lra. Qed.

Lemma fadd_range x y : finite x = true → finite y = true →
  between lo (val x + val y) hi → in_range lo hi (fadd x y).
Proof. intros Hx Hy H. apply range_of. intros. apply fadd_between; eauto using between_eq. Qed.

Lemma fsub_range x y : finite x = true → finite y = true →
  between lo (val x - val y) hi → in_range lo hi (fsub x y).
Proof. intros Hx Hy H. apply range_of. intros. apply fsub_between; eauto using between_eq. Qed.

Lemma fmul_range x y : finite x = true → finite y = true →
  between lo (val x * val y) hi → in_range lo hi (fmul x y).
Proof. intros Hx Hy H. apply range_of. intros. apply fmul_between; eauto using between_eq. Qed.

Lemma fdiv_range x y : finite x = true → finite y = true → ¬ (val y == 0)%Q →
  between lo (val x / val y) hi → in_range lo hi (fdiv x y).
Proof. intros Hx Hy H0 H. apply range_of. intros. apply fdiv_between; eauto using between_eq. Qed.

Lemma fsqrt_range x : finite x = true → (0 <= lo)%Q → (0 <= hi)%Q →
  between (square lo) (val x) (square hi) → in_range lo hi (fsqrt x).
Proof.
  intros Hx H1 H2 [H3 H4]. apply range_of. intros zl zu Hl Hu El Eu.
  pose proof (square_eq _ _ El). pose proof (square_eq _ _ Eu).
  apply fsqrt_between; try done; try lra; [|split; lra]. unfold square in *. nra.
Qed.

Lemma of_Z_range z : between lo (inject_Z z) hi → in_range lo hi (of_Z z).
Proof.
  intros H. apply range_of. intros zl zu Hl Hu El Eu. apply normalize_between; [done..|].
  unfold between in *. rewrite dyadic_int. split; lra.
Qed.
End operations.

Lemma fopp_range lo hi x : in_range lo hi x → in_range (- hi) (- lo) (fopp x).
Proof. intros [H [H1 H2]]. split; [by apply finite_opp|]. unfold between. rewrite val_opp. split; lra. Qed.

Lemma fabs_range hi x : in_range (- hi) hi x → in_range 0 hi (fabs x).
Proof.
  intros [H [H1 H2]]. split; [by apply finite_abs|]. unfold between. rewrite val_abs.
  split; [apply Qabs_nonneg | by apply Qabs_Qle_condition].
Qed.

Lemma fclamp_range x lo hi : finite x = true → finite lo = true → finite hi = true → (val lo <= val hi)%Q →
  in_range (val lo) (val hi) (fclamp x lo hi).
Proof. intros. by apply val_clamp. Qed.

Lemma fmax_range x y lo hi lo' : in_range lo hi x → in_range lo' hi y → in_range lo hi (fmax x y).
Proof.
  intros [Hx [H1 H2]] [Hy [H3 H4]]. split; [by apply finite_max|].
  destruct (val_max x y Hx Hy) as [Hm _]. split; [lra|]. unfold fmax. by destruct (flt x y).
Qed.

Lemma fmax_range' x y lo hi lo' : in_range lo' hi x → in_range lo hi y → in_range lo hi (fmax x y).
Proof.
  intros [Hx [H1 H2]] [Hy [H3 H4]]. split; [by apply finite_max|].
  destruct (val_max x y Hx Hy) as [_ Hm]. split; [lra|]. unfold fmax. by destruct (flt x y).
Qed.

Lemma fmin_range x y lo hi hi' : in_range lo hi' x → in_range lo hi y → in_range lo hi (fmin x y).
Proof.
  intros [Hx [H1 H2]] [Hy [H3 H4]]. split; [by apply finite_min|].
  destruct (val_min x y Hx Hy) as (_ & Hm & [E|E]); split; lra.
Qed.

(** A product with a factor of at most 1. *)
Lemma shrink_range x b hi : in_range 0 hi x → in_range 0 1 b → in_range 0 hi (fmul x b).
Proof.
  intros [Hx [H1 H2]] [Hb [H3 H4]]. apply in_range_le with 0%Q (val x); [|lra|done].
  apply fmul_range; [apply representable_zero | by apply representable_val | done | done |]. split; nra.
Qed.

Lemma weigh_range w x hi : in_range 0 1 w → in_range 0 hi x → in_range 0 hi (fmul w x).
Proof.
  intros [Hw [H3 H4]] [Hx [H1 H2]]. apply in_range_le with 0%Q (val x); [|lra|done].
  apply fmul_range; [apply representable_zero | by apply representable_val | done | done |]. split; nra.
Qed.

(** ** Exponential moving averages *)

(** The weights [1 - e] and [1 - (1 - e)] have the sum 1, rounding included: if [e]
    is at least 1/2 the first is exact, and otherwise the second is. *)
Lemma half_complement x : in_range (1 # 2) 1 x → representable (1 - val x).
Proof.
  intros [Hx [H1 H2]]. destruct (grid x (2 ^ 52) (-53) Hx) as [[q E]|H]; [lia | by right | |].
  - assert ((1 - val x == dyadic (2 ^ 53 - q) (-53))%Q) as Ec.
    { rewrite E. unfold dyadic. rewrite inject_Z_minus || (unfold Z.sub; rewrite inject_Z_plus, inject_Z_opp).
      assert ((inject_Z (2 ^ 53) * p2 (-53) == 1)%Q) as Ep by reflexivity. rewrite Qmult_plus_distr_l, Ep. ring. }
    rewrite Ec. assert ((dyadic (2 ^ 52) (-53) == 1 # 2)%Q) as E2 by reflexivity.
    assert ((dyadic (2 ^ 53) (-53) == 1)%Q) as E1 by reflexivity.
    rewrite E in H1, H2. rewrite <- E2 in H1. rewrite <- E1 in H2. apply dyadic_le in H1, H2.
    apply representable_dyadic; lia.
  - assert ((dyadic (2 ^ 52) (-53) == 1 # 2)%Q) as E2 by reflexivity. lra.
Qed.

Lemma val_one : (val (of_Z 1) == 1)%Q.
Proof. reflexivity. Qed.

Lemma complement_range x : in_range 0 1 x → in_range 0 1 (fsub (of_Z 1) x).
Proof.
  intros [Hx [H1 H2]]. apply fsub_range; [apply representable_zero | apply representable_one | done | done |].
  rewrite val_one. split; lra.
Qed.

Lemma complement_exact x : in_range 0 1 x → representable (1 - val x) →
  (val (fsub (of_Z 1) x) == 1 - val x)%Q.
Proof.
  intros [Hx [H1 H2]] Hr. destruct (fsub_range _ _ Hr Hr (of_Z 1) x) as [_ [H3 H4]]; [done | done | |lra].
  rewrite val_one. split; lra.
Qed.

Lemma weights_exact e : in_range 0 1 e →
  let a := fsub (of_Z 1) e in (val (fsub (of_Z 1) a) == 1 - val a)%Q.
Proof.
  intros He a. pose proof (complement_range e He) as Ha. fold a in Ha. apply complement_exact; [done|].
  destruct (Qlt_le_dec (val e) (1 # 2)) as [Hlt|Hge].
  - apply half_complement. destruct Ha as [Hf [_ H1]], He as [Hfe [H0 _]].
    apply in_range_le with (1 # 2) 1%Q; [|lra|lra].
    apply fsub_range; [by exists (dec 5 1) | apply representable_one | done | done |]. rewrite val_one. split; lra.
  - destruct He as [Hfe [H0 H1]].
    assert ((val a == 1 - val e)%Q) as ->.
    { apply complement_exact; [done|]. apply half_complement. done. }
    assert ((1 - (1 - val e) == val e)%Q) as -> by ring. by apply representable_val.
Qed.

(** A bound that every weight scales to a number of the format. *)
Definition scalable (q : Q) : Prop := ∀ u, in_range 0 1 u → representable (val u * q).

Lemma scalable_zero : scalable 0.
Proof. intros u _. exists fzero. split; [done|]. cbn. ring. Qed.

Lemma scalable_opp q : scalable q → scalable (- q).
Proof.
  intros H u Hu. assert ((val u * - q == - (val u * q))%Q) as -> by ring. by apply representable_opp, H.
Qed.

Lemma scalable_p2 j : 0 <= j <= 971 → scalable (p2 j).
Proof.
  intros Hj u [Hu [H0 H1]]. destruct u as [s|s| |s m e]; try done.
  { exists fzero. split; [done|]. cbn. ring. }
  cbn [finite val] in *. apply mantissa_range in Hu as (Hm & He & Hn).
  destruct s; cbn [cond_Zopp] in *.
  { change (Zneg m) with (- Zpos m) in H0. rewrite dyadic_opp in H0. pose proof (dyadic_pos m e). lra. }
  assert ((dyadic (Zpos m) e * p2 j == dyadic (Zpos m) (e + j))%Q) as ->.
  { unfold dyadic. rewrite p2_add. ring. }
  assert (e <= 0) as He0.
  { destruct (Z.le_gt_cases e 0) as [|Hgt]; [done|exfalso].
    assert ((dyadic 1 0 < dyadic (Zpos m) e)%Q) as Hlt; [|change (dyadic 1 0) with (1 * p2 0)%Q in Hlt].
    { rewrite (dyadic_shift (Zpos m) 0 e) by lia. apply dyadic_lt. rewrite Z.sub_0_r.
      assert (2 <= 2 ^ e) by (change 2 with (2 ^ 1) at 1; apply Z.pow_le_mono_r; lia). lia. }
    rewrite (p2_Z 0) in Hlt by lia. change (inject_Z (2 ^ 0)) with 1%Q in Hlt. lra. }
  apply representable_dyadic; lia.
Qed.

Lemma scalable_one : scalable 1.
Proof. change 1%Q with (inject_Z (2 ^ 0)). intros u. rewrite <- p2_Z by lia. by apply scalable_p2. Qed.

Lemma scalable_representable q : scalable q → representable q.
Proof.
  intros H. assert ((q == val (of_Z 1) * q)%Q) as -> by (rewrite val_one; ring). apply H.
  split; [done|]. rewrite val_one. split; lra.
Qed.

(** [(1.0 - a) * x + a * y] with [a = 1.0 - e] *)
Lemma average_range lo hi e x y : scalable lo → scalable hi → in_range 0 1 e → in_range lo hi x → in_range lo hi y →
  let a := fsub (of_Z 1) e in in_range lo hi (fadd (fmul (fsub (of_Z 1) a) x) (fmul a y)).
Proof.
  intros Hlo Hhi He Hx Hy a. pose proof (complement_range e He) as Ha. fold a in Ha.
  pose proof (complement_range a Ha) as Hb. pose proof (weights_exact e He) as E. fold a in E. cbv zeta in E.
  set (b := fsub (of_Z 1) a) in *. clearbody a b.
  assert (∀ w z, in_range 0 1 w → in_range lo hi z → in_range (val w * lo) (val w * hi) (fmul w z)) as Hw.
  { intros w z Hw [Hz [H1 H2]]. apply fmul_range; [by apply Hlo | by apply Hhi | by destruct Hw | done |].
    destruct Hw as [_ [H3 H4]]. split; nra. }
  destruct (Hw b x Hb Hx) as [F1 [H1 H2]]. destruct (Hw a y Ha Hy) as [F2 [H3 H4]].
  apply fadd_range; [by apply scalable_representable.. | done | done |]. rewrite E in H1, H2. split; lra.
Qed.
