(* ===== verification/DoublesNear.v ===== *)
(** Rounding is to the nearest: a sum is not rounded up by more than its distance
    from any [double] below it.  In particular adding [y] to [x] adds at most
    twice [y], however large [x] is. *)

From Stdlib Require Import SpecFloat QArith Qabs Lqa.
From S2P Require Import Prelude Doubles DoublesExact DoublesValue DoublesRound DoublesRange.

(** ** The bit that decides *)

(** The last bit shifted out is set: the exact number is at least half way to the
    next mantissa. *)
Definition half_way (c : Q) (r : shr_record) (e : Z) : Prop :=
  shr_r r = true → (dyadic (2 * shr_m r + 1) (e - 1) <= c)%Q.

Lemma round_nearest_even_case r :
  round_nearest_even (shr_m r) (loc_of_shr_record r) = shr_m r ∨
  round_nearest_even (shr_m r) (loc_of_shr_record r) = shr_m r + 1 ∧ shr_r r = true.
Proof. destruct r as [m [] []]; cbn; try (destruct (Z.even m)); auto. Qed.

Section half.
Context (c : Q).
#[local] Notation covers := (covers id c).

Lemma id_lt (a b : Q) : (0 <= a → a < b → id a < id b)%Q.
Proof. done. Qed.

Lemma id_eq (a b : Q) : (a == b → id a == id b)%Q.
Proof. done. Qed.

Lemma half_way_shr_1 r e : covers r e → half_way c (shr_1 r) (e + 1).
Proof.
  destruct r as [m r s]. intros (H0 & H1 & _) Hr. cbn [shr_m] in *. unfold id in H1.
  replace (e + 1 - 1) with e by lia.
  destruct m as [|[p|p|]|p]; cbn [shr_1 shr_r shr_m] in *; try done; exact H1.
Qed.

Lemma half_way_shr M e n : 0 <= n → covers (shr_record_of_loc M loc_Exact) e →
  half_way c (shr (shr_record_of_loc M loc_Exact) e n).1 (shr (shr_record_of_loc M loc_Exact) e n).2.
Proof.
  intros Hn Hc. destruct n as [|p|p]; [done | | lia]. cbn [shr fst snd]. rewrite iter_pos_nat.
  destruct (Pos2Nat.is_succ p) as [k Ek]. rewrite <- (positive_nat_Z p), Ek. cbn [Nat.iter].
  rewrite Nat2Z.inj_succ. replace (e + Z.succ (Z.of_nat k)) with (e + Z.of_nat k + 1) by lia.
  apply half_way_shr_1, covers_iter; auto using id_lt, id_eq.
Qed.

(** Rounding up needs the bit. *)
Lemma rounded_near r e l :
  covers r e → half_way c r e → -1074 <= e → (e = -1074 ∨ 2 ^ 52 <= shr_m r) →
  finite l = true → (val l <= c)%Q →
  (dyadic (round_nearest_even (shr_m r) (loc_of_shr_record r)) e <= c + (c - val l))%Q.
Proof.
  intros Hc Hh He Hm Hl Hle. pose proof Hc as (H0 & H1 & H2 & _). unfold id in *.
  assert ((val l <= dyadic (shr_m r) e)%Q) as Hlow.
  { destruct (grid l (shr_m r) e Hl He Hm) as [[q Eq]|Hlt]; [|lra].
    assert ((dyadic q e < dyadic (shr_m r + 1) e)%Q) as Hlt by lra.
    rewrite Eq. apply dyadic_lt in Hlt. apply dyadic_le. lia. }
  destruct (round_nearest_even_case r) as [-> | [-> Hr]]; [lra|].
  specialize (Hh Hr).
  assert ((dyadic (shr_m r) e + dyadic (shr_m r + 1) e == 2 * dyadic (2 * shr_m r + 1) (e - 1))%Q) as Emid.
  { rewrite <- dyadic_add. replace (shr_m r + (shr_m r + 1)) with (2 * shr_m r + 1) by lia.
    rewrite (dyadic_shift _ (e - 1) e) by lia. replace (e - (e - 1)) with 1 by lia.
    change (2 ^ 1) with 2. rewrite Z.mul_comm. unfold dyadic. rewrite inject_Z_mult. change (inject_Z 2) with 2%Q. ring. }
  lra.
Qed.
End half.

(** ** Sums *)

Lemma round_aux_near M e c l u :
  0 <= M → fine M e → covers id c (shr_record_of_loc M loc_Exact) e →
  finite u = true → (c <= val u)%Q → finite l = true → (val l <= c)%Q →
  (val (binary_round_aux 53 1024 false M e loc_Exact) <= c + (c - val l))%Q.
Proof.
  intros HM Hf Hc Hu Hcu Hl Hle. pose proof (covers_nonneg _ _ _ Hc) as Hc0. unfold binary_round_aux.
  pose proof (first_shift id c (id_lt) (id_eq) M e loc_Exact HM Hf Hc) as H1.
  assert (0 <= fexp 53 1024 (Zdigits2 M + e) - e) as Hn by (unfold fine in Hf; lia).
  pose proof (half_way_shr c M e _ Hn Hc) as Hh. unfold shr_fexp in *.
  destruct (shr (shr_record_of_loc M loc_Exact) e _) as [r e1]. cbn [fst snd] in Hh.
  destruct H1 as (Hc1 & He1 & Hr1 & Hr2).
  pose proof (rounded_mantissa id c id_lt id_eq r e1 Hc1 He1 Hr2) as (Hm & _).
  pose proof (rounded_near c r e1 l Hc1 Hh He1 Hr2 Hl Hle) as Hnear.
  destruct Hc1 as [Hr0 _]. set (m := round_nearest_even _ _) in *.
  pose proof (second_shift m e1 ltac:(lia) He1 ltac:(lia)) as H2. unfold shr_fexp in H2.
  destruct (shr (shr_record_of_loc m loc_Exact) e1 _) as [r2 e2]. destruct H2 as (H0 & E & _).
  destruct (shr_m r2) as [|p|p] eqn:Ep; [| |lia].
  - cbn [val]. lra.
  - destruct (e2 <=? 1024 - 53); cbn [val cond_Zopp]; [by rewrite E | lra].
Qed.

Lemma fadd_near x y l u :
  finite x = true → finite y = true → (0 <= val x)%Q → (0 <= val y)%Q → finite u = true → (val x + val y <= val u)%Q →
  finite l = true → (val l <= val x + val y)%Q →
  (val (fadd x y) <= (val x + val y) + ((val x + val y) - val l))%Q.
Proof.
  intros Hx Hy X0 Y0 Hu Hc Hl Hle. unfold fadd.
  destruct x as [sx|sx| |sx mx ex], y as [sy|sy| |sy my ey]; try done; cbn [SFadd].
  1-3: cbn [val] in *; try (destruct sx, sy); cbn [val cond_Zopp] in *; lra.
  destruct sx; [cbn [val cond_Zopp] in X0; change (Zneg mx) with (- Zpos mx) in X0; rewrite dyadic_opp in X0;
    pose proof (dyadic_pos mx ex); lra|].
  destruct sy; [cbn [val cond_Zopp] in Y0; change (Zneg my) with (- Zpos my) in Y0; rewrite dyadic_opp in Y0;
    pose proof (dyadic_pos my ey); lra|].
  cbn [cond_Zopp val] in *. cbv zeta. set (e := ex `min` ey).
  set (a := (shl_align mx ex e).1). set (b := (shl_align my ey e).1).
  assert ((dyadic (Zpos mx) ex + dyadic (Zpos my) ey == dyadic (Zpos (a + b)) e)%Q) as E.
  { rewrite Pos2Z.inj_add, dyadic_add. unfold a, b. rewrite !shl_align_value by (unfold e; lia).
    rewrite (dyadic_shift (Zpos mx) e ex), (dyadic_shift (Zpos my) e ey) by (unfold e; lia). done. }
  rewrite E in *. unfold binary_normalize. change (Zpos a + Zpos b) with (Zpos (a + b)).
  destruct (aligned_form false (a + b) e) as (M & f & -> & HM & Hf & Hcov). by apply round_aux_near with u.
Qed.

(** A sum exceeds its first argument by at most twice the second. *)
Lemma fadd_grows x y j :
  finite x = true → finite y = true → (0 <= val x)%Q → (0 <= val y)%Q → j <= 971 → -1074 <= j → (val x + val y <= p2 j)%Q →
  in_range (val x) (val x + 2 * val y) (fadd x y).
Proof.
  intros Hx Hy X0 Y0 Hj1 Hj2 Hc. destruct (representable_p2 j ltac:(lia)) as (u & Hu & Eu).
  destruct (fadd_range (val x) (p2 j) (representable_val _ Hx) (representable_p2 j ltac:(lia)) x y Hx Hy) as [Hf [H1 _]].
  { split; [lra | done]. }
  split; [done|]. split; [done|].
  pose proof (fadd_near x y x u Hx Hy X0 Y0 Hu ltac:(rewrite Eu; done) Hx ltac:(lra)). lra.
Qed.
