(* ===== verification/DoublesInterval.v ===== *)
(** Interval arithmetic for expressions of [double]s, by computation: bounds are
    multiples of 2{^-30}, rounded outwards; the bounds hold for the results of the
    machine, rounded at every operation. *)

From Stdlib Require Import SpecFloat QArith Qabs Lqa.
From S2P Require Import Prelude Doubles DoublesExact DoublesValue DoublesRound DoublesRange.

(** ** Expressions *)

Inductive expr :=
  | Var (n : nat)
  | Lit (x : double)
  | Opp (a : expr)
  | Abs (a : expr)
  | Sqrt (a : expr)
  | Add (a b : expr)
  | Sub (a b : expr)
  | Mul (a b : expr)
  | Div (a b : expr)
  | Max (a b : expr)
  | Min (a b : expr)
  | Clamp (a lo hi : expr).

Fixpoint value (env : list double) (e : expr) : double :=
  match e with
  | Var n => nth n env S754_nan
  | Lit x => x
  | Opp a => fopp (value env a)
  | Abs a => fabs (value env a)
  | Sqrt a => fsqrt (value env a)
  | Add a b => fadd (value env a) (value env b)
  | Sub a b => fsub (value env a) (value env b)
  | Mul a b => fmul (value env a) (value env b)
  | Div a b => fdiv (value env a) (value env b)
  | Max a b => fmax (value env a) (value env b)
  | Min a b => fmin (value env a) (value env b)
  | Clamp a lo hi => fclamp (value env a) (value env lo) (value env hi)
  end.

(** ** Intervals *)

Definition interval : Type := Z * Z.

Definition unit : Z := 2 ^ 30.
Definition fixed (z : Z) : Q := dyadic z (-30).

Definition inside (i : interval) (x : double) : Prop := in_range (fixed i.1) (fixed i.2) x.

(** A bound with at most 53 bits. *)
Definition down (z : Z) : Z := let s := Z.log2 (Z.abs z) - 51 in if s <=? 0 then z else z / 2 ^ s * 2 ^ s.
Definition up (z : Z) : Z := - down (- z).

Definition outward (lo hi : Z) : option interval :=
  if Z.max (Z.abs lo) (Z.abs hi) <? 2 ^ 900 then Some (down lo, up hi) else None.

Definition lit_interval (x : double) : option interval :=
  match x with
  | S754_zero _ => Some (0, 0)
  | S754_finite s m e =>
      if finite x then
        let z := cond_Zopp s (Zpos m) in outward (Z.shiftl z (e + 30)) (- Z.shiftl (- z) (e + 30))
      else None
  | _ => None
  end.

Definition mul_interval (i j : interval) : option interval :=
  let p := i.1 * j.1 in let q := i.1 * j.2 in let r := i.2 * j.1 in let s := i.2 * j.2 in
  outward (Z.min (Z.min p q) (Z.min r s) / unit) (- (- Z.max (Z.max p q) (Z.max r s) / unit)).

(** Only by numbers above zero. *)
Definition div_interval (i j : interval) : option interval :=
  if 0 <? j.1 then
    outward (i.1 * unit / (if 0 <=? i.1 then j.2 else j.1)) (- (- i.2 * unit / (if 0 <=? i.2 then j.1 else j.2)))
  else None.

Definition sqrt_interval (i : interval) : option interval :=
  if 0 <=? i.1 then outward (Z.sqrt (i.1 * unit)) (Z.sqrt (i.2 * unit) + 1) else None.

Fixpoint bounds (env : list interval) (e : expr) : option interval :=
  match e with
  | Var n => env !! n
  | Lit x => lit_interval x
  | Opp a => i ← bounds env a; Some (- i.2, - i.1)
  | Abs a => i ← bounds env a; let h := Z.max (- i.1) i.2 in Some (0, h)
  | Sqrt a => i ← bounds env a; sqrt_interval i
  | Add a b => i ← bounds env a; j ← bounds env b; outward (i.1 + j.1) (i.2 + j.2)
  | Sub a b => i ← bounds env a; j ← bounds env b; outward (i.1 - j.2) (i.2 - j.1)
  | Mul a b => i ← bounds env a; j ← bounds env b; mul_interval i j
  | Div a b => i ← bounds env a; j ← bounds env b; div_interval i j
  | Max a b => i ← bounds env a; j ← bounds env b; Some (Z.max i.1 j.1, Z.max i.2 j.2)
  | Min a b => i ← bounds env a; j ← bounds env b; Some (Z.min i.1 j.1, Z.min i.2 j.2)
  | Clamp a lo hi =>
      i ← bounds env a; j ← bounds env lo; k ← bounds env hi;
      if j.2 <=? k.1 then Some (j.1, k.2) else None
  end.

(** ** Soundness *)

Lemma fixed_le a b : a <= b → (fixed a <= fixed b)%Q.
Proof. apply dyadic_le. Qed.

Lemma fixed_mul a b : (fixed a * fixed b == dyadic (a * b) (-60))%Q.
Proof. unfold fixed. symmetry. apply (dyadic_mul a b (-30) (-30)). Qed.

Lemma fixed_fine a : (fixed a == dyadic (a * unit) (-60))%Q.
Proof. unfold fixed. by rewrite (dyadic_shift a (-60) (-30)). Qed.

Lemma fixed_opp a : (fixed (- a) == - fixed a)%Q.
Proof. apply dyadic_opp. Qed.

Lemma down_le z : down z <= z.
Proof.
  unfold down. destruct (Z.leb_spec (Z.log2 (Z.abs z) - 51) 0); [done|].
  rewrite Z.mul_comm. apply Z.mul_div_le. lia.
Qed.

Lemma down_representable z : Z.abs z < 2 ^ 900 → representable (fixed (down z)).
Proof.
  intros Hz. assert (∀ k s, Z.abs k < 2 ^ 53 → 0 <= s <= 900 → representable (fixed (k * 2 ^ s))) as Hrep.
  { intros k s Hk Hs. unfold fixed.
    assert ((dyadic (k * 2 ^ s) (-30) == dyadic k (s - 30))%Q) as ->.
    { rewrite (dyadic_shift k (-30) (s - 30)) by lia. by replace (s - 30 - -30) with s by lia. }
    destruct (Z.le_gt_cases 0 k); [apply representable_dyadic; lia|].
    replace k with (- - k) by lia. rewrite dyadic_opp. apply representable_opp, representable_dyadic; lia. }
  unfold down. destruct (Z.eq_dec z 0) as [->|Hz0]; [by exists fzero|].
  pose proof (Z.log2_spec (Z.abs z) ltac:(lia)) as [_ H2].
  assert (Z.log2 (Z.abs z) < 900) as Hl by (apply Z.log2_lt_pow2; lia).
  destruct (Z.leb_spec (Z.log2 (Z.abs z) - 51) 0) as [Hs|Hs].
  - rewrite <- (Z.mul_1_r z). change 1 with (2 ^ 0). apply Hrep; [|lia].
    eapply Z.lt_le_trans; [exact H2|]. apply Z.pow_le_mono_r; lia.
  - set (s := Z.log2 (Z.abs z) - 51) in *. apply Hrep; [|lia].
    assert (2 ^ Z.succ (Z.log2 (Z.abs z)) = 2 ^ 52 * 2 ^ s) as E by (rewrite <- Z.pow_add_r by lia; f_equal; unfold s; lia).
    assert (0 < 2 ^ s) as Hp by lia. rewrite E in H2.
    assert (- 2 ^ 52 <= z / 2 ^ s) by (apply Z.div_le_lower_bound; lia).
    assert (z / 2 ^ s < 2 ^ 52) by (apply Z.div_lt_upper_bound; lia). lia.
Qed.

Lemma up_ge z : z <= up z.
Proof. unfold up. pose proof (down_le (- z)). lia. Qed.

Lemma up_representable z : Z.abs z < 2 ^ 900 → representable (fixed (up z)).
Proof. intros H. unfold up. rewrite fixed_opp. apply representable_opp, down_representable. lia. Qed.

(** The result of an operation whose exact result is between the bounds. *)
Lemma outward_inside lo hi i x :
  outward lo hi = Some i →
  (∀ l h, representable l → representable h → (l <= fixed lo)%Q → (fixed hi <= h)%Q → in_range l h x) → inside i x.
Proof.
  unfold outward. destruct (Z.ltb_spec (Z.max (Z.abs lo) (Z.abs hi)) (2 ^ 900)) as [Hlt|]; [|done].
  intros [= <-] H. unfold inside. cbn [fst snd]. apply H.
  - apply down_representable. lia.
  - apply up_representable. lia.
  - apply fixed_le, down_le.
  - apply fixed_le, up_ge.
Qed.

Lemma div_unit z : (fixed (z / unit) <= dyadic z (-60))%Q.
Proof. rewrite fixed_fine. apply dyadic_le. rewrite Z.mul_comm. by apply Z.mul_div_le. Qed.

Lemma div_unit_up z : (dyadic z (-60) <= fixed (- (- z / unit)))%Q.
Proof. pose proof (div_unit (- z)) as H. rewrite fixed_opp. rewrite dyadic_opp in H. lra. Qed.

(** A product is between the products of the bounds. *)
Lemma product_between a b c d x y l h :
  between a x b → between c y d →
  between l (a * c) h → between l (a * d) h → between l (b * c) h → between l (b * d) h → between l (x * y) h.
Proof.
  intros [H1 H2] [H3 H4] [A1 A2] [B1 B2] [C1 C2] [D1 D2].
  destruct (Qlt_le_dec y 0) as [Hy|Hy], (Qlt_le_dec a 0) as [Ha|Ha], (Qlt_le_dec b 0) as [Hb|Hb]; split; nra.
Qed.

Lemma mul_sound i j k x y : inside i x → inside j y → mul_interval i j = Some k → inside k (fmul x y).
Proof.
  intros [Hx Bx] [Hy By] E. unfold mul_interval in E. eapply outward_inside; [exact E|]. intros l h Hl Hh Ll Lh.
  apply fmul_range; [done | done | done | done |].
  set (m := Z.min _ _) in *. set (n := Z.max _ _) in *. pose proof (div_unit m). pose proof (div_unit_up n).
  assert (∀ p, m <= p <= n → between l (dyadic p (-60)) h) as Hb.
  { intros p [Hm Hn]. assert ((dyadic m (-60) <= dyadic p (-60))%Q) by (by apply dyadic_le).
    assert ((dyadic p (-60) <= dyadic n (-60))%Q) by (by apply dyadic_le). split; lra. }
  apply (product_between _ _ _ _ _ _ _ _ Bx By); rewrite fixed_mul; apply Hb; lia.
Qed.

(** The quotient of the bounds, for numerators of either sign. *)
Lemma quotient_below a c d x y :
  0 < c → (fixed a <= x)%Q → between (fixed c) y (fixed d) →
  (fixed (a * unit / (if 0 <=? a then d else c)) <= x / y)%Q.
Proof.
  intros Hc Hx [H1 H2]. assert ((0 < fixed c)%Q) as Hc0 by (rewrite <- (dyadic_zero (-30)); by apply dyadic_lt).
  apply Qle_shift_div_l; [lra|]. set (q := _ / _).
  assert (c <= d) as Hcd by (apply (dyadic_le c d (-30)); unfold fixed in *; lra).
  destruct (Z.leb_spec 0 a) as [Ha|Ha].
  - assert (0 <= q) as Hq by (apply Z.div_pos; unfold unit; lia).
    assert (q * d <= a * unit) as Hqd by (rewrite Z.mul_comm; apply Z.mul_div_le; lia).
    assert ((0 <= fixed q)%Q) as Hq0 by (by apply dyadic_nonneg).
    assert ((fixed q * fixed d <= fixed a)%Q) as Hp by (rewrite fixed_mul, fixed_fine; by apply dyadic_le). nra.
  - assert (q <= 0) as Hq.
    { apply Z.lt_succ_r. apply Z.div_lt_upper_bound; [lia|]. unfold unit. lia. }
    assert (q * c <= a * unit) as Hqc by (rewrite Z.mul_comm; apply Z.mul_div_le; lia).
    assert ((fixed q <= 0)%Q) as Hq0 by (rewrite <- (dyadic_zero (-30)); by apply dyadic_le).
    assert ((fixed q * fixed c <= fixed a)%Q) as Hp by (rewrite fixed_mul, fixed_fine; by apply dyadic_le). nra.
Qed.

Lemma div_sound i j k x y : inside i x → inside j y → div_interval i j = Some k → inside k (fdiv x y).
Proof.
  intros [Hx [X1 X2]] [Hy By] E. unfold div_interval in E. destruct (Z.ltb_spec 0 j.1) as [Hj|]; [|done].
  assert ((0 < fixed j.1)%Q) as Hc0 by (rewrite <- (dyadic_zero (-30)); by apply dyadic_lt).
  assert (¬ (val y == 0)%Q) as Hy0 by (destruct By; lra).
  eapply outward_inside; [exact E|]. intros l h Hl Hh Ll Lh. apply fdiv_range; [done..|].
  pose proof (quotient_below i.1 j.1 j.2 (val x) (val y) Hj X1 By) as Hlow.
  assert ((fixed (- i.2) <= - val x)%Q) as X3 by (rewrite fixed_opp; lra).
  pose proof (quotient_below (- i.2) j.1 j.2 (- val x) (val y) Hj X3 By) as Hupp.
  assert ((- val x / val y == - (val x / val y))%Q) as En by (by field). rewrite En in Hupp.
  assert ((if 0 <=? i.2 then j.1 else j.2) = (if 0 <=? - i.2 then j.2 else j.1) ∨ i.2 = 0) as [Eb|Ez].
  { destruct (Z.leb_spec 0 i.2), (Z.leb_spec 0 (- i.2)); auto; lia. }
  - rewrite Eb, fixed_opp in Lh. split; lra.
  - rewrite Ez in *. cbn [Z.opp Z.mul Z.leb] in *. rewrite Zdiv_0_l in Lh, Hupp. rewrite fixed_opp in Lh. split; lra.
Qed.

Lemma down_nonneg z : 0 <= z → 0 <= down z.
Proof.
  intros Hz. unfold down. destruct (Z.leb_spec (Z.log2 (Z.abs z) - 51) 0); [done|].
  apply Z.mul_nonneg_nonneg; [apply Z.div_pos; lia | apply Z.pow_nonneg; lia].
Qed.

(** The roots of the bounds, as multiples of the unit. *)
Lemma root_below a : 0 <= a → (square (fixed (Z.sqrt (a * unit))) <= fixed a)%Q.
Proof.
  intros Ha. pose proof (Z.sqrt_spec (a * unit) ltac:(unfold unit; lia)) as [H _].
  unfold square. rewrite fixed_mul, fixed_fine. by apply dyadic_le.
Qed.

Lemma root_above a : 0 <= a → (fixed a <= square (fixed (Z.sqrt (a * unit) + 1)))%Q.
Proof.
  intros Ha. pose proof (Z.sqrt_spec (a * unit) ltac:(unfold unit; lia)) as [_ H].
  unfold square. rewrite fixed_mul, fixed_fine. apply dyadic_le. lia.
Qed.

Lemma sqrt_sound i k x : inside i x → sqrt_interval i = Some k → inside k (fsqrt x).
Proof.
  intros [Hx [X1 X2]] E. unfold sqrt_interval in E. destruct (Z.leb_spec 0 i.1) as [Hi|]; [|done].
  assert (i.1 <= i.2) as Hle by (apply (dyadic_le i.1 i.2 (-30)); unfold fixed in *; lra).
  pose proof (root_below i.1 Hi) as Ra. pose proof (root_above i.2 ltac:(lia)) as Rb.
  pose proof (Z.sqrt_nonneg (i.1 * unit)) as Ha. pose proof (Z.sqrt_nonneg (i.2 * unit)) as Hb.
  set (a := Z.sqrt (i.1 * unit)) in *. set (b := Z.sqrt (i.2 * unit)) in *. clearbody a b.
  unfold outward in E. destruct (_ <? _) eqn:Et; [|done]. injection E as <-. apply Z.ltb_lt in Et.
  pose proof (fixed_le _ _ (down_le a)) as Da. pose proof (fixed_le _ _ (up_ge (b + 1))) as Db.
  pose proof (proj1 (dyadic_nonneg _ (-30)) (down_nonneg a Ha)) as D0. fold (fixed (down a)) in D0.
  assert ((0 <= fixed (b + 1))%Q) as B0 by (apply dyadic_nonneg; lia).
  apply fsqrt_range; [apply down_representable; lia | apply up_representable; lia | done | done | cbn [snd]; lra |].
  cbn [fst snd]. unfold square in *. split; nra.
Qed.

Lemma lit_sound x i : lit_interval x = Some i → inside i x.
Proof.
  destruct x as [s|s| |s m e]; try done.
  - intros [= <-]. split; [done|]. cbn [fst snd val]. unfold fixed. rewrite dyadic_zero. split; lra.
  - cbn [lit_interval]. destruct (finite (S754_finite s m e)) eqn:Hf; [|done]. intros E.
    set (z := cond_Zopp s (Zpos m)) in *.
    assert (∀ y, (fixed (Z.shiftl y (e + 30)) <= dyadic y e)%Q) as Hs.
    { intros y. unfold fixed. destruct (Z.le_gt_cases 0 (e + 30)) as [He|He].
      - rewrite Z.shiftl_mul_pow2 by done. rewrite (dyadic_shift y (-30) e) by lia.
        replace (e - -30) with (e + 30) by lia. lra.
      - rewrite <- (Z.opp_involutive (e + 30)), Z.shiftl_opp_r, Z.shiftr_div_pow2 by lia.
        rewrite (dyadic_shift _ e (-30)) by lia. apply dyadic_le. replace (-30 - e) with (- (e + 30)) by lia.
        rewrite Z.mul_comm. apply Z.mul_div_le. lia. }
    eapply outward_inside; [exact E|]. intros l h _ _ Ll Lh. split; [done|]. cbn [val]. fold z.
    pose proof (Hs z). pose proof (Hs (- z)) as H2. rewrite fixed_opp in Lh. rewrite dyadic_opp in H2. split; lra.
Qed.

Lemma opp_sound i x : inside i x → inside (- i.2, - i.1) (fopp x).
Proof. intros Hx%fopp_range. unfold inside. cbn [fst snd]. by rewrite !fixed_opp. Qed.

Lemma abs_sound i x : inside i x → inside (0, Z.max (- i.1) i.2) (fabs x).
Proof.
  intros [Hx [X1 X2]]. unfold inside. cbn [fst snd].
  assert ((fixed 0 == 0)%Q) as -> by apply dyadic_zero. apply fabs_range. split; [done|].
  pose proof (fixed_le (- i.1) (Z.max (- i.1) i.2) ltac:(lia)) as H1. rewrite fixed_opp in H1.
  pose proof (fixed_le i.2 (Z.max (- i.1) i.2) ltac:(lia)). split; lra.
Qed.

Lemma add_sound i j k x y : inside i x → inside j y → outward (i.1 + j.1) (i.2 + j.2) = Some k → inside k (fadd x y).
Proof.
  intros [Hx [X1 X2]] [Hy [Y1 Y2]] E. eapply outward_inside; [exact E|]. intros l h Hl Hh Ll Lh.
  apply fadd_range; [done..|]. unfold fixed in *. rewrite dyadic_add in Ll, Lh. split; lra.
Qed.

Lemma sub_sound i j k x y : inside i x → inside j y → outward (i.1 - j.2) (i.2 - j.1) = Some k → inside k (fsub x y).
Proof.
  intros Hx Hy E. rewrite fsub_opp. apply opp_sound in Hy. eapply add_sound; [exact Hx | exact Hy | exact E].
Qed.

Lemma max_sound i j x y : inside i x → inside j y → inside (Z.max i.1 j.1, Z.max i.2 j.2) (fmax x y).
Proof.
  intros [Hx [X1 X2]] [Hy [Y1 Y2]]. destruct (val_max _ _ Hx Hy) as [M1 M2]. split; [by apply finite_max|].
  cbn [fst snd]. split.
  - destruct (Z.max_spec i.1 j.1) as [[_ ->]|[_ ->]]; lra.
  - pose proof (fixed_le i.2 (Z.max i.2 j.2) ltac:(lia)). pose proof (fixed_le j.2 (Z.max i.2 j.2) ltac:(lia)).
    unfold fmax. destruct (flt _ _); lra.
Qed.

Lemma min_sound i j x y : inside i x → inside j y → inside (Z.min i.1 j.1, Z.min i.2 j.2) (fmin x y).
Proof.
  intros [Hx [X1 X2]] [Hy [Y1 Y2]]. destruct (val_min _ _ Hx Hy) as (M1 & M2 & _). split; [by apply finite_min|].
  cbn [fst snd]. split.
  - pose proof (fixed_le (Z.min i.1 j.1) i.1 ltac:(lia)). pose proof (fixed_le (Z.min i.1 j.1) j.1 ltac:(lia)).
    unfold fmin. destruct (flt _ _); lra.
  - destruct (Z.min_spec i.2 j.2) as [[_ ->]|[_ ->]]; lra.
Qed.

Lemma clamp_sound i j k x lo hi : inside i x → inside j lo → inside k hi → j.2 <= k.1 →
  inside (j.1, k.2) (fclamp x lo hi).
Proof.
  intros [Hx _] [Hl [L1 L2]] [Hh [H1 H2]] Hle%fixed_le.
  destruct (fclamp_range x lo hi Hx Hl Hh ltac:(lra)) as [Hc [C1 C2]].
  split; [done|]. cbn [fst snd]. split; lra.
Qed.

Create HintDb intervals.
#[export] Hint Resolve lit_sound opp_sound abs_sound sqrt_sound add_sound sub_sound mul_sound div_sound
  max_sound min_sound clamp_sound : intervals.

(** The computed bounds hold, if those of the variables do. *)
Lemma bounds_sound env e i xs : Forall2 inside env xs → bounds env e = Some i → inside i (value xs e).
Proof.
  intros Henv. revert i. induction e; intros k E; cbn [bounds value] in *; eauto with intervals.
  { destruct (Forall2_lookup_l _ _ _ _ _ Henv E) as (x & Ex & Hx).
    apply nth_lookup_Some with (d := S754_nan) in Ex. by rewrite Ex. }
  all: repeat match goal with
         | H : (_ ≫= _) = Some _ |- _ => apply bind_Some in H as (? & ? & H)
         | H : (if ?b then _ else None) = Some _ |- _ => destruct b eqn:?; [|discriminate H]
         | H : Some _ = Some _ |- _ => injection H as <-
         end; eauto with intervals.
  eapply clamp_sound; eauto. by apply Z.leb_le.
Qed.
