(* ===== verification/Pcg32.v ===== *)
(** [pcg32.hpp] and [rng.hpp]: the generator, the draws made from it and the
    normal distribution.

    [exp], [log] and the like of [cmath] and the integer distributions of
    [random] are not specified bit by bit; they are the operations of two
    classes. *)

From Stdlib Require Import SpecFloat.
From S2P Require Import Prelude Doubles.

(** What the code uses of [cmath] besides exact operations. *)
Class Libm := {
  exp : double → double;
  log : double → double;
  log1p : double → double;
  tanh : double → double
}.

(** ** The generator *)

Module pcg32.
Record t := Make {
  state_ : Z;
  inc_ : Z
}.

Definition multiplier_ : Z := 6364136223846793005.
Definition inv_uint32_ : double := (of_Z 1 / of_Z 4294967296)%double.

(** One step of the state. *)
Definition advance (g : t) : t := Make (u64 (g.(state_) * multiplier_ + g.(inc_))) g.(inc_).

Definition xorshifted (oldstate : Z) : Z :=
  u32 (Z.shiftr (Z.lxor (Z.shiftr oldstate 18) oldstate) 27).
Definition rot (oldstate : Z) : Z := u32 (Z.shiftr oldstate 59).

(** [(x >> rot) | (x << ((-rot) & 31))] *)
Definition rotate (x rot : Z) : Z :=
  Z.lor (Z.shiftr x rot) (u32 (Z.shiftl x (Z.land (u32 (- rot)) 31))).

Definition next_uint (g : t) : Z * t :=
  let oldstate := g.(state_) in
  (rotate (xorshifted oldstate) (rot oldstate), advance g).

Definition seed_rng (seed stream : Z) : t :=
  let g := Make 0 (Z.lor (u64 (Z.shiftl stream 1)) 1) in
  let '(_, g) := next_uint g in
  let g := Make (u64 (g.(state_) + seed)) g.(inc_) in
  let '(_, g) := next_uint g in
  g.

(** The constructor, and what [random] asks of a source of bits: [operator()],
    [min()] and [max()]. *)
Definition pcg32 (seed stream : Z) : t := seed_rng seed stream.
Definition operator_call (g : t) : Z * t := next_uint g.
Definition min : Z := 0.
Definition max : Z := 2 ^ 32 - 1.

Definition uniform (g : t) : double * t :=
  let '(n, g) := next_uint g in
  (((of_Z n + dec 5 1) * inv_uint32_)%double, g).
End pcg32.

(** ** The normal distribution *)

Section normal.
Context `{Libm}.
#[local] Open Scope double_scope.

Definition normal_density (x : double) : double :=
  if (x <? - of_Z 10) || (of_Z 10 <? x) then fzero
  else exp (- dec 5 1 * x * x) / dec 2506628274631 12.

(** [normal_cdf] calls itself on [-x] when [x] is negative. *)
Fixpoint normal_cdf (fuel : nat) (x : double) : outcome double :=
  match fuel with
  | O => OutOfFuel
  | S fuel =>
      if x <? - of_Z 10 then Done fzero
      else if of_Z 10 <? x then Done fone
      else if x <? fzero then (c ← normal_cdf fuel (- x); Done (of_Z 1 - c))
      else
        let p := dec 2316419 7 in
        let b1 := dec 319381530 9 in
        let b2 := - dec 356563782 9 in
        let b3 := dec 1781477937 9 in
        let b4 := - dec 1821255978 9 in
        let b5 := dec 1330274429 9 in
        let t := of_Z 1 / (of_Z 1 + p * x) in
        let pol := t * (b1 + t * (b2 + t * (b3 + t * (b4 + t * b5)))) in
        let pdf := normal_density x in
        Done (of_Z 1 - pdf * pol)
  end.

Definition inverse_normal_cdf (p : double) : double :=
  let sup := dec 5 1 <? p in
  let up := if sup then of_Z 1 - p else p in
  let a0 := dec 250662823884 11 in
  let a1 := - dec 1861500062529 11 in
  let a2 := dec 4139119773534 11 in
  let a3 := - dec 2544106049637 11 in
  let b0 := - dec 847351093090 11 in
  let b1 := dec 2308336743743 11 in
  let b2 := - dec 2106224101826 11 in
  let b3 := dec 313082909833 11 in
  let c0 := dec 3374754822726147 16 in
  let c1 := dec 9761690190917186 16 in
  let c2 := dec 1607979714918209 16 in
  let c3 := dec 276438810333863 16 in
  let c4 := dec 38405729373609 16 in
  let c5 := dec 3951896511919 16 in
  let c6 := dec 321767881768 16 in
  let c7 := dec 2888167364 16 in
  let c8 := dec 3960315187 16 in
  let x := up - dec 5 1 in
  if fabs x <? dec 42 2 then
    let r := x * x in
    let r := x * (((a3 * r + a2) * r + a1) * r + a0) / ((((b3 * r + b2) * r + b1) * r + b0) * r + of_Z 1) in
    if sup then - r else r
  else
    let r := up in
    let r := log (- log r) in
    let r := c0 + r * (c1 + r * (c2 + r * (c3 + r * (c4 + r * (c5 + r * (c6 + r * (c7 + r * c8))))))) in
    if sup then r else - r.
End normal.

(** ** Draws *)

(** The interface [RNG] as used by the simulator: each draw gives its value and
    the generator after it. *)
Class RNG (G : Type) := {
  standard_uniform : G → double * G;
  standard_normal : G → double * G;
  exponential : double → G → double * G;
  bernoulli : double → G → bool * G;
  poisson : double → G → Z * G
}.

(** [std::uniform_int_distribution] and [std::poisson_distribution] of [random],
    drawing from a [pcg32]. *)
Class Distributions := {
  uniform_int_distribution : Z → Z → pcg32.t → Z * pcg32.t;
  poisson_distribution : double → pcg32.t → Z * pcg32.t
}.

Module PCGRNG.
Section draws.
Context `{Libm, Distributions}.
Abbreviation t := pcg32.t.

Definition PCGRNG (seed stream : Z) : t := pcg32.seed_rng seed stream.
Definition standard_uniform (g : t) : double * t := pcg32.uniform g.
Definition standard_normal (g : t) : double * t :=
  let '(p, g) := pcg32.uniform g in (inverse_normal_cdf p, g).
Definition exponential (lambda : double) (g : t) : double * t :=
  let '(p, g) := pcg32.uniform g in (- log (of_Z 1 - p) / lambda, g)%double.

(** The parameter is not used. *)
Definition bernoulli (p : double) (g : t) : bool * t :=
  let '(u, g) := pcg32.uniform g in (dec 5 1 <? u, g)%double.

Definition uniform_int (lower_bound upper_bound : Z) (g : t) : Z * t :=
  uniform_int_distribution lower_bound upper_bound g.
Definition poisson (mean : double) (g : t) : Z * t := poisson_distribution mean g.

(** The scan of [categorical] from index [i] on. *)
Fixpoint scan (u : double) (cumulative_probs : list double) (i : nat) : option nat :=
  match cumulative_probs with
  | [] => None
  | c :: cs => if flt u c then Some i else scan u cs (S i)
  end.

(** [categorical]: [back] of an empty vector is undefined. *)
Definition categorical (cumulative_probs : list double) (g : t) : outcome (nat * t) :=
  match cumulative_probs with
  | [] => Undefined
  | _ =>
      let '(u, g) := pcg32.uniform g in
      Done (default (length cumulative_probs - 1)%nat (scan u cumulative_probs 0), g)
  end.

(** [for (auto x : out)] assigns to a copy: the vector keeps its values. *)
Fixpoint normal_vector (out : list double) (g : t) : list double * t :=
  match out with
  | [] => ([], g)
  | x :: out =>
      let '(_, g) := standard_normal g in
      let '(out, g) := normal_vector out g in
      (x :: out, g)
  end.
End draws.
End PCGRNG.

#[global] Instance PCGRNG_RNG `{Libm, Distributions} : RNG pcg32.t := {|
  standard_uniform := PCGRNG.standard_uniform;
  standard_normal := PCGRNG.standard_normal;
  exponential := PCGRNG.exponential;
  bernoulli := PCGRNG.bernoulli;
  poisson := PCGRNG.poisson
|}.
