(* ===== verification/Pcg32Theorems.v ===== *)
(** Properties of the generator and of the draws. *)

From Stdlib Require Import SpecFloat.
From S2P Require Import Prelude Doubles DoublesExact Pcg32.

(** ** Bits *)

Lemma u32_spec z i : 0 <= i → Z.testbit (u32 z) i = (i <? 32) && Z.testbit z i.
Proof.
  intros Hi. with_strategy transparent [u32] unfold u32. destruct (Z.ltb_spec i 32).
  - by rewrite Z.mod_pow2_bits_low by lia.
  - by rewrite Z.mod_pow2_bits_high by lia.
Qed.

Lemma small_bits x i : 0 <= x < 2 ^ 32 → 32 <= i → Z.testbit x i = false.
Proof.
  intros Hx Hi. rewrite <- (u32_small x Hx), u32_spec by lia.
  by rewrite (proj2 (Z.ltb_ge _ _)) by lia.
Qed.

(** Rotation of a 32-bit word to the right, bit by bit. *)
Definition is_rotr (x r y : Z) : Prop :=
  0 <= y < 2 ^ 32 ∧ ∀ i, 0 <= i < 32 → Z.testbit y i = Z.testbit x ((i + r) mod 32).

Lemma u32_mod z : u32 z = z mod 2 ^ 32.
Proof. by with_strategy transparent [u32] unfold u32. Qed.

Lemma neg_rot r : 0 <= r < 32 → Z.land (u32 (- r)) 31 = (32 - r) mod 32.
Proof.
  intros Hr. change 31 with (Z.ones 5). rewrite Z.land_ones, u32_mod by lia.
  change (2 ^ 32) with (2 ^ 5 * 2 ^ 27).
  rewrite Z.rem_mul_r, (Z.mul_comm (2 ^ 5) (_ mod _)), Z.mod_add, Z.mod_mod by lia.
  change (2 ^ 5) with 32. rewrite <- (Z.mod_add (- r) 1 32) by lia. f_equal. lia.
Qed.

Lemma rotate_rotr x r : 0 <= x < 2 ^ 32 → 0 <= r < 32 → is_rotr x r (pcg32.rotate x r).
Proof.
  intros Hx Hr. unfold pcg32.rotate. rewrite neg_rot by done.
  set (y := Z.lor _ _).
  assert (∀ i, 0 <= i → Z.testbit y i = (i <? 32) && Z.testbit x ((i + r) mod 32)) as Hb.
  { intros i Hi. unfold y. rewrite Z.lor_spec, Z.shiftr_spec, u32_spec by lia.
    destruct (Z.ltb_spec i 32); cbn [andb]; [|by rewrite small_bits by lia].
    pose proof (Z.mod_pos_bound (32 - r) 32 ltac:(lia)).
    rewrite Z.shiftl_spec by lia. destruct (Z.eq_dec r 0) as [->|Hr0].
    - change ((32 - 0) mod 32) with 0. rewrite Z.add_0_r, Z.sub_0_r, Z.mod_small by lia. apply orb_diag.
    - rewrite (Z.mod_small (32 - r)) by lia. destruct (Z.lt_ge_cases (i + r) 32).
      + rewrite Z.mod_small by lia. rewrite (Z.testbit_neg_r x (i - (32 - r))) by lia. apply orb_false_r.
      + rewrite (small_bits x (i + r)) by lia. cbn [orb]. f_equal.
        replace (i + r) with (i - (32 - r) + 1 * 32) by lia. by rewrite Z.mod_add, Z.mod_small by lia. }
  split; [|intros i Hi; rewrite Hb by lia; by rewrite (proj2 (Z.ltb_lt _ _)) by lia].
  assert (y = u32 y) as ->; [|apply u32_range].
  apply Z.bits_inj'. intros i Hi. rewrite u32_spec, Hb by done. destruct (i <? 32); done.
Qed.

(** ** States *)

Record pcg_ok (g : pcg32.t) : Prop := MkPcgOk {
  pcg_state : 0 <= g.(pcg32.state_) < 2 ^ 64;
  pcg_inc : 0 <= g.(pcg32.inc_) < 2 ^ 64;
  pcg_odd : Z.odd g.(pcg32.inc_) = true
}.

Lemma u64_mod z : u64 z = z mod 2 ^ 64.
Proof. by with_strategy transparent [u64] unfold u64. Qed.

Lemma u64_bound z : 0 <= u64 z < 2 ^ 64.
Proof. rewrite u64_mod. apply Z.mod_pos_bound. lia. Qed.

Lemma pcg_advance_ok g : pcg_ok g → pcg_ok (pcg32.advance g).
Proof. intros [_ Hi Ho]. split; [apply u64_bound | done | done]. Qed.

Lemma rot_range s : 0 <= s < 2 ^ 64 → 0 <= pcg32.rot s < 32.
Proof.
  intros Hs. unfold pcg32.rot. rewrite Z.shiftr_div_pow2 by lia.
  assert (0 <= s / 2 ^ 59 < 32) by (split; [apply Z.div_pos; lia | apply Z.div_lt_upper_bound; lia]).
  rewrite u32_small by lia. done.
Qed.

Lemma next_uint_range g : pcg_ok g → 0 <= (pcg32.next_uint g).1 < 2 ^ 32.
Proof.
  intros [Hs _ _]. cbn. apply rotate_rotr; [apply u32_range | by apply rot_range].
Qed.

Lemma seed_rng_ok seed stream : pcg_ok (pcg32.seed_rng seed stream).
Proof.
  unfold pcg32.seed_rng. cbn [pcg32.next_uint]. apply pcg_advance_ok. split; [apply u64_bound| |].
  - cbn. pose proof (u64_bound (Z.shiftl stream 1)) as H. split; [apply Z.lor_nonneg; lia|].
    destruct (decide (Z.lor (u64 (Z.shiftl stream 1)) 1 = 0)) as [->|Hne]; [lia|].
    apply Z.log2_lt_pow2; [pose proof (proj2 (Z.lor_nonneg (u64 (Z.shiftl stream 1)) 1)); lia|].
    rewrite Z.log2_lor by lia. apply Z.max_lub_lt; [|cbn; lia].
    destruct (decide (u64 (Z.shiftl stream 1) = 0)) as [->|H0]; [cbn; lia|]. apply Z.log2_lt_pow2; lia.
  - cbn. rewrite <- Z.bit0_odd, Z.lor_spec. by rewrite orb_true_r.
Qed.

(** A constructed generator is a source of bits for [random]: it can be called for
    ever, and gives numbers from [min()] to [max()]. *)
Lemma source_of_bits seed stream n :
  let g := Nat.iter n (λ g, (pcg32.operator_call g).2) (pcg32.pcg32 seed stream) in
  pcg32.min <= (pcg32.operator_call g).1 <= pcg32.max.
Proof.
  intros g. assert (pcg_ok g) as Hg.
  { subst g. induction n as [|n IH]; [apply seed_rng_ok | by apply pcg_advance_ok]. }
  pose proof (next_uint_range g Hg). unfold pcg32.min, pcg32.max, pcg32.operator_call. lia.
Qed.

(** ** Uniform draws *)

Lemma mantissa_value s m e : 0 < m < 2 ^ 53 →
  ∃ M, double_of s m e = S754_finite s M (e - (52 - Z.log2 m)) ∧ Zpos M = m * 2 ^ (52 - Z.log2 m).
Proof.
  intros Hm. pose proof (log2_fits m Hm). eexists. split; [reflexivity|].
  apply Z2Pos.id, Z.mul_pos_pos; lia.
Qed.

(** [n + 0.5] *)
Lemma add_half n : 0 <= n < 2 ^ 32 → (of_Z n + dec 5 1)%double = double_of false (2 * n + 1) (-1).
Proof.
  intros Hn. change (dec 5 1) with (S754_finite false 4503599627370496 (-53)).
  destruct (decide (n = 0)) as [->|Hne]; [reflexivity|].
  rewrite of_Z_exact by lia. destruct (mantissa_value false n 0 ltac:(lia)) as (M & -> & HM).
  pose proof (log2_fits n ltac:(lia)) as Hl. cbn -[Z.add Z.sub Z.mul Z.pow Z.min shl_align binary_normalize].
  unfold fadd, SFadd. cbn [cond_Zopp]. rewrite Z.min_r by lia. rewrite !shl_align_value by lia.
  rewrite HM, <- Z.mul_assoc, <- Z.pow_add_r by lia.
  replace (52 - Z.log2 n + _) with 53 by lia.
  replace (n * 2 ^ 53 + _) with (cond_Zopp false ((2 * n + 1) * 2 ^ 52)) by (cbn [cond_Zopp]; lia).
  assert (0 < 2 * n + 1 < 2 ^ 53) as Hm by lia. pose proof (log2_fits _ Hm).
  rewrite normalize_exact; [done | lia |]. split; [done | lia].
Qed.

Lemma uniform_exact g : pcg_ok g →
  (pcg32.uniform g).1 = double_of false (2 * (pcg32.next_uint g).1 + 1) (-33).
Proof.
  intros Hg. pose proof (next_uint_range g Hg) as Hn. unfold pcg32.uniform.
  destruct (pcg32.next_uint g) as [n g']. cbn [fst] in *. rewrite add_half by done.
  change pcg32.inv_uint32_ with (S754_finite false 4503599627370496 (-84)).
  assert (0 < 2 * n + 1 < 2 ^ 53) as Hm by lia. pose proof (log2_fits _ Hm).
  destruct (mantissa_value false (2 * n + 1) (-1) Hm) as (M & -> & HM).
  unfold fmul, SFmul. cbn [xorb].
  set (l := Z.log2 (2 * n + 1)) in *.
  rewrite (round_aux_exact false _ _ (2 * n + 1) (104 - l)); fold l.
  - f_equal. lia.
  - rewrite Pos2Z.inj_mul, HM. change (Zpos 4503599627370496) with (2 ^ 52).
    rewrite <- Z.mul_assoc, <- Z.pow_add_r by lia. do 2 f_equal. lia.
  - lia.
  - split; [done|]. fold l. lia.
  - lia.
Qed.

(** ** Guarantees *)

(** The generator after [n] draws. *)
Definition after (n : nat) (g : pcg32.t) : pcg32.t := Nat.iter n (λ g, (pcg32.next_uint g).2) g.

Lemma after_ok n g : pcg_ok g → pcg_ok (after n g).
Proof. intros Hg. induction n as [|n IH]; [done|]. by apply pcg_advance_ok. Qed.

(** The inverse of the multiplier modulo 2{^64}, and the state before a step. *)
Definition inverse_multiplier : Z := 13877824140714322085.
Definition previous (g : pcg32.t) : pcg32.t :=
  pcg32.Make (u64 ((g.(pcg32.state_) - g.(pcg32.inc_)) * inverse_multiplier)) g.(pcg32.inc_).

(** C39: [next_uint] is the generator PCG-XSH-RR.  From any seed and stream and
    after any number of draws, the 32-bit result is the word [xorshifted] rotated
    right, bit by bit, by the five top bits of the state, although it is computed
    with two shifts of fixed width; and the step of the state is a bijection, so no
    two states lead to the same one and a sequence has no tail before its cycle. *)
Theorem next_uint_reference (seed stream : Z) (n : nat) :
  let g := after n (pcg32.seed_rng seed stream) in
  let '(out, g') := pcg32.next_uint g in
  let s := g.(pcg32.state_) in
  is_rotr (Z.lxor (s / 2 ^ 18) s / 2 ^ 27 mod 2 ^ 32) (s / 2 ^ 59) out ∧
  previous g' = g ∧ g'.(pcg32.inc_) = g.(pcg32.inc_) ∧ Z.odd g.(pcg32.inc_) = true.
Proof.
  cbv zeta. pose proof (after_ok n _ (seed_rng_ok seed stream)) as Hg. set (g := after n _) in *. clearbody g.
  unfold pcg32.next_uint. destruct Hg as [Hs Hi Ho]. split; [|split; [|done]].
  - pose proof (rot_range _ Hs) as Hr. unfold pcg32.rot in Hr |- *.
    pose proof (rotate_rotr (pcg32.xorshifted (pcg32.state_ g)) _ (u32_range _) Hr) as H.
    rewrite <- Z.shiftr_div_pow2, <- Z.shiftr_div_pow2, <- u32_mod by lia.
    rewrite <- (Z.shiftr_div_pow2 _ 59) by lia.
    rewrite <- (u32_small (Z.shiftr (pcg32.state_ g) 59)) at 1; [exact H|].
    rewrite Z.shiftr_div_pow2 by lia. split; [apply Z.div_pos; lia | apply Z.div_lt_upper_bound; lia].
  - unfold previous, pcg32.advance. cbn [pcg32.state_ pcg32.inc_].
    destruct g as [s inc]. cbn [pcg32.state_ pcg32.inc_] in *. f_equal.
    rewrite !u64_mod. rewrite <- Z.mul_mod_idemp_l, Zminus_mod_idemp_l, Z.mul_mod_idemp_l by lia.
    replace ((s * pcg32.multiplier_ + inc - inc) * inverse_multiplier)
      with (s + s * 4787856489426250814 * 2 ^ 64) by (unfold pcg32.multiplier_, inverse_multiplier; lia).
    rewrite Z.mod_add by lia. by apply Z.mod_small.
Qed.

(** The first values of the generator seeded with 42 on stream 54, as published
    with it. *)
Example pcg32_test_vector :
  map (λ n, (pcg32.next_uint (after n (pcg32.seed_rng 42 54))).1) (seq 0 6) =
    [0xa15c02b7; 0x7b47f409; 0xba1d3330; 0x83d2f293; 0xbfa4784b; 0xcbed606e].
Proof. vm_compute. reflexivity. Qed.

(** A uniform draw is never 0 nor 1, so the logarithms that [exponential],
    [standard_normal] and the simulator take of it are of positive numbers.  From
    any seed and stream and after any number of draws, the draw is exactly the odd
    multiple (2n + 1) / 2{^33} for the 32-bit integer n drawn: no rounding occurs,
    and distinct integers give distinct draws. *)
Theorem uniform_open_interval (seed stream : Z) (n : nat) :
  let g := after n (pcg32.seed_rng seed stream) in
  let u := (pcg32.uniform g).1 in
  u = double_of false (2 * (pcg32.next_uint g).1 + 1) (-33) ∧
  fle u fzero = false ∧ flt fzero u = true ∧ flt u fone = true ∧ flt fzero (fone - u)%double = true.
Proof.
  cbv zeta. pose proof (after_ok n _ (seed_rng_ok seed stream)) as Hg. set (g := after n _) in *. clearbody g.
  pose proof (next_uint_range g Hg) as Hr. rewrite (uniform_exact g Hg).
  set (k := (pcg32.next_uint g).1) in *. clearbody k. split; [done|].
  assert (0 < 2 * k + 1 < 2 ^ 33) as Hm by lia.
  assert (fits (2 * k + 1) (-33)) as Hf.
  { pose proof (log2_fits (2 * k + 1) ltac:(lia)). split; lia. }
  assert (flt fzero (double_of false (2 * k + 1) (-33)) = true) as H0 by done.
  assert (flt (double_of false (2 * k + 1) (-33)) fone = true) as H1.
  { change fone with (double_of false 1 0). apply flt_key; [done..|].
    rewrite (double_of_lt _ _ _ _ Hf (fits_int 1 ltac:(lia)) 33) by lia. cbn. lia. }
  split; [by rewrite fle_not_flt, H0|]. split; [done|]. split; [done|].
  change fone with (S754_finite false 4503599627370496 (-52)).
  destruct (mantissa_value false (2 * k + 1) (-33) ltac:(lia)) as (M & -> & HM).
  pose proof (log2_fits (2 * k + 1) ltac:(lia)) as Hl.
  assert (Z.log2 (2 * k + 1) <= 32) as Hl2 by (pose proof (proj1 (Z.log2_lt_pow2 (2 * k + 1) 33 ltac:(lia)) ltac:(lia)); lia).
  unfold fsub, SFsub. cbn [cond_Zopp]. rewrite Z.min_r by lia. rewrite !shl_align_value by lia.
  rewrite HM. set (l := Z.log2 (2 * k + 1)) in *. change (Zpos 4503599627370496) with (2 ^ 52).
  rewrite <- Z.pow_add_r by lia. rewrite Z.sub_diag, Z.mul_1_r.
  replace (2 ^ (52 + _) - _) with (cond_Zopp false ((2 ^ 33 - (2 * k + 1)) * 2 ^ (52 - l))).
  2:{ cbn [cond_Zopp]. rewrite Z.mul_sub_distr_r, <- Z.pow_add_r by lia. do 2 f_equal. lia. }
  rewrite normalize_exact; [done | lia |].
  assert (0 < 2 ^ 33 - (2 * k + 1) < 2 ^ 53) as Hd by lia. pose proof (log2_fits _ Hd). split; [done | lia].
Qed.

Section draws.
Context `{Libm, Distributions}.

(** [normal_cdf] calls itself at most once. *)
Lemma normal_cdf_total x : ∃ c, normal_cdf 2 x = Done c.
Proof.
  cbn [normal_cdf]. destruct (x <? - of_Z 10)%double; [by eexists|].
  destruct (of_Z 10 <? x)%double; [by eexists|].
  destruct (x <? fzero)%double eqn:E; [|by eexists].
  destruct (- x <? - of_Z 10)%double; [by eexists|].
  destruct (of_Z 10 <? - x)%double; [by eexists|].
  assert ((- x <? fzero)%double = false) as ->; [|by eexists].
  clear - E. unfold flt, SFltb in *. by destruct x as [[]|[]| |[]].
Qed.

Lemma scan_spec u cs i :
  match PCGRNG.scan u cs i with
  | Some j => (i <= j < i + length cs)%nat ∧ (∃ c, cs !! (j - i)%nat = Some c ∧ flt u c = true) ∧
      ∀ k c, (k < j - i)%nat → cs !! k = Some c → flt u c = false
  | None => ∀ c, c ∈ cs → flt u c = false
  end.
Proof.
  revert i. induction cs as [|c cs IH]; intros i; cbn [PCGRNG.scan length]; [by intros c ?%elem_of_nil|].
  destruct (flt u c) eqn:E.
  - split; [lia|]. rewrite Nat.sub_diag. split; [by exists c | lia].
  - specialize (IH (S i)). destruct (PCGRNG.scan u cs (S i)) as [j|].
    + destruct IH as (Hj & (c' & Hc & Hlt) & Hall). split; [lia|]. split.
      * exists c'. split; [|done]. replace (j - i)%nat with (S (j - S i)) by lia. done.
      * intros [|k] c'' Hk; [by intros [= <-]|]. cbn. apply Hall. lia.
    + intros c' [->|Hin]%elem_of_cons; [done | by apply IH].
Qed.

(** [categorical] chooses a category.  For any non-empty vector the index is
    inside the vector; it is the first whose cumulative probability exceeds the
    draw, and the last one when none does, as rounding can leave the total below
    a draw. *)
Theorem categorical_in_range (cs : list double) (g : pcg32.t) :
  cs ≠ [] →
  ∃ i, PCGRNG.categorical cs g = Done (i, (pcg32.uniform g).2) ∧ (i < length cs)%nat ∧
    (∀ k c, (k < i)%nat → cs !! k = Some c → flt (pcg32.uniform g).1 c = false) ∧
    ((∃ c, cs !! i = Some c ∧ flt (pcg32.uniform g).1 c = true) ∨
     i = (length cs - 1)%nat ∧ ∀ c, c ∈ cs → flt (pcg32.uniform g).1 c = false).
Proof.
  intros Hne. unfold PCGRNG.categorical. destruct (pcg32.uniform g) as [u g']. cbn [fst snd].
  destruct cs as [|c0 cs0] eqn:Ecs; [done|]. rewrite <- Ecs in *. clear Ecs.
  exists (default (length cs - 1)%nat (PCGRNG.scan u cs 0)). split; [done|].
  pose proof (scan_spec u cs 0) as Hs. destruct (PCGRNG.scan u cs 0) as [j|]; cbn.
  - rewrite Nat.sub_0_r in Hs. destruct Hs as (Hj & Hc & Hall). split; [lia|]. split; [done | by left].
  - assert (length cs ≠ 0%nat) by (destruct cs; [done | by intros ?]).
    split; [lia|]. split; [|by right]. intros k c _ Hk. apply Hs. by eapply list_elem_of_lookup_2.
Qed.
End draws.

Lemma categorical_in_range_witness :
  [dec 2 1; dec 7 1; fone] ≠ [] ∧
  ∃ i, PCGRNG.categorical [dec 2 1; dec 7 1; fone] (pcg32.seed_rng 42 54) =
      Done (i, (pcg32.uniform (pcg32.seed_rng 42 54)).2) ∧ (i < 3)%nat.
Proof.
  split; [discriminate|].
  destruct (categorical_in_range [dec 2 1; dec 7 1; fone] (pcg32.seed_rng 42 54)) as (i & E & Hi & _);
    [discriminate|]. exists i. split; [exact E | exact Hi].
Defined.
