(* ===== verification/CmathRange.v ===== *)
(** The functions of [cmath] that C++ leaves to the implementation: the ranges the
    code relies on, as an interface; and the tactics that bound expressions. *)

From Stdlib Require Import SpecFloat QArith Qabs Lqa.
From S2P Require Import Prelude Doubles DoublesExact DoublesValue DoublesRound DoublesRange DoublesInterval Pcg32.

(** ** Tactics *)

(** Facts on concrete [double]s, by evaluation. *)
Ltac evaluate := repeat split; vm_compute; congruence || reflexivity.

(** Side conditions: numbers of the format. *)
Ltac in_format :=
  match goal with
  | |- representable (- _) => apply representable_opp; in_format
  | |- representable 0 => apply representable_zero
  | |- representable 1 => apply representable_one
  | |- representable (inject_Z _) => apply representable_Z; lia
  | |- representable (p2 _) => apply representable_p2; lia
  | |- scalable (- _) => apply scalable_opp; in_format
  | |- scalable 0 => apply scalable_zero
  | |- scalable 1 => apply scalable_one
  | |- scalable (p2 _) => apply scalable_p2; lia
  end.

(** Expressions of [double]s over the variables [xs]. *)
Ltac index x xs :=
  lazymatch xs with
  | x :: _ => constr:(O)
  | _ :: ?xs => let n := index x xs in constr:(S n)
  end.

Ltac reify xs e :=
  let unary c a := let a' := reify xs a in constr:(c a') in
  let binary c a b := let a' := reify xs a in let b' := reify xs b in constr:(c a' b') in
  match e with
  | _ => let n := index e xs in constr:(Var n)
  | fopp ?a => unary Opp a
  | fabs ?a => unary Abs a
  | fsqrt ?a => unary Sqrt a
  | fadd ?a ?b => binary Add a b
  | fsub ?a ?b => binary Sub a b
  | fmul ?a ?b => binary Mul a b
  | fdiv ?a ?b => binary Div a b
  | fmax ?a ?b => binary Max a b
  | fmin ?a ?b => binary Min a b
  | fclamp ?a ?b ?c =>
      let a' := reify xs a in let b' := reify xs b in let c' := reify xs c in constr:(Clamp a' b' c')
  | _ => constr:(Lit e)
  end.

(** [in_range lo hi e] by interval arithmetic, given intervals for the variables. *)
Lemma range_by env xs e lo hi :
  Forall2 inside env xs →
  match bounds env e with Some i => Qle_bool lo (fixed i.1) && Qle_bool (fixed i.2) hi | None => false end = true →
  in_range lo hi (value xs e).
Proof.
  intros Henv Hb. destruct (bounds env e) as [i|] eqn:E; [|done].
  apply andb_true_iff in Hb as [H1%Qle_bool_iff H2%Qle_bool_iff].
  eapply in_range_le; [by eapply bounds_sound | done | done].
Qed.

Lemma inside_of lo hi i x : in_range lo hi x → Qle_bool (fixed i.1) lo && Qle_bool hi (fixed i.2) = true → inside i x.
Proof.
  intros H [H1%Qle_bool_iff H2%Qle_bool_iff]%andb_true_iff. by eapply in_range_le.
Qed.

(** The goal's expression over the variables [xs] in the intervals [env]; leaves
    that the variables are in them. *)
Ltac range_over env xs :=
  lazymatch goal with
  | |- in_range ?lo ?hi ?e =>
      let r := reify xs e in
      change (in_range lo hi (value xs r)); apply (range_by env);
      [repeat (apply Forall2_cons; split); [..|apply Forall2_nil; exact I] | vm_compute; reflexivity]
  end.

Ltac inside_by H := eapply inside_of; [exact H | vm_compute; reflexivity].

(** ** Logarithms and exponentials *)

(** Bounds of [k * ln 2], which is 0.6931...k. *)
Definition ln2_below (k : Z) : Q := (inject_Z k * (if (0 <=? k)%Z then 693 # 1000 else 694 # 1000))%Q.
Definition ln2_above (k : Z) : Q := (inject_Z k * (if (0 <=? k)%Z then 694 # 1000 else 693 # 1000))%Q.

(** What the code relies on of [cmath]: on numbers, the functions give numbers, in
    the range of the mathematical function, to three digits for [exp] and [log] at
    powers of two.  (The greatest [double] has the logarithm 709.7...) *)
Class LibmRanges `{Libm} : Prop := {
  exp_range k x : 0 <= k <= 900 → finite x = true → (val x <= ln2_below k)%Q → in_range 0 (p2 k) (exp x);
  log_range k x : -1074 <= k <= 1023 → finite x = true → (p2 k <= val x)%Q → (val x <= p2 (k + 1))%Q →
    in_range (ln2_below k) (ln2_above (k + 1)) (log x);
  log1p_range x : finite x = true → (0 <= val x)%Q → in_range 0 (inject_Z 710) (log1p x);
  tanh_range x : finite x = true → in_range (- (1)) 1 (tanh x)
}.

Lemma ln2_below_mono j k : j <= k → (ln2_below j <= ln2_below k)%Q.
Proof.
  intros Hz. pose proof (proj1 (inject_le j k) Hz). unfold ln2_below.
  destruct (Z.leb_spec 0 j) as [Hj|Hj], (Z.leb_spec 0 k) as [Hk|Hk]; try lia; try lra.
  pose proof (proj1 (inject_lt j 0) Hj). pose proof (proj1 (inject_le 0 k) Hk). change (inject_Z 0) with 0%Q in *. nra.
Qed.

Lemma ln2_above_mono j k : j <= k → (ln2_above j <= ln2_above k)%Q.
Proof.
  intros Hz. pose proof (proj1 (inject_le j k) Hz). unfold ln2_above.
  destruct (Z.leb_spec 0 j) as [Hj|Hj], (Z.leb_spec 0 k) as [Hk|Hk]; try lia; try lra.
  pose proof (proj1 (inject_lt j 0) Hj). pose proof (proj1 (inject_le 0 k) Hk). change (inject_Z 0) with 0%Q in *. nra.
Qed.

Lemma unit_clamp x : finite x = true → in_range (- (1)) 1 (fclamp x (fopp (of_Z 1)) (of_Z 1)).
Proof.
  intros Hx. assert ((- (1) == val (fopp (of_Z 1)))%Q) as -> by evaluate.
  assert ((1 == val (of_Z 1))%Q) as -> by evaluate. apply fclamp_range; [done | done | done | evaluate].
Qed.

Section logarithms.
Context `{LibmRanges}.

(** The logarithm between two powers of two. *)
Lemma log_between j k x : -1074 <= j → j < k → k <= 1024 → finite x = true →
  (p2 j <= val x)%Q → (val x <= p2 k)%Q → in_range (ln2_below j) (ln2_above k) (log x).
Proof.
  intros Hj Hjk Hk Hx Hl. assert (∃ n, k = j + 1 + Z.of_nat n) as [n ->].
  { exists (Z.to_nat (k - j - 1)). lia. }
  induction n as [|n IH]; intros Hu.
  - rewrite Z.add_0_r in *. apply log_range; [lia | done..].
  - rewrite Nat2Z.inj_succ in *. destruct (Qlt_le_dec (p2 (j + 1 + Z.of_nat n)) (val x)) as [Hgt|Hle].
    + eapply in_range_le; [apply (log_range (j + 1 + Z.of_nat n)); [lia | done | lra |]| |].
      * by replace (j + 1 + Z.of_nat n + 1) with (j + 1 + Z.succ (Z.of_nat n)) by lia.
      * apply ln2_below_mono. lia.
      * apply ln2_above_mono. lia.
    + eapply in_range_le; [apply IH; [lia | lia | done]| lra |]. apply ln2_above_mono. lia.
Qed.
End logarithms.

(** ** An instance *)

(** Functions with the ranges of those of [cmath]: the logarithm is that of the
    power of two below, with 355/512 for [ln 2]. *)
Definition octave_log (x : double) : double :=
  match x with
  | S754_finite false m e => binary_normalize 53 1024 (355 * (Z.log2 (Zpos m) + e)) (-9) false
  | _ => fzero
  end.

Definition ranged_libm : Libm := {|
  exp := λ x, if flt x fzero then dec 5 1 else fone;
  log := octave_log;
  log1p := λ x, fmin x (of_Z 3);
  tanh := λ x, fclamp x (- of_Z 1)%double fone
|}.

Lemma octave m e : (p2 (Z.log2 (Zpos m) + e) <= dyadic (Zpos m) e ∧ dyadic (Zpos m) e < p2 (Z.log2 (Zpos m) + 1 + e))%Q.
Proof.
  pose proof (Z.log2_spec (Zpos m) ltac:(lia)) as [H1 H2]. pose proof (Z.log2_nonneg (Zpos m)).
  rewrite !p2_dyadic by lia. split; [by apply dyadic_le | apply dyadic_lt; by rewrite Z.add_1_r].
Qed.

Lemma octave_log_range k x : -1074 <= k <= 1023 → finite x = true → (p2 k <= val x)%Q → (val x <= p2 (k + 1))%Q →
  in_range (ln2_below k) (ln2_above (k + 1)) (octave_log x).
Proof.
  intros Hk Hx H1 H2. pose proof (p2_pos k). destruct x as [s|s| |[] m e]; try done; cbn [val octave_log] in *.
  - lra.
  - cbn [cond_Zopp] in *. change (Zneg m) with (- Zpos m) in *. rewrite dyadic_opp in *. pose proof (dyadic_pos m e). lra.
  - cbn [cond_Zopp] in *. destruct (octave m e) as [O1 O2]. set (l := Z.log2 (Zpos m) + e) in *.
    replace (Z.log2 (Zpos m) + 1 + e) with (l + 1) in O2 by lia.
    assert (k < l + 1) by (apply p2_lt; lra). assert (l < k + 1 + 1).
    { apply p2_lt. assert (p2 (k + 1) < p2 (k + 1 + 1))%Q by (apply (proj1 (p2_lt _ _)); lia). lra. }
    assert (in_range (dyadic (355 * l) (-9)) (dyadic (355 * l) (-9)) (binary_normalize 53 1024 (355 * l) (-9) false)) as Hr.
    { assert (representable (dyadic (355 * l) (-9))) as Hrep.
      { destruct (Z.le_gt_cases 0 l); [apply representable_dyadic; lia|].
        replace (355 * l) with (- (355 * - l)) by lia. rewrite dyadic_opp.
        apply representable_opp, representable_dyadic; lia. }
      apply range_of; [done | done |]. intros zl zu Hl Hu El Eu. apply normalize_between; [done | done |].
      split; lra. }
    assert ((dyadic (355 * l) (-9) == inject_Z l * (355 # 512))%Q) as El.
    { unfold dyadic. rewrite inject_Z_mult. assert ((p2 (-9) == 1 # 512)%Q) as -> by reflexivity.
      change (inject_Z 355) with 355%Q. field. }
    assert ((ln2_below l <= inject_Z l * (355 # 512) ∧ inject_Z l * (355 # 512) <= ln2_above l)%Q) as [L1 L2].
    { unfold ln2_below, ln2_above. destruct (Z.leb_spec 0 l) as [Hl|Hl].
      - pose proof (proj1 (inject_le 0 l) Hl). change (inject_Z 0) with 0%Q in *. split; nra.
      - pose proof (proj1 (inject_lt l 0) Hl). change (inject_Z 0) with 0%Q in *. split; nra. }
    pose proof (ln2_below_mono k l ltac:(lia)). pose proof (ln2_above_mono l (k + 1) ltac:(lia)).
    apply in_range_le with (dyadic (355 * l) (-9)) (dyadic (355 * l) (-9)); [done | lra | lra].
Qed.

#[export] Instance ranged_libm_ok : @LibmRanges ranged_libm.
Proof.
  constructor; cbn [exp log log1p tanh ranged_libm].
  - intros k x Hk _ _. assert ((1 <= p2 k)%Q) as H1.
    { assert ((1 == p2 0)%Q) as -> by reflexivity. destruct (Z.eq_dec k 0) as [->|]; [lra|].
      apply Qlt_le_weak, (proj1 (p2_lt _ _)). lia. }
    apply in_range_le with 0%Q 1%Q; [destruct (flt x fzero); evaluate | lra | done].
  - apply octave_log_range.
  - intros x Hx H0. apply fmin_range with (val x); [split; [done|]; split; lra | evaluate].
  - intros x Hx. by apply unit_clamp.
Qed.
