(* ===== verification/Pcg32Range.v ===== *)
(** The ranges of the draws of the generator: the simulator's normal deviates are
    at most 8 and its exponential ones at most 46, never NaN nor infinite. *)

From Stdlib Require Import SpecFloat QArith Qabs Lqa.
From S2P Require Import Prelude Doubles DoublesExact DoublesValue DoublesRound DoublesRange DoublesInterval Pcg32 Pcg32Theorems CmathRange.

(** ** The normal distribution *)

Section normal.
#[local] Open Scope double_scope.

(** The two rational approximations of [inverse_normal_cdf]. *)
Definition central (x : double) : double :=
  let r := x * x in
  x * (((- dec 2544106049637 11 * r + dec 4139119773534 11) * r + - dec 1861500062529 11) * r + dec 250662823884 11) /
    ((((dec 313082909833 11 * r + - dec 2106224101826 11) * r + dec 2308336743743 11) * r + - dec 847351093090 11) * r + of_Z 1).

Definition tail (r : double) : double :=
  dec 3374754822726147 16 + r * (dec 9761690190917186 16 + r * (dec 1607979714918209 16 + r * (dec 276438810333863 16 +
    r * (dec 38405729373609 16 + r * (dec 3951896511919 16 + r * (dec 321767881768 16 + r * (dec 2888167364 16 +
    r * dec 3960315187 16))))))).

Lemma inverse_normal_shape `{Libm} p :
  let sup := dec 5 1 <? p in
  let u := if sup then of_Z 1 - p else p in
  let x := u - dec 5 1 in
  inverse_normal_cdf p =
    if fabs x <? dec 42 2 then (if sup then - central x else central x)
    else let r := tail (log (- log u)) in if sup then r else - r.
Proof. reflexivity. Qed.
End normal.

(** Argument pieces of width 1/256. *)
Definition piece (k : Z) : interval := (- (k + 1) * 2 ^ 22, - k * 2 ^ 22).

Definition central_expr : expr := ltac:(
  let x := constr:(S754_nan) in
  let e := eval cbv beta zeta delta [central] in (central x) in
  let r := reify (cons x nil) e in exact r).

Lemma central_expr_value x : value [x] central_expr = central x.
Proof. reflexivity. Qed.

Lemma pieces_cover n v : (- (inject_Z (Z.of_nat n) * (1 # 256)) <= v)%Q → (v <= 0)%Q → n ≠ O →
  ∃ k, (k < n)%nat ∧ between (fixed (piece (Z.of_nat k)).1) v (fixed (piece (Z.of_nat k)).2).
Proof.
  assert (∀ k, (fixed (- k * 2 ^ 22) == - (inject_Z k * (1 # 256)))%Q) as Hf.
  { intros k. unfold fixed, dyadic. rewrite inject_Z_mult, inject_Z_opp.
    assert ((p2 (-30) * inject_Z (2 ^ 22) == 1 # 256)%Q) as Hp by reflexivity. rewrite <- Hp. ring. }
  intros H1 H2 Hn. induction n as [|n IH]; [done|].
  destruct (Qlt_le_dec v (- (inject_Z (Z.of_nat n) * (1 # 256)))) as [Hlt|Hge].
  - exists n. split; [lia|]. unfold piece. cbn [fst snd].
    replace (Z.of_nat n + 1) with (Z.of_nat (S n)) by lia. rewrite !Hf. split; lra.
  - destruct n as [|n].
    + exists O. split; [lia|]. unfold piece. cbn [fst snd].
      replace (Z.of_nat 0 + 1) with (Z.of_nat 1) by lia. rewrite !Hf.
      change (inject_Z (Z.of_nat 1)) with 1%Q in *. change (inject_Z (Z.of_nat 0)) with 0%Q in *. split; lra.
    + destruct (IH Hge ltac:(done)) as (k & Hk & Hb). exists k. split; [lia | done].
Qed.

Lemma central_range x : in_range (- (108 # 256)) 0 x → in_range (- inject_Z 2) 0 (central x).
Proof.
  intros [Hx [H1 H2]]. destruct (pieces_cover 108 (val x)) as (k & Hk & Hb); [|done | done |].
  { change (inject_Z (Z.of_nat 108)) with 108%Q. lra. }
  rewrite <- central_expr_value. apply range_by with [piece (Z.of_nat k)]; [constructor; [by split | constructor]|].
  assert (forallb (λ k, match bounds [piece (Z.of_nat k)] central_expr with
    | Some i => Qle_bool (- inject_Z 2) (fixed i.1) && Qle_bool (fixed i.2) 0 | None => false end) (seq 0 108) = true) as Hall
    by (vm_compute; reflexivity).
  rewrite forallb_forall in Hall. apply Hall, in_seq. lia.
Qed.

Lemma tail_range r : in_range (1 # 2) (7 # 2) r → in_range 0 (inject_Z 8) (tail r).
Proof.
  intros Hr. unfold tail. range_over [(2 ^ 29, 7 * 2 ^ 29)] [r]. inside_by Hr.
Qed.

(** ** Draws *)

Section draws.
Context `{LibmRanges}.

Lemma log_unit x : in_range (p2 (-33)) 1 x → in_range 0 (inject_Z 23) (fopp (log x)).
Proof.
  intros [Hx [H1 H2]]. assert (in_range (ln2_below (-33)) (ln2_above 0) (log x)) as Hl%fopp_range.
  { apply log_between; [lia | lia | lia | done | done|]. done. }
  eapply in_range_le; [exact Hl | |]; evaluate.
Qed.

(** The side of the median, and its distance from it. *)
Lemma folded_range p : in_range (p2 (-33)) (1 - p2 (-33)) p →
  in_range (p2 (-33)) (1 # 2) (if flt (dec 5 1) p then fsub (of_Z 1) p else p).
Proof.
  intros [Hf [H1 H2]]. assert (representable (1 # 2)) as Hh by (by exists (dec 5 1)).
  assert ((val (dec 5 1) == 1 # 2)%Q) as E5 by reflexivity. destruct (flt (dec 5 1) p) eqn:E.
  - apply flt_val in E; [|done..]. apply fsub_range; [in_format | done | done | done |]. rewrite val_one. split; lra.
  - split; [done|]. apply not_true_iff_false in E. rewrite flt_val in E by done. split; lra.
Qed.

(** The branch for probabilities that are not near 0 or 1. *)
Lemma central_branch u : in_range (p2 (-33)) (1 # 2) u → flt (fabs (fsub u (dec 5 1))) (dec 42 2) = true →
  in_range (- inject_Z 2) 0 (central (fsub u (dec 5 1))).
Proof.
  intros [Hu [H1 H2]] E. pose proof (p2_pos (-33)). assert ((val (dec 5 1) == 1 # 2)%Q) as E5 by reflexivity.
  assert (in_range (- (1)) 0 (fsub u (dec 5 1))) as [Hx [X1 X2]].
  { apply fsub_range; [in_format | in_format | done | done |]. split; lra. }
  set (x := fsub u (dec 5 1)) in *. apply flt_val in E; [|by apply finite_abs | done]. rewrite val_abs in E.
  assert ((val (dec 42 2) <= 108 # 256)%Q) as E42 by evaluate.
  pose proof (Qle_Qabs (- val x)) as Ha. rewrite Qabs_opp in Ha. apply central_range. split; [done|]. split; lra.
Qed.

(** The branch for the others: the logarithms are of positive numbers. *)
Lemma tail_branch u : in_range (p2 (-33)) (1 # 2) u → flt (fabs (fsub u (dec 5 1))) (dec 42 2) = false →
  in_range 0 (inject_Z 8) (tail (log (fopp (log u)))).
Proof.
  intros [Hu [H1 H2]] E. assert ((val (dec 5 1) == 1 # 2)%Q) as E5 by reflexivity.
  apply not_true_iff_false in E.
  assert ((val u <= p2 (-3))%Q) as H3.
  { destruct (Qlt_le_dec (p2 (-3)) (val u)) as [Hlt|]; [exfalso|done].
    assert ((p2 (-3) == 1 # 8)%Q) as E3 by reflexivity. rewrite E3 in Hlt.
    assert (in_range (- dyadic 3 (-3)) 0 (fsub u (dec 5 1))) as [Hx [X1 X2]].
    { apply fsub_range; [apply representable_opp, representable_dyadic; lia | in_format | done | done |].
      assert ((dyadic 3 (-3) == 3 # 8)%Q) as -> by reflexivity. split; lra. }
    assert ((dyadic 3 (-3) < val (dec 42 2))%Q) as H3 by evaluate. apply E.
    rewrite flt_val by (done || by apply finite_abs). rewrite val_abs, Qabs_neg by done. lra. }
  assert (in_range (ln2_below (-33)) (ln2_above (-3)) (log u)) as [Hf [L1 L2]]%fopp_range.
  { by apply log_between. }
  assert ((p2 1 <= - ln2_above (-3) ∧ - ln2_below (-33) <= p2 5)%Q) as [B1 B2] by evaluate.
  assert (in_range (ln2_below 1) (ln2_above 5) (log (fopp (log u)))) as Hl.
  { apply log_between; [lia | lia | lia | done | lra | lra]. }
  apply tail_range. eapply in_range_le; [exact Hl | |]; evaluate.
Qed.

Lemma inverse_normal_range p : in_range (p2 (-33)) (1 - p2 (-33)) p →
  in_range (- inject_Z 8) (inject_Z 8) (inverse_normal_cdf p).
Proof.
  intros Hu%folded_range. rewrite inverse_normal_shape. cbv zeta.
  set (u := if flt (dec 5 1) p then _ else _) in *. clearbody u.
  destruct (flt (fabs _) _) eqn:E.
  - pose proof (central_branch u Hu E) as Hc. pose proof (fopp_range _ _ _ Hc) as Hn.
    destruct (flt (dec 5 1) p); eapply in_range_le; [exact Hn | evaluate | evaluate | exact Hc | evaluate | evaluate].
  - pose proof (tail_branch u Hu E) as Hc. pose proof (fopp_range _ _ _ Hc) as Hn.
    destruct (flt (dec 5 1) p); eapply in_range_le; [exact Hc | evaluate | evaluate | exact Hn | evaluate | evaluate].
Qed.

(** A uniform draw is an odd multiple of 2{^-33} below 1. *)
Lemma uniform_range g : pcg_ok g →
  in_range (p2 (-33)) (1 - p2 (-33)) (pcg32.uniform g).1 ∧ pcg_ok (pcg32.uniform g).2.
Proof.
  intros Hg. pose proof (next_uint_range g Hg) as Hn. split.
  - rewrite uniform_exact by done. set (k := (pcg32.next_uint g).1) in *.
    assert (0 < 2 * k + 1 < 2 ^ 53) as Hk by lia. pose proof (log2_fits _ Hk).
    split; [apply finite_double_of; split; [done | lia]|]. rewrite val_double_of by done. cbn [cond_Zopp].
    assert ((p2 (-33) == dyadic 1 (-33))%Q) as E1 by reflexivity.
    assert ((1 - p2 (-33) == dyadic (2 ^ 33 - 1) (-33))%Q) as E2 by reflexivity.
    rewrite E2, E1. split; apply dyadic_le; lia.
  - unfold pcg32.uniform. pose proof (pcg_advance_ok g Hg) as Ha. unfold pcg32.next_uint. cbn. done.
Qed.
End draws.

(** ** The interface of the simulator's generator *)

(** A positive number. *)
Definition positive (x : double) : Prop := finite x = true ∧ (0 < val x)%Q.

(** What a generator promises while its state is [ok]: draws in their ranges, and a
    state that is [ok] again. *)
Class LawfulRNG (G : Type) `{RNG G} (ok : G → Prop) : Prop := {
  uniform_law g : ok g → in_range 0 1 (standard_uniform g).1 ∧ ok (standard_uniform g).2;
  normal_law g : ok g → in_range (- inject_Z 8) (inject_Z 8) (standard_normal g).1 ∧ ok (standard_normal g).2;
  exponential_law rate g : ok g → in_range (1 # 2) (inject_Z 50) rate →
    in_range 0 (inject_Z 46) (exponential rate g).1 ∧ ok (exponential rate g).2;
  bernoulli_law p g : ok g → ok (bernoulli p g).2;
  poisson_law mean g : ok g → positive mean → ok (poisson mean g).2
}.

(** What [random] keeps of the words of the generator it draws from; the mean of a
    [std::poisson_distribution] has to be positive. *)
Class LawfulDistributions `{Distributions} : Prop :=
  poisson_keeps mean g : pcg_ok g → positive mean → pcg_ok (poisson_distribution mean g).2.

#[export] Instance PCGRNG_lawful `{LibmRanges, LawfulDistributions} : LawfulRNG pcg32.t pcg_ok.
Proof.
  assert ((0 < p2 (-33) ∧ p2 (-33) <= 1)%Q) as [P0 P1] by evaluate.
  constructor; cbn [standard_uniform standard_normal exponential bernoulli poisson PCGRNG_RNG].
  - intros g Hg0. destruct (uniform_range g) as [Hu Hg]; [done|]. split; [|done]. eapply in_range_le; [exact Hu | lra | lra].
  - intros g Hg0. unfold PCGRNG.standard_normal. destruct (uniform_range g) as [Hu Hg]; [done|].
    destruct (pcg32.uniform g) as [p g']. cbn [fst snd] in *. split; [by apply inverse_normal_range | done].
  - intros rate g Hg0 Hrate. unfold PCGRNG.exponential. destruct (uniform_range g) as [[Hf [U1 U2]] Hg]; [done|].
    destruct (pcg32.uniform g) as [p g']. cbn [fst snd] in *. split; [|done].
    assert (in_range (p2 (-33)) 1 (fsub (of_Z 1) p)) as Hl%log_unit.
    { apply fsub_range; [in_format | in_format | done | done |]. rewrite val_one. split; lra. }
    destruct Hl as [Hl [L1 L2]]. destruct Hrate as [Hr [R1 R2]]. change (inject_Z 23) with 23%Q in *.
    apply fdiv_range; [in_format | in_format | done | done | lra |]. change (inject_Z 46) with 46%Q.
    split; [apply Qle_shift_div_l | apply Qle_shift_div_r]; lra.
  - intros p g Hg0. unfold PCGRNG.bernoulli. destruct (uniform_range g) as [_ Hg]; [done|].
    by destruct (pcg32.uniform g) as [u g'].
  - intros mean g. apply poisson_keeps.
Qed.
