(* ===== verification/OrderManager.v ===== *)
(** [order_manager.hpp]: when the simulator cancels its orders.  Each order is
    acknowledged with a hazard threshold; a cumulative hazard grows with time at
    the current cancel rate; the order is cancelled when the hazard reaches its
    threshold.

    The handlers run one at a time on a strand.  The clock is an argument of the
    handlers that read it; what a handler does to the timer, the strand and the
    connection is the list of its actions. *)

From Stdlib Require Import SpecFloat.
From S2P Require Import Prelude Types Codec Payloads Doubles.

Record HazardEntry := MkHazardEntry {
  hazard_threshold : double;
  exchange_order_id : Id_t
}.

(** [CompareHazard]: the order of the queue, smallest threshold on top. *)
Definition CompareHazard (a b : HazardEntry) : bool :=
  flt b.(hazard_threshold) a.(hazard_threshold).

(** ** [std::priority_queue] *)

Class PriorityQueue (Q : Type) := {
  pq_empty : Q;
  pq_push : HazardEntry → Q → Q;
  pq_top : Q → option HazardEntry;
  pq_pop : Q → Q;
  pq_elements : Q → list HazardEntry
}.

(** Which of several least elements is on top is not specified; with NaN
    thresholds nothing is. *)
Class LawfulQueue (Q : Type) `{PriorityQueue Q} : Prop := {
  empty_elements : pq_elements pq_empty = [];
  push_elements e q : pq_elements (pq_push e q) ≡ₚ e :: pq_elements q;
  top_none q : pq_top q = None ↔ pq_elements q = [];
  top_least q e :
    pq_top q = Some e → (∀ e', e' ∈ pq_elements q → is_nan e'.(hazard_threshold) = false) →
    ∀ e', e' ∈ pq_elements q → CompareHazard e e' = false;
  pop_elements q e : pq_top q = Some e → pq_elements q ≡ₚ e :: pq_elements (pq_pop q)
}.

(** [std::chrono::duration_cast] of a [duration<double>] in seconds to the
    nanoseconds of the steady clock: undefined when they do not fit 64 bits. *)
Definition nanoseconds (seconds : double) : outcome Z := to_i64 (seconds * of_Z 1000000000)%double.

(** What a handler does outside the manager.  The delay the timer is given is the
    result of a conversion: a handler that gives it an undefined one is undefined
    there, having done the rest. *)
Inductive Action :=
  | timer_cancel
  | timer_async_wait (delay : outcome Z)
  | post_fire
  | send_cancel (payload : PayloadCancelOrder.t).

Module OrderManager.
Section manager.
Context {Q : Type} `{PriorityQueue Q}.

(** [client_request_id_] is the counter shared with the simulator; a
    [time_point] is its count of nanoseconds. *)
Record t := Make {
  client_request_id_ : Id_t;
  cumulative_hazard_ : double;
  lambda_cancel_ : double;
  last_update_time_ : Z;
  expiry_queue_ : Q;
  active_orders_ : gset Z;
  pending_inserts_ : gmap Z double
}.

Definition OrderManager (request_id : Id_t) : t := Make request_id fzero fzero 0 pq_empty ∅ ∅.

Definition set_orders (s : t) (queue : Q) (active : gset Z) : t :=
  Make s.(client_request_id_) s.(cumulative_hazard_) s.(lambda_cancel_) s.(last_update_time_)
    queue active s.(pending_inserts_).
Definition set_pending (s : t) (pending : gmap Z double) : t :=
  Make s.(client_request_id_) s.(cumulative_hazard_) s.(lambda_cancel_) s.(last_update_time_)
    s.(expiry_queue_) s.(active_orders_) pending.
Definition set_lambda (s : t) (lambda_cancel : double) : t :=
  Make s.(client_request_id_) s.(cumulative_hazard_) lambda_cancel s.(last_update_time_)
    s.(expiry_queue_) s.(active_orders_) s.(pending_inserts_).
Definition set_request (s : t) (id : Id_t) : t :=
  Make id s.(cumulative_hazard_) s.(lambda_cancel_) s.(last_update_time_)
    s.(expiry_queue_) s.(active_orders_) s.(pending_inserts_).

(** [std::chrono::duration<double>] of a number of nanoseconds. *)
Definition seconds (ns : Z) : double := (of_Z ns / of_Z 1000000000)%double.

Definition advance_hazard_to_now (now : Z) (s : t) : t :=
  let cumulative :=
    if negb (s.(last_update_time_) =? 0) && flt fzero s.(lambda_cancel_)
    then (s.(cumulative_hazard_) + s.(lambda_cancel_) * seconds (now - s.(last_update_time_)))%double
    else s.(cumulative_hazard_) in
  Make s.(client_request_id_) cumulative s.(lambda_cancel_) now
    s.(expiry_queue_) s.(active_orders_) s.(pending_inserts_).

(** The loop of [prune_top_]. *)
Fixpoint prune_loop (fuel : nat) (active : gset Z) (queue : Q) : outcome Q :=
  match pq_top queue with
  | None => Done queue
  | Some top =>
      if decide (top.(exchange_order_id) ∈ active) then Done queue
      else match fuel with
           | O => OutOfFuel
           | S fuel => prune_loop fuel active (pq_pop queue)
           end
  end.

Definition queue_size (s : t) : nat := length (pq_elements s.(expiry_queue_)).

Definition prune_top_ (s : t) : outcome t :=
  queue ← prune_loop (queue_size s) s.(active_orders_) s.(expiry_queue_);
  Done (set_orders s queue s.(active_orders_)).

Definition top_is_due_ (s : t) : bool :=
  match pq_top s.(expiry_queue_) with
  | None => false
  | Some top => fle top.(hazard_threshold) s.(cumulative_hazard_)
  end.

Definition reschedule_next_expiry (now : Z) (s : t) : outcome (t * list Action) :=
  let s := advance_hazard_to_now now s in
  if fle s.(lambda_cancel_) fzero then Done (s, [timer_cancel])
  else
    s ← prune_top_ s;
    match pq_top s.(expiry_queue_) with
    | None => Done (s, [timer_cancel])
    | Some next =>
        let remaining_hazard := (next.(hazard_threshold) - s.(cumulative_hazard_))%double in
        if fle remaining_hazard fzero then Done (s, [timer_cancel; post_fire])
        else
          let dt := (remaining_hazard / s.(lambda_cancel_))%double in
          Done (s, [timer_cancel; timer_async_wait (nanoseconds dt)])
    end.

(** The loop of [fire_next_expiry]. *)
Fixpoint fire_loop (fuel : nat) (s : t) : outcome (t * list Action) :=
  match pq_top s.(expiry_queue_) with
  | None => Done (s, [])
  | Some top =>
      if flt s.(cumulative_hazard_) top.(hazard_threshold) then Done (s, [])
      else match fuel with
           | O => OutOfFuel
           | S fuel =>
               let queue := pq_pop s.(expiry_queue_) in
               let id := top.(exchange_order_id) in
               if decide (id ∈ s.(active_orders_)) then
                 let client_id := s.(client_request_id_) in
                 let s := set_request s (u32 (client_id + 1)) in
                 s ← prune_top_ (set_orders s queue (s.(active_orders_) ∖ {[id]}));
                 '(s, actions) ← fire_loop fuel s;
                 Done (s, send_cancel (make_cancel_order client_id id) :: actions)
               else
                 s ← prune_top_ (set_orders s queue s.(active_orders_));
                 fire_loop fuel s
           end
  end.

(** [fire_next_expiry], given whether the wait was aborted and the times of the
    two readings of the clock. *)
Definition fire_next_expiry (aborted : bool) (now now' : Z) (s : t) : outcome (t * list Action) :=
  if aborted then Done (s, [])
  else
    let s := advance_hazard_to_now now s in
    if fle s.(lambda_cancel_) fzero then Done (s, [])
    else
      s ← prune_top_ s;
      '(s, actions) ← fire_loop (queue_size s) s;
      '(s, actions') ← reschedule_next_expiry now' s;
      Done (s, actions ++ actions').

Definition register_pending_insert (client_request_id : Id_t) (hazard_threshold : double) (s : t) : t :=
  set_pending s (<[client_request_id := hazard_threshold]> s.(pending_inserts_)).

Definition on_insert_acknowledged (msg : PayloadConfirmOrderInserted.t) (now : Z) (s : t)
    : outcome (t * list Action) :=
  let client_id := msg.(PayloadConfirmOrderInserted.client_request_id) in
  let exchange_id := msg.(PayloadConfirmOrderInserted.exchange_order_id) in
  match s.(pending_inserts_) !! client_id with
  | None => Done (s, [])
  | Some hazard_threshold =>
      let s := set_pending s (delete client_id s.(pending_inserts_)) in
      let s := set_orders s (pq_push (MkHazardEntry hazard_threshold exchange_id) s.(expiry_queue_))
                 ({[exchange_id]} ∪ s.(active_orders_)) in
      reschedule_next_expiry now s
  end.

Definition on_partial_fill (msg : PayloadPartialFill.t) (s : t) : t :=
  if 0 <? msg.(PayloadPartialFill.leaves_quantity) then s
  else set_orders s s.(expiry_queue_)
         (s.(active_orders_) ∖ {[msg.(PayloadPartialFill.exchange_order_id)]}).

Definition update_cancel_rate (lambda_cancel : double) (now now' : Z) (s : t) : outcome (t * list Action) :=
  let s := advance_hazard_to_now now s in
  reschedule_next_expiry now' (set_lambda s lambda_cancel).

Definition open_order_count (s : t) : Z := Z.of_nat (size s.(active_orders_)).
Definition cumulative_hazard (s : t) : double := s.(cumulative_hazard_).
End manager.
Arguments t : clear implicits.
End OrderManager.

(** ** A queue

    The least element is looked for when it is needed. *)

(** The first least element of a list and the others. *)
Fixpoint pick (es : list HazardEntry) : option (HazardEntry * list HazardEntry) :=
  match es with
  | [] => None
  | e :: es =>
      match pick es with
      | None => Some (e, [])
      | Some (top, rest) => if CompareHazard e top then Some (top, e :: rest) else Some (e, es)
      end
  end.

#[global] Instance list_queue : PriorityQueue (list HazardEntry) := {|
  pq_empty := [];
  pq_push e es := es ++ [e];
  pq_top es := fst <$> pick es;
  pq_pop es := default [] (snd <$> pick es);
  pq_elements es := es
|}.

Lemma pick_none es : pick es = None ↔ es = [].
Proof. destruct es as [|e es]; [done|]. cbn. by destruct (pick es) as [[top rest]|]; [destruct (CompareHazard e top)|]. Qed.

Lemma pick_Permutation es top rest : pick es = Some (top, rest) → es ≡ₚ top :: rest.
Proof.
  revert top rest. induction es as [|e es IH]; intros top rest; [done|]. cbn.
  destruct (pick es) as [[top' rest']|] eqn:E.
  - destruct (CompareHazard e top'); intros [= <- <-]; [|done]. rewrite (IH _ _ eq_refl). constructor.
  - apply pick_none in E as ->. by intros [= <- <-].
Qed.

Lemma pick_least es top rest e :
  pick es = Some (top, rest) → (∀ e', e' ∈ es → is_nan e'.(hazard_threshold) = false) →
  e ∈ es → fle top.(hazard_threshold) e.(hazard_threshold) = true.
Proof.
  revert top rest e. induction es as [|e0 es IH]; intros top rest e; [done|]. cbn. intros E Hn Hin.
  assert (is_nan e0.(hazard_threshold) = false) as H0 by (apply Hn; left).
  destruct (pick es) as [[top' rest']|] eqn:Ep.
  - assert (is_nan top'.(hazard_threshold) = false) as Ht.
    { apply Hn. right. rewrite (pick_Permutation _ _ _ Ep). left. }
    assert (∀ e', e' ∈ es → fle top'.(hazard_threshold) e'.(hazard_threshold) = true) as Hes.
    { intros e' He'. apply (IH _ _ _ eq_refl); [|done]. intros e'' He''. apply Hn. by right. }
    destruct (CompareHazard e0 top') eqn:EC; unfold CompareHazard in EC; injection E as <- <-;
      apply elem_of_cons in Hin as [->|Hin].
    + by apply flt_fle.
    + by apply Hes.
    + by apply fle_refl.
    + eapply fle_trans; [|by apply Hes]. by rewrite fle_not_flt, EC.
  - apply pick_none in Ep as ->. injection E as <- <-. apply list_elem_of_singleton in Hin as ->. by apply fle_refl.
Qed.

#[global] Instance list_queue_lawful : LawfulQueue (list HazardEntry).
Proof.
  split; cbn.
  - done.
  - intros e q. by rewrite Permutation_app_comm.
  - intros q. rewrite <- pick_none. by destruct (pick q) as [[]|].
  - intros q e E Hn e' He'. destruct (pick q) as [[top rest]|] eqn:Ep; [|done]. injection E as ->.
    unfold CompareHazard. pose proof (pick_least _ _ _ _ Ep Hn He') as Hle.
    pose proof (fle_not_nan _ _ Hle) as [H1 H2]. rewrite fle_not_flt in Hle by done. by apply negb_true_iff in Hle.
  - intros q e E. destruct (pick q) as [[top rest]|] eqn:Ep; [|done]. injection E as ->. by apply pick_Permutation.
Qed.
