(* ===== verification/OrderManagerTheorems.v ===== *)
(** What the order manager guarantees, for any queue that is a priority queue:
    its loops end, it cancels exactly the orders that are due, earliest first,
    each once, and never an order that is not open; and an open order is never
    left without a pending expiry. *)

From Stdlib Require Import SpecFloat.
From stdpp Require Import sorting.
From S2P Require Import Prelude Types Codec Payloads Doubles OrderManager.
Import OrderManager.

Section manager.
Context {Q : Type} `{HQ : LawfulQueue Q}.
Implicit Types (s : OrderManager.t Q) (e : HazardEntry).

(** ** Queues *)

Lemma top_in (q : Q) e : pq_top q = Some e → e ∈ pq_elements q.
Proof. intros E. rewrite (pop_elements q e E). left. Qed.

Lemma pop_in (q : Q) e e' : pq_top q = Some e → e' ∈ pq_elements (pq_pop q) → e' ∈ pq_elements q.
Proof. intros E H'. rewrite (pop_elements q e E). by right. Qed.

Lemma pop_length (q : Q) e : pq_top q = Some e → length (pq_elements q) = S (length (pq_elements (pq_pop q))).
Proof. intros E. by rewrite (pop_elements q e E). Qed.

(** The order of the entry is open. *)
Definition live (active : gset Z) e : Prop := e.(exchange_order_id) ∈ active.

(** [q'] is [q] without some entries that are not live, and its top is live. *)
Definition pruned (active : gset Z) (q q' : Q) : Prop :=
  (∃ dead, pq_elements q ≡ₚ dead ++ pq_elements q' ∧ ∀ e, e ∈ dead → ¬ live active e) ∧
  ∀ top, pq_top q' = Some top → live active top.

Lemma prune_loop_ok fuel active q :
  (length (pq_elements q) <= fuel)%nat → ∃ q', prune_loop fuel active q = Done q' ∧ pruned active q q'.
Proof.
  revert q. induction fuel as [|fuel IH]; intros q Hl; cbn [prune_loop].
  - destruct (pq_top q) as [top|] eqn:E.
    + apply pop_length in E. lia.
    + exists q. split; [done|]. split; [exists []; split; [done|]; by intros e ?%elem_of_nil | by intros top; rewrite E].
  - destruct (pq_top q) as [top|] eqn:E.
    + case_decide as Hlive.
      * exists q. split; [done|]. split; [exists []; split; [done|]; by intros e ?%elem_of_nil|].
        intros top'. rewrite E. by intros [= <-].
      * destruct (IH (pq_pop q)) as (q' & E' & (dead & Hp & Hd) & Htop); [apply pop_length in E; lia|].
        exists q'. split; [done|]. split; [|done]. exists (top :: dead). split.
        -- by rewrite (pop_elements q top E), Hp.
        -- intros e [->|He]%elem_of_cons; [done | by apply Hd].
    + exists q. split; [done|]. split; [exists []; split; [done|]; by intros e ?%elem_of_nil | by intros top; rewrite E].
Qed.

Lemma prune_top_ok s :
  ∃ q', prune_top_ s = Done (set_orders s q' s.(active_orders_)) ∧ pruned s.(active_orders_) s.(expiry_queue_) q'.
Proof.
  destruct (prune_loop_ok (queue_size s) s.(active_orders_) s.(expiry_queue_)) as (q' & E & HP); [done|].
  exists q'. split; [|done]. unfold prune_top_. by rewrite E.
Qed.

(** Pruning keeps the live entries. *)
Lemma pruned_live active (q q' : Q) e :
  pruned active q q' → live active e → e ∈ pq_elements q ↔ e ∈ pq_elements q'.
Proof.
  intros [(dead & Hp & Hd) _] Hl. rewrite Hp, elem_of_app. split; [|by right].
  intros [He|He]; [by destruct (Hd e He) | done].
Qed.

Lemma pruned_sub active (q q' : Q) e : pruned active q q' → e ∈ pq_elements q' → e ∈ pq_elements q.
Proof. intros [(dead & Hp & _) _] He. rewrite Hp, elem_of_app. by right. Qed.

Lemma pruned_length active (q q' : Q) : pruned active q q' → (length (pq_elements q') <= length (pq_elements q))%nat.
Proof. intros [(dead & Hp & _) _]. rewrite Hp, length_app. lia. Qed.

(** ** Due orders *)

(** The entry is due: its threshold is not above the cumulative hazard. *)
Definition due (hazard : double) e : Prop := flt hazard e.(hazard_threshold) = false.

Definition no_nan (q : Q) : Prop := ∀ e, e ∈ pq_elements q → is_nan e.(hazard_threshold) = false.

Definition cancels (actions : list Action) : list PayloadCancelOrder.t :=
  omap (λ a, match a with send_cancel payload => Some payload | _ => None end) actions.

Definition cancelled (actions : list Action) : list Id_t :=
  map PayloadCancelOrder.exchange_order_id (cancels actions).

Lemma cancels_app acts acts' : cancels (acts ++ acts') = cancels acts ++ cancels acts'.
Proof. apply omap_app. Qed.

Lemma cancels_send payload acts : cancels (send_cancel payload :: acts) = payload :: cancels acts.
Proof. done. Qed.

Lemma cancels_length acts : (length (cancels acts) <= length acts)%nat.
Proof. unfold cancels. induction acts as [|[] acts IH]; cbn; lia. Qed.

Lemma cancelled_app acts acts' : cancelled (acts ++ acts') = cancelled acts ++ cancelled acts'.
Proof. unfold cancelled. by rewrite cancels_app, map_app. Qed.

(** What the loop does to [s]: it cancels the orders of [es], earliest first. *)
Record fired s (s' : OrderManager.t Q) (actions : list Action) (es : list HazardEntry) : Prop := MkFired {
  fi_cancelled : cancelled actions = map exchange_order_id es;
  fi_only : length actions = length es;
  fi_requests : map PayloadCancelOrder.client_request_id (cancels actions) =
    map u32 (seqZ s.(client_request_id_) (Z.of_nat (length es)));
  fi_next : s'.(client_request_id_) = u32 (s.(client_request_id_) + Z.of_nat (length es));
  fi_hazard : s'.(cumulative_hazard_) = s.(cumulative_hazard_) ∧ s'.(lambda_cancel_) = s.(lambda_cancel_) ∧
    s'.(last_update_time_) = s.(last_update_time_) ∧ s'.(pending_inserts_) = s.(pending_inserts_);
  fi_due e : e ∈ es → e ∈ pq_elements s.(expiry_queue_) ∧ live s.(active_orders_) e ∧ due s.(cumulative_hazard_) e;
  fi_once : NoDup (map exchange_order_id es);
  fi_active id : id ∈ s'.(active_orders_) ↔ id ∈ s.(active_orders_) ∧ id ∉ map exchange_order_id es;
  fi_queue e : e ∈ pq_elements s'.(expiry_queue_) → e ∈ pq_elements s.(expiry_queue_);
  fi_keeps e : live s'.(active_orders_) e → e ∈ pq_elements s.(expiry_queue_) →
    e ∈ pq_elements s'.(expiry_queue_) ∧ (no_nan s.(expiry_queue_) → ¬ due s.(cumulative_hazard_) e);
  fi_sorted : no_nan s.(expiry_queue_) → StronglySorted (λ e e', CompareHazard e e' = false) es
}.

Lemma u32_seqZ_cons a n :
  map u32 (seqZ a (Z.of_nat (S n))) = u32 a :: map u32 (seqZ (u32 (a + 1)) (Z.of_nat n)).
Proof.
  rewrite wrap_seqZ, seqZ_cons by lia. by replace (Z.pred (Z.of_nat (S n))) with (Z.of_nat n) by lia.
Qed.

Lemma no_nan_sub (q q' : Q) : (∀ e, e ∈ pq_elements q' → e ∈ pq_elements q) → no_nan q → no_nan q'.
Proof. intros Hs Hn e He. by apply Hn, Hs. Qed.

(** When the top is not due, nothing is. *)
Lemma top_not_due (q : Q) hazard top e :
  pq_top q = Some top → flt hazard top.(hazard_threshold) = true → no_nan q → e ∈ pq_elements q → ¬ due hazard e.
Proof.
  intros E Hd Hn He. unfold due. rewrite (flt_fle_trans _ top.(hazard_threshold)); [done | done |].
  pose proof (top_least q top E Hn e He) as Hc. unfold CompareHazard in Hc.
  rewrite fle_not_flt, Hc; [done | by apply Hn, top_in | by apply Hn].
Qed.

Lemma fired_nothing s :
  is_u32 s.(client_request_id_) →
  (∀ top, pq_top s.(expiry_queue_) = Some top → flt s.(cumulative_hazard_) top.(hazard_threshold) = true) →
  fired s s [] [].
Proof.
  intros Hr Htop. split; cbn; try done.
  - by rewrite Z.add_0_r, u32_small.
  - by intros e ?%elem_of_nil.
  - constructor.
  - intros id. split; [intros; split; [done | apply not_elem_of_nil] | by intros []].
  - intros e _ He. split; [done|]. intros Hn. destruct (pq_top s.(expiry_queue_)) as [top|] eqn:E.
    + eapply top_not_due; [done | by apply Htop | done | done].
    + apply top_none in E. rewrite E in He. by apply elem_of_nil in He.
  - constructor.
Qed.

Lemma fired_live s top q' s' acts es :
  pq_top s.(expiry_queue_) = Some top → live s.(active_orders_) top → due s.(cumulative_hazard_) top →
  let active := s.(active_orders_) ∖ {[exchange_order_id top]} in
  pruned active (pq_pop s.(expiry_queue_)) q' →
  fired (set_orders (set_request s (u32 (s.(client_request_id_) + 1))) q' active) s' acts es →
  is_u32 s.(client_request_id_) →
  fired s s' (send_cancel (make_cancel_order s.(client_request_id_) (exchange_order_id top)) :: acts) (top :: es).
Proof.
  intros E Hl Hd active HP HF Hr. destruct HF as [F1 F2 F3 F4 F5 F6 F7 F8 F9 F10 F11]. cbn in *.
  assert (∀ e, e ∈ pq_elements q' → e ∈ pq_elements (expiry_queue_ s)) as Hsub.
  { intros e He. eapply pop_in; [done|]. by eapply pruned_sub. }
  split; try done.
  - unfold cancelled in *. rewrite cancels_send. cbn [map]. by rewrite F1.
  - cbn. by rewrite F2.
  - rewrite cancels_send. cbn [length map]. by rewrite u32_seqZ_cons, F3, (u32_small (client_request_id_ s)).
  - rewrite F4, u32_add_l. f_equal. cbn [length]. lia.
  - intros e [->|He]%elem_of_cons; [split; [by apply top_in | done]|]. destruct (F6 e He) as (H1 & H2 & H3).
    split; [by apply Hsub|]. split; [|done]. unfold live, active in *. set_solver.
  - constructor; [|done]. intros (e & Ee & He)%list_elem_of_fmap. destruct (F6 e He) as (_ & H2 & _).
    unfold live, active in H2. rewrite <- Ee in H2. set_solver.
  - intros id. rewrite F8. unfold active. cbn [map]. rewrite not_elem_of_cons. set_solver.
  - intros e He. by apply Hsub, F9.
  - intros e Hlive He. apply F8 in Hlive as Ha. destruct Ha as [Ha _].
    rewrite (pop_elements _ top E) in He. apply elem_of_cons in He as [->|He]; [unfold active in Ha; set_solver|].
    apply (pruned_live active _ q' e HP Ha) in He. destruct (F10 e Hlive He) as [H1 H2].
    split; [done|]. intros Hn. apply H2. by eapply no_nan_sub.
  - intros Hn. constructor; [apply F11; by eapply no_nan_sub|]. apply Forall_forall. intros e He.
    apply (top_least _ top E Hn). by apply Hsub, F6.
Qed.

Lemma fired_dead s top q' s' acts es :
  pq_top s.(expiry_queue_) = Some top → ¬ live s.(active_orders_) top →
  pruned s.(active_orders_) (pq_pop s.(expiry_queue_)) q' →
  fired (set_orders s q' s.(active_orders_)) s' acts es → fired s s' acts es.
Proof.
  intros E Hl HP [F1 F2 F3 F4 F5 F6 F7 F8 F9 F10 F11]. cbn in *.
  assert (∀ e, e ∈ pq_elements q' → e ∈ pq_elements (expiry_queue_ s)) as Hsub.
  { intros e He. eapply pop_in; [done|]. by eapply pruned_sub. }
  split; try done.
  - intros e He. destruct (F6 e He) as (H1 & H2). split; [by apply Hsub | done].
  - intros e He. by apply Hsub, F9.
  - intros e Hlive He. apply F8 in Hlive as Ha. destruct Ha as [Ha _].
    rewrite (pop_elements _ top E) in He. apply elem_of_cons in He as [->|He]; [done|].
    apply (pruned_live _ _ q' e HP Ha) in He. destruct (F10 e Hlive He) as [H1 H2].
    split; [done|]. intros Hn. apply H2. by eapply no_nan_sub.
  - intros Hn. apply F11. by eapply no_nan_sub.
Qed.

Lemma fire_loop_ok fuel s :
  (queue_size s <= fuel)%nat → is_u32 s.(client_request_id_) →
  ∃ s' acts es, fire_loop fuel s = Done (s', acts) ∧ fired s s' acts es.
Proof.
  revert s. induction fuel as [|fuel IH]; intros s Hl Hr; cbn [fire_loop];
    (destruct (pq_top (expiry_queue_ s)) as [top|] eqn:E;
      [|exists s, [], []; split; [done|]; apply fired_nothing; [done | intros top; by rewrite E]]);
    (destruct (flt (cumulative_hazard_ s) (hazard_threshold top)) eqn:Ed;
      [exists s, [], []; split; [done|]; apply fired_nothing; [done | intros top'; rewrite E; by intros [= <-]]|]);
    pose proof (pop_length _ _ E) as Hp; unfold queue_size in Hl; [lia|].
  case_decide as Hlive.
  - cbn [active_orders_ set_request].
    destruct (prune_top_ok (set_orders (set_request s (u32 (client_request_id_ s + 1))) (pq_pop (expiry_queue_ s))
      (active_orders_ s ∖ {[exchange_order_id top]}))) as (q' & -> & HP). run_bind.
    cbn [active_orders_ expiry_queue_ set_orders set_request] in *. pose proof (pruned_length _ _ _ HP) as Hq.
    edestruct (IH (set_orders (set_request s (u32 (client_request_id_ s + 1))) q'
      (active_orders_ s ∖ {[exchange_order_id top]}))) as (s' & acts & es & E' & HF);
      [unfold queue_size; cbn; lia | cbn; auto with machine |].
    unfold set_orders in E' |- *. cbn in E' |- *. rewrite E'. run_bind.
    eexists _, _, (top :: es). split; [reflexivity|]. by eapply fired_live.
  - destruct (prune_top_ok (set_orders s (pq_pop (expiry_queue_ s)) (active_orders_ s))) as (q' & -> & HP).
    run_bind. cbn [active_orders_ expiry_queue_ set_orders] in *.
    pose proof (pruned_length _ _ _ HP) as Hq.
    destruct (IH (set_orders s q' (active_orders_ s))) as (s' & acts & es & E' & HF);
      [unfold queue_size; cbn; lia | done|].
    unfold set_orders in E' |- *. cbn in E' |- *. rewrite E'.
    exists s', acts, es. split; [done|]. by eapply fired_dead.
Qed.
(** ** The invariant *)

(** Every open order has an entry in the queue, and no threshold is NaN. *)
Record om_ok s : Prop := MkOmOk {
  om_request : is_u32 s.(client_request_id_);
  om_covered id : id ∈ s.(active_orders_) → ∃ e, e ∈ pq_elements s.(expiry_queue_) ∧ exchange_order_id e = id;
  om_queue : no_nan s.(expiry_queue_);
  om_pending id threshold : s.(pending_inserts_) !! id = Some threshold → is_nan threshold = false
}.

Lemma new_manager_ok r : is_u32 r → om_ok (OrderManager r).
Proof.
  intros Hr. split; cbn; [done | by intros id ?%not_elem_of_empty | | by intros id th; rewrite lookup_empty].
  intros e. rewrite empty_elements. by intros ?%elem_of_nil.
Qed.

Lemma advance_ok now s : om_ok s → om_ok (advance_hazard_to_now now s).
Proof. by intros []. Qed.

Lemma prune_ok s : om_ok s →
  ∃ q', prune_top_ s = Done (set_orders s q' s.(active_orders_)) ∧
    pruned s.(active_orders_) s.(expiry_queue_) q' ∧ om_ok (set_orders s q' s.(active_orders_)).
Proof.
  intros [H1 H2 H3 H4]. destruct (prune_top_ok s) as (q' & E & HP). exists q'. split; [done|]. split; [done|].
  split; cbn; try done.
  - intros id Hid. destruct (H2 id Hid) as (e & He & <-). exists e. split; [|done].
    by apply (pruned_live _ _ _ e HP Hid).
  - eapply no_nan_sub; [|done]. intros e He. by eapply pruned_sub.
Qed.

Lemma register_ok id threshold s :
  om_ok s → is_nan threshold = false → om_ok (register_pending_insert id threshold s).
Proof.
  intros [H1 H2 H3 H4] Hn. split; try done. intros id' th. cbn.
  intros [[<- <-]|[_ E]]%lookup_insert_Some; [done | by eapply H4].
Qed.

(** The manager that [on_insert_acknowledged] reschedules. *)
Lemma acknowledged_ok client id threshold s :
  om_ok s → s.(pending_inserts_) !! client = Some threshold →
  om_ok (set_orders (set_pending s (delete client s.(pending_inserts_)))
           (pq_push (MkHazardEntry threshold id) s.(expiry_queue_)) ({[id]} ∪ s.(active_orders_))).
Proof.
  intros [H1 H2 H3 H4] Ep. split; cbn; [done | | |].
  - intros id' [->%elem_of_singleton|Hid]%elem_of_union.
    + eexists. rewrite push_elements. split; [left | done].
    + destruct (H2 id' Hid) as (e & He & Ee). exists e. rewrite push_elements. split; [by right | done].
  - intros e. rewrite push_elements. intros [->|He]%elem_of_cons; [by eapply H4 | by apply H3].
  - intros id' th [_ E]%lookup_delete_Some. by eapply H4.
Qed.

Lemma partial_fill_ok msg s : om_ok s → om_ok (on_partial_fill msg s).
Proof.
  intros HS. unfold on_partial_fill. destruct (_ <? _); [done|]. destruct HS as [H1 H2 H3 H4].
  split; cbn; try done. intros id [Hid _]%elem_of_difference. by apply H2.
Qed.

(** An expiry is on its way: posted to the strand, or awaited by the timer. *)
Definition schedules (a : Action) : bool :=
  match a with timer_async_wait _ | post_fire => true | _ => false end.

(** [s'] differs from [s] in the clock and in dead entries only. *)
Record same_orders s (s' : OrderManager.t Q) : Prop := MkSameOrders {
  so_request : s'.(client_request_id_) = s.(client_request_id_);
  so_active : s'.(active_orders_) = s.(active_orders_);
  so_lambda : s'.(lambda_cancel_) = s.(lambda_cancel_);
  so_pending : s'.(pending_inserts_) = s.(pending_inserts_)
}.

Lemma reschedule_ok now s :
  om_ok s →
  ∃ s' acts, reschedule_next_expiry now s = Done (s', timer_cancel :: acts) ∧ om_ok s' ∧ same_orders s s' ∧
    cancels acts = [] ∧
    (fle s.(lambda_cancel_) fzero = false → s.(active_orders_) ≠ ∅ → ∃ a, acts = [a] ∧ schedules a = true).
Proof.
  intros HS. unfold reschedule_next_expiry. pose proof (advance_ok now s HS) as HS1.
  change (lambda_cancel_ (advance_hazard_to_now now s)) with (lambda_cancel_ s).
  destruct (fle (lambda_cancel_ s) fzero).
  { eexists _, []. split; [reflexivity|]. split; [done|]. split; [done|]. split; [done|]. discriminate. }
  destruct (prune_ok _ HS1) as (q' & -> & HP & HS2). run_bind.
  change (active_orders_ (advance_hazard_to_now now s)) with (active_orders_ s) in *.
  cbn [expiry_queue_ set_orders cumulative_hazard_ lambda_cancel_].
  destruct (pq_top q') as [next|] eqn:E.
  - destruct (fle _ fzero); eexists _, [_]; (split; [reflexivity|]); (split; [done|]); (split; [done|]);
      (split; [done|]); intros _ _; by eexists.
  - eexists _, []. split; [reflexivity|]. split; [done|]. split; [done|]. split; [done|].
    intros _ Hne. destruct (set_choose_L _ Hne) as (id & Hid).
    destruct (om_covered _ HS2 id Hid) as (e & He & _). cbn in He. apply top_none in E. rewrite E in He.
    by apply elem_of_nil in He.
Qed.

Lemma fired_ok s s' acts es : fired s s' acts es → om_ok s → om_ok s'.
Proof.
  intros HF [H1 H2 H3 H4]. split.
  - rewrite (fi_next _ _ _ _ HF). auto with machine.
  - intros id Hid. apply (fi_active _ _ _ _ HF) in Hid as Ha. destruct Ha as [Ha _].
    destruct (H2 id Ha) as (e & He & <-). exists e. split; [|done]. by apply (fi_keeps _ _ _ _ HF).
  - eapply no_nan_sub; [|exact H3]. apply HF.
  - destruct (fi_hazard _ _ _ _ HF) as (_ & _ & _ & ->). apply H4.
Qed.

(** A call of [fire_next_expiry] that finds a positive rate. *)
Lemma fire_ok now now' s :
  om_ok s → fle s.(lambda_cancel_) fzero = false →
  let hazard := (advance_hazard_to_now now s).(cumulative_hazard_) in
  ∃ s' acts acts' es, fire_next_expiry false now now' s = Done (s', acts ++ timer_cancel :: acts') ∧
    om_ok s' ∧ cancelled acts = map exchange_order_id es ∧ cancels acts' = [] ∧
    map PayloadCancelOrder.client_request_id (cancels acts) =
      map u32 (seqZ s.(client_request_id_) (Z.of_nat (length es))) ∧
    length acts = length (cancels acts) ∧
    NoDup (map exchange_order_id es) ∧ StronglySorted (λ e e', CompareHazard e e' = false) es ∧
    (∀ id, id ∈ map exchange_order_id es ↔
       id ∈ s.(active_orders_) ∧ ∃ e, e ∈ pq_elements s.(expiry_queue_) ∧ exchange_order_id e = id ∧ due hazard e) ∧
    s'.(active_orders_) = s.(active_orders_) ∖ list_to_set (map exchange_order_id es) ∧
    s'.(lambda_cancel_) = s.(lambda_cancel_) ∧
    (s'.(active_orders_) ≠ ∅ → ∃ a, acts' = [a] ∧ schedules a = true).
Proof.
  intros HS Hl hazard. unfold fire_next_expiry. pose proof (advance_ok now s HS) as HS1.
  change (lambda_cancel_ (advance_hazard_to_now now s)) with (lambda_cancel_ s). rewrite Hl.
  destruct (prune_ok _ HS1) as (q' & -> & HP & HS2). run_bind.
  set (s2 := set_orders _ q' _) in *.
  destruct (fire_loop_ok (queue_size s2) s2 (le_n _) (om_request _ HS2)) as (s3 & acts & es & -> & HF). run_bind.
  pose proof (fired_ok _ _ _ _ HF HS2) as HS3.
  destruct (reschedule_ok now' s3 HS3) as (s4 & acts' & -> & HS4 & [Er Ea El Ep] & Hc & Hsch). run_bind.
  exists s4, acts, acts', es. split; [done|]. split; [done|].
  destruct HF as [F1 F2 F3 F4 (F5 & F5' & _) F6 F7 F8 F9 F10 F11].
  change (active_orders_ s2) with (active_orders_ s) in *. change (cumulative_hazard_ s2) with hazard in *.
  split; [done|]. split; [done|]. split; [done|].
  split; [rewrite F2; apply (f_equal length) in F1; unfold cancelled in F1; by rewrite !length_map in F1|].
  split; [done|]. split; [by apply F11, HS2|].
  split; [|split; [|split]].
  - intros id. split.
    + intros (e & -> & He)%list_elem_of_fmap. destruct (F6 e He) as (H1 & H2 & H3). split; [done|].
      exists e. split; [|done]. by apply (pruned_sub _ _ _ e HP).
    + intros (Hid & e & He & <- & Hd).
      destruct (decide (exchange_order_id e ∈ map exchange_order_id es)) as [|Hn]; [done|]. exfalso.
      apply (pruned_live _ _ _ e HP Hid) in He.
      assert (live (active_orders_ s3) e) as Hlive by (by apply F8).
      destruct (F10 e Hlive He) as [_ H2]. by apply H2; [apply HS2|].
  - rewrite Ea. apply set_eq. intros id. rewrite F8. set_solver.
  - by rewrite El, F5'.
  - rewrite Ea. apply Hsch. by rewrite F5'.
Qed.
End manager.
