(* ===== verification/OrderManagerRuns.v ===== *)
(** Histories of the order manager: its handlers in any order, with the waits of
    the timer and the posted expiries they leave behind. *)

From Stdlib Require Import SpecFloat.
From stdpp Require Import sorting.
From S2P Require Import Prelude Types Codec Payloads Doubles OrderManager OrderManagerTheorems.
Import OrderManager.

(** Why [fire_next_expiry] is called: it was posted; the awaited time has come; a
    wait that has been cancelled completes, with [operation_aborted] or, when it
    was cancelled too late, without. *)
Inductive FireSource := Posted | Expired | Stale (aborted : bool).

Inductive Event :=
  | Registered (client_request_id : Id_t) (threshold : double)
  | Acknowledged (msg : PayloadConfirmOrderInserted.t) (now : Z)
  | PartiallyFilled (msg : PayloadPartialFill.t)
  | RateUpdated (lambda_cancel : double) (now now' : Z)
  | Fired (source : FireSource) (now now' : Z).

Section runs.
Context {Q : Type} `{HQ : LawfulQueue Q}.

(** The manager, whether its timer is awaited, and how many expiries are posted. *)
Record System := MkSystem {
  manager : OrderManager.t Q;
  awaited : bool;
  posted : nat
}.

Definition perform (awaited : bool) (posted : nat) (a : Action) : bool * nat :=
  match a with
  | timer_cancel => (false, posted)
  | timer_async_wait _ => (true, posted)
  | post_fire => (awaited, S posted)
  | send_cancel _ => (awaited, posted)
  end.

Definition performed (y : System) (s : OrderManager.t Q) (acts : list Action) : System :=
  let '(awaited, posted) := foldl (λ '(awaited, posted), perform awaited posted) (y.(awaited), y.(posted)) acts in
  MkSystem s awaited posted.

Definition idle (y : System) (s : OrderManager.t Q) : System := MkSystem s y.(awaited) y.(posted).

(** A handler; an expiry that nothing has scheduled does not happen. *)
Definition handle (y : System) (ev : Event) : outcome (System * list Action) :=
  match ev with
  | Registered id threshold => Done (idle y (register_pending_insert id threshold y.(manager)), [])
  | Acknowledged msg now =>
      '(s, acts) ← on_insert_acknowledged msg now y.(manager); Done (performed y s acts, acts)
  | PartiallyFilled msg => Done (idle y (on_partial_fill msg y.(manager)), [])
  | RateUpdated lambda_cancel now now' =>
      '(s, acts) ← update_cancel_rate lambda_cancel now now' y.(manager); Done (performed y s acts, acts)
  | Fired Posted now now' =>
      match y.(posted) with
      | O => Done (y, [])
      | S posted =>
          '(s, acts) ← fire_next_expiry false now now' y.(manager);
          Done (performed (MkSystem y.(manager) y.(awaited) posted) s acts, acts)
      end
  | Fired Expired now now' =>
      if y.(awaited) then
        '(s, acts) ← fire_next_expiry false now now' y.(manager);
        Done (performed (MkSystem y.(manager) false y.(posted)) s acts, acts)
      else Done (y, [])
  | Fired (Stale aborted) now now' =>
      '(s, acts) ← fire_next_expiry aborted now now' y.(manager); Done (performed y s acts, acts)
  end.

Fixpoint run (y : System) (evs : list Event) : outcome (System * list Action) :=
  match evs with
  | [] => Done (y, [])
  | ev :: evs =>
      '(y, acts) ← handle y ev;
      '(y, acts') ← run y evs;
      Done (y, acts ++ acts')
  end.

(** The thresholds given to the manager are numbers. *)
Definition numbers (ev : Event) : bool :=
  match ev with Registered _ threshold => negb (is_nan threshold) | _ => true end.

Definition acknowledges (id : Id_t) (ev : Event) : bool :=
  match ev with
  | Acknowledged msg _ => msg.(PayloadConfirmOrderInserted.exchange_order_id) =? id
  | _ => false
  end.

Definition times (id : Id_t) (acts : list Action) : nat := length (filter (id =.) (cancelled acts)).
Definition opens (id : Id_t) (s : OrderManager.t Q) : nat := if decide (id ∈ s.(active_orders_)) then 1 else 0.

(** An expiry is scheduled as long as there are open orders and a positive rate. *)
Definition no_orphan (y : System) : Prop :=
  fle y.(manager).(lambda_cancel_) fzero = false → y.(manager).(active_orders_) ≠ ∅ →
  y.(awaited) = true ∨ (0 < y.(posted))%nat.

Record system_ok (y : System) : Prop := MkSystemOk {
  sys_manager : om_ok y.(manager);
  sys_orphan : no_orphan y
}.

Lemma times_app id acts acts' : times id (acts ++ acts') = (times id acts + times id acts')%nat.
Proof. unfold times. by rewrite cancelled_app, filter_app, length_app. Qed.

Lemma times_none id acts : cancels acts = [] → times id acts = 0%nat.
Proof. unfold times, cancelled. by intros ->. Qed.

Lemma times_once id acts : NoDup (cancelled acts) → times id acts = if decide (id ∈ cancelled acts) then 1%nat else 0%nat.
Proof.
  unfold times. induction (cancelled acts) as [|x xs IH]; [done|]. intros [Hx Hd]%NoDup_cons.
  specialize (IH Hd). rewrite filter_cons. destruct (decide (id = x)) as [->|Hne].
  - rewrite decide_True by left. cbn. rewrite IH. by rewrite decide_False.
  - rewrite IH. destruct (decide (id ∈ xs)); [by rewrite decide_True by (by right)|].
    rewrite decide_False; [done|]. rewrite not_elem_of_cons. done.
Qed.

Lemma performed_schedules y s a : schedules a = true →
  (performed y s [timer_cancel; a]).(awaited) = true ∨ (0 < (performed y s [timer_cancel; a]).(posted))%nat.
Proof. intros Ha. destruct a; cbn; try done; [by left | right; lia]. Qed.

Lemma performed_cancels y s acts acts' :
  length acts = length (cancels acts) → performed y s (acts ++ acts') = performed y s acts'.
Proof.
  intros Hl. unfold performed. rewrite foldl_app. f_equal. f_equal.
  revert Hl. generalize (awaited y) (posted y). induction acts as [|a acts IH]; intros b n Hl; [done|].
  pose proof (cancels_length acts). destruct a; unfold cancels in *; cbn in *; try lia. apply IH. lia.
Qed.

Lemma performed_manager y s acts : (performed y s acts).(manager) = s.
Proof. unfold performed. by destruct (foldl _ _ _). Qed.
(** What a handler does to the open orders: each is cancelled at most once, and
    only one that is open. *)
Definition accounted (s s' : OrderManager.t Q) (acts : list Action) (acks : Id_t → nat) : Prop :=
  ∀ id, (times id acts + opens id s' <= opens id s + acks id)%nat.

Lemma quiet_accounted (s s' : OrderManager.t Q) acts acks :
  cancels acts = [] → s'.(active_orders_) ⊆ s.(active_orders_) → accounted s s' acts acks.
Proof.
  intros Hc Hs id. rewrite times_none by done. unfold opens. repeat case_decide; try lia. set_solver.
Qed.

Lemma fire_step (y : System) now now' :
  om_ok y.(manager) →
  ∃ s acts, fire_next_expiry false now now' y.(manager) = Done (s, acts) ∧ system_ok (performed y s acts) ∧
    accounted y.(manager) s acts (λ _, 0%nat).
Proof.
  intros HS. destruct (fle (lambda_cancel_ (manager y)) fzero) eqn:El.
  { exists (advance_hazard_to_now now (manager y)), []. split.
    - unfold fire_next_expiry. change (lambda_cancel_ (advance_hazard_to_now now ?s)) with (lambda_cancel_ s).
      by rewrite El.
    - split; [|by apply quiet_accounted]. split; [by apply advance_ok|]. intros Hl. cbn in Hl. congruence. }
  destruct (fire_ok now now' (manager y) HS El) as
    (s & acts & acts' & es & -> & HS' & Hc & Hc' & _ & Hlen & Hd & _ & Hdue & Hact & Hl & Hsch).
  exists s, (acts ++ timer_cancel :: acts'). split; [done|].
  rewrite performed_cancels by done. split.
  - split; [by rewrite performed_manager|]. intros H1 H2. rewrite performed_manager in *.
    destruct (Hsch H2) as (a & -> & Ha). by apply performed_schedules.
  - intros id. rewrite times_app, (times_none id (_ :: acts')) by done. rewrite Nat.add_0_r.
    rewrite times_once, Hc by (by rewrite Hc). unfold opens. rewrite Hact.
    destruct (decide (id ∈ map exchange_order_id es)) as [Hin|Hn].
    + rewrite decide_False by set_solver. apply Hdue in Hin as [Hin _]. by rewrite decide_True.
    + repeat case_decide; try lia. set_solver.
Qed.

Lemma handle_ok y ev :
  system_ok y → numbers ev = true →
  ∃ y' acts, handle y ev = Done (y', acts) ∧ system_ok y' ∧
    accounted y.(manager) y'.(manager) acts (λ id, if acknowledges id ev then 1%nat else 0%nat).
Proof.
  intros [HS HO] Hn. destruct ev as [id threshold | msg now | msg | lambda now now' | source now now']; cbn [handle].
  - eexists _, []. split; [reflexivity|]. split; [|by apply quiet_accounted]. split; [|done].
    cbn in Hn. apply negb_true_iff in Hn. by apply register_ok.
  - unfold on_insert_acknowledged.
    destruct (pending_inserts_ (manager y) !! _) as [threshold|] eqn:Ep.
    2:{ run_bind. eexists _, []. split; [reflexivity|]. split; [|by apply quiet_accounted]. by split. }
    set (id := PayloadConfirmOrderInserted.exchange_order_id msg).
    edestruct (reschedule_ok (Q := Q) now) as (s' & acts & -> & HS' & [_ Ea El _] & Hc & Hsch).
    { apply (acknowledged_ok _ id threshold (manager y) HS Ep). }
    run_bind. cbn [active_orders_ set_orders lambda_cancel_ set_pending] in *.
    eexists _, _. split; [reflexivity|]. split.
    + split; [by rewrite performed_manager|]. intros H1 H2. rewrite performed_manager in *.
      destruct Hsch as (a & -> & Ha); [by rewrite <- El | by rewrite <- Ea |]. by apply performed_schedules.
    + intros id'. rewrite performed_manager, times_none by done. unfold opens, acknowledges. fold id.
      rewrite Ea. repeat case_decide; try lia; destruct (Z.eqb_spec id id'); subst; try lia; set_solver.
  - eexists _, []. split; [reflexivity|]. pose proof (partial_fill_ok msg _ HS) as HS'.
    assert (active_orders_ (on_partial_fill msg (manager y)) ⊆ active_orders_ (manager y) ∧
            lambda_cancel_ (on_partial_fill msg (manager y)) = lambda_cancel_ (manager y)) as [Hs El].
    { unfold on_partial_fill. destruct (0 <? _); cbn; set_solver. }
    split; [|by apply quiet_accounted]. split; [done|].
    intros H1 H2. apply HO; [by rewrite <- El|]. cbn in H2. set_solver.
  - unfold update_cancel_rate.
    destruct (reschedule_ok (Q := Q) now' (set_lambda (advance_hazard_to_now now (manager y)) lambda))
      as (s' & acts & -> & HS' & [_ Ea El _] & Hc & Hsch); [by destruct HS|]. run_bind.
    eexists _, _. split; [reflexivity|]. split.
    + split; [by rewrite performed_manager|]. intros H1 H2. rewrite performed_manager in *.
      destruct Hsch as (a & -> & Ha); [by rewrite <- El | by rewrite <- Ea |]. by apply performed_schedules.
    + rewrite performed_manager. apply quiet_accounted; [done|]. by rewrite Ea.
  - destruct source as [| |[]].
    + destruct (posted y) as [|n] eqn:Ep.
      * exists y, []. split; [done|]. split; [by split | by apply quiet_accounted].
      * destruct (fire_step (MkSystem (manager y) (awaited y) n) now now' HS) as (s & acts & E & HY & HA).
        cbn [manager] in *. rewrite E. run_bind. eexists _, _. split; [reflexivity|]. by rewrite performed_manager.
    + destruct (awaited y) eqn:Ea.
      * destruct (fire_step (MkSystem (manager y) false (posted y)) now now' HS) as (s & acts & E & HY & HA).
        cbn [manager] in *. rewrite E. run_bind. eexists _, _. split; [reflexivity|]. by rewrite performed_manager.
      * exists y, []. split; [done|]. split; [by split | by apply quiet_accounted].
    + cbn [fire_next_expiry]. run_bind. eexists _, []. split; [reflexivity|].
      split; [by split | by apply quiet_accounted].
    + destruct (fire_step y now now' HS) as (s & acts & E & HY & HA). rewrite E. run_bind.
      eexists _, _. split; [reflexivity|]. by rewrite performed_manager.
Qed.

Lemma run_events_ok y evs :
  system_ok y → forallb numbers evs = true →
  ∃ y' acts, run y evs = Done (y', acts) ∧ system_ok y' ∧
    accounted y.(manager) y'.(manager) acts (λ id, length (filter (λ ev, acknowledges id ev = true) evs)).
Proof.
  revert y. induction evs as [|ev evs IH]; intros y HY Hn; cbn [run forallb] in *.
  { exists y, []. split; [done|]. split; [done | by apply quiet_accounted]. }
  apply andb_true_iff in Hn as [Hn1 Hn]. destruct (handle_ok y ev HY Hn1) as (y1 & acts1 & -> & HY1 & HA1). run_bind.
  destruct (IH y1 HY1 Hn) as (y2 & acts2 & -> & HY2 & HA2). run_bind. exists y2, (acts1 ++ acts2).
  split; [done|]. split; [done|]. intros id. specialize (HA1 id). specialize (HA2 id). rewrite times_app. cbn in HA1, HA2.
  rewrite filter_cons. destruct (acknowledges id ev); [rewrite decide_True by done | rewrite decide_False by done];
    cbn [length]; lia.
Qed.

(** A fill that leaves nothing closes the order. *)
Lemma filled_closed fill (s : OrderManager.t Q) :
  fill.(PayloadPartialFill.leaves_quantity) = 0 →
  opens fill.(PayloadPartialFill.exchange_order_id) (on_partial_fill fill s) = 0%nat.
Proof.
  intros E. unfold on_partial_fill. rewrite E. unfold opens. cbn [Z.ltb Z.compare active_orders_ set_orders].
  rewrite decide_False; [done|]. set_solver.
Qed.

Definition first_system (request_id : Id_t) : System := MkSystem (OrderManager request_id) false 0.

Lemma first_ok r : is_u32 r → system_ok (first_system r).
Proof. intros Hr. split; [by apply new_manager_ok|]. intros _. cbn. set_solver. Qed.
End runs.

(** ** Guarantees *)

(** C22: the manager cancels no order twice, none that is filled, and none that is
    not its own.  In every history of its handlers, which all end, and from any
    point on, the cancel requests for an order are at most as many as its
    acknowledgements from there on, plus one if it is open there; what is still
    open at the end counts as well.  Once a fill that leaves nothing of an order has
    been handled the order is not open, so from there on it is cancelled at most
    as often as it is acknowledged again; a fill that leaves something of it does
    not close it. *)
Theorem cancels_accounted {Q} `{LawfulQueue Q} (r : Id_t) (before later : list Event) :
  is_u32 r → forallb numbers (before ++ later) = true →
  ∃ (y y' : System (Q := Q)) acts0 acts, run (first_system r) before = Done (y, acts0) ∧ run y later = Done (y', acts) ∧
    (∀ id, (length (filter (id =.) (cancelled acts)) + opens id y'.(manager) <=
            length (filter (λ ev, acknowledges id ev = true) later) + opens id y.(manager))%nat) ∧
    (∀ fill : PayloadPartialFill.t,
       let id := fill.(PayloadPartialFill.exchange_order_id) in
       (fill.(PayloadPartialFill.leaves_quantity) = 0 →
        ∃ y2 acts2, run y (PartiallyFilled fill :: later) = Done (y2, acts2) ∧
          (length (filter (id =.) (cancelled acts2)) + opens id y2.(manager) <=
           length (filter (λ ev, acknowledges id ev = true) later))%nat) ∧
       (0 < fill.(PayloadPartialFill.leaves_quantity) → on_partial_fill fill y.(manager) = y.(manager))).
Proof.
  rewrite forallb_app, andb_true_iff. intros Hr [Hn1 Hn2].
  destruct (run_events_ok (first_system r) before (first_ok r Hr) Hn1) as (y & acts0 & E1 & HY & _).
  destruct (run_events_ok y later HY Hn2) as (y' & acts & E2 & _ & HA).
  exists y, y', acts0, acts. split; [done|]. split; [done|]. split; [intros id; specialize (HA id); unfold times in HA; lia|].
  intros fill id. split; intros Hleft; [|unfold on_partial_fill; by rewrite (proj2 (Z.ltb_lt _ _) Hleft)].
  destruct (handle_ok y (PartiallyFilled fill) HY eq_refl) as (y1 & acts1 & [= <- <-] & HY1 & _).
  destruct (run_events_ok _ later HY1 Hn2) as (y2 & acts2 & E3 & _ & HA2). cbn [run handle]. run_bind. rewrite E3. run_bind.
  exists y2, acts2. split; [done|]. specialize (HA2 id). unfold times in HA2. cbn [idle manager app] in *.
  pose proof (filled_closed fill (manager y) Hleft) as Hclosed. fold id in Hclosed. lia.
Qed.

(** Two orders, with thresholds 0.5 and 3; the second is filled; time passes at
    rate 0.5. *)
Definition confirmation (client exchange : Id_t) : PayloadConfirmOrderInserted.t :=
  make_confirm_order_inserted client exchange BUY 100 10 10 1.
Definition fill_of (exchange : Id_t) : PayloadPartialFill.t := make_partial_fill exchange 1 100 10 0 10 1.

Definition history_start : list Event :=
  [RateUpdated (dec 5 1) 1000000000 1000000000;
   Registered 0 (dec 5 1); Acknowledged (confirmation 0 7) 1500000000;
   Registered 1 (of_Z 3); Acknowledged (confirmation 1 8) 1600000000; PartiallyFilled (fill_of 8)].
Definition history_end : list Event := [Fired Expired 3000000000 3000000001; Fired (Stale true) 4000000000 4000000000].

Lemma cancels_accounted_witness :
  ∃ (y y' : System (Q := list HazardEntry)) acts0 acts,
    run (first_system 2) history_start = Done (y, acts0) ∧ run y history_end = Done (y', acts) ∧
    cancelled acts = [7] ∧ cancels acts = [make_cancel_order 2 7] ∧ (length (filter (8%Z =.) (cancelled acts)) <= 0)%nat ∧
    ∃ y2 acts2, run y (PartiallyFilled (fill_of 7) :: history_end) = Done (y2, acts2) ∧
      (length (filter (7%Z =.) (cancelled acts2)) <= 0)%nat.
Proof.
  destruct (cancels_accounted (Q := list HazardEntry) 2 history_start history_end) as (y & y' & acts0 & acts & E1 & E2 & F & Ffill).
  - unfold is_u32. lia.
  - vm_compute. reflexivity.
  - exists y, y', acts0, acts. split; [exact E1|]. split; [exact E2|].
    specialize (F 8). destruct (Ffill (fill_of 7)) as [Hfill _]. specialize (Hfill eq_refl).
    split; [vm_compute in E1; injection E1 as <- <-; vm_compute in E2; injection E2 as <- <-; vm_compute; reflexivity|].
    split; [vm_compute in E1; injection E1 as <- <-; vm_compute in E2; injection E2 as <- <-; vm_compute; reflexivity|].
    split.
    + vm_compute in E1. injection E1 as <- <-. vm_compute in E2. injection E2 as <- <-.
      etransitivity; [|etransitivity; [exact F|]]; [lia | vm_compute; apply le_n].
    + destruct Hfill as (y2 & acts2 & E3 & Hle). exists y2, acts2. split; [exact E3|].
      change (PayloadPartialFill.exchange_order_id (fill_of 7)) with 7 in Hle.
      etransitivity; [|etransitivity; [exact Hle|]]; [lia | vm_compute; apply le_n].
Defined.

(** C28: an expiry cancels exactly the orders that are due.  After any history, when
    [fire_next_expiry] runs with a positive rate, it ends; the orders it cancels
    are those that are open and have an entry whose threshold the cumulative
    hazard has reached, each once, earliest threshold first, under consecutive
    request ids; they, and no others, are no longer open; and if orders remain
    open, it ends by scheduling the next expiry.  The delay a timer is given is
    the result of converting seconds to nanoseconds; that it is defined is shown
    for the manager of the simulator, whose rate and clock have ranges, in
    [OrderManagerRange] and [TraderRuns]. *)
Theorem due_orders_cancelled {Q} `{LawfulQueue Q} (r : Id_t) (evs : list Event) now now' :
  is_u32 r → forallb numbers evs = true →
  ∃ (y : System (Q := Q)) acts0, run (first_system r) evs = Done (y, acts0) ∧
    let s := y.(manager) in
    let hazard := (advance_hazard_to_now now s).(cumulative_hazard_) in
    fle s.(lambda_cancel_) fzero = false →
    ∃ s' acts es, fire_next_expiry false now now' s = Done (s', acts) ∧
      cancelled acts = map exchange_order_id es ∧ NoDup (cancelled acts) ∧
      StronglySorted (λ e e', CompareHazard e e' = false) es ∧
      (∀ id, id ∈ cancelled acts ↔ id ∈ s.(active_orders_) ∧
         ∃ e, e ∈ pq_elements s.(expiry_queue_) ∧ exchange_order_id e = id ∧ flt hazard e.(hazard_threshold) = false) ∧
      map PayloadCancelOrder.client_request_id (cancels acts) =
        map u32 (seqZ s.(client_request_id_) (Z.of_nat (length es))) ∧
      s'.(active_orders_) = s.(active_orders_) ∖ list_to_set (cancelled acts) ∧
      (s'.(active_orders_) ≠ ∅ → ∃ a, last acts = Some a ∧ schedules a = true).
Proof.
  intros Hr Hn. destruct (run_events_ok (first_system r) evs (first_ok r Hr) Hn) as (y & acts0 & E & HY & _).
  exists y, acts0. split; [done|]. cbv zeta. intros Hl.
  destruct (fire_ok now now' (manager y) (sys_manager _ HY) Hl) as
    (s & acts & acts' & es & EF & _ & Hc & Hc' & Hreq & _ & Hd & Hsorted & Hdue & Hact & _ & Hsch).
  exists s, (acts ++ timer_cancel :: acts'), es. split; [done|].
  assert (cancelled (acts ++ timer_cancel :: acts') = map exchange_order_id es) as Ec.
  { rewrite cancelled_app, Hc. unfold cancelled. change (cancels (timer_cancel :: acts')) with (cancels acts').
    rewrite Hc'. apply app_nil_r. }
  rewrite Ec. split; [done|]. split; [done|]. split; [done|]. split; [exact Hdue|]. split.
  - rewrite cancels_app, map_app. change (cancels (timer_cancel :: acts')) with (cancels acts').
    rewrite Hc', Hreq. apply app_nil_r.
  - split; [done|]. intros Hne. destruct (Hsch Hne) as (a & -> & Ha). exists a. split; [|done].
    change [timer_cancel; a] with ([timer_cancel] ++ [a]). by rewrite app_assoc, last_snoc.
Qed.

Lemma due_orders_cancelled_witness :
  ∃ (y : System (Q := list HazardEntry)) acts0 s' acts,
    run (first_system 2) history_start = Done (y, acts0) ∧
    fire_next_expiry false 3000000000 3000000001 y.(manager) = Done (s', acts) ∧
    NoDup (cancelled acts) ∧ 7 ∈ cancelled acts ∧ 8 ∉ cancelled acts.
Proof.
  destruct (due_orders_cancelled (Q := list HazardEntry) 2 history_start 3000000000 3000000001)
    as (y & acts0 & E & F); [unfold is_u32; lia | vm_compute; reflexivity |].
  destruct F as (s' & acts & es & EF & _ & Hd & _ & _ & _ & _ & _).
  { vm_compute in E. injection E as <- <-. vm_compute. reflexivity. }
  exists y, acts0, s', acts. split; [exact E|]. split; [exact EF|]. split; [exact Hd|].
  vm_compute in E. injection E as <- <-. vm_compute in EF. injection EF as <- <-.
  split; [apply list_elem_of_singleton; reflexivity|]. intros H8%list_elem_of_singleton. discriminate H8.
Defined.

(** C29: no open order is forgotten.  After any history, as long as the manager has
    an open order and the cancel rate is positive, the next expiry is posted to
    the strand or awaited by the timer, so that the order will be filled or
    cancelled, provided the timer's delay fits its nanoseconds (as it does in the
    simulator, see [TraderRuns]); and every open order has its entry in the queue. *)
Theorem no_open_order_forgotten {Q} `{LawfulQueue Q} (r : Id_t) (evs : list Event) :
  is_u32 r → forallb numbers evs = true →
  ∃ (y : System (Q := Q)) acts, run (first_system r) evs = Done (y, acts) ∧
    (∀ id, id ∈ y.(manager).(active_orders_) →
       ∃ e, e ∈ pq_elements y.(manager).(expiry_queue_) ∧ exchange_order_id e = id) ∧
    (flt fzero y.(manager).(lambda_cancel_) = true → y.(manager).(active_orders_) ≠ ∅ →
       y.(awaited) = true ∨ (0 < y.(posted))%nat).
Proof.
  intros Hr Hn. destruct (run_events_ok (first_system r) evs (first_ok r Hr) Hn) as (y & acts & E & [HS HO] & _).
  exists y, acts. split; [done|]. split; [apply HS|]. intros Hl. apply HO.
  destruct (flt_not_nan _ _ Hl) as [_ Hnn]. by rewrite fle_not_flt, Hl.
Qed.

Lemma no_open_order_forgotten_witness :
  ∃ (y : System (Q := list HazardEntry)) acts,
    run (first_system 2) (history_start ++ [Registered 2 (of_Z 9); Acknowledged (confirmation 2 9) 1700000000] ++ history_end)
      = Done (y, acts) ∧
    flt fzero y.(manager).(lambda_cancel_) = true ∧ (y.(awaited) = true ∨ (0 < y.(posted))%nat).
Proof.
  destruct (no_open_order_forgotten (Q := list HazardEntry) 2
    (history_start ++ [Registered 2 (of_Z 9); Acknowledged (confirmation 2 9) 1700000000] ++ history_end))
    as (y & acts & E & _ & F); [unfold is_u32; lia | vm_compute; reflexivity |].
  exists y, acts. split; [exact E|].
  assert (flt fzero (lambda_cancel_ (manager y)) = true) as Hl
    by (vm_compute in E; injection E as <- <-; vm_compute; reflexivity).
  split; [exact Hl|]. apply F; [exact Hl|].
  intros He. assert (9 ∈ active_orders_ (manager y)) as H9.
  { vm_compute in E. injection E as <- <-. apply (bool_decide_unpack _). vm_compute. exact I. }
  rewrite He in H9. by apply not_elem_of_empty in H9.
Defined.
