(* ===== verification/MarketState.v ===== *)
(** [state.hpp]: what the simulator derives from the shadow book, the trades and
    the clock, for its decisions. *)

From Stdlib Require Import SpecFloat.
From S2P Require Import Prelude Types Codec Payloads Doubles Pcg32 ShadowBook.
#[local] Open Scope double_scope.

Inductive LatentModel := GBM | OU.
Definition latent_model : LatentModel := GBM.

Module TimeState.
Record t := Make {
  sim_time : double;
  time_since_event : double
}.
End TimeState.

Module PriceState.
Record t := Make {
  best_bid : option Price_t;
  best_ask : option Price_t;
  spread : option Price_t;
  last_trade_price : Price_t
}.

Definition mid_price (ps : t) : outcome (option Price_t) :=
  match ps.(best_bid), ps.(best_ask) with
  | Some bid, Some ask => sum ← in_i64 (bid + ask)%Z; Done (Some (sum ÷ 2)%Z)
  | _, _ => Done None
  end.
End PriceState.

(** The arrays of [LiquidityState<N>] are lists of length [N]. *)
Module LiquidityState.
Record t := Make {
  bucket_bounds : list Price_t;
  bid_volumes : list Volume_t;
  ask_volumes : list Volume_t;
  imbalances : list double;
  bid_mean_distances : list double;
  bid_variances : list double;
  bid_skews : list double;
  ask_mean_distances : list double;
  ask_variances : list double;
  ask_skews : list double;
  has_bid_side : bool;
  has_ask_side : bool
}.
End LiquidityState.

Module VolatilityState.
Record t := Make {
  realised_variance_short : double;
  realised_variance_long : double;
  realised_variance_up : double;
  realised_variance_down : double;
  vol_of_vol : double;
  jump_intensity : double
}.

Definition VolatilityState : t := Make fzero fzero fzero fzero fzero fzero.
Definition realised_vol_short (vs : t) : double := fsqrt vs.(realised_variance_short).
Definition realised_vol_long (vs : t) : double := fsqrt vs.(realised_variance_long).
Definition realised_vol_up (vs : t) : double := fsqrt vs.(realised_variance_up).
Definition realised_vol_down (vs : t) : double := fsqrt vs.(realised_variance_down).
End VolatilityState.

Module FlowState.
Record t := Make {
  abs_volume_ewma : double;
  trade_rate_ewma : double;
  buy_volume_ewma : double;
  sell_volume_ewma : double;
  volume_surprise : double;
  signed_volume_ewma : double;
  flow_imbalance : double;
  taker_sign_ewma : double;
  trade_excitation : double
}.

Definition FlowState : t := Make fzero fzero fzero fzero fzero fzero fzero fzero fzero.
Definition set_excitation (fs : t) (x : double) : t :=
  Make fs.(abs_volume_ewma) fs.(trade_rate_ewma) fs.(buy_volume_ewma) fs.(sell_volume_ewma)
    fs.(volume_surprise) fs.(signed_volume_ewma) fs.(flow_imbalance) fs.(taker_sign_ewma) x.
End FlowState.

Module LatentState.
Record t := Make {
  fair_value : double;
  log_fair_value : double;
  time_since_update : double
}.

Definition LatentState `{Libm} : t := Make (of_Z 1000) (log (of_Z 1000)) fzero.
End LatentState.

Module WeightedMoments.
Record t := Make {
  mean : double;
  variance : double;
  skew : double
}.
End WeightedMoments.

Definition compute_weighted_moments (w_sum x_sum x2_sum x3_sum : double) : WeightedMoments.t :=
  if w_sum <=? fzero then WeightedMoments.Make fzero fzero fzero
  else
    let mean := x_sum / w_sum in
    let variance := fmax fzero (x2_sum / w_sum - mean * mean) in
    let skew :=
      if fzero <? variance then
        let std := fsqrt variance in
        (x3_sum / w_sum - of_Z 3 * mean * variance - mean * mean * mean) / (std * std * std)
      else fzero in
    WeightedMoments.Make mean variance skew.

Module SimulationState.
Section state.
Context `{Libm}.

Record t := Make {
  time_state_ : TimeState.t;
  price_state_ : PriceState.t;
  liq_state_ : LiquidityState.t;
  vol_state_ : VolatilityState.t;
  flow_state_ : FlowState.t;
  latent_state_ : LatentState.t;
  rng_ : pcg32.t;
  last_trade_price_ : Price_t;
  last_trade_timestamp_ : Time_t
}.

Definition TAU_SHORT : double := of_Z 1.
Definition TAU_LONG : double := of_Z 30.
Definition TAU_JUMP : double := of_Z 10.
Definition TAU_FLOW : double := of_Z 2.
Definition TAU_RATE : double := of_Z 5.
Definition TAU_SURPRISE : double := of_Z 10.
Definition TAU_SIGN : double := of_Z 3.
Definition TAU_EXCITE : double := of_Z 2.
Definition VOL_MIN : double := dec 1 6.

(** The constructor leaves [time_state_], [price_state_] and [liq_state_] as the
    memory is, but for the optional prices and the bounds. *)
Definition SimulationState (memory_time : TimeState.t) (memory_price : Price_t)
    (memory_liq : LiquidityState.t) (liquidity_bucket_bounds : list Price_t) : t :=
  Make memory_time (PriceState.Make None None None memory_price)
    (LiquidityState.Make liquidity_bucket_bounds memory_liq.(LiquidityState.bid_volumes)
       memory_liq.(LiquidityState.ask_volumes) memory_liq.(LiquidityState.imbalances)
       memory_liq.(LiquidityState.bid_mean_distances) memory_liq.(LiquidityState.bid_variances)
       memory_liq.(LiquidityState.bid_skews) memory_liq.(LiquidityState.ask_mean_distances)
       memory_liq.(LiquidityState.ask_variances) memory_liq.(LiquidityState.ask_skews)
       memory_liq.(LiquidityState.has_bid_side) memory_liq.(LiquidityState.has_ask_side))
    VolatilityState.VolatilityState FlowState.FlowState LatentState.LatentState
    (PCGRNG.PCGRNG 0 0) 0 0.

Definition update_time_state (dt : double) (ts : TimeState.t) : TimeState.t :=
  TimeState.Make (ts.(TimeState.sim_time) + dt) dt.

Definition update_price_state (last_trade_price : Price_t) (order_book : ShadowOrderBook.t)
    : outcome PriceState.t :=
  let best_bid := ShadowOrderBook.best_bid_price order_book in
  let best_ask := ShadowOrderBook.best_ask_price order_book in
  match best_bid, best_ask with
  | Some bid, Some ask =>
      spread ← in_i64 (ask - bid)%Z; Done (PriceState.Make best_bid best_ask (Some spread) last_trade_price)
  | _, _ => Done (PriceState.Make best_bid best_ask None last_trade_price)
  end.

(** *** Liquidity *)

(** The cells at one index of [bid_volumes], [bid_w_], [bid_x_], [bid_x2_] and
    [bid_x3_], or of the arrays of the asks. *)
Record Bucket := MkBucket {
  volumes : Volume_t;
  w_ : double;
  x_ : double;
  x2_ : double;
  x3_ : double
}.

Definition empty_bucket : Bucket := MkBucket 0 fzero fzero fzero fzero.

(** A level at distance [dist] of the best price, in the bucket with bound [bound]. *)
Definition add_level (dist : double) (volume : Volume_t) (bound : Price_t) (b : Bucket) : Bucket :=
  if dist <=? of_Z bound then
    let w := of_Z volume in
    MkBucket (u32 (b.(volumes) + volume)%Z) (b.(w_) + w) (b.(x_) + w * dist)
      (b.(x2_) + w * dist * dist) (b.(x3_) + w * dist * dist * dist)
  else b.

(** The loop over the levels of one side; [distance] is that of a price. *)
Fixpoint add_levels (distance : Price_t → Z) (bounds : list Price_t)
    (levels : list (Price_t * Volume_t)) (buckets : list Bucket) : outcome (list Bucket) :=
  match levels with
  | [] => Done buckets
  | (price, volume) :: levels =>
      d ← in_i64 (distance price);
      let dist := of_Z d in
      if dist <? fzero then add_levels distance bounds levels buckets
      else add_levels distance bounds levels (zip_with (add_level dist volume) bounds buckets)
  end.

(** One side; nothing is added when it is empty. *)
Definition fill_side (bounds : list Price_t) (best : option Price_t) (distance : Price_t → Price_t → Z)
    (levels : Levels) : outcome (list Bucket) :=
  let buckets := map (λ _, empty_bucket) bounds in
  match best with
  | None => Done buckets
  | Some best => add_levels (distance best) bounds (in_order levels) buckets
  end.

Definition moments (b : Bucket) : WeightedMoments.t := compute_weighted_moments b.(w_) b.(x_) b.(x2_) b.(x3_).

Definition imbalance (bid ask : Bucket) : double :=
  let vb := of_Z bid.(volumes) in
  let va := of_Z ask.(volumes) in
  (vb - va) / (vb + va + dec 1 9).

Definition update_liq_state (bounds : list Price_t) (order_book : ShadowOrderBook.t)
    : outcome LiquidityState.t :=
  let best_bid := ShadowOrderBook.best_bid_price order_book in
  let best_ask := ShadowOrderBook.best_ask_price order_book in
  bids ← fill_side bounds best_bid (λ best price, best - price)%Z order_book.(ShadowOrderBook.bids_);
  asks ← fill_side bounds best_ask (λ best price, price - best)%Z order_book.(ShadowOrderBook.asks_);
  Done (LiquidityState.Make bounds (map volumes bids) (map volumes asks)
    (zip_with imbalance bids asks)
    (map (λ b, WeightedMoments.mean (moments b)) bids) (map (λ b, WeightedMoments.variance (moments b)) bids)
    (map (λ b, WeightedMoments.skew (moments b)) bids)
    (map (λ b, WeightedMoments.mean (moments b)) asks) (map (λ b, WeightedMoments.variance (moments b)) asks)
    (map (λ b, WeightedMoments.skew (moments b)) asks)
    (bool_decide (is_Some best_bid)) (bool_decide (is_Some best_ask))).

(** *** Fair value *)

Definition update_latent_state (dt : double) (ls : LatentState.t) (rng : pcg32.t)
    : LatentState.t * pcg32.t :=
  let sigma := dec 1 2 in
  let latent_update_interval := dec 1 2 in
  let latent_dt := ls.(LatentState.time_since_update) + dt in
  if latent_update_interval <=? latent_dt then
    let '(z, rng) := PCGRNG.standard_normal rng in
    let log_fair_value :=
      match latent_model with
      | OU =>
          let kappa := dec 5 2 in
          let mu_log := dec 6907755278982137 15 in
          ls.(LatentState.log_fair_value) +
            (kappa * (mu_log - ls.(LatentState.log_fair_value)) * latent_dt + sigma * fsqrt latent_dt * z)
      | GBM =>
          let mu := fzero in
          ls.(LatentState.log_fair_value) +
            ((mu - dec 5 1 * sigma * sigma) * latent_dt + sigma * fsqrt latent_dt * z)
      end in
    (LatentState.Make (exp log_fair_value) log_fair_value fzero, rng)
  else (LatentState.Make ls.(LatentState.fair_value) ls.(LatentState.log_fair_value) latent_dt, rng).

(** *** Volatility *)

(** [(1.0 - a) * x + a * y] *)
Definition ewma (a x y : double) : double := (of_Z 1 - a) * x + a * y.

Definition update_vol_state (last_trade_price price : Price_t) (dt : double) (vs : VolatilityState.t)
    : VolatilityState.t :=
  let p0 := of_Z last_trade_price in
  let p1 := of_Z price in
  let r := log (p1 / p0) in
  let r2 := r * r in
  let vol_prev := fsqrt vs.(VolatilityState.realised_variance_short) in
  let a_short := of_Z 1 - exp (- dt / TAU_SHORT) in
  let a_long := of_Z 1 - exp (- dt / TAU_LONG) in
  let short := ewma a_short vs.(VolatilityState.realised_variance_short) r2 in
  let long := ewma a_long vs.(VolatilityState.realised_variance_long) r2 in
  let up :=
    if fzero <? r then ewma a_short vs.(VolatilityState.realised_variance_up) r2
    else vs.(VolatilityState.realised_variance_up) * (of_Z 1 - a_short) in
  let down :=
    if fzero <? r then vs.(VolatilityState.realised_variance_down) * (of_Z 1 - a_short)
    else if r <? fzero then ewma a_short vs.(VolatilityState.realised_variance_down) r2
    else vs.(VolatilityState.realised_variance_down) * (of_Z 1 - a_short) in
  let vol_now := fsqrt short in
  let dvol := vol_now - vol_prev in
  let vol_of_vol := ewma a_short vs.(VolatilityState.vol_of_vol) (dvol * dvol) in
  let jump_intensity :=
    if VOL_MIN <? vol_now then
      let jump_score := fabs r / (vol_now * fsqrt dt + dec 1 8) in
      let a_jump := of_Z 1 - exp (- dt / TAU_JUMP) in
      if of_Z 5 <? jump_score then ewma a_jump vs.(VolatilityState.jump_intensity) (of_Z 1)
      else vs.(VolatilityState.jump_intensity) * (of_Z 1 - a_jump)
    else vs.(VolatilityState.jump_intensity) in
  VolatilityState.Make short long up down vol_of_vol jump_intensity.

(** *** Flow *)

(** [trade->taker_side == Side::BUY] *)
Definition taker_buys (trade : PayloadTradeEvent.t) : bool :=
  (trade.(PayloadTradeEvent.taker_side) =? Side_to_u8 BUY)%Z.

Definition update_flow_state (trade : PayloadTradeEvent.t) (dt : double) (fs : FlowState.t) : FlowState.t :=
  let vol := of_Z trade.(PayloadTradeEvent.quantity) in
  let a_flow := of_Z 1 - exp (- dt / TAU_FLOW) in
  let a_rate := of_Z 1 - exp (- dt / TAU_RATE) in
  let a_surp := of_Z 1 - exp (- dt / TAU_SURPRISE) in
  let a_sign := of_Z 1 - exp (- dt / TAU_SIGN) in
  let abs_volume_ewma := ewma a_flow fs.(FlowState.abs_volume_ewma) vol in
  let inst_rate := of_Z 1 / dt in
  let trade_rate_ewma := ewma a_rate fs.(FlowState.trade_rate_ewma) inst_rate in
  let buy_volume_ewma :=
    if taker_buys trade then ewma a_flow fs.(FlowState.buy_volume_ewma) vol
    else fs.(FlowState.buy_volume_ewma) * (of_Z 1 - a_flow) in
  let sell_volume_ewma :=
    if taker_buys trade then fs.(FlowState.sell_volume_ewma) * (of_Z 1 - a_flow)
    else ewma a_flow fs.(FlowState.sell_volume_ewma) vol in
  let signed_vol := if taker_buys trade then vol else - vol in
  let signed_volume_ewma := ewma a_flow fs.(FlowState.signed_volume_ewma) signed_vol in
  let flow_imbalance := fclamp (signed_volume_ewma / (abs_volume_ewma + dec 1 8)) (- of_Z 1) (of_Z 1) in
  let expected_vol := fmax abs_volume_ewma (dec 1 8) in
  let surprise := (vol - expected_vol) / expected_vol in
  let volume_surprise := ewma a_surp fs.(FlowState.volume_surprise) surprise in
  let sign := if taker_buys trade then of_Z 1 else - of_Z 1 in
  let taker_sign_ewma := fclamp (ewma a_sign fs.(FlowState.taker_sign_ewma) sign) (- of_Z 1) (of_Z 1) in
  FlowState.Make abs_volume_ewma trade_rate_ewma buy_volume_ewma sell_volume_ewma volume_surprise
    signed_volume_ewma flow_imbalance taker_sign_ewma fs.(FlowState.trade_excitation).

Definition bump_trade_excitation (trade : PayloadTradeEvent.t) (fs : FlowState.t) : FlowState.t :=
  let q := of_Z trade.(PayloadTradeEvent.quantity) in
  let bump := fclamp (dec 5 2 + dec 2 2 * log1p q + dec 10 2 * fabs fs.(FlowState.flow_imbalance))
                (dec 5 2) (dec 5 1) in
  let trade_excitation := fs.(FlowState.trade_excitation) + bump in
  FlowState.set_excitation fs (fmin trade_excitation (of_Z 5)).

Definition decay_trade_excitation (dt : double) (fs : FlowState.t) : FlowState.t :=
  let a := of_Z 1 - exp (- dt / TAU_EXCITE) in
  FlowState.set_excitation fs (fs.(FlowState.trade_excitation) * (of_Z 1 - a)).

(** *** The two entry points *)

Definition sync_with_book (order_book : ShadowOrderBook.t) (dt : double) (s : t) : outcome t :=
  ps ← update_price_state s.(last_trade_price_) order_book;
  liq ← update_liq_state s.(liq_state_).(LiquidityState.bucket_bounds) order_book;
  let ts := update_time_state dt s.(time_state_) in
  let '(ls, rng) := update_latent_state dt s.(latent_state_) s.(rng_) in
  let fs := decay_trade_excitation dt s.(flow_state_) in
  Done (Make ts ps liq s.(vol_state_) fs ls rng s.(last_trade_price_) s.(last_trade_timestamp_)).

Definition on_trade (trade : PayloadTradeEvent.t) (s : t) : t :=
  let price := trade.(PayloadTradeEvent.price) in
  let timestamp := trade.(PayloadTradeEvent.timestamp) in
  if (s.(last_trade_timestamp_) =? 0)%Z then
    Make s.(time_state_) s.(price_state_) s.(liq_state_) s.(vol_state_) s.(flow_state_) s.(latent_state_)
      s.(rng_) price timestamp
  else
    let dt := fmax (dec 1 6) (of_Z (u64 (timestamp - s.(last_trade_timestamp_))%Z) * dec 1 9) in
    if dt <=? fzero then s
    else
      let vs := update_vol_state s.(last_trade_price_) price dt s.(vol_state_) in
      let fs := bump_trade_excitation trade (update_flow_state trade dt s.(flow_state_)) in
      Make s.(time_state_) s.(price_state_) s.(liq_state_) vs fs s.(latent_state_) s.(rng_) price timestamp.
End state.
End SimulationState.
