(* ===== verification/MarketDynamics.v ===== *)
(** [market_dynamics.hpp]: the decision to insert an order, and the rates of
    insertion and cancellation. *)

From Stdlib Require Import SpecFloat.
From S2P Require Import Prelude Types Doubles Pcg32 ShadowBook MarketState.
#[local] Open Scope double_scope.

Definition LAMBDA_INSERT_BASE : double := of_Z 25000.
Definition CANCEL_SCALING_FACTOR : double := of_Z 50000.
Definition LAMBDA_CANCEL_BASE : double := LAMBDA_INSERT_BASE / CANCEL_SCALING_FACTOR.
Definition BASE_ORDER_SIZE : double := of_Z 25.

Inductive AgentType := MM | TAKER | DEEP | NOISE.
Inductive OrderRegime := MARKETABLE | IMPROVE | PASSIVE.

#[global] Instance OrderRegime_eq_dec : EqDecision OrderRegime.
Proof. solve_decision. Defined.

Module InsertDecision.
Record t := Make {
  side : Side;
  price : Price_t;
  quantity : Volume_t;
  lifespan : Lifespan;
  cancellation_hazard_mass : double
}.
End InsertDecision.

Module MarketDynamics.
Section dynamics.
Context `{Libm} {G : Type} `{RNG G}.

(** [a[0]] of an array that is not empty. *)
Definition front (a : list Volume_t) : outcome Volume_t := deref (head a).

(** *** Draws *)

Definition stochastic_round (x : double) (rng : G) : outcome (Price_t * G) :=
  let f := ffloor x in
  let frac := x - f in
  let '(u, rng) := standard_uniform rng in
  p ← to_i64 (f + (if u <? frac then of_Z 1 else of_Z 0));
  Done (p, rng).

Definition sample_agent_ (w_mm w_taker w_deep w_noise : double) (rng : G) : AgentType * G :=
  let c1 := w_mm in
  let c2 := c1 + w_taker in
  let c3 := c2 + w_deep in
  let '(u, rng) := standard_uniform rng in
  (if u <? c1 then MM else if u <? c2 then TAKER else if u <? c3 then DEEP else NOISE, rng).

Definition compute_anchor_ (ps : PriceState.t) (ls : LatentState.t) (side : Side) (rng : G)
    : outcome (Price_t * G) :=
  let best_w := dec 65 2 in
  let fv_w := dec 35 2 in
  let fv := ls.(LatentState.fair_value) in
  let last := of_Z ps.(PriceState.last_trade_price) in
  let best := match side with BUY => ps.(PriceState.best_bid) | SELL => ps.(PriceState.best_ask) end in
  let a := match best with
           | Some price => best_w * of_Z price + fv_w * fv
           | None => best_w * last + fv_w * fv
           end in
  '(p, rng) ← stochastic_round a rng;
  Done (Z.max MINIMUM_BID p, rng).

Definition lots : list Volume_t := [1; 5; 10; 25; 50; 100]%Z.

(** [q > L ? q - L : L - q] *)
Definition distance (q L : Volume_t) : Volume_t := (if L <? q then q - L else L - q)%Z.

Definition nearest_lot (q : Volume_t) : Volume_t :=
  (foldl (λ '(best, best_diff) L, let d := distance q L in if d <? best_diff then (L, d) else (best, best_diff))
    (1, distance q 1) lots).1%Z.

Definition apply_lot_clustering_ (q : Volume_t) (rng : G) : Volume_t * G :=
  let '(u, rng) := standard_uniform rng in
  if u <? dec 55 2 then (q, rng)
  else (Z.max 1 (nearest_lot q), rng).

(** *** The parts of [decide_insert], in its order *)

(** 1) the probability of a buy *)
Definition buy_probability (fs : FlowState.t) (liq : LiquidityState.t) : outcome double :=
  let side_score := fzero + dec 9 1 * fs.(FlowState.flow_imbalance) in
  let side_score := side_score + dec 6 1 * fs.(FlowState.taker_sign_ewma) in
  side_score ←
    (if liq.(LiquidityState.has_bid_side) && liq.(LiquidityState.has_ask_side)
     then i0 ← deref (head liq.(LiquidityState.imbalances)); Done (side_score + dec 4 1 * i0)
     else Done side_score);
  let buy_prob := dec 5 1 + dec 35 2 * tanh side_score in
  Done (fclamp buy_prob (dec 2 2) (dec 98 2)).

(** 2) urgency, thinness of the book, and the agent *)
Definition urgency_of (fs : FlowState.t) (vol_s : double) : double :=
  fclamp (dec 35 2 * fabs fs.(FlowState.flow_imbalance)
          + dec 35 2 * fmin vol_s (of_Z 1)
          + dec 30 2 * fclamp (fs.(FlowState.trade_excitation) / of_Z 2) fzero (of_Z 1))
    fzero (of_Z 1).

(** [liq.bid_volumes[0] + liq.ask_volumes[0]] *)
Definition near_volume (liq : LiquidityState.t) : outcome Volume_t :=
  b0 ← front liq.(LiquidityState.bid_volumes);
  a0 ← front liq.(LiquidityState.ask_volumes);
  Done (u32 (b0 + a0)%Z).

Definition thinness_of (liq : LiquidityState.t) : outcome double :=
  if liq.(LiquidityState.has_bid_side) && liq.(LiquidityState.has_ask_side)
  then v ← near_volume liq; Done (of_Z 1 / fsqrt (of_Z 1 + of_Z v))
  else Done (of_Z 1).

Definition draw_agent (urgency thinness : double) (rng : G) : AgentType * G :=
  let w_mm := dec 45 2 + dec 25 2 * (of_Z 1 - urgency) in
  let w_taker := dec 20 2 + dec 55 2 * urgency + dec 20 2 * thinness in
  let w_deep := dec 25 2 + dec 15 2 * (of_Z 1 - urgency) in
  let w_noise := dec 10 2 in
  let w_sum := w_mm + w_taker + w_deep + w_noise in
  sample_agent_ (w_mm / w_sum) (w_taker / w_sum) (w_deep / w_sum) (w_noise / w_sum) rng.

(** 3) the regime *)
Definition marketable_probability (ps : PriceState.t) (agent : AgentType) (urgency : double) : double :=
  let p_marketable :=
    match agent with
    | TAKER => dec 35 2 + dec 55 2 * urgency
    | MM => dec 5 2 + dec 10 2 * urgency
    | _ => dec 2 2 + dec 5 2 * urgency
    end in
  let p_marketable :=
    match ps.(PriceState.spread) with
    | Some spread => p_marketable + dec 12 2 / (of_Z 1 + of_Z spread)
    | None => p_marketable
    end in
  let p_marketable :=
    match ps.(PriceState.best_bid), ps.(PriceState.best_ask) with
    | Some _, Some _ => p_marketable
    | _, _ => fmax p_marketable (dec 35 2)
    end in
  fclamp p_marketable (dec 1 2) (dec 95 2).

Definition improve_probability (ps : PriceState.t) (agent : AgentType) (urgency : double) : double :=
  match ps.(PriceState.spread) with
  | Some spread =>
      if (1 <? spread)%Z then
        let p_improve := match agent with MM => dec 45 2 | NOISE => dec 10 2 | _ => dec 20 2 end in
        p_improve * (of_Z 1 - dec 6 1 * urgency)
      else fzero
  | None => fzero
  end.

Definition draw_regime (ps : PriceState.t) (agent : AgentType) (urgency : double) (rng : G)
    : OrderRegime * G :=
  let p_marketable := marketable_probability ps agent urgency in
  let p_improve := improve_probability ps agent urgency in
  let '(u_reg, rng) := standard_uniform rng in
  (if u_reg <? p_marketable then MARKETABLE
   else if u_reg <? p_marketable + p_improve then IMPROVE
   else PASSIVE, rng).

(** 4) the price: the regime after the fallback, the price and the distance *)

(** [std::max(0.0, static_cast<double>(a - b))] *)
Definition gap (a b : Price_t) : outcome double := d ← in_i64 (a - b)%Z; Done (fmax fzero (of_Z d)).

Definition marketable_price (ps : PriceState.t) (side : Side) (anchor : Price_t) : outcome (Price_t * double) :=
  match side, ps.(PriceState.best_bid), ps.(PriceState.best_ask) with
  | BUY, Some bid, Some ask => dist ← gap ask bid; Done (ask, dist)
  | BUY, None, Some ask => Done (ask, fzero)
  | SELL, Some bid, Some ask => dist ← gap ask bid; Done (bid, dist)
  | SELL, Some bid, None => Done (bid, fzero)
  | BUY, _, None => p ← in_i64 (anchor + 4)%Z; Done (Z.min MAXIMUM_ASK p, fzero)
  | SELL, None, _ => p ← in_i64 (anchor - 4)%Z; Done (Z.max MINIMUM_BID p, fzero)
  end.

Definition improve_price (side : Side) (bid ask : Price_t) : outcome (Price_t * double) :=
  below ← in_i64 (ask - 1)%Z;
  above ← in_i64 (bid + 1)%Z;
  Done (match side with BUY => Z.min below above | SELL => Z.max above below end, of_Z 1).

Definition passive_price (ps : PriceState.t) (vs : VolatilityState.t) (agent : AgentType) (side : Side)
    (anchor : Price_t) (rng : G) : outcome (Price_t * double * G) :=
  let vol_s := VolatilityState.realised_vol_short vs in
  let vol_l := VolatilityState.realised_vol_long vs in
  let vol_regime := if fzero <? vol_l then vol_s / vol_l else of_Z 1 in
  let spread_scale := match ps.(PriceState.spread) with Some spread => of_Z spread | None => of_Z 1 end in
  let base :=
    of_Z 1 + dec 35 2 * spread_scale
    + dec 25 2 * log1p (of_Z 5 * fmax fzero (vol_regime - of_Z 1))
    + dec 35 2 * vs.(VolatilityState.jump_intensity) in
  let mean_dist :=
    match agent with
    | MM => base * dec 8 1
    | DEEP => base * dec 25 1
    | NOISE => base * dec 13 1
    | TAKER => base
    end in
  let mean_dist := fclamp mean_dist (dec 5 1) (of_Z 50) in
  let '(d, rng) := exponential mean_dist rng in
  let dist := fmax fzero d in
  match side with
  | BUY =>
      '(price, rng) ← stochastic_round (of_Z anchor - dist) rng;
      Done (Z.max price MINIMUM_BID, dist, rng)
  | SELL =>
      '(price, rng) ← stochastic_round (of_Z anchor + dist) rng;
      Done (Z.min price MAXIMUM_ASK, dist, rng)
  end.

Definition choose_price (ps : PriceState.t) (vs : VolatilityState.t) (agent : AgentType) (side : Side)
    (regime : OrderRegime) (anchor : Price_t) (rng : G) : outcome (OrderRegime * Price_t * double * G) :=
  match regime, ps.(PriceState.best_bid), ps.(PriceState.best_ask) with
  | MARKETABLE, _, _ =>
      '(price, dist) ← marketable_price ps side anchor; Done (MARKETABLE, price, dist, rng)
  | IMPROVE, Some bid, Some ask =>
      '(price, dist) ← improve_price side bid ask; Done (IMPROVE, price, dist, rng)
  | _, _, _ =>
      '(price, dist, rng) ← passive_price ps vs agent side anchor rng; Done (PASSIVE, price, dist, rng)
  end.

(** 5) the size *)
Definition size_mean (fs : FlowState.t) (liq : LiquidityState.t) (side : Side) (regime : OrderRegime)
    (urgency : double) : outcome double :=
  near_depth ←
    (match side with
     | BUY => if liq.(LiquidityState.has_bid_side)
              then v ← front liq.(LiquidityState.bid_volumes); Done (of_Z v) else Done fzero
     | SELL => if liq.(LiquidityState.has_ask_side)
               then v ← front liq.(LiquidityState.ask_volumes); Done (of_Z v) else Done fzero
     end);
  let base_scale := fmax (of_Z 1) (BASE_ORDER_SIZE + dec 25 2 * (fs.(FlowState.abs_volume_ewma) - BASE_ORDER_SIZE)) in
  let depth_factor := fsqrt (fmin near_depth (of_Z 200) + of_Z 1) in
  let pressure := fabs fs.(FlowState.flow_imbalance) in
  let urgency_factor :=
    match regime with
    | MARKETABLE => of_Z 1 + dec 125 2 * urgency
    | IMPROVE => dec 9 1 + dec 4 1 * (of_Z 1 - urgency)
    | PASSIVE => dec 9 1 + dec 6 1 * (of_Z 1 - pressure)
    end in
  let surprise_factor := fclamp (of_Z 1 + fs.(FlowState.volume_surprise)) (dec 75 2) (dec 16 1) in
  Done (log (fmax (of_Z 1) (base_scale * (dec 6 1 + dec 4 1 * depth_factor) * urgency_factor * surprise_factor))).

(** [static_cast<Volume_t>(std::llround(qty_d))], clustered. *)
Definition draw_quantity (ln_mu urgency : double) (rng : G) : outcome (Volume_t * G) :=
  let p_large := fclamp (dec 3 2 + dec 12 2 * urgency) (dec 3 2) (dec 18 2) in
  let '(large_child, rng) := bernoulli p_large rng in
  let ln_sigma := if large_child : bool then of_Z 1 else dec 55 2 in
  let '(z, rng) := standard_normal rng in
  let log_qty := ln_mu + ln_sigma * z in
  let qty_d := fmax (of_Z 1) (exp log_qty) in
  qty ← llround qty_d;
  Done (apply_lot_clustering_ (u32 qty) rng).

(** 6) the hazard to survive *)
Definition draw_hazard (fs : FlowState.t) (vs : VolatilityState.t) (side : Side) (agent : AgentType)
    (dist : double) (rng : G) : double * G :=
  let '(u0, rng) := standard_uniform rng in
  let u := fmax (dec 1 12) u0 in
  let base := - log u in
  let k_dist := dec 4 2 in
  let dist_mult := exp (k_dist * dist) in
  let type_mult := match agent with MM => dec 55 2 | DEEP => of_Z 2 | _ => of_Z 1 end in
  let side_flow := match side with BUY => of_Z 1 | SELL => - of_Z 1 end in
  let adverse := fmax fzero (- side_flow * fs.(FlowState.flow_imbalance)) in
  let c_adv := dec 25 1 in
  let c_jump := dec 15 1 in
  let adverse_mult := of_Z 1 / (of_Z 1 + c_adv * adverse + c_jump * vs.(VolatilityState.jump_intensity)) in
  let hazard_increment := base * dist_mult * type_mult * adverse_mult in
  (fclamp hazard_increment (dec 2 2) (of_Z 100), rng).

Definition decide_insert (state : SimulationState.t) (cumulative_hazard : double) (rng : G)
    : outcome (InsertDecision.t * G) :=
  let ps := state.(SimulationState.price_state_) in
  let vs := state.(SimulationState.vol_state_) in
  let fs := state.(SimulationState.flow_state_) in
  let liq := state.(SimulationState.liq_state_) in
  let ls := state.(SimulationState.latent_state_) in
  buy_prob ← buy_probability fs liq;
  let '(buys, rng) := bernoulli buy_prob rng in
  let side := if buys : bool then BUY else SELL in
  let urgency := urgency_of fs (VolatilityState.realised_vol_short vs) in
  thinness ← thinness_of liq;
  let '(agent, rng) := draw_agent urgency thinness rng in
  let '(regime, rng) := draw_regime ps agent urgency rng in
  '(anchor, rng) ← compute_anchor_ ps ls side rng;
  '(regime, price, dist, rng) ← choose_price ps vs agent side regime anchor rng;
  ln_mu ← size_mean fs liq side regime urgency;
  '(qty, rng) ← draw_quantity ln_mu urgency rng;
  let '(hazard_increment, rng) := draw_hazard fs vs side agent dist rng in
  let hazard_threshold := cumulative_hazard + hazard_increment in
  Done (InsertDecision.Make side price qty GOOD_FOR_DAY hazard_threshold, rng).

(** [update_intensity]: [lambda_insert] and [lambda_cancel]. *)
Definition update_intensity (state : SimulationState.t) (open_order_count : Z) : outcome (double * double) :=
  let ps := state.(SimulationState.price_state_) in
  let fs := state.(SimulationState.flow_state_) in
  let liq := state.(SimulationState.liq_state_) in
  let vol := state.(SimulationState.vol_state_) in
  let vol_s := VolatilityState.realised_vol_short vol in
  let spread_ticks := match ps.(PriceState.spread) with Some spread => of_Z spread | None => of_Z 1 end in
  depth_near_touch ←
    (if liq.(LiquidityState.has_bid_side) && liq.(LiquidityState.has_ask_side)
     then v ← near_volume liq; Done (of_Z v) else Done (of_Z 1));
  let thinness := of_Z 1 / fsqrt (of_Z 1 + depth_near_touch) in
  let insert_mult :=
    of_Z 1
    + dec 45 2 * fabs fs.(FlowState.flow_imbalance)
    + dec 65 2 * fmin vol_s (dec 15 1)
    + dec 50 2 * fclamp fs.(FlowState.trade_excitation) fzero (of_Z 3)
    + dec 60 2 * thinness in
  let insert_mult := fclamp insert_mult (dec 3 1) (of_Z 10) in
  let lambda_insert := LAMBDA_INSERT_BASE * insert_mult in
  let depth_mult := dec 35 2 + of_Z open_order_count / CANCEL_SCALING_FACTOR in
  let vol_mult := of_Z 1 + dec 12 1 * fmin vol_s (dec 15 1) + of_Z 1 * vol.(VolatilityState.jump_intensity) in
  let flow_mult :=
    of_Z 1 + of_Z 1 * fabs fs.(FlowState.flow_imbalance) + dec 6 1 * fabs fs.(FlowState.taker_sign_ewma) in
  let spread_mult := of_Z 1 + dec 25 2 * spread_ticks in
  let excite_mult := of_Z 1 + dec 6 1 * fclamp fs.(FlowState.trade_excitation) fzero (of_Z 3) in
  let cancel_mult := depth_mult * vol_mult * flow_mult * spread_mult * excite_mult in
  let cancel_mult := fclamp cancel_mult (dec 2 1) (of_Z 25) in
  Done (lambda_insert, LAMBDA_CANCEL_BASE * cancel_mult).
End dynamics.
End MarketDynamics.
