(* ===== verification/MarketTheorems.v ===== *)
(** What the derived state and the decisions of the simulator guarantee, whatever
    the functions of [cmath] give. *)

From Stdlib Require Import SpecFloat.
From stdpp Require Import sorting.
From S2P Require Import Prelude Types Codec Payloads Doubles DoublesExact Pcg32 ShadowBook MarketState MarketDynamics.

(** ** Liquidity buckets *)

(** The volume of the levels at most [bound] away from the best price. *)
Fixpoint volume_within (distance : Price_t → Z) (bound : Z) (levels : list (Price_t * Volume_t)) : Z :=
  match levels with
  | [] => 0
  | (price, volume) :: levels =>
      (if distance price <=? bound then volume else 0) + volume_within distance bound levels
  end.

Section liquidity.
Import SimulationState.
Implicit Types (b : Bucket).

(** Distances and bounds that are integers below 2{^53}. *)
Definition exact_int (z : Z) : Prop := 0 <= z < 2 ^ 53.

Lemma add_level_volumes d bound volume b :
  exact_int d → exact_int bound → is_u32 b.(volumes) →
  (add_level (of_Z d) volume bound b).(volumes) = u32 (b.(volumes) + (if d <=? bound then volume else 0)).
Proof.
  intros Hd Hb Hv. unfold add_level. rewrite fle_of_Z by done. destruct (d <=? bound); [done|].
  cbn. by rewrite Z.add_0_r, u32_small.
Qed.

Lemma add_levels_ok distance bounds levels buckets :
  (∀ price volume, (price, volume) ∈ levels → exact_int (distance price)) →
  Forall exact_int bounds → Forall (λ b, is_u32 b.(volumes)) buckets → length buckets = length bounds →
  ∃ bs, add_levels distance bounds levels buckets = Done bs ∧ length bs = length bounds ∧
    ∀ i bound b, bounds !! i = Some bound → buckets !! i = Some b →
      ∃ b', bs !! i = Some b' ∧ b'.(volumes) = u32 (b.(volumes) + volume_within distance bound levels).
Proof.
  intros Hlev Hbounds. revert buckets. induction levels as [|[price volume] levels IH]; intros buckets Hb Hlen;
    cbn [add_levels volume_within].
  { exists buckets. split; [done|]. split; [done|]. intros i bound b _ Eb. exists b. split; [done|].
    rewrite Z.add_0_r, u32_small; [done|]. rewrite Forall_lookup in Hb. by eapply Hb. }
  pose proof (Hlev price volume ltac:(left)) as Hd.
  rewrite in_i64_ok by (unfold is_i64, exact_int in *; lia). run_bind.
  change fzero with (of_Z 0). rewrite flt_of_Z by (unfold exact_int in *; lia).
  rewrite (proj2 (Z.ltb_ge _ _)) by (unfold exact_int in *; lia).
  set (buckets' := zip_with _ bounds buckets).
  assert (∀ i bound b, bounds !! i = Some bound → buckets !! i = Some b →
    ∃ b1, buckets' !! i = Some b1 ∧
      b1.(volumes) = u32 (b.(volumes) + (if distance price <=? bound then volume else 0))) as Hstep.
  { intros i bound b E1 E2. exists (add_level (of_Z (distance price)) volume bound b). split.
    - unfold buckets'. apply lookup_zip_with_Some. eauto.
    - rewrite Forall_lookup in Hb. rewrite Forall_lookup in Hbounds. apply add_level_volumes; eauto. }
  destruct (IH (λ p v Hin, Hlev p v ltac:(right; exact Hin)) buckets') as (bs & E & Hl & Hbs).
  - apply Forall_lookup. intros i b1 E1. pose proof E1 as E2. unfold buckets' in E2.
    apply lookup_zip_with_Some in E2 as (bound & b & _ & E2 & E3). destruct (Hstep i bound b E2 E3) as (b2 & E4 & Ev).
    rewrite E1 in E4. injection E4 as <-. rewrite Ev. auto with machine.
  - unfold buckets'. rewrite length_zip_with. lia.
  - exists bs. split; [done|]. split; [done|]. intros i bound b E1 E2.
    destruct (Hstep i bound b E1 E2) as (b1 & Eb1 & Ev1). destruct (Hbs i bound b1 E1 Eb1) as (b' & Eb' & Ev').
    exists b'. split; [done|]. rewrite Ev', Ev1. autorewrite with wrap. f_equal. lia.
Qed.

Lemma fill_side_ok bounds best distance (levels : Levels) :
  Forall exact_int bounds →
  (∀ p, best = Some p → ∀ price volume, levels !! price = Some volume → exact_int (distance p price)) →
  ∃ bs, fill_side bounds best distance levels = Done bs ∧ length bs = length bounds ∧
    ∀ i bound, bounds !! i = Some bound → ∃ b, bs !! i = Some b ∧
      b.(volumes) = u32 (match best with
                         | Some p => volume_within (distance p) bound (in_order levels)
                         | None => 0
                         end).
Proof.
  intros Hbounds Hlev. unfold fill_side.
  assert (∀ i bound, bounds !! i = Some bound → map (λ _, empty_bucket) bounds !! i = Some empty_bucket) as He.
  { intros i bound E. change (map ?f ?l) with (f <$> l). by rewrite list_lookup_fmap, E. }
  destruct best as [p|].
  - destruct (add_levels_ok (distance p) bounds (in_order levels) (map (λ _, empty_bucket) bounds))
      as (bs & E & Hl & Hbs).
    + intros price volume Hin%elem_of_in_order. by eapply Hlev.
    + done.
    + apply Forall_map, Forall_true. intros _. unfold is_u32. cbn. lia.
    + apply length_map.
    + exists bs. split; [done|]. split; [done|]. intros i bound Ei.
      destruct (Hbs i bound empty_bucket Ei (He i bound Ei)) as (b & Eb & Ev). by exists b.
  - exists (map (λ _, empty_bucket) bounds). split; [done|]. split; [apply length_map|].
    intros i bound Ei. exists empty_bucket. split; [by eapply He | done].
Qed.
End liquidity.

(** ** Ranges of the flow indicators *)

Section ranges.
Context `{Libm}.
Import SimulationState.

Definition minus_one : double := (- of_Z 1)%double.

(** Neither below -1 nor above 1. *)
Definition flow_ok (fs : FlowState.t) : Prop :=
  within minus_one fone fs.(FlowState.flow_imbalance) = true ∧
  within minus_one fone fs.(FlowState.taker_sign_ewma) = true.

Lemma flow_bump trade fs : flow_ok fs → flow_ok (bump_trade_excitation trade fs).
Proof. done. Qed.

Lemma flow_decay dt fs : flow_ok fs → flow_ok (decay_trade_excitation dt fs).
Proof. done. Qed.

Lemma flow_update trade dt fs : flow_ok (update_flow_state trade dt fs).
Proof. split; by apply fclamp_within. Qed.

Lemma on_trade_flow trade s : flow_ok s.(flow_state_) → flow_ok (on_trade trade s).(flow_state_).
Proof.
  intros HF. unfold on_trade. destruct (_ =? 0); [done|]. destruct (fle _ _); [done|].
  apply flow_bump, flow_update.
Qed.

(** The price view is that of a book: the spread is known when both sides are. *)
Definition view_ok (ps : PriceState.t) : Prop :=
  match ps.(PriceState.best_bid), ps.(PriceState.best_ask), ps.(PriceState.spread) with
  | Some bid, Some ask, Some spread => spread = ask - bid
  | Some _, Some _, None => False
  | _, _, None => True
  | _, _, Some _ => False
  end.

Lemma price_state_ok last book ps : update_price_state last book = Done ps → view_ok ps.
Proof.
  unfold update_price_state, view_ok.
  destruct (ShadowOrderBook.best_bid_price book) as [bid|]; [|by intros [= <-]].
  destruct (ShadowOrderBook.best_ask_price book) as [ask|]; [|by intros [= <-]].
  unfold in_i64. destruct (_ && _); [|done]. run_bind. by intros [= <-].
Qed.

Lemma sync_flow book dt s s' :
  flow_ok s.(flow_state_) → sync_with_book book dt s = Done s' → flow_ok s'.(flow_state_) ∧ view_ok s'.(price_state_).
Proof.
  intros HF. unfold sync_with_book. destruct (update_price_state _ _) as [ps| |] eqn:E; [|done..]. run_bind.
  destruct (update_liq_state _ _) as [liq| |]; [|done..]. run_bind.
  destruct (update_latent_state _ _ _) as [ls rng]. intros [= <-]. cbn.
  split; [by apply flow_decay | by eapply price_state_ok].
Qed.
End ranges.

(** What the simulator feeds the state with. *)
Inductive Feeding :=
  | Traded (trade : PayloadTradeEvent.t)
  | Synced (book : ShadowOrderBook.t) (dt : double).

Definition feed_state `{Libm} (s : SimulationState.t) (f : Feeding) : outcome SimulationState.t :=
  match f with
  | Traded trade => Done (SimulationState.on_trade trade s)
  | Synced book dt => SimulationState.sync_with_book book dt s
  end.

Fixpoint feed_all `{Libm} (s : SimulationState.t) (fs : list Feeding) : outcome SimulationState.t :=
  match fs with
  | [] => Done s
  | f :: fs => s ← feed_state s f; feed_all s fs
  end.

(** The prices of the books are those of the exchange, the bounds are not negative. *)
Definition feeding_ok (f : Feeding) : Prop :=
  match f with
  | Traded _ => True
  | Synced book _ => ∀ side price volume, ShadowOrderBook.levels book side !! price = Some volume →
                       MINIMUM_BID <= price <= MAXIMUM_ASK
  end.

Section runs.
Context `{Libm}.
Import SimulationState.

Lemma best_key book p :
  (ShadowOrderBook.best_bid_price book = Some p → is_Some (book.(ShadowOrderBook.bids_) !! p)) ∧
  (ShadowOrderBook.best_ask_price book = Some p → is_Some (book.(ShadowOrderBook.asks_) !! p)).
Proof. by split; [intros [? _]%best_bid_price_spec | intros [? _]%best_ask_price_spec]. Qed.

(** One side of the liquidity, for a book with prices of the exchange. *)
Lemma sides_ok book dt bounds :
  feeding_ok (Synced book dt) → Forall exact_int bounds →
  (∀ p, ShadowOrderBook.best_bid_price book = Some p → ∀ price volume,
     book.(ShadowOrderBook.bids_) !! price = Some volume → exact_int (p - price)) ∧
  (∀ p, ShadowOrderBook.best_ask_price book = Some p → ∀ price volume,
     book.(ShadowOrderBook.asks_) !! price = Some volume → exact_int (price - p)).
Proof.
  intros Hb _. cbn in Hb. unfold MINIMUM_BID, MAXIMUM_ASK in Hb. split.
  - intros p Ep price volume E. apply best_bid_price_spec in Ep as [[v Ev] Hmax].
    pose proof (Hmax price ltac:(by eexists)). pose proof (Hb BUY p v Ev). pose proof (Hb BUY price volume E).
    unfold exact_int. lia.
  - intros p Ep price volume E. apply best_ask_price_spec in Ep as [[v Ev] Hmin].
    pose proof (Hmin price ltac:(by eexists)). pose proof (Hb SELL p v Ev). pose proof (Hb SELL price volume E).
    unfold exact_int. lia.
Qed.

(** The volumes that a side reports are sums over the levels of the book. *)
Definition reports (bounds : list Price_t) (best : option Price_t) (distance : Price_t → Price_t → Z)
    (levels : Levels) (volumes : list Volume_t) : Prop :=
  length volumes = length bounds ∧
  ∀ i bound, bounds !! i = Some bound →
    volumes !! i = Some (u32 (match best with
                              | Some p => volume_within (distance p) bound (in_order levels)
                              | None => 0
                              end)).

Lemma fill_side_reports bounds best distance (levels : Levels) bs :
  fill_side bounds best distance levels = Done bs → Forall exact_int bounds →
  (∀ p, best = Some p → ∀ price volume, levels !! price = Some volume → exact_int (distance p price)) →
  reports bounds best distance levels (map volumes bs).
Proof.
  intros E Hb Hd. destruct (fill_side_ok bounds best distance levels Hb Hd) as (bs' & E' & Hl & Hbs).
  rewrite E in E'. injection E' as <-. split; [by rewrite length_map|]. intros i bound Ei.
  destruct (Hbs i bound Ei) as (b & Eb & Ev). change (map ?f ?l) with (f <$> l). rewrite list_lookup_fmap, Eb. cbn.
  by rewrite Ev.
Qed.

(** Synchronising with a book of the exchange succeeds. *)
Lemma sync_ok book dt s :
  feeding_ok (Synced book dt) → Forall exact_int s.(liq_state_).(LiquidityState.bucket_bounds) →
  ∃ s', sync_with_book book dt s = Done s' ∧
    s'.(liq_state_).(LiquidityState.bucket_bounds) = s.(liq_state_).(LiquidityState.bucket_bounds) ∧
    s'.(price_state_).(PriceState.best_bid) = ShadowOrderBook.best_bid_price book ∧
    s'.(price_state_).(PriceState.best_ask) = ShadowOrderBook.best_ask_price book ∧
    reports s.(liq_state_).(LiquidityState.bucket_bounds) (ShadowOrderBook.best_bid_price book)
      (λ best price, best - price) book.(ShadowOrderBook.bids_) s'.(liq_state_).(LiquidityState.bid_volumes) ∧
    reports s.(liq_state_).(LiquidityState.bucket_bounds) (ShadowOrderBook.best_ask_price book)
      (λ best price, price - best) book.(ShadowOrderBook.asks_) s'.(liq_state_).(LiquidityState.ask_volumes) ∧
    s'.(liq_state_).(LiquidityState.has_bid_side) = bool_decide (book.(ShadowOrderBook.bids_) ≠ ∅) ∧
    s'.(liq_state_).(LiquidityState.has_ask_side) = bool_decide (book.(ShadowOrderBook.asks_) ≠ ∅).
Proof.
  intros Hb Hbounds. destruct (sides_ok book dt _ Hb Hbounds) as [Hbid Hask]. unfold sync_with_book.
  assert (∃ ps, update_price_state (last_trade_price_ s) book = Done ps ∧
    ps.(PriceState.best_bid) = ShadowOrderBook.best_bid_price book ∧
    ps.(PriceState.best_ask) = ShadowOrderBook.best_ask_price book) as (ps & -> & Eb & Ea).
  { unfold update_price_state. destruct (ShadowOrderBook.best_bid_price book) as [bid|] eqn:E1; [|by eexists].
    destruct (ShadowOrderBook.best_ask_price book) as [ask|] eqn:E2; [|by eexists].
    apply best_key in E1 as [v1 E1]. apply best_key in E2 as [v2 E2].
    pose proof (Hb BUY _ _ E1). pose proof (Hb SELL _ _ E2). unfold MINIMUM_BID, MAXIMUM_ASK in *.
    rewrite in_i64_ok by (unfold is_i64; lia). by eexists. }
  run_bind. unfold update_liq_state.
  destruct (fill_side_ok _ _ (λ best price, best - price) _ Hbounds Hbid) as (bids & E1 & _).
  destruct (fill_side_ok _ _ (λ best price, price - best) _ Hbounds Hask) as (asks & E2 & _).
  rewrite E1. run_bind. rewrite E2. run_bind.
  destruct (update_latent_state _ _ _) as [ls rng]. eexists. split; [reflexivity|]. cbn.
  split; [done|]. split; [done|]. split; [done|].
  split; [by eapply fill_side_reports|]. split; [by eapply fill_side_reports|].
  unfold ShadowOrderBook.best_bid_price, ShadowOrderBook.best_ask_price. split.
  - case_decide as He; [by rewrite bool_decide_eq_false_2, bool_decide_eq_false_2 by (by intros [] || auto)|].
    rewrite !bool_decide_eq_true_2; [done | done |]. apply fmap_is_Some.
    destruct (last (in_order _)) eqn:El; [done|]. by apply last_None, in_order_nil in El.
  - case_decide as He; [by rewrite bool_decide_eq_false_2, bool_decide_eq_false_2 by (by intros [] || auto)|].
    rewrite !bool_decide_eq_true_2; [done | done |]. apply fmap_is_Some.
    destruct (head (in_order _)) eqn:El; [done|]. by apply head_None, in_order_nil in El.
Qed.

Lemma feed_ok s f :
  flow_ok s.(flow_state_) → view_ok s.(price_state_) → feeding_ok f →
  Forall exact_int s.(liq_state_).(LiquidityState.bucket_bounds) →
  ∃ s', feed_state s f = Done s' ∧ flow_ok s'.(flow_state_) ∧ view_ok s'.(price_state_) ∧
    s'.(liq_state_).(LiquidityState.bucket_bounds) = s.(liq_state_).(LiquidityState.bucket_bounds).
Proof.
  intros HF HV Hf Hb. destruct f as [trade | book dt]; cbn [feed_state].
  - eexists. split; [reflexivity|]. split; [by apply on_trade_flow|].
    unfold on_trade. destruct (_ =? 0); [done|]. by destruct (fle _ _).
  - destruct (sync_ok book dt s Hf Hb) as (s' & E & Hbs & _). exists s'.
    split; [done|]. destruct (sync_flow book dt s s' HF E) as [H1 H2]. done.
Qed.

Lemma feed_all_ok s fs :
  flow_ok s.(flow_state_) → view_ok s.(price_state_) → Forall feeding_ok fs →
  Forall exact_int s.(liq_state_).(LiquidityState.bucket_bounds) →
  ∃ s', feed_all s fs = Done s' ∧ flow_ok s'.(flow_state_) ∧ view_ok s'.(price_state_) ∧
    s'.(liq_state_).(LiquidityState.bucket_bounds) = s.(liq_state_).(LiquidityState.bucket_bounds).
Proof.
  intros HF HV Hfs. revert s HF HV. induction Hfs as [|f fs Hf _ IH]; intros s HF HV Hb; cbn [feed_all]; [by exists s|].
  destruct (feed_ok s f HF HV Hf Hb) as (s1 & -> & HF1 & HV1 & Hb1). run_bind.
  destruct (IH s1 HF1 HV1) as (s2 & -> & HF2 & HV2 & Hb2); [by rewrite Hb1|]. exists s2. by rewrite Hb2.
Qed.
End runs.

(** ** Guarantees *)

(** C31: the liquidity that decisions see is that of the book.  After any trades and
    synchronisations, a synchronisation with a book with prices of the exchange
    succeeds; the best prices are the book's; and although distances are compared
    as [double]s, the volume of bucket [i] of each side is exactly the sum, in 32
    bits, of the volumes of the levels that are at most the bound [i] away from the
    best price. *)
Theorem liquidity_exact `{Libm} memory_time memory_price memory_liq bounds (fs : list Feeding) book dt :
  Forall exact_int bounds → Forall feeding_ok fs → feeding_ok (Synced book dt) →
  ∃ s s', feed_all (SimulationState.SimulationState memory_time memory_price memory_liq bounds) fs = Done s ∧
    SimulationState.sync_with_book book dt s = Done s' ∧
    let ps := s'.(SimulationState.price_state_) in
    let liq := s'.(SimulationState.liq_state_) in
    ps.(PriceState.best_bid) = ShadowOrderBook.best_bid_price book ∧
    ps.(PriceState.best_ask) = ShadowOrderBook.best_ask_price book ∧
    reports bounds ps.(PriceState.best_bid) (λ best price, best - price) book.(ShadowOrderBook.bids_)
      liq.(LiquidityState.bid_volumes) ∧
    reports bounds ps.(PriceState.best_ask) (λ best price, price - best) book.(ShadowOrderBook.asks_)
      liq.(LiquidityState.ask_volumes) ∧
    liq.(LiquidityState.has_bid_side) = bool_decide (book.(ShadowOrderBook.bids_) ≠ ∅) ∧
    liq.(LiquidityState.has_ask_side) = bool_decide (book.(ShadowOrderBook.asks_) ≠ ∅).
Proof.
  intros Hb Hfs Hbook.
  set (s0 := SimulationState.SimulationState memory_time memory_price memory_liq bounds).
  destruct (feed_all_ok s0 fs) as (s & E & _ & _ & Ebounds); [done | done | done | done |].
  exists s. change (LiquidityState.bucket_bounds (SimulationState.liq_state_ s0)) with bounds in Ebounds.
  destruct (sync_ok book dt s Hbook) as (s' & E' & _ & Ebid & Eask & H1 & H2 & H3 & H4); [by rewrite Ebounds|].
  exists s'. rewrite Ebounds in *. cbv zeta. rewrite Ebid, Eask. done.
Qed.

(** The flow indicators stay in their range.  After any trades, with any
    content, and synchronisations with books with prices of the exchange,
    [flow_imbalance] and [taker_sign_ewma] are neither below -1 nor above 1, and the
    price view has a spread, the difference of the best prices, exactly when it has
    both. *)
Theorem indicators_in_range `{Libm} memory_time memory_price memory_liq bounds (fs : list Feeding) :
  Forall exact_int bounds → Forall feeding_ok fs →
  ∃ s, feed_all (SimulationState.SimulationState memory_time memory_price memory_liq bounds) fs = Done s ∧
    flow_ok s.(SimulationState.flow_state_) ∧ view_ok s.(SimulationState.price_state_).
Proof.
  intros Hb Hfs.
  destruct (feed_all_ok (SimulationState.SimulationState memory_time memory_price memory_liq bounds) fs)
    as (s & E & HF & HV & _); [done | done | done | done |]. by exists s.
Qed.

(** ** Witnesses *)

(** Constants in the place of [cmath] and of the integer distributions. *)
Definition some_libm : Libm := {|
  exp := λ _, of_Z 12; log := λ _, (- of_Z 1)%double; log1p := λ _, fzero; tanh := λ _, fzero
|}.
Definition some_distributions : Distributions := {|
  uniform_int_distribution := λ lower _ g, (lower, g); poisson_distribution := λ _ g, (3, g)
|}.
Definition some_rng : RNG pcg32.t := @PCGRNG_RNG some_libm some_distributions.

Definition some_book : ShadowOrderBook.t :=
  ShadowOrderBook.Make {[ 99 := 5; 97 := 3 ]} {[ 103 := 4 ]}.
Definition no_liquidity : LiquidityState.t := LiquidityState.Make [] [] [] [] [] [] [] [] [] [] false false.
Definition some_start : SimulationState.t :=
  @SimulationState.SimulationState some_libm (TimeState.Make fzero fzero) 0 no_liquidity [1; 5; 10].

Lemma some_book_ok : feeding_ok (Synced some_book (dec 1 3)).
Proof.
  intros [] price volume; cbn; intros E; unfold MINIMUM_BID, MAXIMUM_ASK.
  - apply lookup_singleton_Some in E as [<- _]. lia.
  - apply lookup_insert_Some in E as [[<- _]|[_ E]]; [lia|]. apply lookup_singleton_Some in E as [<- _]. lia.
Qed.

Definition some_feedings : list Feeding :=
  [Traded (make_trade_event 1 1 100 5 BUY 10); Traded (make_trade_event 2 2 101 7 SELL 1000000);
   Synced some_book (dec 1 3)].

Lemma some_feedings_ok : Forall feeding_ok some_feedings.
Proof.
  constructor; [done|]. constructor; [done|]. constructor; [apply some_book_ok | constructor].
Qed.

Lemma some_bounds_ok : Forall exact_int [1; 5; 10].
Proof. repeat constructor; unfold exact_int; lia. Qed.

(** Bids at distances 0 and 2 of the best: 5 within 1, 8 within 5. *)
Lemma liquidity_exact_witness :
  ∃ s s', @feed_all some_libm some_start some_feedings = Done s ∧
    @SimulationState.sync_with_book some_libm some_book (dec 1 3) s = Done s' ∧
    s'.(SimulationState.liq_state_).(LiquidityState.bid_volumes) !! 0%nat = Some 5 ∧
    s'.(SimulationState.liq_state_).(LiquidityState.bid_volumes) !! 1%nat = Some 8.
Proof.
  destruct (@liquidity_exact some_libm (TimeState.Make fzero fzero) 0 no_liquidity [1; 5; 10] some_feedings some_book
    (dec 1 3) some_bounds_ok some_feedings_ok some_book_ok) as (s & s' & E & E' & Eb & _ & (_ & Hr) & _).
  exists s, s'. split; [exact E|]. split; [exact E'|].
  assert (ShadowOrderBook.best_bid_price some_book = Some 99) as E99 by (vm_compute; reflexivity).
  rewrite Eb, E99 in Hr. split; [apply (Hr 0%nat 1 eq_refl) | apply (Hr 1%nat 5 eq_refl)].
Defined.

Lemma indicators_in_range_witness :
  ∃ s, @feed_all some_libm some_start some_feedings = Done s ∧ flow_ok s.(SimulationState.flow_state_) ∧
    s.(SimulationState.price_state_).(PriceState.spread) = Some 4.
Proof.
  destruct (@indicators_in_range some_libm (TimeState.Make fzero fzero) 0 no_liquidity [1; 5; 10] some_feedings
    some_bounds_ok some_feedings_ok) as (s & E & HF & _).
  exists s. split; [exact E|]. split; [exact HF|]. vm_compute in E. injection E as <-. vm_compute. reflexivity.
Defined.
