(* ===== verification/MarketRange.v ===== *)
(** The ranges of the derived state: no trade and no synchronisation makes a
    variance, a volume, a rate or an indicator infinite, NaN or out of bounds. *)

From Stdlib Require Import SpecFloat QArith Qabs Lqa.
From S2P Require Import Prelude Types Codec Payloads Doubles DoublesExact DoublesValue DoublesRound DoublesRange DoublesInterval Pcg32 CmathRange ShadowBook MarketState MarketTheorems.
Import SimulationState.

(** ** The state *)

Definition vol_range (vs : VolatilityState.t) : Prop :=
  in_range 0 (p2 8) vs.(VolatilityState.realised_variance_short) ∧
  in_range 0 (p2 8) vs.(VolatilityState.realised_variance_long) ∧
  in_range 0 (p2 8) vs.(VolatilityState.realised_variance_up) ∧
  in_range 0 (p2 8) vs.(VolatilityState.realised_variance_down) ∧
  in_range 0 (p2 8) vs.(VolatilityState.vol_of_vol) ∧
  in_range 0 1 vs.(VolatilityState.jump_intensity).

Definition flow_range (fs : FlowState.t) : Prop :=
  in_range 0 (p2 32) fs.(FlowState.abs_volume_ewma) ∧
  in_range 0 (p2 20) fs.(FlowState.trade_rate_ewma) ∧
  in_range 0 (p2 32) fs.(FlowState.buy_volume_ewma) ∧
  in_range 0 (p2 32) fs.(FlowState.sell_volume_ewma) ∧
  in_range (- p2 59) (p2 59) fs.(FlowState.volume_surprise) ∧
  in_range (- p2 32) (p2 32) fs.(FlowState.signed_volume_ewma) ∧
  in_range (- (1)) 1 fs.(FlowState.flow_imbalance) ∧
  in_range (- (1)) 1 fs.(FlowState.taker_sign_ewma) ∧
  in_range 0 (inject_Z 5) fs.(FlowState.trade_excitation).

Lemma flow_make a r b s v g i t x :
  in_range 0 (p2 32) a → in_range 0 (p2 20) r → in_range 0 (p2 32) b → in_range 0 (p2 32) s →
  in_range (- p2 59) (p2 59) v → in_range (- p2 32) (p2 32) g → in_range (- (1)) 1 i → in_range (- (1)) 1 t →
  in_range 0 (inject_Z 5) x → flow_range (FlowState.Make a r b s v g i t x).
Proof. intros. by do 8 (split; [done|]). Qed.

Definition price_ok (price : Price_t) : Prop := MINIMUM_BID <= price <= MAXIMUM_ASK.

(** Trades at prices of the exchange, synchronisations after a time that is not
    negative. *)
Definition feeding_range (f : Feeding) : Prop :=
  match f with
  | Traded trade => price_ok trade.(PayloadTradeEvent.price) ∧ is_u32 trade.(PayloadTradeEvent.quantity)
  | Synced _ dt => ∃ hi, in_range 0 hi dt
  end.

Definition state_range `{Libm} (s : SimulationState.t) : Prop :=
  vol_range s.(vol_state_) ∧ flow_range s.(flow_state_) ∧
  0 <= s.(last_trade_price_) <= MAXIMUM_ASK ∧
  (s.(last_trade_timestamp_) ≠ 0 → price_ok s.(last_trade_price_)).

Lemma int_range z : 0 <= z < 2 ^ 53 → in_range (inject_Z z) (inject_Z z) (of_Z z).
Proof. intros H. destruct (of_Z_val z) as [Hf E]; [lia|]. split; [done|]. split; lra. Qed.

Section ranges.
Context `{LibmRanges}.

(** The weight of the past. *)
Lemma past_range dt tau hi : in_range 0 hi dt → 1 <= tau < 2 ^ 53 → in_range 0 1 (exp (fdiv (fopp dt) (of_Z tau))).
Proof.
  intros Hdt Ht. destruct (int_range tau) as [Hft [Ht1 Ht2]]; [lia|].
  assert ((1 <= inject_Z tau)%Q) as Ht0 by (change 1%Q with (inject_Z 1); rewrite <- inject_le; lia).
  destruct (fopp_range 0 hi dt Hdt) as [Hf [H1 H2]]. destruct Hdt as [Hfd [Hd0 Hd1]].
  assert (in_range (- val dt) 0 (fdiv (fopp dt) (of_Z tau))) as [Hq [_ Hq0]].
  { apply fdiv_range; [by apply representable_opp, representable_val | in_format | done | done | lra |].
    rewrite val_opp. split.
    - apply Qle_shift_div_l; [lra|]. nra.
    - apply Qle_shift_div_r; [lra|]. nra. }
  change 1%Q with (inject_Z (2 ^ 0)). rewrite <- p2_Z by lia.
  apply exp_range; [lia | done |]. assert ((ln2_below 0 == 0)%Q) as -> by reflexivity. done.
Qed.

(** *** Volatility *)

(** The squared logarithm of a ratio of prices. *)
Lemma return_range p0 p1 : price_ok p0 → price_ok p1 →
  let r := log (fdiv (of_Z p1) (of_Z p0)) in in_range 0 (p2 8) (fmul r r).
Proof.
  intros Hp0 Hp1 r. unfold price_ok, MINIMUM_BID, MAXIMUM_ASK in *.
  destruct (int_range p0) as [F0 [A0 B0]]; [lia|]. destruct (int_range p1) as [F1 [A1 B1]]; [lia|].
  assert ((inject_Z 1 <= inject_Z p0 ∧ inject_Z p0 <= inject_Z 10000)%Q) as [C0 D0] by (rewrite <- !inject_le; lia).
  assert ((inject_Z 1 <= inject_Z p1 ∧ inject_Z p1 <= inject_Z 10000)%Q) as [C1 D1] by (rewrite <- !inject_le; lia).
  change (inject_Z 1) with 1%Q in *. change (inject_Z 10000) with 10000%Q in *.
  assert (in_range (p2 (-14)) (p2 14) (fdiv (of_Z p1) (of_Z p0))) as [Fq [Hq1 Hq2]].
  { apply fdiv_range; [in_format | in_format | done | done | lra |].
    assert ((p2 (-14) == 1 # 16384)%Q) as -> by reflexivity. assert ((p2 14 == 16384)%Q) as -> by reflexivity.
    split; [apply Qle_shift_div_l | apply Qle_shift_div_r]; lra. }
  destruct (log_between (-14) 14 _ ltac:(lia) ltac:(lia) ltac:(lia) Fq Hq1 Hq2) as [Fr [R1 R2]]. fold r in Fr, R1, R2.
  assert ((ln2_below (-14) == - (9716 # 1000))%Q) as E1 by reflexivity.
  assert ((ln2_above 14 == 9716 # 1000)%Q) as E2 by reflexivity. rewrite E1 in R1. rewrite E2 in R2.
  apply fmul_range; [in_format | in_format | done | done |].
  assert ((p2 8 == 256)%Q) as -> by reflexivity. split; nra.
Qed.

Lemma vol_sqrt x : in_range 0 (p2 8) x → in_range 0 (p2 4) (fsqrt x).
Proof.
  intros [Hx [H1 H2]]. pose proof (p2_pos 4). apply fsqrt_range; [in_format | in_format | done | lra | lra |].
  assert ((square (p2 4) == p2 8)%Q) as -> by reflexivity. assert ((square 0 == 0)%Q) as -> by reflexivity. done.
Qed.

(** The squared difference of two volatilities. *)
Lemma dvol_range x y : in_range 0 (p2 8) x → in_range 0 (p2 8) y →
  let d := fsub (fsqrt x) (fsqrt y) in in_range 0 (p2 8) (fmul d d).
Proof.
  intros [Fx [X1 X2]]%vol_sqrt [Fy [Y1 Y2]]%vol_sqrt d.
  assert (in_range (- p2 4) (p2 4) d) as [Fd [D1 D2]].
  { apply fsub_range; [in_format | in_format | done | done |]. split; lra. }
  apply fmul_range; [in_format | in_format | done | done |].
  assert ((p2 8 == p2 4 * p2 4)%Q) as -> by reflexivity. split; nra.
Qed.

Lemma ewma_range lo hi e x y : scalable lo → scalable hi → in_range 0 1 e → in_range lo hi x → in_range lo hi y →
  in_range lo hi (ewma (fsub (of_Z 1) e) x y).
Proof. apply average_range. Qed.

Lemma past_weight e : in_range 0 1 e → in_range 0 1 (fsub (of_Z 1) (fsub (of_Z 1) e)).
Proof. intros He. by apply complement_range, complement_range. Qed.

Lemma update_vol_range p0 p1 dt hi vs :
  price_ok p0 → price_ok p1 → in_range 0 hi dt → vol_range vs → vol_range (update_vol_state p0 p1 dt vs).
Proof.
  intros Hp0 Hp1 Hdt (Hs & Hl & Hu & Hd & Hv & Hj). pose proof (return_range p0 p1 Hp0 Hp1) as Hr2. cbv zeta in Hr2.
  pose proof (past_range dt 1 hi Hdt ltac:(lia)) as E1. pose proof (past_range dt 30 hi Hdt ltac:(lia)) as E30.
  pose proof (past_range dt 10 hi Hdt ltac:(lia)) as E10. unfold update_vol_state. cbv zeta.
  change TAU_SHORT with (of_Z 1). change TAU_LONG with (of_Z 30). change TAU_JUMP with (of_Z 10).
  pose proof (past_weight _ E1) as W1. pose proof (past_weight _ E10) as W10.
  set (r := log (fdiv (of_Z p1) (of_Z p0))) in *. set (e1 := exp _) in *. set (e30 := exp _) in E30 |- *.
  set (e10 := exp _) in E10 |- *.
  assert (in_range 0 (p2 8) (ewma (fsub (of_Z 1) e1) vs.(VolatilityState.realised_variance_short) (fmul r r))) as Hs'.
  { apply ewma_range; in_format || done. }
  unfold vol_range. cbn [VolatilityState.realised_variance_short VolatilityState.realised_variance_long
    VolatilityState.realised_variance_up VolatilityState.realised_variance_down VolatilityState.vol_of_vol
    VolatilityState.jump_intensity].
  split; [done|]. split; [apply ewma_range; in_format || done|].
  split; [destruct (flt fzero r); [apply ewma_range; in_format || done | by apply shrink_range]|].
  split; [destruct (flt fzero r); [by apply shrink_range|]; destruct (flt r fzero);
          [apply ewma_range; in_format || done | by apply shrink_range]|].
  split; [apply ewma_range; [in_format..| done | done | by apply dvol_range]|].
  destruct (flt VOL_MIN _); [|done]. destruct (flt (of_Z 5) _); [|by apply shrink_range].
  apply ewma_range; [in_format..| done | done |]. evaluate.
Qed.

(** *** Flow *)

Lemma quantity_range z : is_u32 z → in_range 0 (p2 32) (of_Z z).
Proof.
  intros Hz. unfold is_u32 in Hz. apply of_Z_range; [in_format | in_format |].
  rewrite p2_Z by lia. change 0%Q with (inject_Z 0). split; rewrite <- inject_le; lia.
Qed.

(** The time between two trades. *)
Lemma trade_time_range z :
  in_range (val (dec 1 6)) (p2 35) (fmax (dec 1 6) (fmul (of_Z (u64 z)) (dec 1 9))).
Proof.
  apply fmax_range with (lo' := 0%Q); [evaluate|]. pose proof (u64_range z) as Hz.
  assert (in_range 0 (p2 64) (of_Z (u64 z))) as [Hf [H1 H2]].
  { apply of_Z_range; [in_format | in_format |]. rewrite p2_Z by lia. change 0%Q with (inject_Z 0).
    split; rewrite <- inject_le; lia. }
  assert (in_range 0 (p2 (-29)) (dec 1 9)) as [Hd [H3 H4]] by evaluate.
  apply fmul_range; [in_format | in_format | exact Hf | exact Hd |].
  assert ((p2 35 == p2 64 * p2 (-29))%Q) as -> by reflexivity. split; nra.
Qed.

Lemma rate_range dt hi : in_range (val (dec 1 6)) hi dt → in_range 0 (p2 20) (fdiv (of_Z 1) dt).
Proof.
  intros [Hf [H1 H2]]. assert ((0 < val (dec 1 6))%Q) as Hpos by evaluate.
  assert ((1 <= p2 20 * val (dec 1 6))%Q) as Hone by evaluate. pose proof (p2_pos 20).
  apply fdiv_range; [in_format | in_format | reflexivity | exact Hf | lra |]. rewrite val_one.
  split; [apply Qle_shift_div_l; lra | apply Qle_shift_div_r; [lra|]; nra].
Qed.

(** A volume or a difference of volumes, over a volume kept away from zero. *)
Lemma relative_range x y n : 0 <= n <= 900 → in_range (- p2 n) (p2 n) x → finite y = true → (p2 (-27) <= val y)%Q →
  in_range (- p2 (n + 27)) (p2 (n + 27)) (fdiv x y).
Proof.
  intros Hn [Hx [H1 H2]] Hy Hle. pose proof (p2_pos (-27)). pose proof (p2_pos (n + 27)).
  assert ((p2 n == p2 (n + 27) * p2 (-27))%Q) as E by (rewrite <- p2_add; by replace (n + 27 + -27) with n by lia).
  apply fdiv_range; [in_format | in_format | done | done | lra |].
  rewrite E in H1, H2. split; [apply Qle_shift_div_l | apply Qle_shift_div_r]; nra.
Qed.

(** Everything but the clamped indicators. *)
Lemma signed_range z (b : bool) : is_u32 z →
  in_range (- p2 32) (p2 32) (if b then of_Z z else fopp (of_Z z)).
Proof.
  intros Hz%quantity_range. pose proof (p2_pos 32). destruct b.
  - apply in_range_le with 0%Q (p2 32); [done | lra | lra].
  - apply fopp_range in Hz. apply in_range_le with (- p2 32)%Q (- 0)%Q; [done | lra | lra].
Qed.

Lemma surprise_range z expected : is_u32 z → in_range (val (dec 1 8)) (p2 32) expected →
  in_range (- p2 59) (p2 59) (fdiv (fsub (of_Z z) expected) expected).
Proof.
  intros [Hz [Z1 Z2]]%quantity_range [He [E1 E2]]. assert ((p2 (-27) <= val (dec 1 8))%Q) as Hd by evaluate.
  pose proof (p2_pos (-27)). apply (relative_range _ _ 32); [lia | | done | lra].
  apply fsub_range; [in_format | in_format | done | done |]. split; lra.
Qed.

Lemma imbalance_range x y : in_range (- p2 32) (p2 32) x → in_range 0 (p2 32) y →
  in_range (- (1)) 1 (fclamp (fdiv x (fadd y (dec 1 8))) (fopp (of_Z 1)) (of_Z 1)).
Proof.
  intros Hx [Hy [Y1 Y2]]. assert ((p2 (-27) <= val (dec 1 8))%Q) as Hd by evaluate.
  assert ((val (dec 1 8) <= 1)%Q) as Hd1 by evaluate. pose proof (p2_pos (-27)).
  assert (in_range (val (dec 1 8)) (p2 33) (fadd y (dec 1 8))) as [Hs [S1 S2]].
  { apply fadd_range; [by exists (dec 1 8) | in_format | done | done |].
    assert ((p2 33 == p2 32 + p2 32)%Q) as -> by reflexivity. assert ((1 <= p2 32)%Q) by evaluate. split; lra. }
  apply unit_clamp. apply (relative_range x (fadd y (dec 1 8)) 32); [lia | done | done | lra].
Qed.

Lemma update_flow_range trade dt hi fs :
  is_u32 trade.(PayloadTradeEvent.quantity) → in_range (val (dec 1 6)) hi dt → flow_range fs →
  flow_range (update_flow_state trade dt fs).
Proof.
  intros Hq Hdt (Ha & Hr & Hb & Hs & Hv & Hg & Hi & Ht & Hx). pose proof (quantity_range _ Hq) as HQ.
  assert (in_range 0 hi dt) as Hdt0.
  { apply in_range_le with (val (dec 1 6)) hi; [done | evaluate | lra]. }
  pose proof (past_range dt 2 hi Hdt0 ltac:(lia)) as E2. pose proof (past_range dt 5 hi Hdt0 ltac:(lia)) as E5.
  pose proof (past_range dt 10 hi Hdt0 ltac:(lia)) as E10. pose proof (past_range dt 3 hi Hdt0 ltac:(lia)) as E3.
  pose proof (past_weight _ E2) as W2. pose proof (rate_range dt hi Hdt) as HR.
  unfold update_flow_state. cbv zeta. change TAU_FLOW with (of_Z 2). change TAU_RATE with (of_Z 5).
  change TAU_SURPRISE with (of_Z 10). change TAU_SIGN with (of_Z 3).
  set (e2 := exp _) in E2, W2 |- *. set (e5 := exp _) in E5 |- *. set (e10 := exp _) in E10 |- *.
  set (e3 := exp _) in E3 |- *. set (buys := taker_buys trade). set (vol := of_Z _) in HQ |- *.
  assert (in_range 0 (p2 32) (ewma (fsub (of_Z 1) e2) fs.(FlowState.abs_volume_ewma) vol)) as Ha'.
  { apply ewma_range; in_format || done. }
  assert (in_range (- p2 32) (p2 32) (ewma (fsub (of_Z 1) e2) fs.(FlowState.signed_volume_ewma)
    (if buys then vol else fopp vol))) as Hg'.
  { apply ewma_range; [in_format..| done | done | by apply signed_range]. }
  apply flow_make.
  - done.
  - apply ewma_range; in_format || done.
  - destruct buys; [apply ewma_range; in_format || done | by apply shrink_range].
  - destruct buys; [by apply shrink_range | apply ewma_range; in_format || done].
  - apply ewma_range; [in_format..| done | done |]. apply surprise_range; [done|].
    apply fmax_range' with 0%Q; [done | evaluate].
  - done.
  - by apply imbalance_range.
  - apply unit_clamp, in_range_finite with (- (1))%Q 1%Q. apply ewma_range; [in_format..| done | done |].
    destruct buys; evaluate.
  - done.
Qed.

Lemma bump_range trade fs : is_u32 trade.(PayloadTradeEvent.quantity) → flow_range fs →
  flow_range (bump_trade_excitation trade fs).
Proof.
  intros Hq (Ha & Hr & Hb & Hs & Hv & Hg & Hi & Ht & Hx). destruct (quantity_range _ Hq) as [Fq [Q1 _]].
  pose proof (log1p_range _ Fq Q1) as Hl. unfold bump_trade_excitation. cbv zeta. set (q := of_Z _) in *.
  assert (in_range 0 (inject_Z 710) (fmul (dec 2 2) (log1p q))) as [F1 [A1 B1]] by (apply weigh_range; [evaluate | done]).
  assert (in_range 0 1 (fmul (dec 10 2) (fabs fs.(FlowState.flow_imbalance)))) as [F2 [A2 B2]].
  { apply weigh_range; [evaluate | by apply fabs_range]. }
  assert (in_range 0 1 (dec 5 2)) as [F3 [A3 B3]] by evaluate. change (inject_Z 710) with 710%Q in *.
  assert (in_range 0 (inject_Z 711) (fadd (dec 5 2) (fmul (dec 2 2) (log1p q)))) as [F4 [A4 B4]].
  { apply fadd_range; [in_format | in_format | exact F3 | exact F1 |]. change (inject_Z 711) with 711%Q. split; lra. }
  set (bump := fclamp _ _ _). change (inject_Z 711) with 711%Q in *.
  assert (in_range (val (dec 5 2)) (val (dec 5 1)) bump) as [F5 [A5 B5]].
  { apply fclamp_range; [|done | done | evaluate].
    apply in_range_finite with 0%Q (inject_Z 712).
    apply fadd_range; [in_format | in_format | exact F4 | exact F2 |]. change (inject_Z 712) with 712%Q. split; lra. }
  destruct Hx as [Fx [X1 X2]]. assert ((val (dec 5 1) <= 1)%Q) as Hle by evaluate.
  apply flow_make; [exact Ha | exact Hr | exact Hb | exact Hs | exact Hv | exact Hg | exact Hi | exact Ht |].
  apply fmin_range with (inject_Z 6); [|evaluate].
  apply fadd_range; [in_format | in_format | exact Fx | exact F5 |].
  change (inject_Z 6) with 6%Q. change (inject_Z 5) with 5%Q in *. split; lra.
Qed.

Lemma decay_range dt hi fs : in_range 0 hi dt → flow_range fs → flow_range (decay_trade_excitation dt fs).
Proof.
  intros Hdt (Ha & Hr & Hb & Hs & Hv & Hg & Hi & Ht & Hx). unfold flow_range. cbn.
  repeat (split; [done|]). apply shrink_range; [done|]. apply past_weight. by apply (past_range dt 2 hi).
Qed.

(** *** The state *)

Lemma on_trade_range trade s :
  feeding_range (Traded trade) → state_range s → state_range (on_trade trade s).
Proof.
  intros [Hp Hq] (HV & HF & HL & HP). unfold on_trade. destruct (Z.eqb_spec s.(last_trade_timestamp_) 0) as [E|E].
  - split; [done|]. split; [done|]. split; [|by intros _]. cbn. unfold price_ok, MINIMUM_BID in Hp. lia.
  - set (z := _ - s.(last_trade_timestamp_)). pose proof (trade_time_range z) as Hdt.
    set (dt := fmax _ _) in *. destruct (fle dt fzero); [done|].
    split; [|split; [|split; [|by intros _]]].
    + apply update_vol_range with (p2 35); [by apply HP | done | | done].
      apply in_range_le with (val (dec 1 6)) (p2 35); [done | evaluate | lra].
    + apply bump_range; [done|]. by apply update_flow_range with (p2 35).
    + cbn. unfold price_ok, MINIMUM_BID in Hp. lia.
Qed.

Lemma sync_range book dt s s' :
  feeding_range (Synced book dt) → state_range s → sync_with_book book dt s = Done s' → state_range s'.
Proof.
  intros [hi Hdt] (HV & HF & HL & HP). unfold sync_with_book.
  destruct (update_price_state _ _) as [ps| |]; [|done..]. run_bind.
  destruct (update_liq_state _ _) as [liq| |]; [|done..]. run_bind.
  destruct (update_latent_state _ _ _) as [ls rng]. intros [= <-].
  split; [exact HV|]. split; [exact (decay_range dt hi _ Hdt HF) | exact (conj HL HP)].
Qed.

Lemma feed_range s fs s' :
  Forall feeding_range fs → state_range s → feed_all s fs = Done s' → state_range s'.
Proof.
  intros Hfs. revert s. induction Hfs as [|f fs Hf _ IH]; intros s HS; cbn [feed_all]; [by intros [= <-]|].
  destruct f as [trade | book dt]; cbn [feed_state].
  - run_bind. apply IH. by apply on_trade_range.
  - destruct (sync_with_book book dt s) as [s1| |] eqn:E; [|done..]. run_bind. apply IH. by eapply sync_range.
Qed.

Lemma start_range memory_time memory_price memory_liq bounds :
  state_range (SimulationState memory_time memory_price memory_liq bounds).
Proof.
  split; [|split; [|split; [done | done]]].
  - repeat (split; [evaluate|]). evaluate.
  - apply flow_make; evaluate.
Qed.
End ranges.

(** ** Guarantee *)

(** C34: the derived state never leaves its ranges.  If [exp], [log] and [log1p]
    give numbers in the ranges of the mathematical functions, then after any trades
    at prices of the exchange and synchronisations with its books, whatever the
    times between them and with every operation rounded to 53 bits, no variance,
    volume, rate or indicator is infinite or NaN: the variances are in [0, 2^8],
    the volumes in [0, 2^32] and the signed one in between their opposites, the
    trade rate in [0, 2^20], the surprise in [-2^59, 2^59], the indicators in
    [-1, 1], the jump intensity in [0, 1] and the excitation in [0, 5]. *)
Theorem state_stays_finite `{LibmRanges} memory_time memory_price memory_liq bounds (fs : list Feeding) :
  Forall exact_int bounds → Forall feeding_ok fs → Forall feeding_range fs →
  ∃ s, feed_all (SimulationState.SimulationState memory_time memory_price memory_liq bounds) fs = Done s ∧
    state_range s.
Proof.
  intros Hb Hok Hfs.
  set (s0 := SimulationState.SimulationState memory_time memory_price memory_liq bounds).
  destruct (feed_all_ok s0 fs) as (s & E & _); [done | done | done | done |].
  exists s. split; [done|]. eapply feed_range; [exact Hfs | apply start_range | exact E].
Qed.

(** ** Witness *)

Lemma some_feedings_range : Forall feeding_range some_feedings.
Proof.
  repeat constructor; cbn; unfold price_ok, MINIMUM_BID, MAXIMUM_ASK, is_u32; try lia.
  exists 1%Q. evaluate.
Qed.

Lemma state_stays_finite_witness :
  ∃ s, @feed_all ranged_libm (@SimulationState.SimulationState ranged_libm (TimeState.Make fzero fzero) 0 no_liquidity
         [1; 5; 10]) some_feedings = Done s ∧ flow_range s.(SimulationState.flow_state_) ∧
    flt fzero s.(SimulationState.flow_state_).(FlowState.trade_excitation) = true.
Proof.
  destruct (@state_stays_finite ranged_libm ranged_libm_ok (TimeState.Make fzero fzero) 0 no_liquidity [1; 5; 10]
    some_feedings some_bounds_ok some_feedings_ok some_feedings_range) as (s & E & _ & HF & _).
  exists s. split; [exact E|]. split; [exact HF|]. vm_compute in E. injection E as <-. vm_compute. reflexivity.
Defined.
