(* ===== verification/DynamicsTheorems.v ===== *)
(** The decisions of the simulator: the prices of its orders relative to the book,
    their sizes and the hazards they must survive, and the rates.  They hold for
    every random generator and whatever the functions of [cmath] give. *)

From Stdlib Require Import SpecFloat.
From stdpp Require Import sorting.
From S2P Require Import Prelude Types Codec Payloads Doubles DoublesExact Pcg32 ShadowBook MarketState MarketDynamics MarketTheorems.
Import MarketDynamics.

(** ** Products of positive numbers *)

(** A normalising shift of a positive number whose exponent is not below the
    least one leaves a positive number. *)
Lemma shr_fexp_positive M e l :
  0 < M → -1074 <= e → shr_m (shr_record_of_loc M l) = M →
  0 < shr_m (shr_fexp 53 1024 M e l).1 ∧ -1074 <= (shr_fexp 53 1024 M e l).2.
Proof.
  intros HM He Hl. unfold shr_fexp. destruct M as [|p|p]; [lia| |lia]. cbn [Zdigits2].
  rewrite digits_log2. pose proof (Z.log2_nonneg (Zpos p)). pose proof (Z.log2_spec (Zpos p) HM) as [Hlo _].
  unfold fexp, emin. destruct (Z.le_gt_cases (Z.max (Z.log2 (Zpos p) + 1 + e - 53) (3 - 1024 - 53) - e) 0) as [Hn|Hn].
  - assert (∀ r e n, n <= 0 → shr r e n = (r, e)) as Hs by (intros r e' [|q|q]; done || lia).
    rewrite Hs by done. cbn [fst snd]. rewrite Hl. lia.
  - set (n := Z.max _ _ - e) in *.
    destruct (shr_m_value (shr_record_of_loc (Zpos p) l) e n) as [-> ->]; [rewrite Hl; lia | lia|].
    rewrite Hl. split; [|unfold n; lia]. apply Z.div_str_pos. split; [lia|].
    etransitivity; [|exact Hlo]. apply Z.pow_le_mono_r; unfold n; lia.
Qed.

Lemma round_aux_positive M e :
  -1074 <= e → flt fzero (binary_round_aux 53 1024 false (Zpos M) e loc_Exact) = true.
Proof.
  intros He. unfold binary_round_aux.
  destruct (shr_fexp_positive (Zpos M) e loc_Exact) as [H1 H2]; [lia | lia | done |].
  destruct (shr_fexp 53 1024 (Zpos M) e loc_Exact) as [mrs e1]. cbn [fst snd] in *.
  set (m := round_nearest_even _ _).
  assert (0 < m) as Hm.
  { unfold m, round_nearest_even. destruct (loc_of_shr_record mrs) as [|[]]; [lia | | lia | lia].
    destruct (Z.even _); lia. }
  clearbody m. destruct (shr_fexp_positive m e1 loc_Exact Hm H2 eq_refl) as [H3 H4].
  destruct (shr_fexp 53 1024 m e1 loc_Exact) as [mrs' e2]. cbn [fst snd] in *.
  destruct (shr_m mrs') as [|q|q]; [lia| |lia]. by destruct (_ <=? _).
Qed.

(** The product of two positive numbers that are not tiny is positive. *)
Definition large_enough (x : double) : bool :=
  match x with S754_finite false _ e => -500 <=? e | S754_infinity false => true | _ => false end.

Lemma fmul_positive x y : large_enough x = true → large_enough y = true → flt fzero (fmul x y) = true.
Proof.
  destruct x as [|[]| |[] mx ex], y as [|[]| |[] my ey]; try done. cbn [large_enough].
  intros Hx Hy. unfold fmul, SFmul. apply round_aux_positive. lia.
Qed.

(** A clamped number that is not NaN is at least the lower bound. *)
Lemma clamped_large v lo hi :
  fle lo hi = true → large_enough lo = true → is_nan v = false → large_enough (fclamp v lo hi) = true.
Proof.
  intros H Hlo Hv. pose proof (fle_not_nan _ _ H) as [Hl Hh].
  assert (is_nan (fclamp v lo hi) = false) as Hc by (by rewrite fclamp_nan).
  pose proof (fclamp_within v lo hi H) as [Hge _]%within_fle; [|done..].
  destruct lo as [|[]| |[] ml el]; try done; destruct (fclamp v _ hi) as [[]|[]| |[] mx ex]; try done.
  cbn [large_enough] in *. apply fle_key in Hge; [|done..]. unfold key_lt in Hge. cbn in Hge. lia.
Qed.

(** ** Prices *)

Section decisions.
Context `{Libm} {G : Type} `{RNG G}.

(** Adding zero to a clamped probability changes nothing. *)
Lemma add_nothing ps agent urgency :
  fadd (marketable_probability ps agent urgency) fzero = marketable_probability ps agent urgency.
Proof.
  unfold marketable_probability. set (v := match PriceState.best_bid ps with Some _ => _ | None => _ end).
  assert (within (dec 1 2) (dec 95 2) (fclamp v (dec 1 2) (dec 95 2)) = true) as Hw by (by apply fclamp_within).
  destruct (fclamp v (dec 1 2) (dec 95 2)) as [[]|[]| |[]]; done.
Qed.

(** An order is sent inside the spread only when there is room for it. *)
Lemma improve_needs_spread ps agent urgency (rng rng' : G) :
  draw_regime ps agent urgency rng = (IMPROVE, rng') →
  ∃ spread, ps.(PriceState.spread) = Some spread ∧ 1 < spread.
Proof.
  unfold draw_regime. cbv zeta. destruct (standard_uniform rng) as [u r].
  destruct (flt u (marketable_probability ps agent urgency)) eqn:E1; [by intros [=]|].
  destruct (flt u (fadd (marketable_probability ps agent urgency) _)) eqn:E2; [|by intros [=]]. intros _.
  assert (improve_probability ps agent urgency ≠ fzero) as Hne.
  { intros Hz. rewrite Hz, add_nothing in E2. congruence. }
  unfold improve_probability in Hne. destruct (PriceState.spread ps) as [spread|]; [|done].
  destruct (1 <? spread) eqn:Es; [|done]. exists spread. split; [done | lia].
Qed.

Lemma improve_price_ok side bid ask :
  is_i64 bid → is_i64 ask → 1 < ask - bid →
  ∃ price, improve_price side bid ask = Done (price, of_Z 1) ∧ bid < price < ask.
Proof.
  unfold is_i64. intros Hb Ha Hs. unfold improve_price.
  rewrite !in_i64_ok by (unfold is_i64; lia). run_bind.
  eexists. split; [reflexivity|]. destruct side; lia.
Qed.

(** [decide_insert] in its stages; the generator passes from each to the next. *)
Lemma decide_stages state hazard (rng : G) d rng' :
  decide_insert state hazard rng = Done (d, rng') →
  let ps := state.(SimulationState.price_state_) in
  let vs := state.(SimulationState.vol_state_) in
  let fs := state.(SimulationState.flow_state_) in
  ∃ (agent : AgentType) urgency drawn regime anchor dist ln_mu (r1 r2 r3 r4 r5 : G),
    draw_regime ps agent urgency r1 = (drawn, r2) ∧
    choose_price ps vs agent d.(InsertDecision.side) drawn anchor r3 =
      Done (regime, d.(InsertDecision.price), dist, r4) ∧
    draw_quantity ln_mu urgency r4 = Done (d.(InsertDecision.quantity), r5) ∧
    d.(InsertDecision.lifespan) = GOOD_FOR_DAY ∧
    d.(InsertDecision.cancellation_hazard_mass) =
      fadd hazard (draw_hazard fs vs d.(InsertDecision.side) agent dist r5).1.
Proof.
  unfold decide_insert. cbv zeta. intros E.
  destruct (buy_probability _ _) as [bp| |]; [|done..]. run_bind in *.
  destruct (bernoulli bp rng) as [buys r0].
  destruct (thinness_of _) as [th| |]; [|done..]. run_bind in *.
  destruct (draw_agent _ th r0) as [agent r1].
  destruct (draw_regime _ agent _ r1) as [drawn r2] eqn:Er.
  destruct (compute_anchor_ _ _ _ r2) as [[anchor r3]| |]; [|done..]. run_bind in *.
  destruct (choose_price _ _ agent _ drawn anchor r3) as [[[[regime price] dist] r4]| |] eqn:Ep; [|done..].
  run_bind in *. destruct (size_mean _ _ _ regime _) as [ln_mu| |]; [|done..]. run_bind in *.
  destruct (draw_quantity ln_mu _ r4) as [[qty r5]| |] eqn:Eq; [|done..]. run_bind in *.
  destruct (draw_hazard _ _ _ agent dist r5) as [inc r6] eqn:Eh. injection E as <- <-. cbn.
  exists agent, (urgency_of (SimulationState.flow_state_ state)
    (VolatilityState.realised_vol_short (SimulationState.vol_state_ state))), drawn, regime, anchor, dist, ln_mu,
    r1, r2, r3, r4, r5. by rewrite Eh.
Qed.

(** ** Sizes *)

Lemma distance_abs q L : distance q L = Z.abs (q - L).
Proof. unfold distance. destruct (L <? q) eqn:E; lia. Qed.

Lemma nearest_fold q ls best seen :
  best ∈ seen → (∀ L, L ∈ seen → Z.abs (q - best) <= Z.abs (q - L)) →
  let r := foldl (λ '(best, best_diff) L, let d := distance q L in if d <? best_diff then (L, d) else (best, best_diff))
             (best, distance q best) ls in
  r.1 ∈ seen ++ ls ∧ ∀ L, L ∈ seen ++ ls → Z.abs (q - r.1) <= Z.abs (q - L).
Proof.
  revert best seen. induction ls as [|L ls IH]; intros best seen Hin Hmin; cbn [foldl]; [by rewrite app_nil_r|].
  cbv zeta. replace (seen ++ L :: ls) with ((seen ++ [L]) ++ ls) by (by rewrite <- app_assoc).
  rewrite !distance_abs. destruct (Z.abs (q - L) <? Z.abs (q - best)) eqn:E; rewrite <- distance_abs; apply IH.
  - apply elem_of_app. right. by apply list_elem_of_singleton.
  - intros L' [H'|H']%elem_of_app; [specialize (Hmin L' H'); lia | apply list_elem_of_singleton in H'; subst; lia].
  - apply elem_of_app. by left.
  - intros L' [H'|H']%elem_of_app; [by apply Hmin | apply list_elem_of_singleton in H'; subst; lia].
Qed.

Lemma nearest_lot_ok q :
  nearest_lot q ∈ lots ∧ ∀ L, L ∈ lots → Z.abs (q - nearest_lot q) <= Z.abs (q - L).
Proof.
  destruct (nearest_fold q lots 1 [1]) as [H1 H2].
  - by apply list_elem_of_singleton.
  - by intros L ->%list_elem_of_singleton.
  - change (foldl _ _ _).1 with (nearest_lot q) in H1. change (foldl _ _ _).1 with (nearest_lot q) in H2. split.
    + apply elem_of_app in H1 as [->%list_elem_of_singleton|H1]; [left | done].
    + intros L HL. apply H2, elem_of_app. by right.
Qed.

(** [llround] of a [double] that is at least 1. *)
Lemma llround_positive x q :
  valid_binary 53 1024 x = true → fle fone x = true → llround x = Done q → 1 <= q.
Proof.
  intros Hv Hle. pose proof (fle_not_nan _ _ Hle) as [_ Hn]. apply fle_key in Hle; [|done..].
  change fone with (S754_finite false 4503599627370496 (-52)) in Hle. unfold key_lt in Hle.
  destruct x as [s|s| |[] m e]; try done; cbn [key fst snd] in Hle; [lia | lia |].
  - cbn [valid_binary] in Hv. unfold bounded in Hv. apply andb_true_iff in Hv as [Hc _].
    apply Z.eqb_eq in Hc. rewrite digits_log2 in Hc. unfold fexp, emin in Hc.
    unfold llround, in_i64. cbn [cond_Zopp]. destruct (_ && _); [|done]. intros [= <-].
    destruct (0 <=? e) eqn:E.
    + rewrite Z.shiftl_mul_pow2 by lia. assert (0 < 2 ^ e) by lia. nia.
    + rewrite Z.shiftr_div_pow2, Z.shiftl_mul_pow2 by lia.
      apply Z.div_le_lower_bound; [lia|]. rewrite Z.mul_1_r.
      assert (2 ^ (- e) <= 2 ^ 52) by (apply Z.pow_le_mono_r; lia).
      assert (2 ^ 52 <= Zpos m); [|assert (0 < 2 ^ (- e - 1)) by lia; lia].
      destruct (Z.eq_dec e (-52)) as [->|Hne]; [lia|].
      assert (Z.log2 (Zpos m) = 52) as Hlog by lia. pose proof (Z.log2_spec (Zpos m) ltac:(lia)). rewrite Hlog in *. lia.
Qed.

Lemma fmax_one_valid x : valid_binary 53 1024 x = true →
  valid_binary 53 1024 (fmax (of_Z 1) x) = true ∧ fle fone (fmax (of_Z 1) x) = true.
Proof.
  intros Hv. split; [|by apply fmax_ge]. unfold fmax. by destruct (flt _ _).
Qed.

(** The quantity is a positive number of 64 bits, cut to 32, or the lot nearest to
    that. *)
Definition sized (qty : Volume_t) : Prop :=
  ∃ q, 1 <= q < 2 ^ 63 ∧
    (qty = u32 q ∨ qty ∈ lots ∧ ∀ L, L ∈ lots → Z.abs (u32 q - qty) <= Z.abs (u32 q - L)).

Lemma draw_quantity_sized ln_mu urgency (rng rng' : G) qty :
  (∀ x, valid_binary 53 1024 (exp x) = true) →
  draw_quantity ln_mu urgency rng = Done (qty, rng') → sized qty.
Proof.
  intros Hexp. unfold draw_quantity. destruct (bernoulli _ rng) as [large r1]. destruct (standard_normal r1) as [z r2].
  set (x := exp _). destruct (fmax_one_valid x (Hexp _)) as [Hv Hle].
  destruct (llround _) as [q| |] eqn:Eq; [|done..]. run_bind. intros [= E].
  pose proof (llround_positive _ _ Hv Hle Eq) as Hq.
  assert (q < 2 ^ 63) as Hq63.
  { unfold llround in Eq. destruct (fmax (of_Z 1) x) as [s|s| |s m e]; try done.
    unfold in_i64 in Eq. destruct (_ <=? _); [|done]. destruct (_ <? 2 ^ 63) eqn:E63; [|done].
    injection Eq as <-. lia. }
  exists q. split; [lia|]. unfold apply_lot_clustering_ in E. destruct (standard_uniform r2) as [u r3].
  destruct (flt u _); injection E as <- _; [by left | right].
  destruct (nearest_lot_ok (u32 q)) as [Hin Hmin].
  assert (Z.max 1 (nearest_lot (u32 q)) = nearest_lot (u32 q)) as ->.
  { unfold lots in Hin. repeat (apply elem_of_cons in Hin as [->|Hin]; [lia|]). by apply elem_of_nil in Hin. }
  split; done.
Qed.

Lemma draw_hazard_within fs vs side agent dist (rng : G) :
  within (dec 2 2) (of_Z 100) (draw_hazard fs vs side agent dist rng).1 = true.
Proof. unfold draw_hazard. destruct (standard_uniform rng) as [u r]. by apply fclamp_within. Qed.

(** ** Placement *)

(** Prices of the view are those of the exchange. *)
Definition quoted (ps : PriceState.t) : Prop :=
  (∀ p, ps.(PriceState.best_bid) = Some p → MINIMUM_BID <= p <= MAXIMUM_ASK) ∧
  (∀ p, ps.(PriceState.best_ask) = Some p → MINIMUM_BID <= p <= MAXIMUM_ASK).

Lemma gap_ok a b : MINIMUM_BID <= a <= MAXIMUM_ASK → MINIMUM_BID <= b <= MAXIMUM_ASK → ∃ d, gap a b = Done d.
Proof.
  unfold MINIMUM_BID, MAXIMUM_ASK, gap. intros Ha Hb. rewrite in_i64_ok by (unfold is_i64; lia). by eexists.
Qed.

(** A marketable order: the price of the other side, or beyond the anchor when
    that side is empty. *)
Lemma marketable_price_ok ps side anchor :
  quoted ps → MINIMUM_BID <= anchor < 2 ^ 62 →
  ∃ price dist, marketable_price ps side anchor = Done (price, dist) ∧
    match (match side with BUY => ps.(PriceState.best_ask) | SELL => ps.(PriceState.best_bid) end) with
    | Some p => price = p
    | None => price = match side with BUY => Z.min MAXIMUM_ASK (anchor + 4) | SELL => Z.max MINIMUM_BID (anchor - 4) end
    end.
Proof.
  intros [Hb Ha] Hanchor. unfold MINIMUM_BID in Hanchor. unfold marketable_price.
  destruct side, (PriceState.best_bid ps) as [bid|] eqn:Eb, (PriceState.best_ask ps) as [ask|] eqn:Ea;
    try (rewrite in_i64_ok by (unfold is_i64; lia); run_bind); try (by eexists _, _).
  all: destruct (gap_ok ask bid) as [d ->]; [by apply Ha | by apply Hb |]; by eexists _, _.
Qed.

Lemma passive_price_ok ps vs agent side anchor (rng rng' : G) price dist :
  passive_price ps vs agent side anchor rng = Done (price, dist, rng') →
  match side with BUY => MINIMUM_BID <= price | SELL => price <= MAXIMUM_ASK end ∧ flt dist fzero = false.
Proof.
  unfold passive_price. destruct (exponential _ rng) as [d r].
  assert (flt (fmax fzero d) fzero = false) as Hd.
  { unfold fmax. destruct (flt fzero d) eqn:E; [|done]. pose proof (flt_not_nan _ _ E) as [_ Hn].
    apply flt_fle in E. rewrite fle_not_flt in E by done. by apply negb_true_iff. }
  destruct side; (destruct (stochastic_round _ r) as [[p r']| |]; [|done..]); run_bind;
    intros [= <- <- _]; (split; [lia | done]).
Qed.
End decisions.

(** ** Guarantees *)

(** Where the simulator places its orders.  For a view of the book with prices
    of the exchange, in every state and whatever is drawn: a marketable order has
    the best price of the other side, so that it meets the queue there, or is at
    most four ticks beyond the anchor when that side is empty; an order that
    improves the price lies strictly inside the spread, so it never crosses, and
    the fallback for a book that is not two-sided is never needed; a passive order
    is not below the minimum (a buy) nor above the maximum (a sell), at a
    distance that is not negative. *)
Theorem regime_prices `{Libm} {G : Type} `{RNG G} ps vs agent urgency (r0 r1 r2 : G) drawn side anchor :
  quoted ps → view_ok ps → MINIMUM_BID <= anchor < 2 ^ 62 →
  draw_regime ps agent urgency r0 = (drawn, r1) →
  match drawn with
  | MARKETABLE => ∃ price dist, choose_price ps vs agent side MARKETABLE anchor r2 = Done (MARKETABLE, price, dist, r2) ∧
      match (match side with BUY => ps.(PriceState.best_ask) | SELL => ps.(PriceState.best_bid) end) with
      | Some p => price = p
      | None => price = match side with BUY => Z.min MAXIMUM_ASK (anchor + 4) | SELL => Z.max MINIMUM_BID (anchor - 4) end
      end
  | IMPROVE => ∃ bid ask price, ps.(PriceState.best_bid) = Some bid ∧ ps.(PriceState.best_ask) = Some ask ∧
      choose_price ps vs agent side IMPROVE anchor r2 = Done (IMPROVE, price, of_Z 1, r2) ∧ bid < price < ask
  | PASSIVE => ∀ regime price dist r3, choose_price ps vs agent side PASSIVE anchor r2 = Done (regime, price, dist, r3) →
      regime = PASSIVE ∧ flt dist fzero = false ∧
      match side with BUY => MINIMUM_BID <= price | SELL => price <= MAXIMUM_ASK end
  end.
Proof.
  intros Hq Hv Ha Hr. destruct drawn.
  - unfold choose_price. destruct (marketable_price_ok ps side anchor Hq Ha) as (price & dist & -> & Hp).
    run_bind. by exists price, dist.
  - apply improve_needs_spread in Hr as (spread & Es & Hs). unfold view_ok in Hv. rewrite Es in Hv.
    unfold choose_price. destruct Hq as [Hb Hask].
    destruct (PriceState.best_bid ps) as [bid|] eqn:Eb; [|done].
    destruct (PriceState.best_ask ps) as [ask|] eqn:Ea; [|done]. subst spread.
    specialize (Hb bid eq_refl). specialize (Hask ask eq_refl). unfold MINIMUM_BID, MAXIMUM_ASK in *.
    destruct (improve_price_ok side bid ask) as (price & -> & Hp); [unfold is_i64; lia..|].
    run_bind. by exists bid, ask, price.
  - intros regime price dist r3. unfold choose_price.
    destruct (passive_price _ _ _ _ _ _) as [[[p d] r]| |] eqn:Ep; [|done..]. run_bind.
    intros [= <- <- <- <-]. apply passive_price_ok in Ep as [H1 H2]. done.
Qed.

(** The sizes and hazards of the simulator's orders.  Whenever [decide_insert]
    returns, the order is good for the day; its quantity is a number from 1 on,
    cut to 32 bits, or the lot size nearest to it; and its hazard threshold is the
    given hazard plus an increment that is not below 0.02 nor above 100. *)
Theorem decisions_bounded `{Libm} {G : Type} `{RNG G} state hazard (rng rng' : G) d :
  (∀ x, valid_binary 53 1024 (exp x) = true) →
  decide_insert state hazard rng = Done (d, rng') →
  d.(InsertDecision.lifespan) = GOOD_FOR_DAY ∧ sized d.(InsertDecision.quantity) ∧
  ∃ increment, d.(InsertDecision.cancellation_hazard_mass) = fadd hazard increment ∧
    within (dec 2 2) (of_Z 100) increment = true.
Proof.
  intros Hexp E. destruct (decide_stages _ _ _ _ _ E) as
    (agent & urgency & drawn & regime & anchor & dist & ln_mu & r1 & r2 & r3 & r4 & r5 & _ & _ & Hq & Hl & Hh).
  split; [done|]. split; [by eapply draw_quantity_sized|]. eexists. split; [exact Hh|]. apply draw_hazard_within.
Qed.

(** The rates are positive.  Whenever [update_intensity] returns, each rate is
    its base times a multiplier that is not outside [0.3, 10] and [0.2, 25]; unless
    it is NaN it is positive, so that the order manager is never given a rate at
    which it stops scheduling expiries. *)
Theorem rates_positive `{Libm} state open_orders insert cancel :
  update_intensity state open_orders = Done (insert, cancel) →
  ∃ insert_mult cancel_mult,
    insert = fmul LAMBDA_INSERT_BASE insert_mult ∧ within (dec 3 1) (of_Z 10) insert_mult = true ∧
    cancel = fmul LAMBDA_CANCEL_BASE cancel_mult ∧ within (dec 2 1) (of_Z 25) cancel_mult = true ∧
    (is_nan insert = true ∨ flt fzero insert = true) ∧ (is_nan cancel = true ∨ flt fzero cancel = true).
Proof.
  unfold update_intensity. cbv zeta. intros E.
  match type of E with (?m ≫= _) = _ => destruct m as [depth| |] eqn:Ed; [|done..] end. run_bind in *.
  apply Done_pair in E as [<- <-]. do 2 eexists. split; [reflexivity|]. split; [by apply fclamp_within|].
  split; [reflexivity|]. split; [by apply fclamp_within|].
  assert (∀ base v lo hi, large_enough base = true → fle lo hi = true → large_enough lo = true →
    is_nan (fmul base (fclamp v lo hi)) = true ∨ flt fzero (fmul base (fclamp v lo hi)) = true) as Hpos.
  { intros base v lo hi Hbase Hle Hlo. destruct (is_nan v) eqn:Ev.
    - left. pose proof (fle_not_nan _ _ Hle) as [Hl Hh]. rewrite <- (fclamp_nan v lo hi Hl Hh) in Ev.
      destruct (fclamp v lo hi); try done. by destruct base as [| | |[]].
    - right. apply fmul_positive; [done | by apply clamped_large]. }
  split; by apply Hpos.
Qed.

(** ** Witnesses *)

Definition some_view : PriceState.t := PriceState.Make (Some 99) (Some 103) (Some 4) 100.
Definition some_state : SimulationState.t :=
  match @SimulationState.sync_with_book some_libm some_book (dec 1 3) some_start with Done s => s | _ => some_start end.

Lemma regime_prices_witness :
  ∃ r1 price, @draw_regime _ some_rng some_view MM fzero (pcg32.seed_rng 2 1) = (IMPROVE, r1) ∧
    @choose_price some_libm _ some_rng some_view VolatilityState.VolatilityState MM BUY IMPROVE 99 r1
      = Done (IMPROVE, price, of_Z 1, r1) ∧ 99 < price < 103.
Proof.
  destruct (@draw_regime _ some_rng some_view MM fzero (pcg32.seed_rng 2 1)) as [drawn r1] eqn:E.
  assert (drawn = IMPROVE) as ->.
  { assert (drawn = (@draw_regime _ some_rng some_view MM fzero (pcg32.seed_rng 2 1)).1) as -> by (rewrite E; reflexivity).
    vm_compute. reflexivity. }
  destruct (@regime_prices some_libm _ some_rng some_view VolatilityState.VolatilityState MM fzero
    (pcg32.seed_rng 2 1) r1 r1 IMPROVE BUY 99) as (bid & ask & price & Eb & Ea & Ec & Hp).
  - unfold quoted, MINIMUM_BID, MAXIMUM_ASK. cbn. split; intros p [= <-]; lia.
  - reflexivity.
  - unfold MINIMUM_BID. lia.
  - exact E.
  - exists r1, price. split; [reflexivity|]. split; [exact Ec|]. injection Eb as <-. injection Ea as <-. exact Hp.
Defined.

Lemma decisions_bounded_witness :
  ∃ d r, @decide_insert some_libm _ some_rng some_state (of_Z 2) (pcg32.seed_rng 3 1) = Done (d, r) ∧
    sized d.(InsertDecision.quantity) ∧ d.(InsertDecision.lifespan) = GOOD_FOR_DAY.
Proof.
  destruct (@decide_insert some_libm _ some_rng some_state (of_Z 2) (pcg32.seed_rng 3 1)) as [[d r]| |] eqn:E;
    [|vm_compute in E; discriminate E..].
  destruct (@decisions_bounded some_libm _ some_rng some_state (of_Z 2) (pcg32.seed_rng 3 1) r d) as (Hl & Hs & _).
  - intros x. vm_compute. reflexivity.
  - exact E.
  - exists d, r. split; [reflexivity|]. split; [exact Hs | exact Hl].
Defined.

Lemma rates_positive_witness :
  ∃ insert cancel, @update_intensity some_state 40 = Done (insert, cancel) ∧ flt fzero cancel = true.
Proof.
  destruct (@update_intensity some_state 40) as [[insert cancel]| |] eqn:E; [|vm_compute in E; discriminate E..].
  destruct (@rates_positive some_libm some_state 40 insert cancel E) as (m1 & m2 & _ & _ & _ & _ & _ & [Hn|Hp]).
  - exfalso. vm_compute in E. injection E as <- <-. vm_compute in Hn. discriminate Hn.
  - exists insert, cancel. split; [reflexivity | exact Hp].
Defined.
