(* ===== verification/DynamicsRange.v ===== *)
(** The decisions of the simulator return: from every state it can be in, with every
    draw its generator can give, no conversion to an integer is out of range, no
    array is read beyond its end, and the rates and hazards are numbers. *)

From Stdlib Require Import SpecFloat QArith Qabs Lqa.
From S2P Require Import Prelude Types Codec Payloads Doubles DoublesExact DoublesValue DoublesRound DoublesRange DoublesInterval Pcg32 Pcg32Theorems CmathRange Pcg32Range ShadowBook MarketState MarketTheorems MarketRange MarketDynamics DynamicsTheorems.
Import MarketDynamics.

(** ** Conversions to integers *)

Lemma shiftl_value m e : (val (S754_finite false m e) < p2 62)%Q →
  0 <= Z.shiftl (Zpos m) e < 2 ^ 62 ∧ (inject_Z (Z.shiftl (Zpos m) e) <= dyadic (Zpos m) e)%Q.
Proof.
  cbn [val cond_Zopp]. intros H. split_and!; [by apply Z.shiftl_nonneg| |].
  - destruct (Z.le_gt_cases 0 e) as [He|He].
    + rewrite Z.shiftl_mul_pow2 by done. rewrite (dyadic_shift _ 0 e) in H by done.
      rewrite Z.sub_0_r, dyadic_int, p2_Z in H by lia. by apply inject_lt in H.
    + rewrite <- (Z.opp_involutive e), Z.shiftl_opp_r, Z.shiftr_div_pow2 by lia.
      apply Z.div_lt_upper_bound; [lia|]. rewrite Z.mul_comm.
      assert ((p2 62 == dyadic (2 ^ 62 * 2 ^ (- e)) e)%Q) as E.
      { rewrite (p2_Z 62), <- dyadic_int, (dyadic_shift _ e 0) by lia. by replace (0 - e) with (- e) by lia. }
      rewrite E in H. by apply dyadic_lt in H.
  - rewrite <- dyadic_int. destruct (Z.le_gt_cases 0 e) as [He|He].
    + rewrite Z.shiftl_mul_pow2 by done. rewrite (dyadic_shift _ 0 e) by done. rewrite Z.sub_0_r. lra.
    + rewrite <- (Z.opp_involutive e) at 1. rewrite Z.shiftl_opp_r, Z.shiftr_div_pow2 by lia.
      rewrite (dyadic_shift _ e 0) by lia. apply dyadic_le. replace (0 - e) with (- e) by lia.
      rewrite Z.mul_comm. apply Z.mul_div_le. lia.
Qed.

Lemma trunc_bound x k : 0 <= k <= 61 → in_range (- p2 k) (p2 k) x → ∃ z, trunc x = Some z ∧ - 2 ^ k <= z <= 2 ^ k.
Proof.
  intros Hk [Hx [H1 H2]]. destruct x as [s|s| |s m e]; try done; cbn [trunc]; [exists 0; split; [done | lia]|].
  eexists. split; [reflexivity|].
  assert ((dyadic (Zpos m) e <= p2 k)%Q) as Hm.
  { cbn [val] in *. destruct s; cbn [cond_Zopp] in *; [|done].
    change (Zneg m) with (- Zpos m) in *. rewrite dyadic_opp in H1. lra. }
  assert ((p2 k < p2 62)%Q) by (apply (proj1 (p2_lt _ _)); lia).
  destruct (shiftl_value m e) as [Hz Hle]; [cbn [val cond_Zopp]; lra|].
  rewrite p2_Z in Hm by lia. assert (Z.shiftl (Zpos m) e <= 2 ^ k) by (apply (proj2 (inject_le _ _)); lra).
  destruct s; cbn [cond_Zopp]; lia.
Qed.

Lemma to_i64_bound x k : 0 <= k <= 61 → in_range (- p2 k) (p2 k) x → ∃ z, to_i64 x = Done z ∧ - 2 ^ k <= z <= 2 ^ k.
Proof.
  intros Hk Hx. destruct (trunc_bound x k Hk Hx) as (z & Ez & Hz). exists z. split; [|done].
  unfold to_i64. rewrite Ez. apply in_i64_ok. assert (2 ^ k <= 2 ^ 61) by (apply Z.pow_le_mono_r; lia).
  unfold is_i64. lia.
Qed.

Lemma ffloor_range x k : 0 <= k <= 61 → in_range (- p2 k) (p2 k) x → in_range (- p2 k) (p2 k) (ffloor x).
Proof.
  intros Hk Hr. pose proof Hr as [Hx [H1 H2]]. destruct x as [s|s| |s m [|e|e]]; try done. cbn [ffloor].
  set (z := cond_Zopp s (Zpos m)) in *. cbn [val] in *. fold z in H1, H2.
  assert (dyadic z (Zneg e) <= p2 k)%Q as Hu by done. rewrite Z.shiftr_div_pow2 by lia.
  assert (∀ w, (dyadic w 0 == dyadic (w * 2 ^ Zpos e) (Zneg e))%Q) as Hs.
  { intros w. rewrite (dyadic_shift w (Zneg e) 0) by lia. by replace (0 - Zneg e) with (Zpos e) by lia. }
  assert (- 2 ^ k * 2 ^ Zpos e <= z) as Hlo.
  { apply (dyadic_le _ _ (Zneg e)). rewrite <- Hs, dyadic_int, inject_Z_opp, <- p2_Z by lia. done. }
  assert (z <= 2 ^ k * 2 ^ Zpos e) as Hhi.
  { apply (dyadic_le _ _ (Zneg e)). rewrite <- Hs, dyadic_int, <- p2_Z by lia. done. }
  apply of_Z_range; [in_format | in_format |]. rewrite p2_Z, <- inject_Z_opp by lia. split; apply (proj1 (inject_le _ _)).
  - apply Z.div_le_lower_bound; lia.
  - apply Z.div_le_upper_bound; lia.
Qed.

(** ** Draws *)

Section decisions.
Context `{LibmRanges} {G : Type} `{RNG G} {ok : G → Prop} `{!LawfulRNG G ok}.
Implicit Types (rng : G).

Lemma stochastic_round_ok x k rng : 0 <= k <= 60 → in_range (- p2 k) (p2 k) x → ok rng →
  ∃ p rng', stochastic_round x rng = Done (p, rng') ∧ - 2 ^ (k + 1) <= p <= 2 ^ (k + 1) ∧ ok rng'.
Proof.
  intros Hk Hx Hok. unfold stochastic_round. cbv zeta. destruct (uniform_law rng Hok) as [_ Hok'].
  destruct (standard_uniform rng) as [u rng']. cbn [snd] in Hok'.
  destruct (ffloor_range x k ltac:(lia) Hx) as [Hf [F1 F2]]. set (f := ffloor x) in *.
  assert ((1 <= p2 k)%Q) as Hone.
  { destruct (Z.eq_dec k 0) as [->|]; [by apply Qle_refl|]. apply Qlt_le_weak.
    setoid_rewrite <- (p2_Z 0); [|lia]. apply (proj1 (p2_lt _ _)). lia. }
  assert ((p2 (k + 1) == p2 k + p2 k)%Q) as E2.
  { rewrite p2_add. assert ((p2 1 == 2)%Q) as -> by reflexivity. ring. }
  assert (∀ b : bool, in_range 0 1 (if b then of_Z 1 else of_Z 0)) as Hb by (intros []; evaluate).
  destruct (to_i64_bound (fadd f (if flt u (fsub x f) then of_Z 1 else of_Z 0)) (k + 1)) as (p & Ep & Hp); [lia| |].
  - destruct (Hb (flt u (fsub x f))) as [Hc [C1 C2]].
    apply fadd_range; [in_format | in_format | exact Hf | exact Hc |]. rewrite E2. split; lra.
  - rewrite Ep. run_bind. by exists p, rng'.
Qed.

(** ** The state when an order is decided *)

(** The arrays of the liquidity have a first element. *)
Definition liquidity_ok (liq : LiquidityState.t) : Prop :=
  (∃ b, head liq.(LiquidityState.bid_volumes) = Some b ∧ is_u32 b) ∧
  (∃ a, head liq.(LiquidityState.ask_volumes) = Some a ∧ is_u32 a) ∧
  (∃ i, head liq.(LiquidityState.imbalances) = Some i ∧ in_range (- p2 64) (p2 64) i).

Record ready (s : SimulationState.t) : Prop := MkReady {
  ready_vol : vol_range s.(SimulationState.vol_state_);
  ready_flow : flow_range s.(SimulationState.flow_state_);
  ready_last : 0 <= s.(SimulationState.price_state_).(PriceState.last_trade_price) <= MAXIMUM_ASK;
  ready_quoted : quoted s.(SimulationState.price_state_);
  ready_view : view_ok s.(SimulationState.price_state_);
  ready_liquidity : liquidity_ok s.(SimulationState.liq_state_)
}.

(** The fair value, a random walk, has not left the prices a [double] counts. *)
Definition fair_value_ok (s : SimulationState.t) : Prop :=
  in_range 0 (p2 50) s.(SimulationState.latent_state_).(LatentState.fair_value).

Lemma buy_probability_ok fs liq : liquidity_ok liq → ∃ p, buy_probability fs liq = Done p.
Proof.
  intros (_ & _ & i & Ei & _). unfold buy_probability. cbv zeta.
  destruct (_ && _); [rewrite Ei|]; run_bind; cbn [deref]; run_bind; by eexists.
Qed.

Lemma near_volume_ok liq : liquidity_ok liq → ∃ v, near_volume liq = Done v ∧ is_u32 v.
Proof.
  intros ((b & Eb & _) & (a & Ea & _) & _). unfold near_volume, front. rewrite Eb, Ea. cbn [deref]. run_bind.
  eexists. split; [reflexivity | apply is_u32_u32].
Qed.

Lemma thinness_ok liq : liquidity_ok liq → ∃ t, thinness_of liq = Done t ∧ in_range 0 1 t.
Proof.
  intros Hl. destruct (near_volume_ok liq Hl) as (v & Ev & Hv). unfold thinness_of.
  destruct (_ && _); [rewrite Ev; run_bind|]; eexists; (split; [reflexivity|]); [|evaluate].
  pose proof (quantity_range v Hv) as Hr.
  range_over [(0, 2 ^ 62)] [of_Z v]. inside_by Hr.
Qed.

Lemma of_price_range p : 0 <= p <= MAXIMUM_ASK → in_range 0 (inject_Z 10000) (of_Z p).
Proof.
  unfold MAXIMUM_ASK. intros Hp. apply of_Z_range; [in_format | in_format |].
  change 0%Q with (inject_Z 0). split; apply (proj1 (inject_le _ _)); lia.
Qed.

(** Prices and the fair value, weighed. *)
Lemma anchor_range p fv : 0 <= p <= MAXIMUM_ASK → in_range 0 (p2 50) fv →
  in_range (- p2 51) (p2 51) (fadd (fmul (dec 65 2) (of_Z p)) (fmul (dec 35 2) fv)).
Proof.
  intros Hp%of_price_range Hfv. range_over [(0, 10000 * 2 ^ 30); (0, 2 ^ 80)] [of_Z p; fv].
  - inside_by Hp.
  - inside_by Hfv.
Qed.

Lemma compute_anchor_ok s side rng : ready s → fair_value_ok s → ok rng →
  ∃ p rng', compute_anchor_ s.(SimulationState.price_state_) s.(SimulationState.latent_state_) side rng = Done (p, rng') ∧
    MINIMUM_BID <= p <= 2 ^ 52 ∧ ok rng'.
Proof.
  intros Hs Hfv Hok. unfold fair_value_ok in Hfv. pose proof (ready_last _ Hs) as Hlast.
  destruct (ready_quoted _ Hs) as [Hb Ha]. unfold compute_anchor_. cbv zeta.
  set (best := match side with BUY => _ | SELL => _ end).
  assert (∀ p, best = Some p → 0 <= p <= MAXIMUM_ASK) as Hbest.
  { unfold best, MINIMUM_BID in *. intros p E. destruct side; [specialize (Ha p E) | specialize (Hb p E)]; lia. }
  clearbody best. set (x := match best with Some _ => _ | None => _ end).
  assert (in_range (- p2 51) (p2 51) x) as Hx by (unfold x; destruct best; apply anchor_range; auto).
  destruct (stochastic_round_ok x 51 rng ltac:(lia) Hx Hok) as (p & rng' & E & Hp & Hok').
  rewrite E. run_bind. eexists _, _. split; [reflexivity|]. split; [|done]. unfold MINIMUM_BID. lia.
Qed.

(** ** Prices *)

Lemma gap_range a b : price_ok a → price_ok b → ∃ d, gap a b = Done d ∧ in_range 0 (inject_Z 10000) d.
Proof.
  unfold price_ok, MINIMUM_BID, MAXIMUM_ASK, gap. intros Ha Hb. rewrite in_i64_ok by (unfold is_i64; lia). run_bind.
  eexists. split; [reflexivity|]. apply fmax_range with (- inject_Z 10000)%Q; [evaluate|].
  apply of_Z_range; [in_format | in_format |]. rewrite <- inject_Z_opp. split; apply (proj1 (inject_le _ _)); lia.
Qed.

Lemma marketable_returns ps side anchor :
  quoted ps → MINIMUM_BID <= anchor <= 2 ^ 52 →
  ∃ price dist, marketable_price ps side anchor = Done (price, dist) ∧ 0 <= price <= 2 ^ 54 ∧
    in_range 0 (inject_Z 10000) dist.
Proof.
  intros [Hb Ha] Hanchor. unfold MINIMUM_BID in Hanchor. unfold marketable_price.
  destruct (PriceState.best_bid ps) as [bid|], (PriceState.best_ask ps) as [ask|].
  { destruct (gap_range ask bid (Ha _ eq_refl) (Hb _ eq_refl)) as (d & Ed & Hd). rewrite !Ed. run_bind.
    specialize (Ha ask eq_refl). specialize (Hb bid eq_refl). unfold MINIMUM_BID, MAXIMUM_ASK in *.
    destruct side; eexists _, _; (split; [reflexivity|]); (split; [lia | done]). }
  all: destruct side; try (rewrite in_i64_ok by (unfold is_i64; lia); run_bind);
    eexists _, _; (split; [reflexivity|]); (split; [|evaluate]);
    try specialize (Ha _ eq_refl); try specialize (Hb _ eq_refl); unfold MINIMUM_BID, MAXIMUM_ASK in *; lia.
Qed.

(** A square root that is not zero is not tiny. *)
Lemma sqrt_not_tiny x : in_range 0 (p2 8) x → flt fzero (fsqrt x) = true → (p2 (-537) <= val (fsqrt x))%Q.
Proof.
  intros [Hx [X1 X2]] Hpos. destruct x as [s|s| |[] m e]; try done.
  pose proof (p2_pos (-537)). pose proof (p2_pos 4).
  destruct (fsqrt_range (p2 (-537)) (p2 4) ltac:(in_format) ltac:(in_format) (S754_finite false m e)) as [_ [H' _]];
    [exact Hx | lra | lra | | exact H'].
  assert ((square (p2 4) == p2 8)%Q) as -> by reflexivity. split; [|exact X2].
  assert ((square (p2 (-537)) == p2 (-1074))%Q) as -> by (unfold square; by rewrite <- p2_add).
  cbn [finite val cond_Zopp] in *. apply mantissa_range in Hx as (_ & He & _).
  rewrite (dyadic_shift (Zpos m) (-1074) e) by lia. assert ((p2 (-1074) == dyadic 1 (-1074))%Q) as -> by reflexivity.
  apply dyadic_le. assert (1 <= 2 ^ (e - -1074)) by lia. nia.
Qed.

(** The ratio of the volatilities, however small the long one. *)
Lemma vol_regime_range vs : vol_range vs →
  let vol_s := VolatilityState.realised_vol_short vs in
  let vol_l := VolatilityState.realised_vol_long vs in
  in_range 0 (p2 541) (if flt fzero vol_l then fdiv vol_s vol_l else of_Z 1).
Proof.
  intros (Hs & Hl & _). cbv zeta. unfold VolatilityState.realised_vol_short, VolatilityState.realised_vol_long.
  destruct (flt fzero _) eqn:E; [|evaluate]. pose proof (sqrt_not_tiny _ Hl E) as Hlow. pose proof (p2_pos (-537)).
  destruct (vol_sqrt _ Hs) as [Fs [S1 S2]]. destruct (vol_sqrt _ Hl) as [Fl _].
  assert ((p2 4 == p2 541 * p2 (-537))%Q) as E4 by (by rewrite <- p2_add). pose proof (p2_pos 541).
  apply fdiv_range; [in_format | in_format | exact Fs | exact Fl | lra |].
  split; [apply Qle_shift_div_l; lra | apply Qle_shift_div_r; [lra|]]. nra.
Qed.

Lemma spread_range ps : quoted ps → view_ok ps →
  in_range (- inject_Z 10000) (inject_Z 10000) (match ps.(PriceState.spread) with Some spread => of_Z spread | None => of_Z 1 end).
Proof.
  intros [Hb Ha] Hv. unfold view_ok in Hv. destruct (PriceState.spread ps) as [spread|]; [|evaluate].
  destruct (PriceState.best_bid ps) as [bid|]; [|done]. destruct (PriceState.best_ask ps) as [ask|]; [|done].
  specialize (Ha ask eq_refl). specialize (Hb bid eq_refl). unfold MINIMUM_BID, MAXIMUM_ASK in *.
  apply of_Z_range; [in_format | in_format |]. rewrite <- inject_Z_opp. split; apply (proj1 (inject_le _ _)); lia.
Qed.

Lemma weighed_regime_range r : in_range 0 (p2 541) r →
  in_range 0 (inject_Z 710) (log1p (fmul (of_Z 5) (fmax fzero (fsub r (of_Z 1))))).
Proof.
  intros Hr. assert (in_range 0 (p2 545) (fmul (of_Z 5) (fmax fzero (fsub r (of_Z 1))))) as [Hf [L1 L2]].
  { range_over [(0, 2 ^ 571)] [r]. inside_by Hr. }
  by apply log1p_range.
Qed.

(** The rate that [exponential] is given. *)
Definition mean_distance (agent : AgentType) (spread regime jump : double) : double :=
  let base := fadd (fadd (fadd (of_Z 1) (fmul (dec 35 2) spread)) (fmul (dec 25 2) regime)) (fmul (dec 35 2) jump) in
  fclamp (match agent with
          | MM => fmul base (dec 8 1)
          | DEEP => fmul base (dec 25 1)
          | NOISE => fmul base (dec 13 1)
          | TAKER => base
          end) (dec 5 1) (of_Z 50).

Lemma mean_distance_range agent spread regime jump :
  in_range (- inject_Z 10000) (inject_Z 10000) spread → in_range 0 (inject_Z 710) regime → in_range 0 1 jump →
  in_range (1 # 2) (inject_Z 50) (mean_distance agent spread regime jump).
Proof.
  intros Hs Hr Hj. unfold mean_distance. cbv zeta.
  destruct agent; (range_over [(- 10000 * 2 ^ 30, 10000 * 2 ^ 30); (0, 710 * 2 ^ 30); (0, 2 ^ 30)] [spread; regime; jump];
    [inside_by Hs | inside_by Hr | inside_by Hj]).
Qed.

Definition passive_rate (ps : PriceState.t) (vs : VolatilityState.t) (agent : AgentType) : double :=
  let vol_s := VolatilityState.realised_vol_short vs in
  let vol_l := VolatilityState.realised_vol_long vs in
  mean_distance agent (match ps.(PriceState.spread) with Some d => of_Z d | None => of_Z 1 end)
    (log1p (fmul (of_Z 5) (fmax fzero (fsub (if flt fzero vol_l then fdiv vol_s vol_l else of_Z 1) (of_Z 1)))))
    vs.(VolatilityState.jump_intensity).

Lemma passive_rate_range ps vs agent : vol_range vs → quoted ps → view_ok ps →
  in_range (1 # 2) (inject_Z 50) (passive_rate ps vs agent).
Proof.
  intros Hvs Hq Hv. apply mean_distance_range; [by apply spread_range | | apply Hvs].
  by apply weighed_regime_range, vol_regime_range.
Qed.

Lemma passive_shape ps vs agent side anchor rng :
  passive_price ps vs agent side anchor rng =
    let '(d, rng) := exponential (passive_rate ps vs agent) rng in
    let dist := fmax fzero d in
    match side with
    | BUY => '(price, rng) ← stochastic_round (fsub (of_Z anchor) dist) rng; Done (Z.max price MINIMUM_BID, dist, rng)
    | SELL => '(price, rng) ← stochastic_round (fadd (of_Z anchor) dist) rng; Done (Z.min price MAXIMUM_ASK, dist, rng)
    end.
Proof. by destruct agent. Qed.

(** The price before it is rounded. *)
Lemma shifted_range anchor dist : MINIMUM_BID <= anchor <= 2 ^ 52 → in_range 0 (inject_Z 46) dist →
  in_range (- p2 53) (p2 53) (fsub (of_Z anchor) dist) ∧ in_range (- p2 53) (p2 53) (fadd (of_Z anchor) dist).
Proof.
  unfold MINIMUM_BID. intros Ha Hd. assert (in_range 0 (p2 52) (of_Z anchor)) as Hr.
  { apply of_Z_range; [in_format | in_format |]. rewrite p2_Z by lia.
    change 0%Q with (inject_Z 0). split; apply (proj1 (inject_le _ _)); lia. }
  split; range_over [(0, 2 ^ 82); (0, 46 * 2 ^ 30)] [of_Z anchor; dist].
  1, 3: inside_by Hr.
  all: inside_by Hd.
Qed.

Lemma passive_returns ps vs agent side anchor rng :
  vol_range vs → quoted ps → view_ok ps → MINIMUM_BID <= anchor <= 2 ^ 52 → ok rng →
  ∃ price dist rng', passive_price ps vs agent side anchor rng = Done (price, dist, rng') ∧
    is_i64 price ∧ in_range 0 (inject_Z 46) dist ∧ ok rng'.
Proof.
  intros Hvs Hq Hv Hanchor Hok. rewrite passive_shape.
  destruct (exponential_law _ rng Hok (passive_rate_range ps vs agent Hvs Hq Hv)) as [Hd Hok1].
  destruct (exponential _ rng) as [d r1]. cbn [fst snd] in *. cbv zeta.
  assert (in_range 0 (inject_Z 46) (fmax fzero d)) as Hdist by (apply fmax_range with 0%Q; [evaluate | exact Hd]).
  set (dist := fmax fzero d) in *. clearbody dist. destruct (shifted_range anchor dist Hanchor Hdist) as [Hbuy Hsell].
  destruct (stochastic_round_ok _ 53 r1 ltac:(lia) Hbuy Hok1) as (price1 & r2 & E1 & Hp1 & Hok2).
  destruct (stochastic_round_ok _ 53 r1 ltac:(lia) Hsell Hok1) as (price2 & r3 & E2 & Hp2 & Hok3).
  destruct side; [rewrite E2 | rewrite E1]; run_bind; eexists _, dist, _; (split; [reflexivity|]);
    (split; [unfold is_i64, MINIMUM_BID, MAXIMUM_ASK; lia | done]).
Qed.

Lemma draw_regime_keeps ps agent urgency rng : ok rng → ok (draw_regime ps agent urgency rng).2.
Proof.
  intros Hok. unfold draw_regime. cbv zeta. destruct (uniform_law rng Hok) as [_ Hok'].
  by destruct (standard_uniform rng).
Qed.

(** The price of any regime, and its distance. *)
Lemma choose_price_returns ps vs agent side drawn anchor urgency rng0 rng :
  vol_range vs → quoted ps → view_ok ps → MINIMUM_BID <= anchor <= 2 ^ 52 → ok rng →
  (draw_regime ps agent urgency rng0).1 = drawn →
  ∃ regime price dist rng', choose_price ps vs agent side drawn anchor rng = Done (regime, price, dist, rng') ∧
    is_i64 price ∧ in_range 0 (inject_Z 10000) dist ∧ ok rng'.
Proof.
  intros Hvs Hq Hv Hanchor Hok Hdrawn. unfold choose_price.
  destruct (passive_returns ps vs agent side anchor rng Hvs Hq Hv Hanchor Hok) as (price & dist & rng' & E & Hp & Hd & Hok').
  assert (in_range 0 (inject_Z 10000) dist) as Hd' by (eapply in_range_le; [exact Hd | lra | evaluate]).
  destruct drawn.
  - destruct (marketable_returns ps side anchor Hq Hanchor) as (p & d & Em & Hpm & Hdm). rewrite Em. run_bind.
    eexists _, p, d, _. split; [reflexivity|]. split; [unfold is_i64; lia | done].
  - destruct (draw_regime ps agent urgency rng0) as [r r1] eqn:Er. cbn [fst] in Hdrawn. subst r.
    apply improve_needs_spread in Er as (spread & Es & Hs). unfold view_ok in Hv. rewrite Es in Hv. destruct Hq as [Hb Ha].
    destruct (PriceState.best_bid ps) as [bid|]; [|done]. destruct (PriceState.best_ask ps) as [ask|]; [|done]. subst spread.
    specialize (Hb bid eq_refl). specialize (Ha ask eq_refl). unfold MINIMUM_BID, MAXIMUM_ASK in Hb, Ha.
    destruct (improve_price_ok side bid ask) as (p & Ei & Hpi); [unfold is_i64; lia..|]. rewrite Ei. run_bind.
    eexists _, p, _, _. split; [reflexivity|]. split; [unfold is_i64; lia|]. split; [evaluate | done].
  - rewrite E. run_bind. by eexists _, price, dist, _.
Qed.

(** ** Sizes *)

Lemma urgency_range fs vs : flow_range fs → vol_range vs →
  in_range 0 1 (urgency_of fs (VolatilityState.realised_vol_short vs)).
Proof.
  intros (_ & _ & _ & _ & _ & _ & Hi & _ & Hx) (Hs%vol_sqrt & _). unfold urgency_of, VolatilityState.realised_vol_short.
  set (i := FlowState.flow_imbalance fs) in *. set (v := fsqrt _) in *. set (x := FlowState.trade_excitation fs) in *.
  range_over [(- 2 ^ 30, 2 ^ 30); (0, 2 ^ 34); (0, 5 * 2 ^ 30)] [i; v; x]; [inside_by Hi | inside_by Hs | inside_by Hx].
Qed.

Lemma near_depth_ok liq side : liquidity_ok liq →
  ∃ d, (match side with
        | BUY => if liq.(LiquidityState.has_bid_side)
                 then v ← front liq.(LiquidityState.bid_volumes); Done (of_Z v) else Done fzero
        | SELL => if liq.(LiquidityState.has_ask_side)
                  then v ← front liq.(LiquidityState.ask_volumes); Done (of_Z v) else Done fzero
        end) = Done d ∧ in_range 0 (p2 32) d.
Proof.
  intros ((b & Eb & Hb%quantity_range) & (a & Ea & Ha%quantity_range) & _). unfold front. rewrite Eb, Ea. cbn [deref]. run_bind.
  destruct side; (destruct (_ : bool); [by eexists|]); eexists; (split; [reflexivity | evaluate]).
Qed.

(** The logarithm of the mean size. *)
Lemma size_mean_ok fs liq side regime urgency :
  flow_range fs → liquidity_ok liq → in_range 0 1 urgency →
  ∃ ln_mu, size_mean fs liq side regime urgency = Done ln_mu ∧ in_range 0 (inject_Z 25) ln_mu.
Proof.
  intros (Ha & _ & _ & _ & Hv & _ & Hi & _) Hl Hu. destruct (near_depth_ok liq side Hl) as (d & Ed & Hd).
  unfold size_mean. rewrite Ed. run_bind. eexists. split; [reflexivity|].
  set (a := FlowState.abs_volume_ewma fs) in *. set (v := FlowState.volume_surprise fs) in *.
  set (i := FlowState.flow_imbalance fs) in *.
  match goal with |- in_range _ _ (log ?x) => assert (in_range 1 (p2 36) x) as [Hx [X1 X2]] end.
  { destruct regime;
      (range_over [(0, 2 ^ 62); (- 2 ^ 89, 2 ^ 89); (- 2 ^ 30, 2 ^ 30); (0, 2 ^ 62); (0, 2 ^ 30)] [a; v; i; d; urgency];
       [inside_by Ha | inside_by Hv | inside_by Hi | inside_by Hd | inside_by Hu]). }
  eapply in_range_le; [by apply (log_between 0 36) | evaluate | evaluate].
Qed.

Lemma llround_ok x k : 0 <= k <= 60 → in_range 0 (p2 k) x → ∃ q, llround x = Done q.
Proof.
  intros Hk [Hx [H2 H3]]. destruct x as [s|s| |[] m e]; try done; cbn [llround]; [by eexists| |].
  { cbn [val cond_Zopp] in H2. change (Zneg m) with (- Zpos m) in H2. rewrite dyadic_opp in H2.
    pose proof (dyadic_pos m e). lra. }
  assert ((p2 k < p2 62)%Q) by (apply (proj1 (p2_lt _ _)); lia).
  destruct (shiftl_value m e) as [Hz _]; [lra|]. cbn [cond_Zopp]. destruct (Z.leb_spec 0 e) as [He|He].
  - eexists. apply in_i64_ok. unfold is_i64. lia.
  - eexists. apply in_i64_ok. rewrite <- (Z.opp_involutive e), Z.shiftl_opp_r in Hz.
    rewrite !Z.shiftr_div_pow2, Z.shiftl_mul_pow2 in * by lia. set (h := 1 * 2 ^ (- e - 1)) in *.
    assert (2 ^ (- e) = 2 * h) as E by (unfold h; replace (- e) with (Z.succ (- e - 1)) at 1 by lia; rewrite Z.pow_succ_r by lia; lia).
    assert (0 < h) as Hh by (unfold h; lia). rewrite E in *.
    assert (0 <= (Zpos m + h) / (2 * h)) by (apply Z.div_pos; lia).
    assert ((Zpos m + h) / (2 * h) < 2 ^ 62 + 1); [|unfold is_i64; lia].
    apply Z.div_lt_upper_bound; [lia|]. pose proof (Z.mul_succ_div_gt (Zpos m) (2 * h) ltac:(lia)). nia.
Qed.

Lemma lot_clustering_keeps q rng : ok rng → ok (apply_lot_clustering_ q rng).2.
Proof.
  intros Hok. unfold apply_lot_clustering_. destruct (uniform_law rng Hok) as [_ Hok'].
  destruct (standard_uniform rng) as [u r]. by destruct (flt u _).
Qed.

Lemma draw_quantity_ok ln_mu urgency rng :
  in_range 0 (inject_Z 25) ln_mu → ok rng → ∃ qty rng', draw_quantity ln_mu urgency rng = Done (qty, rng') ∧ ok rng'.
Proof.
  intros Hmu Hok. unfold draw_quantity. cbv zeta. set (p := fclamp _ _ _).
  pose proof (bernoulli_law p rng Hok) as Hok1. destruct (bernoulli p rng) as [large r1]. cbn [snd] in Hok1.
  destruct (normal_law r1 Hok1) as [Hz Hok2]. destruct (standard_normal r1) as [z r2]. cbn [fst snd] in *.
  set (sigma := if large then of_Z 1 else dec 55 2).
  assert (in_range 0 1 sigma) as Hsigma by (unfold sigma; destruct large; evaluate). clearbody sigma.
  assert (in_range (- inject_Z 8) (ln2_below 48) (fadd ln_mu (fmul sigma z))) as [Hq [_ Q2]].
  { range_over [(0, 25 * 2 ^ 30); (0, 2 ^ 30); (- 8 * 2 ^ 30, 8 * 2 ^ 30)] [ln_mu; sigma; z];
      [inside_by Hmu | inside_by Hsigma | inside_by Hz]. }
  pose proof (exp_range 48 _ ltac:(lia) Hq Q2) as He.
  destruct (llround_ok (fmax (of_Z 1) (exp (fadd ln_mu (fmul sigma z)))) 48 ltac:(lia)) as [q Eq].
  { apply fmax_range' with 1%Q; [evaluate | exact He]. }
  rewrite Eq. run_bind. pose proof (lot_clustering_keeps (u32 q) r2 Hok2) as Hok3.
  destruct (apply_lot_clustering_ _ _) as [qty r3]. by exists qty, r3.
Qed.

(** ** Hazards *)

Lemma draw_hazard_range fs vs side agent dist rng :
  flow_range fs → vol_range vs → in_range 0 (inject_Z 10000) dist → ok rng →
  in_range (val (dec 2 2)) (val (of_Z 100)) (draw_hazard fs vs side agent dist rng).1 ∧
  ok (draw_hazard fs vs side agent dist rng).2.
Proof.
  intros (_ & _ & _ & _ & _ & _ & Hi & _) (_ & _ & _ & _ & _ & Hj) Hd Hok. unfold draw_hazard.
  destruct (uniform_law rng Hok) as [Hu Hok']. destruct (standard_uniform rng) as [u0 r]. cbn [fst snd] in *.
  split; [|done].
  assert (in_range (p2 (-40)) 1 (fmax (dec 1 12) u0)) as [Fu [U1 U2]].
  { apply fmax_range with 0%Q; [evaluate | done]. }
  assert (in_range (ln2_below (-40)) (ln2_above 0) (log (fmax (dec 1 12) u0))) as Hb%fopp_range by (by apply log_between).
  assert (in_range 0 (ln2_below 580) (fmul (dec 4 2) dist)) as [Fm [M1 M2]].
  { range_over [(0, 10000 * 2 ^ 30)] [dist]; inside_by Hd. }
  pose proof (exp_range 580 _ ltac:(lia) Fm M2) as Hm.
  set (b := fopp (log _)) in *. set (m := exp _) in *. set (i := FlowState.flow_imbalance fs) in *.
  set (j := VolatilityState.jump_intensity vs) in *. clearbody b m.
  apply fclamp_range; [|reflexivity | reflexivity | evaluate]. apply in_range_finite with 0%Q (p2 620).
  destruct side, agent; (range_over [(0, 28 * 2 ^ 30); (0, 2 ^ 610); (- 2 ^ 30, 2 ^ 30); (0, 2 ^ 30)] [b; m; i; j];
    [inside_by Hb | inside_by Hm | inside_by Hi | inside_by Hj]).
Qed.

(** ** The decision *)

Lemma draw_agent_keeps urgency thinness rng : ok rng → ok (draw_agent urgency thinness rng).2.
Proof.
  intros Hok. unfold draw_agent, sample_agent_. cbv zeta. destruct (uniform_law rng Hok) as [_ Hok'].
  by destruct (standard_uniform rng).
Qed.

(** What is promised of a decision. *)
Definition decision_ok (hazard : double) (d : InsertDecision.t) : Prop :=
  is_i64 d.(InsertDecision.price) ∧ d.(InsertDecision.lifespan) = GOOD_FOR_DAY ∧
  ∃ increment, d.(InsertDecision.cancellation_hazard_mass) = fadd hazard increment ∧
    in_range (val (dec 2 2)) (val (of_Z 100)) increment.

Lemma decide_returns s hazard rng : ready s → fair_value_ok s → ok rng →
  ∃ d rng', decide_insert s hazard rng = Done (d, rng') ∧ ok rng' ∧ decision_ok hazard d.
Proof.
  intros Hs Hfv Hok. pose proof (ready_flow _ Hs) as HF. pose proof (ready_vol _ Hs) as HV.
  pose proof (ready_liquidity _ Hs) as HL. pose proof (urgency_range _ _ HF HV) as Hu.
  unfold decide_insert. cbv zeta. set (fs := SimulationState.flow_state_ s) in *. set (vs := SimulationState.vol_state_ s) in *.
  destruct (buy_probability_ok fs _ HL) as [bp ->]. run_bind.
  pose proof (bernoulli_law bp rng Hok) as Hok0. destruct (bernoulli bp rng) as [buys r0]. cbn [snd] in Hok0.
  destruct (thinness_ok _ HL) as (th & -> & _). run_bind. set (urgency := urgency_of _ _) in *. set (side := if buys then BUY else SELL).
  pose proof (draw_agent_keeps urgency th r0 Hok0) as Hok1. destruct (draw_agent urgency th r0) as [agent r1]. cbn [snd] in Hok1.
  pose proof (draw_regime_keeps (SimulationState.price_state_ s) agent urgency r1 Hok1) as Hok2.
  destruct (draw_regime _ agent urgency r1) as [drawn r2] eqn:Er. cbn [snd] in Hok2.
  destruct (compute_anchor_ok s side r2 Hs Hfv Hok2) as (anchor & r3 & -> & Ha & Hok3). run_bind.
  destruct (choose_price_returns _ vs agent side drawn anchor urgency r1 r3 HV (ready_quoted _ Hs) (ready_view _ Hs) Ha Hok3)
    as (regime & price & dist & r4 & -> & Hp & Hd & Hok4); [by rewrite Er|]. run_bind.
  destruct (size_mean_ok fs _ side regime urgency HF HL Hu) as (ln_mu & -> & Hmu). run_bind.
  destruct (draw_quantity_ok ln_mu urgency r4 Hmu Hok4) as (qty & r5 & -> & Hok5). run_bind.
  destruct (draw_hazard_range fs vs side agent dist r5 HF HV Hd Hok5) as [Hh Hok6].
  destruct (draw_hazard _ _ _ _ _ _) as [inc r6]. cbn [fst snd] in *.
  eexists _, _. split; [reflexivity|]. split; [done|]. split; [exact Hp|]. split; [done|].
  by exists inc.
Qed.

(** ** The state after a synchronisation *)

Lemma imbalance_ok bid ask :
  is_u32 bid.(SimulationState.volumes) → is_u32 ask.(SimulationState.volumes) →
  in_range (- p2 64) (p2 64) (SimulationState.imbalance bid ask).
Proof.
  intros Hb%quantity_range Ha%quantity_range. unfold SimulationState.imbalance. cbv zeta.
  set (vb := of_Z _) in *. set (va := of_Z _) in Ha |- *.
  range_over [(0, 2 ^ 62); (0, 2 ^ 62)] [vb; va]; [inside_by Hb | inside_by Ha].
Qed.

Lemma liquidity_ready bounds book dt liq :
  feeding_ok (Synced book dt) → Forall exact_int bounds → bounds ≠ [] →
  SimulationState.update_liq_state bounds book = Done liq → liquidity_ok liq.
Proof.
  intros Hbook Hbounds Hne E. destruct (sides_ok book dt bounds Hbook Hbounds) as [Hbid Hask].
  unfold SimulationState.update_liq_state in E.
  destruct (fill_side_ok _ _ (λ best price, best - price) _ Hbounds Hbid) as (bids & E1 & Lb & Hb).
  destruct (fill_side_ok _ _ (λ best price, price - best) _ Hbounds Hask) as (asks & E2 & La & Ha).
  rewrite E1 in E. run_bind in *. rewrite E2 in E. run_bind in *. injection E as <-.
  destruct bounds as [|b0 bounds]; [done|].
  destruct (Hb 0%nat b0 eq_refl) as (bid & Ebid & Vbid). destruct (Ha 0%nat b0 eq_refl) as (ask & Eask & Vask).
  destruct bids as [|bid0 bids]; [done|]. destruct asks as [|ask0 asks]; [done|].
  injection Ebid as ->. injection Eask as ->.
  assert (is_u32 bid.(SimulationState.volumes)) as Hvb by (rewrite Vbid; apply is_u32_u32).
  assert (is_u32 ask.(SimulationState.volumes)) as Hva by (rewrite Vask; apply is_u32_u32).
  split; [by eexists|]. split; [by eexists|]. eexists. split; [reflexivity|]. by apply imbalance_ok.
Qed.

Lemma price_ready last book dt ps :
  feeding_ok (Synced book dt) → SimulationState.update_price_state last book = Done ps →
  quoted ps ∧ view_ok ps ∧ ps.(PriceState.last_trade_price) = last.
Proof.
  intros Hbook E. split; [|split; [by eapply price_state_ok|]].
  - assert (ps.(PriceState.best_bid) = ShadowOrderBook.best_bid_price book ∧
            ps.(PriceState.best_ask) = ShadowOrderBook.best_ask_price book) as [Eb Ea].
    { unfold SimulationState.update_price_state in E.
      destruct (ShadowOrderBook.best_bid_price book), (ShadowOrderBook.best_ask_price book);
        try (unfold in_i64 in E; destruct (_ && _); [|done]; run_bind in * ); by injection E as <-. }
    split; intros p; rewrite ?Eb, ?Ea; intros [v Ev]%best_key; [by apply (Hbook BUY p v) | by apply (Hbook SELL p v)].
  - unfold SimulationState.update_price_state in E.
    destruct (ShadowOrderBook.best_bid_price book), (ShadowOrderBook.best_ask_price book);
      try (unfold in_i64 in E; destruct (_ && _); [|done]; run_bind in * ); by injection E as <-.
Qed.

(** Synchronising makes the state ready. *)
Lemma sync_ready book dt s s' :
  feeding_ok (Synced book dt) → feeding_range (Synced book dt) → state_range s →
  Forall exact_int s.(SimulationState.liq_state_).(LiquidityState.bucket_bounds) →
  s.(SimulationState.liq_state_).(LiquidityState.bucket_bounds) ≠ [] →
  SimulationState.sync_with_book book dt s = Done s' → ready s'.
Proof.
  intros Hbook Hdt HS Hbounds Hne E.
  destruct (sync_range book dt s s' Hdt HS E) as (HV & HF & _). destruct HS as (_ & _ & HL & _).
  unfold SimulationState.sync_with_book in E.
  destruct (SimulationState.update_price_state _ _) as [ps| |] eqn:Ep; [|done..]. run_bind in *.
  destruct (SimulationState.update_liq_state _ _) as [liq| |] eqn:El; [|done..]. run_bind in *.
  destruct (SimulationState.update_latent_state _ _ _) as [ls rng]. injection E as <-.
  destruct (price_ready _ _ _ _ Hbook Ep) as (Hq & Hv & Hlast). apply (liquidity_ready _ _ dt) in El; [|done..].
  split; try done. cbn. by rewrite Hlast.
Qed.

(** Any run, and a synchronisation after it. *)
Lemma run_ready memory_time memory_price memory_liq bounds (fs : list Feeding) book dt :
  bounds ≠ [] → Forall exact_int bounds → Forall feeding_ok fs → Forall feeding_range fs →
  feeding_ok (Synced book dt) → feeding_range (Synced book dt) →
  ∃ s s', feed_all (SimulationState.SimulationState memory_time memory_price memory_liq bounds) fs = Done s ∧
    SimulationState.sync_with_book book dt s = Done s' ∧ ready s'.
Proof.
  intros Hne Hb Hok Hfs Hbook Hdt.
  set (s0 := SimulationState.SimulationState memory_time memory_price memory_liq bounds).
  destruct (feed_all_ok s0 fs) as (s & E & _ & _ & Ebounds); [done | done | done | done |].
  change (LiquidityState.bucket_bounds (SimulationState.liq_state_ s0)) with bounds in Ebounds.
  destruct (sync_ok book dt s Hbook) as (s' & E' & _); [by rewrite Ebounds|].
  exists s, s'. split; [done|]. split; [done|]. eapply sync_ready; [done | done | | | | exact E'].
  - eapply feed_range; [exact Hfs | apply start_range | exact E].
  - by rewrite Ebounds.
  - by rewrite Ebounds.
Qed.

(** ** The rates *)

Lemma count_range n : 0 <= n <= 2 ^ 32 → in_range 0 (p2 32) (of_Z n).
Proof.
  intros Hn. apply of_Z_range; [in_format | in_format |]. rewrite p2_Z by lia. change 0%Q with (inject_Z 0).
  split; apply (proj1 (inject_le _ _)); lia.
Qed.

Lemma update_intensity_ok s open_orders : ready s → 0 <= open_orders <= 2 ^ 32 →
  ∃ insert cancel, update_intensity s open_orders = Done (insert, cancel) ∧
    in_range (inject_Z 7499) (inject_Z 250000) insert ∧ in_range (1 # 16) (25 # 2) cancel.
Proof.
  intros Hs Ho. destruct (ready_flow _ Hs) as (_ & _ & _ & _ & _ & _ & Hi & Ht & Hx).
  destruct (ready_vol _ Hs) as (Hv%vol_sqrt & _ & _ & _ & _ & Hj).
  pose proof (spread_range _ (ready_quoted _ Hs) (ready_view _ Hs)) as Hsp.
  destruct (near_volume_ok _ (ready_liquidity _ Hs)) as (near & En & Hn%quantity_range).
  pose proof (count_range open_orders Ho) as Hopen.
  unfold update_intensity. cbv zeta. rewrite En. run_bind. unfold VolatilityState.realised_vol_short.
  assert (∃ d, (if LiquidityState.has_bid_side (SimulationState.liq_state_ s) && LiquidityState.has_ask_side (SimulationState.liq_state_ s)
    then Done (of_Z near) else Done (of_Z 1)) = Done d ∧ in_range 0 (p2 32) d) as (d & Ed & Hd).
  { destruct (_ && _); eexists; (split; [reflexivity|]); [exact Hn | evaluate]. }
  rewrite Ed. run_bind. eexists _, _. split; [reflexivity|].
  set (i := FlowState.flow_imbalance _) in *. set (t := FlowState.taker_sign_ewma _) in *.
  set (x := FlowState.trade_excitation _) in *. set (v := fsqrt (VolatilityState.realised_variance_short _)) in *.
  set (j := VolatilityState.jump_intensity _) in *. set (o := of_Z open_orders) in *.
  set (sp := match PriceState.spread _ with Some _ => _ | None => _ end) in *. clearbody i t x v j o sp.
  split; (range_over [(- 2 ^ 30, 2 ^ 30); (- 2 ^ 30, 2 ^ 30); (0, 5 * 2 ^ 30); (0, 2 ^ 34); (0, 2 ^ 30); (0, 2 ^ 62);
      (- 10000 * 2 ^ 30, 10000 * 2 ^ 30); (0, 2 ^ 62)] [i; t; x; v; j; o; sp; d];
    [inside_by Hi | inside_by Ht | inside_by Hx | inside_by Hv | inside_by Hj | inside_by Hopen | inside_by Hsp | inside_by Hd]).
Qed.
End decisions.

(** ** Guarantees *)

(** C35: deciding on an order always succeeds.  For functions of [cmath] and a
    generator that keep to their ranges, in the state of the simulator after any
    trades at prices of the exchange and any synchronisations with its books, and
    with a fair value of at most 2^50: [decide_insert] returns, so none of its
    conversions to integers is out of range and no empty array is read; its price is
    a 64-bit integer, and the hazard to survive is the given one plus a number from
    0.02 to 100. *)
Theorem decisions_return `{LibmRanges} {G : Type} `{RNG G} {ok : G → Prop} `{!LawfulRNG G ok}
    memory_time memory_price memory_liq bounds (fs : list Feeding) book dt hazard (rng : G) :
  bounds ≠ [] → Forall exact_int bounds → Forall feeding_ok fs → Forall feeding_range fs →
  feeding_ok (Synced book dt) → feeding_range (Synced book dt) → ok rng →
  ∃ s s', feed_all (SimulationState.SimulationState memory_time memory_price memory_liq bounds) fs = Done s ∧
    SimulationState.sync_with_book book dt s = Done s' ∧
    (fair_value_ok s' →
     ∃ d rng', decide_insert s' hazard rng = Done (d, rng') ∧ ok rng' ∧ decision_ok hazard d).
Proof.
  intros Hne Hb Hok Hfs Hbook Hdt Hrng.
  destruct (run_ready memory_time memory_price memory_liq bounds fs book dt) as (s & s' & E & E' & Hs); try done.
  exists s, s'. split; [done|]. split; [done|]. intros Hfv. by apply decide_returns.
Qed.

(** The rates of the simulator.  In the state after any trades at prices of
    the exchange and any synchronisations with its books, with up to 2^32 open
    orders: [update_intensity] returns, the rate of insertions is from 7499 to
    250000 per second and that of cancellations from 1/16 to 12.5, so neither is
    NaN, zero or negative and the order manager always schedules an expiry. *)
Theorem rates_in_range `{LibmRanges} memory_time memory_price memory_liq bounds (fs : list Feeding) book dt open_orders :
  bounds ≠ [] → Forall exact_int bounds → Forall feeding_ok fs → Forall feeding_range fs →
  feeding_ok (Synced book dt) → feeding_range (Synced book dt) → 0 <= open_orders <= 2 ^ 32 →
  ∃ s s' insert cancel,
    feed_all (SimulationState.SimulationState memory_time memory_price memory_liq bounds) fs = Done s ∧
    SimulationState.sync_with_book book dt s = Done s' ∧ update_intensity s' open_orders = Done (insert, cancel) ∧
    in_range (inject_Z 7499) (inject_Z 250000) insert ∧ in_range (1 # 16) (25 # 2) cancel.
Proof.
  intros Hne Hb Hok Hfs Hbook Hdt Hopen.
  destruct (run_ready memory_time memory_price memory_liq bounds fs book dt) as (s & s' & E & E' & Hs); try done.
  destruct (update_intensity_ok s' open_orders Hs Hopen) as (insert & cancel & Ei & H1 & H2).
  by exists s, s', insert, cancel.
Qed.

(** ** Witnesses *)

Definition ranged_rng : RNG pcg32.t := @PCGRNG_RNG ranged_libm some_distributions.

Lemma some_distributions_lawful : @LawfulDistributions some_distributions.
Proof. by intros mean g Hg _. Qed.

Lemma ranged_rng_ok : @LawfulRNG pcg32.t ranged_rng pcg_ok.
Proof. exact (@PCGRNG_lawful ranged_libm ranged_libm_ok some_distributions some_distributions_lawful). Qed.

Definition ranged_start : SimulationState.t :=
  @SimulationState.SimulationState ranged_libm (TimeState.Make fzero fzero) 0 no_liquidity [1; 5; 10].

Lemma some_sync_range : feeding_range (Synced some_book (dec 1 3)).
Proof. exists 1%Q. evaluate. Qed.

Lemma decisions_return_witness :
  ∃ s' d r, @decide_insert ranged_libm _ ranged_rng s' (of_Z 2) (pcg32.seed_rng 3 1) = Done (d, r) ∧
    decision_ok (of_Z 2) d ∧ flt fzero s'.(SimulationState.flow_state_).(FlowState.abs_volume_ewma) = true.
Proof.
  destruct (@decisions_return ranged_libm ranged_libm_ok _ ranged_rng pcg_ok ranged_rng_ok (TimeState.Make fzero fzero) 0
    no_liquidity [1; 5; 10] some_feedings some_book (dec 1 3) (of_Z 2) (pcg32.seed_rng 3 1)) as (s & s' & E & E' & Hd).
  - discriminate.
  - exact some_bounds_ok.
  - exact some_feedings_ok.
  - exact some_feedings_range.
  - exact some_book_ok.
  - exact some_sync_range.
  - apply seed_rng_ok.
  - vm_compute in E. injection E as <-. vm_compute in E'. injection E' as <-.
    destruct Hd as (d & r & E & _ & Hok); [evaluate|]. eexists _, d, r. split; [exact E|]. split; [exact Hok | reflexivity].
Defined.

Lemma rates_in_range_witness :
  ∃ s' insert cancel, @update_intensity s' 40 = Done (insert, cancel) ∧
    in_range (inject_Z 7499) (inject_Z 250000) insert ∧ in_range (1 # 16) (25 # 2) cancel.
Proof.
  destruct (@rates_in_range ranged_libm ranged_libm_ok (TimeState.Make fzero fzero) 0
    no_liquidity [1; 5; 10] some_feedings some_book (dec 1 3) 40) as (s & s' & insert & cancel & _ & _ & E & H1 & H2).
  - discriminate.
  - exact some_bounds_ok.
  - exact some_feedings_ok.
  - exact some_feedings_range.
  - exact some_book_ok.
  - exact some_sync_range.
  - lia.
  - exists s', insert, cancel. split; [exact E|]. split; [exact H1 | exact H2].
Defined.
