(* ===== verification/OrderManagerRange.v ===== *)
(** The numbers of the order manager: on a steady clock, whose readings never go
    back, its hazard grows and stays finite, no threshold is far above it, and so
    the delay it gives its timer always fits the nanoseconds of the clock. *)

From Stdlib Require Import SpecFloat QArith Qabs Qround Lqa.
From S2P Require Import Prelude Types Codec Payloads Doubles DoublesExact DoublesValue DoublesRound DoublesRange DoublesNear DoublesInterval CmathRange OrderManager OrderManagerTheorems MarketState DynamicsRange.

(** ** Times *)

(** A reading of the steady clock, in nanoseconds. *)
Definition clock_ok (now : Z) : Prop := 0 <= now < 2 ^ 63.

Lemma seconds_range ns : - 2 ^ 63 <= ns <= 2 ^ 63 → in_range (- p2 34) (p2 34) (OrderManager.seconds ns).
Proof.
  intros Hz. assert (in_range (- p2 63) (p2 63) (of_Z ns)) as Hr.
  { apply of_Z_range; [in_format | in_format |]. rewrite p2_Z, <- inject_Z_opp by lia.
    split; apply (proj1 (inject_le _ _)); lia. }
  unfold OrderManager.seconds. range_over [(- 2 ^ 93, 2 ^ 93)] [of_Z ns]. inside_by Hr.
Qed.

Lemma elapsed_range now last : clock_ok now → clock_ok last →
  in_range (- p2 34) (p2 34) (OrderManager.seconds (now - last)).
Proof. intros H1 H2. apply seconds_range. unfold clock_ok in *. lia. Qed.

Lemma val_billion : (val (of_Z 1000000000) == inject_Z 1000000000)%Q.
Proof. reflexivity. Qed.

(** A positive number of nanoseconds, between powers of two. *)
Lemma seconds_log ns : 0 < ns < 2 ^ 63 →
  in_range (p2 (-30)) (p2 (Z.log2 ns - 28)) (OrderManager.seconds ns).
Proof.
  intros Hns. pose proof (Z.log2_spec ns ltac:(lia)) as [H1 H2].
  assert (Z.log2 ns < 63) as Hk by (apply Z.log2_lt_pow2; lia). pose proof (Z.log2_nonneg ns) as H0.
  assert (in_range 1 (p2 (Z.log2 ns + 1)) (of_Z ns)) as [Hf [L1 L2]].
  { apply of_Z_range; [in_format | in_format |]. rewrite p2_Z by lia. change 1%Q with (inject_Z 1).
    split; apply (proj1 (inject_le _ _)); lia. }
  unfold OrderManager.seconds. apply fdiv_range; [in_format | in_format | done | reflexivity | |].
  - rewrite val_billion. discriminate.
  - rewrite val_billion. assert ((p2 (Z.log2 ns + 1) == p2 (Z.log2 ns - 28) * p2 29)%Q) as E.
    { rewrite <- p2_add. by replace (Z.log2 ns - 28 + 29) with (Z.log2 ns + 1) by lia. }
    assert ((p2 (-30) * inject_Z 1000000000 <= 1)%Q) as B1 by evaluate.
    assert ((p2 29 <= inject_Z 1000000000)%Q) as B2 by evaluate.
    assert ((0 < inject_Z 1000000000)%Q) as B3 by evaluate. pose proof (p2_pos (Z.log2 ns - 28)).
    split; [apply Qle_shift_div_l; lra | apply Qle_shift_div_r; [done|]]. nra.
Qed.

(** What the hazard gains in [ns] nanoseconds. *)
Lemma gain_range rate ns : in_range 0 (inject_Z 16) rate → 0 <= ns < 2 ^ 63 →
  in_range 0 (inject_Z ns * p2 (-24)) (fmul rate (OrderManager.seconds ns)).
Proof.
  intros [Hr [R1 R2]] Hns. destruct (Z.eq_dec ns 0) as [->|Hne].
  { assert (OrderManager.seconds 0 = S754_zero false) as -> by reflexivity.
    destruct rate as [s|s| |s m e]; try done; (split; [done|]); cbn; lra. }
  destruct (seconds_log ns ltac:(lia)) as [Hs [S1 S2]]. pose proof (Z.log2_spec ns ltac:(lia)) as [H1 _].
  assert (Z.log2 ns < 63) as Hk by (apply Z.log2_lt_pow2; lia). pose proof (Z.log2_nonneg ns) as H0.
  assert ((0 < p2 (-30))%Q) as P by (apply p2_pos).
  apply in_range_le with 0%Q (p2 (Z.log2 ns - 24)); [|lra|].
  - apply fmul_range; [in_format | in_format | done | done |]. change (inject_Z 16) with 16%Q in R2.
    assert ((p2 (Z.log2 ns - 24) == p2 (Z.log2 ns - 28) * p2 4)%Q) as ->.
    { rewrite <- p2_add. by replace (Z.log2 ns - 28 + 4) with (Z.log2 ns - 24) by lia. }
    assert ((p2 4 == 16)%Q) as -> by reflexivity. split; nra.
  - assert ((p2 (Z.log2 ns - 24) == p2 (Z.log2 ns) * p2 (-24))%Q) as -> by (by rewrite <- p2_add).
    apply Qmult_le_compat_r; [|by apply Qlt_le_weak, p2_pos]. rewrite p2_Z by done. by apply (proj1 (inject_le _ _)).
Qed.

(** ** The invariant *)

Section manager.
Context {Q : Type} `{HQ : LawfulQueue Q}.
Import OrderManager.
Implicit Types (m : OrderManager.t Q).

(** A threshold: not far above the hazard. *)
Definition threshold_ok (hazard threshold : double) : Prop := in_range 0 (val hazard + inject_Z 128) threshold.

(** A rate: none, or between 1/16 and 16. *)
Definition rate_ok (rate : double) : Prop :=
  in_range 0 (inject_Z 16) rate ∧ (fle rate fzero = false → (1 # 16 <= val rate)%Q).

(** The manager at the time [t]. *)
Record timely (t : Z) m : Prop := MkTimely {
  ti_hazard : in_range 0 (inject_Z m.(last_update_time_) * p2 (-23)) m.(cumulative_hazard_);
  ti_rate : rate_ok m.(lambda_cancel_);
  ti_clock : 0 <= m.(last_update_time_) <= t;
  ti_queue e : e ∈ pq_elements m.(expiry_queue_) → threshold_ok m.(cumulative_hazard_) e.(hazard_threshold);
  ti_pending id threshold :
    m.(pending_inserts_) !! id = Some threshold → threshold_ok m.(cumulative_hazard_) threshold
}.

Definition manager_ok (t : Z) m : Prop := om_ok m ∧ timely t m.

Lemma threshold_later hazard hazard' threshold :
  (val hazard <= val hazard')%Q → threshold_ok hazard threshold → threshold_ok hazard' threshold.
Proof. intros Hle Ht. eapply in_range_le; [exact Ht | lra | lra]. Qed.

Lemma timely_later t t' m : t <= t' → timely t m → timely t' m.
Proof. intros Ht []. split; try done. lia. Qed.

Lemma manager_later t t' m : t <= t' → manager_ok t m → manager_ok t' m.
Proof. intros Ht [? ?]. split; [done | by eapply timely_later]. Qed.

(** The hazard is at most 2{^40}. *)
Lemma hazard_bound t m : t < 2 ^ 63 → timely t m → in_range 0 (p2 40) m.(cumulative_hazard_).
Proof.
  intros Ht [Hh _ Hl _ _]. eapply in_range_le; [exact Hh | lra|].
  assert ((p2 40 == inject_Z (2 ^ 63) * p2 (-23))%Q) as -> by (rewrite <- p2_Z by lia; by rewrite <- p2_add).
  apply Qmult_le_compat_r; [|by apply Qlt_le_weak, p2_pos]. apply (proj1 (inject_le _ _)). lia.
Qed.

(** What advancing adds to the hazard. *)
Lemma hazard_gain t now m : t <= now → now < 2 ^ 63 → timely t m →
  let gain := fmul m.(lambda_cancel_) (seconds (now - m.(last_update_time_))) in
  in_range (val m.(cumulative_hazard_)) (inject_Z now * p2 (-23)) (fadd m.(cumulative_hazard_) gain).
Proof.
  intros Hnow Hmax Hm gain. pose proof (hazard_bound t m ltac:(lia) Hm) as [_ [_ Hcap]].
  destruct Hm as [[Hf [H1 H2]] [Hr _] Hl _ _]. pose proof (p2_pos (-24)).
  destruct (gain_range _ (now - last_update_time_ m) Hr ltac:(lia)) as [Hg [G1 G2]]. fold gain in Hg, G1, G2. clearbody gain.
  set (d := now - last_update_time_ m) in *. assert ((inject_Z d <= inject_Z (2 ^ 63))%Q) as Hd by (apply (proj1 (inject_le _ _)); lia).
  assert ((p2 (-23) == 2 * p2 (-24))%Q) as E23 by reflexivity.
  assert ((p2 41 == p2 40 + inject_Z (2 ^ 63) * p2 (-23))%Q) as E41 by reflexivity.
  eapply in_range_le; [apply fadd_grows with 41; try done; try lia | lra |].
  - pose proof (Qmult_le_compat_r _ _ (p2 (-24)) Hd (Qlt_le_weak _ _ (p2_pos _))). rewrite E41, E23. lra.
  - replace now with (last_update_time_ m + d) by lia. rewrite inject_Z_plus, Qmult_plus_distr_l.
    assert ((inject_Z d * p2 (-23) == 2 * (inject_Z d * p2 (-24)))%Q) as -> by (rewrite E23; ring). lra.
Qed.

Lemma advance_timely t now m : t <= now → now < 2 ^ 63 → timely t m → timely now (advance_hazard_to_now now m).
Proof.
  intros Hnow Hmax Hm. pose proof (hazard_gain t now m Hnow Hmax Hm) as [Ha [A1 A2]].
  destruct Hm as [[Hf [H1 H2]] Hr Hl Hq Hp]. unfold advance_hazard_to_now. cbv zeta.
  set (gain := fmul _ _) in *. destruct (negb _ && _).
  - split; cbn; try done; [split; [done|]; split; [lra | done] | lia | |].
    + intros e He. eapply threshold_later; [exact A1 | by apply Hq].
    + intros id th Hth. eapply threshold_later; [exact A1 | by eapply Hp].
  - split; cbn; try done; [split; [done|]; split; [done|] | lia].
    assert ((inject_Z (last_update_time_ m) <= inject_Z now)%Q) by (apply (proj1 (inject_le _ _)); lia).
    pose proof (p2_pos (-23)). nra.
Qed.

(** A sum is less than one above the exact one. *)
Lemma near_integer x y : finite x = true → finite y = true → (0 <= val x)%Q → (0 <= val y)%Q →
  (val x <= p2 40)%Q → (val y <= inject_Z 100)%Q → in_range (val x) (val x + val y + 1) (fadd x y).
Proof.
  intros Hx Hy X0 Y0 Hx1 Hy1. set (n := Qceiling (val x + val y)).
  pose proof (Qle_ceiling (val x + val y)) as Hle. pose proof (Qceiling_lt (val x + val y)) as Hlt.
  fold n in Hle, Hlt. unfold Z.sub in Hlt. rewrite inject_Z_plus in Hlt. change (inject_Z (-(1))) with (-1)%Q in Hlt.
  assert ((p2 40 + inject_Z 100 < inject_Z (2 ^ 52 - 1))%Q) as B by evaluate.
  assert (0 <= n < 2 ^ 52) as Hn.
  { split.
    - apply Z.le_ngt. intros Hneg. assert ((inject_Z n <= inject_Z (-1))%Q) by (apply (proj1 (inject_le _ _)); lia).
      change (inject_Z (-1)) with (-1)%Q in *. lra.
    - apply (proj2 (inject_lt _ _)). unfold Z.sub in B. rewrite inject_Z_plus in B. change (inject_Z (-(1))) with (-1)%Q in B. lra. }
  eapply in_range_le; [apply fadd_range with (lo := val x) (hi := inject_Z n) | apply Qle_refl | lra]; try done.
  - by apply representable_val.
  - apply representable_Z. lia.
  - split; [lra | done].
Qed.

(** *** Delays *)

(** The delays that are asked for fit. *)
Definition armed (acts : list Action) : Prop :=
  ∀ delay, timer_async_wait delay ∈ acts → ∃ ns, delay = Done ns ∧ - 2 ^ 41 <= ns <= 2 ^ 41.

Lemma quiet_armed acts : (∀ delay, timer_async_wait delay ∉ acts) → armed acts.
Proof. intros Hn delay Hd. by destruct (Hn delay). Qed.

Lemma armed_app acts acts' : armed acts → armed acts' → armed (acts ++ acts').
Proof. intros H1 H2 delay [Hd|Hd]%elem_of_app; [by apply H1 | by apply H2]. Qed.

Lemma cancels_armed acts : length acts = length (cancels acts) → armed acts.
Proof.
  intros Hl. apply quiet_armed. induction acts as [|a acts IH]; intros delay; [apply not_elem_of_nil|].
  pose proof (cancels_length acts). destruct a; unfold cancels in *; cbn in *; try lia.
  intros [?|Hd]%elem_of_cons; [done|]. by apply (IH ltac:(lia) delay).
Qed.

Lemma nanoseconds_ok dt : in_range 0 (inject_Z 2048) dt → ∃ ns, nanoseconds dt = Done ns ∧ - 2 ^ 41 <= ns <= 2 ^ 41.
Proof.
  intros [Hf [D1 D2]]. apply to_i64_bound; [lia|].
  apply in_range_le with 0%Q (p2 41); [|pose proof (p2_pos 41); lra | lra].
  apply fmul_range; [in_format | in_format | done | reflexivity |]. rewrite val_billion.
  assert ((inject_Z 2048 * inject_Z 1000000000 <= p2 41)%Q) as B by evaluate.
  assert ((0 <= inject_Z 1000000000)%Q) as B0 by evaluate. split; nra.
Qed.

(** A threshold that the hazard has not reached is at most 2048 seconds away. *)
Lemma delay_ok hazard threshold rate :
  in_range 0 (p2 40) hazard → threshold_ok hazard threshold → rate_ok rate → fle rate fzero = false →
  fle (fsub threshold hazard) fzero = false → ∃ ns, nanoseconds (fdiv (fsub threshold hazard) rate) = Done ns ∧ - 2 ^ 41 <= ns <= 2 ^ 41.
Proof.
  intros [Hh [H1 H2]] [Ht [T1 T2]] [[Hr _] Hlow] Hpos Hdue. specialize (Hlow Hpos).
  assert (in_range (- p2 40) (inject_Z 128) (fsub threshold hazard)) as [Hs [S1 S2]].
  { apply fsub_range; [in_format | in_format | done | done |]. split; lra. }
  assert ((0 <= val (fsub threshold hazard))%Q) as S0.
  { apply Qnot_lt_le. intros Hlt. rewrite (proj2 (fle_val _ fzero Hs eq_refl) (Qlt_le_weak _ _ Hlt)) in Hdue. discriminate Hdue. }
  apply nanoseconds_ok, fdiv_range; [in_format | in_format | done | done | lra |].
  assert ((inject_Z 2048 == inject_Z 128 * 16)%Q) as E by reflexivity.
  split; [apply Qle_shift_div_l; lra | apply Qle_shift_div_r; [lra|]]. rewrite E. nra.
Qed.

(** *** Handlers *)

(** [m'] differs from [m] in entries and orders it has dropped. *)
Record kept m m' : Prop := MkKept {
  kp_hazard : m'.(cumulative_hazard_) = m.(cumulative_hazard_);
  kp_rate : m'.(lambda_cancel_) = m.(lambda_cancel_);
  kp_clock : m'.(last_update_time_) = m.(last_update_time_);
  kp_queue e : e ∈ pq_elements m'.(expiry_queue_) → e ∈ pq_elements m.(expiry_queue_);
  kp_pending : m'.(pending_inserts_) = m.(pending_inserts_)
}.

Lemma kept_timely t m m' : kept m m' → timely t m → timely t m'.
Proof.
  intros [Eh Er Ec Hq Ep] [H1 H2 H3 H4 H5]. split; rewrite ?Eh, ?Er, ?Ec, ?Ep; try done.
  intros e He. by apply H4, Hq.
Qed.

Lemma pruned_kept m q' : pruned m.(active_orders_) m.(expiry_queue_) q' → kept m (set_orders m q' m.(active_orders_)).
Proof. intros HP. split; try done. intros e. cbn. by apply pruned_sub with m.(active_orders_). Qed.

Lemma fired_kept m m' acts es : fired m m' acts es → kept m m'.
Proof. intros []. split; naive_solver. Qed.

Lemma advance_manager_ok t now m :
  t <= now → now < 2 ^ 63 → manager_ok t m → manager_ok now (advance_hazard_to_now now m).
Proof. intros H1 H2 [Hm Ht]. split; [by apply advance_ok | by eapply advance_timely]. Qed.

Lemma reschedule_manager_ok t now m :
  t <= now → now < 2 ^ 63 → manager_ok t m →
  ∃ m' acts, reschedule_next_expiry now m = Done (m', acts) ∧ manager_ok now m' ∧ armed acts.
Proof.
  intros Hnow Hmax Hm. pose proof (advance_manager_ok t now m Hnow Hmax Hm) as [Ha Hta].
  unfold reschedule_next_expiry. set (m1 := advance_hazard_to_now now m) in *.
  assert (∀ a, armed [timer_cancel; a] ↔ armed [a]) as Hcons.
  { intros a. split; intros HA delay Hd; apply HA; [by right | by apply elem_of_cons in Hd as [|]]. }
  destruct (fle (lambda_cancel_ m1) fzero) eqn:El.
  { eexists _, _. split; [reflexivity|]. split; [done|]. apply quiet_armed. intros delay Hd. set_solver. }
  destruct (prune_ok _ Ha) as (q' & -> & HP & Ha2). run_bind. pose proof (kept_timely _ _ _ (pruned_kept _ _ HP) Hta) as Ht2.
  set (m2 := set_orders m1 q' _) in *. destruct (pq_top (expiry_queue_ m2)) as [next|] eqn:Etop.
  2:{ eexists _, _. split; [reflexivity|]. split; [done|]. apply quiet_armed. intros delay Hd. set_solver. }
  destruct (fle (fsub _ _) fzero) eqn:Ed; eexists _, _; (split; [reflexivity|]); (split; [done|]); apply Hcons.
  - apply quiet_armed. intros delay Hd. set_solver.
  - intros delay [= ->]%list_elem_of_singleton. apply delay_ok; [exact (hazard_bound now m2 Hmax Ht2) | | apply Ht2 | done | done].
    apply (ti_queue _ _ Ht2). by apply top_in.
Qed.

Lemma fire_manager_ok t aborted now now' m : t <= now → now <= now' → now' < 2 ^ 63 → manager_ok t m →
  ∃ m' acts, fire_next_expiry aborted now now' m = Done (m', acts) ∧ manager_ok now' m' ∧ armed acts.
Proof.
  intros Hnow Hnow' Hmax Hm. assert (armed []) as Hnil by (apply quiet_armed; intros; apply not_elem_of_nil).
  unfold fire_next_expiry. destruct aborted; [exists m, []; split; [done|]; split; [eapply manager_later; [|exact Hm]; lia | done]|].
  pose proof (advance_manager_ok t now m Hnow ltac:(lia) Hm) as [Ha Hta]. set (m1 := advance_hazard_to_now now m) in *.
  destruct (fle (lambda_cancel_ m1) fzero).
  { exists m1, []. split; [done|]. split; [by eapply manager_later | done]. }
  destruct (prune_ok _ Ha) as (q' & -> & HP & Ha2). run_bind. pose proof (kept_timely _ _ _ (pruned_kept _ _ HP) Hta) as Ht2.
  set (m2 := set_orders m1 q' _) in *.
  destruct (fire_loop_ok (queue_size m2) m2 (le_n _) (om_request _ Ha2)) as (m3 & acts & es & -> & HF). run_bind.
  destruct (reschedule_manager_ok now now' m3 Hnow' Hmax) as (m4 & acts' & -> & Hm4 & Harm).
  { split; [by eapply fired_ok | by eapply kept_timely; [eapply fired_kept|]]. }
  run_bind. eexists _, _. split; [reflexivity|]. split; [done|]. apply armed_app; [|done]. apply cancels_armed.
  rewrite (fi_only _ _ _ _ HF). pose proof (f_equal length (fi_cancelled _ _ _ _ HF)) as E. unfold cancelled in E.
  by rewrite !length_map in E.
Qed.

Lemma acknowledge_manager_ok t msg now m : t <= now → now < 2 ^ 63 → manager_ok t m →
  ∃ m' acts, on_insert_acknowledged msg now m = Done (m', acts) ∧ manager_ok now m' ∧ armed acts.
Proof.
  intros Hnow Hmax Hm. unfold on_insert_acknowledged. destruct (_ !! _) as [threshold|] eqn:Ep.
  2:{ exists m, []. split; [done|]. split; [by eapply manager_later|]. apply quiet_armed. intros. apply not_elem_of_nil. }
  apply reschedule_manager_ok with t; [done | done|]. destruct Hm as [Hm [H1 H2 H3 H4 H5]].
  split; [exact (acknowledged_ok _ _ threshold _ Hm Ep)|]. split; try done.
  - cbn. intros e. rewrite push_elements. intros [->|He]%elem_of_cons; [by eapply H5 | by apply H4].
  - cbn. intros id th [_ Eth]%lookup_delete_Some. by eapply H5.
Qed.

Lemma rate_manager_ok t rate now now' m : t <= now → now <= now' → now' < 2 ^ 63 → rate_ok rate → manager_ok t m →
  ∃ m' acts, update_cancel_rate rate now now' m = Done (m', acts) ∧ manager_ok now' m' ∧ armed acts.
Proof.
  intros Hnow Hnow' Hmax Hr Hm. unfold update_cancel_rate. apply reschedule_manager_ok with now; [done | done|].
  destruct (advance_manager_ok t now m Hnow ltac:(lia) Hm) as [Ha [H1 H2 H3 H4 H5]].
  split; [by destruct Ha; split | by split].
Qed.

(** A threshold that was drawn: the hazard and up to 100 more. *)
Lemma register_manager_ok t id increment m : t < 2 ^ 63 → in_range 0 (inject_Z 100) increment → manager_ok t m →
  manager_ok t (register_pending_insert id (fadd (cumulative_hazard m) increment) m).
Proof.
  intros Hmax [Hi [I1 I2]] [Hm Ht]. pose proof (hazard_bound t m Hmax Ht) as [Hh [C1 C2]]. unfold cumulative_hazard.
  assert (threshold_ok (cumulative_hazard_ m) (fadd (cumulative_hazard_ m) increment)) as Hth.
  { destruct (near_integer (cumulative_hazard_ m) increment) as [Hf [H1 H2]]; try done.
    split; [done|]. split; [lra|]. change (inject_Z 128) with 128%Q. change (inject_Z 100) with 100%Q in I2. lra. }
  split; [apply register_ok; [done|]; by apply finite_not_nan, (in_range_finite _ _ _ Hth)|].
  destruct Ht as [H1 H2 H3 H4 H5]. split; try done. cbn.
  intros id' th [[_ <-]|[_ E]]%lookup_insert_Some; [done | by eapply H5].
Qed.

Lemma fill_manager_ok t msg m : manager_ok t m → manager_ok t (on_partial_fill msg m).
Proof.
  intros [Hm Ht]. split; [by apply partial_fill_ok|]. unfold on_partial_fill. destruct (_ <? _); [done|].
  eapply kept_timely; [|exact Ht]. by split.
Qed.

Lemma set_request_manager_ok t id m : is_u32 id → manager_ok t m → manager_ok t (set_request m id).
Proof. intros Hid [[] []]. by split; split. Qed.

Lemma first_manager_ok id : is_u32 id → manager_ok 0 (OrderManager id).
Proof.
  intros Hid. split; [by apply new_manager_ok|]. split; cbn; [evaluate | split; [evaluate | done] | done | |].
  - intros e. rewrite empty_elements. by intros ?%elem_of_nil.
  - intros id' th. by rewrite lookup_empty.
Qed.
End manager.
