(* ===== verification/Simulator.v ===== *)
(** [simulator.hpp]: the market simulator.  Its handlers run one at a time on
    [sim_strand_]; they read the messages of the exchange, keep the shadow book,
    the derived state and the order manager, and insert orders at every tick.

    A handler gives the simulator after it and what it asked for.  The counter
    [request_id_] is the one the order manager holds. *)

From Stdlib Require Import SpecFloat.
From S2P Require Import Prelude Types Codec Payloads Protocol SpscQueue Connection Doubles Pcg32 ShadowBook OrderManager MarketState MarketDynamics.

Definition MESSAGES_PER_DRAIN : nat := 2000.
Definition OUTBOUND_Q_CAP : Z := 2 ^ OUTBOUND_Q_LOG.
Definition HIGH_OUTBOUND_Q_SIZE : Z := OUTBOUND_Q_CAP * 85 / 100.
Definition LOW_OUTBOUND_Q_SIZE : Z := OUTBOUND_Q_CAP * 70 / 100.

Inductive SimCall :=
  | on_connection (e : Effect)
  | order_timer (a : Action)
  | event_timer_wait
  | event_timer_cancel
  | connection_async_read
  | connection_close
  | post_first_tick
  | post_inbound_drain
  | call_on_shutdown.

Module MarketSimulator.
Section simulator.
Context `{Libm, Distributions} {G : Type} `{RNG G} {Q : Type} `{PriorityQueue Q}.

Record t := Make {
  rng_ : G;
  inbound_ : Queue;
  outbound_ : Queue;
  connection_ : Connection.t;
  lambda_insert_ : double;
  lambda_cancel_ : double;
  last_tick_ : Z;
  running_ : bool;
  inbound_drain_scheduled_ : bool;
  outbound_paused_ : bool;
  shadow_order_book_ : ShadowOrderBook.t;
  state_ : SimulationState.t;
  order_manager_ : OrderManager.t Q
}.

Definition no_message : QueuedMessage := queued 0 0 [].

(** The constructor, given the seeded generator and the state the memory left. *)
Definition MarketSimulator (rng : G) (state : SimulationState.t) : t :=
  Make rng (new_queue INBOUND_Q_LOG no_message) (new_queue OUTBOUND_Q_LOG no_message)
    (Connection.Connection 0 (MkHooks true true true)) LAMBDA_INSERT_BASE LAMBDA_CANCEL_BASE 0
    false false false ShadowOrderBook.ShadowOrderBook state (OrderManager.OrderManager 0).

Definition set_queues (s : t) (inbound outbound : Queue) (connection : Connection.t) : t :=
  Make s.(rng_) inbound outbound connection s.(lambda_insert_) s.(lambda_cancel_) s.(last_tick_)
    s.(running_) s.(inbound_drain_scheduled_) s.(outbound_paused_) s.(shadow_order_book_) s.(state_)
    s.(order_manager_).
Definition set_flags (s : t) (running scheduled paused : bool) : t :=
  Make s.(rng_) s.(inbound_) s.(outbound_) s.(connection_) s.(lambda_insert_) s.(lambda_cancel_) s.(last_tick_)
    running scheduled paused s.(shadow_order_book_) s.(state_) s.(order_manager_).
Definition set_model (s : t) (book : ShadowOrderBook.t) (state : SimulationState.t) : t :=
  Make s.(rng_) s.(inbound_) s.(outbound_) s.(connection_) s.(lambda_insert_) s.(lambda_cancel_) s.(last_tick_)
    s.(running_) s.(inbound_drain_scheduled_) s.(outbound_paused_) book state s.(order_manager_).
Definition set_manager (s : t) (m : OrderManager.t Q) : t :=
  Make s.(rng_) s.(inbound_) s.(outbound_) s.(connection_) s.(lambda_insert_) s.(lambda_cancel_) s.(last_tick_)
    s.(running_) s.(inbound_drain_scheduled_) s.(outbound_paused_) s.(shadow_order_book_) s.(state_) m.
Definition set_rates (s : t) (insert cancel : double) : t :=
  Make s.(rng_) s.(inbound_) s.(outbound_) s.(connection_) insert cancel s.(last_tick_)
    s.(running_) s.(inbound_drain_scheduled_) s.(outbound_paused_) s.(shadow_order_book_) s.(state_)
    s.(order_manager_).
Definition set_rng (s : t) (rng : G) : t :=
  Make rng s.(inbound_) s.(outbound_) s.(connection_) s.(lambda_insert_) s.(lambda_cancel_) s.(last_tick_)
    s.(running_) s.(inbound_drain_scheduled_) s.(outbound_paused_) s.(shadow_order_book_) s.(state_)
    s.(order_manager_).
Definition set_last_tick (s : t) (now : Z) : t :=
  Make s.(rng_) s.(inbound_) s.(outbound_) s.(connection_) s.(lambda_insert_) s.(lambda_cancel_) now
    s.(running_) s.(inbound_drain_scheduled_) s.(outbound_paused_) s.(shadow_order_book_) s.(state_)
    s.(order_manager_).

(** *** Sending *)

(** [connection_.send_message] *)
Definition send (type : MessageType) (payload : bytes) (s : t) : outcome (t * list SimCall) :=
  '(connection, outbound, effs) ←
    Connection.send_message s.(connection_) s.(outbound_) (MessageType_to_u8 type) payload;
  Done (set_queues s s.(inbound_) outbound connection, map on_connection effs).

(** What the order manager does with its connection and its timer. *)
Fixpoint perform (acts : list Action) (s : t) : outcome (t * list SimCall) :=
  match acts with
  | [] => Done (s, [])
  | send_cancel payload :: acts =>
      '(s, calls) ← send CANCEL_ORDER (payload_bytes (PCancelOrder payload)) s;
      '(s, calls') ← perform acts s;
      Done (s, calls ++ calls')
  | a :: acts =>
      '(s, calls) ← perform acts s;
      Done (s, order_timer a :: calls)
  end.

Definition run_manager (m : outcome (OrderManager.t Q * list Action)) (s : t) : outcome (t * list SimCall) :=
  '(m, acts) ← m;
  perform acts (set_manager s m).

(** *** Messages *)

(** [on_message]; [now] is the clock an acknowledgement reads. *)
Definition on_message (message_type : Message_t) (payload : bytes) (now : Z) (s : t)
    : outcome (t * list SimCall) :=
  match MessageType_of_u8 message_type with
  | PRICE_LEVEL_UPDATE =>
      let update := decode PayloadPriceLevelUpdate.layout payload in
      Done (set_model s (ShadowOrderBook.on_price_level_update s.(shadow_order_book_) update) s.(state_), [])
  | TRADE_EVENT =>
      let trade := decode PayloadTradeEvent.layout payload in
      Done (set_model s s.(shadow_order_book_) (SimulationState.on_trade trade s.(state_)), [])
  | CONFIRM_ORDER_INSERTED =>
      let insert_confirmation := decode PayloadConfirmOrderInserted.layout payload in
      run_manager (OrderManager.on_insert_acknowledged insert_confirmation now s.(order_manager_)) s
  | PARTIAL_FILL_ORDER =>
      let partial_fill := decode PayloadPartialFill.layout payload in
      Done (set_manager s (OrderManager.on_partial_fill partial_fill s.(order_manager_)), [])
  | _ => Done (s, [])
  end.

(** [on_large_message], of a buffer that is not null. *)
Definition on_large_message (message_type : Message_t) (buf : bytes) (s : t) : t :=
  match MessageType_of_u8 message_type with
  | ORDER_BOOK_SNAPSHOT =>
      if negb (length buf =? size_of PayloadOrderBookSnapshot.layout)%nat then s
      else
        let snap := decode PayloadOrderBookSnapshot.layout buf in
        set_model s (ShadowOrderBook.on_order_book_snapshot s.(shadow_order_book_) snap) s.(state_)
  | _ => s
  end.

(** [drain_inbound_bounded], [clock i] being what message [i] reads. *)
Fixpoint drain_inbound_bounded (max_msgs : nat) (i : nat) (clock : nat → Z) (s : t)
    : outcome (t * list SimCall) :=
  match max_msgs with
  | O => Done (s, [])
  | S max_msgs =>
      '(msg, inbound) ← try_pop INBOUND_Q_LOG s.(inbound_);
      let s := set_queues s inbound s.(outbound_) s.(connection_) in
      match msg with
      | None => Done (s, [])
      | Some msg =>
          '(s, calls) ← on_message msg.(message_type) msg.(msg_payload) (clock i) s;
          '(s, calls') ← drain_inbound_bounded max_msgs (S i) clock s;
          Done (s, calls ++ calls')
      end
  end.

Definition schedule_inbound_drain_ (s : t) : t * list SimCall :=
  if s.(inbound_drain_scheduled_) then (s, [])
  else (set_flags s s.(running_) true s.(outbound_paused_), [post_inbound_drain]).

(** The task [schedule_inbound_drain_] posts. *)
Definition run_inbound_drain (clock : nat → Z) (s : t) : outcome (t * list SimCall) :=
  '(s, calls) ← drain_inbound_bounded MESSAGES_PER_DRAIN 0 clock
                  (set_flags s s.(running_) false s.(outbound_paused_));
  if s.(running_) && negb (size_approx s.(inbound_) =? 0) then
    let '(s, calls') := schedule_inbound_drain_ s in
    Done (s, calls ++ calls')
  else Done (s, calls).

(** The hooks [inbound_ready] and [disconnected] of the connection. *)
Definition inbound_ready (s : t) : t * list SimCall :=
  if negb s.(running_) then (s, []) else schedule_inbound_drain_ s.

Definition disconnected (s : t) : t * list SimCall :=
  (set_flags s false s.(inbound_drain_scheduled_) s.(outbound_paused_), [event_timer_cancel; call_on_shutdown]).

(** *** Orders *)

Definition generate_insert (s : t) : outcome (t * list SimCall) :=
  let request_id := s.(order_manager_).(OrderManager.client_request_id_) in
  let s := set_manager s (OrderManager.set_request s.(order_manager_) (u32 (request_id + 1))) in
  '(insert, rng) ← MarketDynamics.decide_insert s.(state_) (OrderManager.cumulative_hazard s.(order_manager_)) s.(rng_);
  let s := set_rng s rng in
  let payload := make_insert_order request_id insert.(InsertDecision.side) insert.(InsertDecision.price)
                   insert.(InsertDecision.quantity) insert.(InsertDecision.lifespan) in
  let s := set_manager s (OrderManager.register_pending_insert request_id
                            insert.(InsertDecision.cancellation_hazard_mass) s.(order_manager_)) in
  send INSERT_ORDER (payload_bytes (PInsertOrder payload)) s.

Fixpoint generate_inserts (k : nat) (s : t) : outcome (t * list SimCall) :=
  match k with
  | O => Done (s, [])
  | S k =>
      '(s, calls) ← generate_insert s;
      '(s, calls') ← generate_inserts k s;
      Done (s, calls ++ calls')
  end.

(** The test on [outbound_paused_] for an outbound queue of [out_depth]. *)
Definition paused_next (paused : bool) (out_depth : Z) : bool :=
  let paused := if negb paused && (HIGH_OUTBOUND_Q_SIZE <=? out_depth) then true else paused in
  if paused then if out_depth <=? LOW_OUTBOUND_Q_SIZE then false else true else false.

(** The clamped time since the last tick. *)
Definition tick_length (s : t) (t0 : Z) : double :=
  let dt := OrderManager.seconds (t0 - s.(last_tick_)) in
  let dt := if (dt <? fzero)%double then fzero else dt in
  if (dec 25 2 <? dt)%double then dec 25 2 else dt.

(** The handler of [schedule_tick]: the clock is read by the drained messages, for
    [t0], and twice by the order manager.  The timer is armed again at the end. *)
Definition tick (ec : bool) (clock : nat → Z) (t0 now now' : Z) (s : t) : outcome (t * list SimCall) :=
  if ec || negb s.(running_) then Done (s, [])
  else
    '(s, calls1) ← (if negb (size_approx s.(inbound_) =? 0)
                    then drain_inbound_bounded MESSAGES_PER_DRAIN 0 clock s else Done (s, []));
    let dt := tick_length s t0 in
    let s := set_last_tick s t0 in
    state ← SimulationState.sync_with_book s.(shadow_order_book_) dt s.(state_);
    let s := set_model s s.(shadow_order_book_) state in
    '(s, calls2) ← run_manager (OrderManager.update_cancel_rate s.(lambda_cancel_) now now' s.(order_manager_)) s;
    '(insert, cancel) ← MarketDynamics.update_intensity s.(state_) (OrderManager.open_order_count s.(order_manager_));
    let s := set_rates s insert cancel in
    let out_depth := size_approx s.(outbound_) in
    let s := set_flags s s.(running_) s.(inbound_drain_scheduled_) (paused_next s.(outbound_paused_) out_depth) in
    if s.(outbound_paused_) then Done (s, calls1 ++ calls2 ++ [event_timer_wait])
    else
      let mean := (s.(lambda_insert_) * dt)%double in
      let '(k, rng) := poisson mean s.(rng_) in
      '(s, calls3) ← generate_inserts (Z.to_nat k) (set_rng s rng);
      Done (s, calls1 ++ calls2 ++ calls3 ++ [event_timer_wait]).

(** [start], the task it posts, and [stop] with the task it dispatches. *)
Definition start (s : t) : t * list SimCall :=
  (set_flags s true s.(inbound_drain_scheduled_) s.(outbound_paused_), [connection_async_read; post_first_tick]).

Definition first_tick (now : Z) (s : t) : t * list SimCall := (set_last_tick s now, [event_timer_wait]).

Definition stop (s : t) : t * list SimCall :=
  (set_flags s false s.(inbound_drain_scheduled_) s.(outbound_paused_), [event_timer_cancel; connection_close]).
End simulator.
Arguments t : clear implicits.
End MarketSimulator.
