(* ===== verification/SimulatorTheorems.v ===== *)
(** What the simulator's handlers guarantee: messages are handled in the order of
    the queue, a bounded number at a time, whatever their bytes; and insertion
    stops and resumes with the depth of the outbound queue. *)

From Stdlib Require Import SpecFloat.
From S2P Require Import Prelude Types Codec Payloads Protocol SpscQueue Connection ConnectionRead Doubles Pcg32 ShadowBook OrderManager OrderManagerTheorems MarketState MarketDynamics MarketTheorems Simulator.
Import MarketSimulator.

Section simulator.
Context `{Libm, Distributions} {G : Type} `{RNG G} {Q : Type} `{HQ : LawfulQueue Q}.
Implicit Types (s : MarketSimulator.t G Q).

(** What messages do to the shadow book and to the derived state. *)
Definition book_message (b : ShadowOrderBook.t) (msg : QueuedMessage) : ShadowOrderBook.t :=
  match MessageType_of_u8 msg.(message_type) with
  | PRICE_LEVEL_UPDATE =>
      ShadowOrderBook.on_price_level_update b (decode PayloadPriceLevelUpdate.layout msg.(msg_payload))
  | _ => b
  end.
Definition state_message (st : SimulationState.t) (msg : QueuedMessage) : SimulationState.t :=
  match MessageType_of_u8 msg.(message_type) with
  | TRADE_EVENT => SimulationState.on_trade (decode PayloadTradeEvent.layout msg.(msg_payload)) st
  | _ => st
  end.

(** [s'] differs from [s] only in what messages change: the inbound queue, the
    book, the state and the orders of the manager, which sends nothing. *)
Record handled s s' : Prop := MkHandled {
  hd_rng : s'.(rng_) = s.(rng_);
  hd_outbound : s'.(outbound_) = s.(outbound_);
  hd_connection : s'.(connection_) = s.(connection_);
  hd_rates : s'.(lambda_insert_) = s.(lambda_insert_) ∧ s'.(lambda_cancel_) = s.(lambda_cancel_);
  hd_tick : s'.(last_tick_) = s.(last_tick_);
  hd_flags : s'.(running_) = s.(running_) ∧ s'.(inbound_drain_scheduled_) = s.(inbound_drain_scheduled_) ∧
    s'.(outbound_paused_) = s.(outbound_paused_);
  hd_request : s'.(order_manager_).(OrderManager.client_request_id_) =
    s.(order_manager_).(OrderManager.client_request_id_)
}.

Lemma handled_refl s : handled s s.
Proof. by split. Qed.

Lemma handled_trans s1 s2 s3 : handled s1 s2 → handled s2 s3 → handled s1 s3.
Proof. intros [? ? ? [] ? (? & ? & ?) ?] [? ? ? [] ? (? & ? & ?) ?]. split; repeat split; congruence. Qed.

Lemma handled_manager s m :
  m.(OrderManager.client_request_id_) = s.(order_manager_).(OrderManager.client_request_id_) →
  handled s (set_manager s m).
Proof. intros E. by split. Qed.

Lemma perform_quiet acts s : cancels acts = [] → perform acts s = Done (s, map order_timer acts).
Proof.
  revert s. induction acts as [|a acts IH]; intros s Hc; [done|].
  destruct a; cbn in Hc; try discriminate; cbn [perform]; by rewrite IH.
Qed.

(** A handler of the manager that reschedules. *)
Lemma run_reschedule m now s :
  om_ok m → m.(OrderManager.client_request_id_) = s.(order_manager_).(OrderManager.client_request_id_) →
  ∃ s' calls, run_manager (OrderManager.reschedule_next_expiry now m) s = Done (s', calls) ∧ handled s s' ∧
    om_ok s'.(order_manager_) ∧ s'.(inbound_) = s.(inbound_) ∧
    s'.(shadow_order_book_) = s.(shadow_order_book_) ∧ s'.(state_) = s.(state_).
Proof.
  intros Hm Er. destruct (reschedule_ok now m Hm) as (m' & acts & -> & Hm' & [Er' _ _ _] & Hc & _).
  unfold run_manager. run_bind. rewrite perform_quiet by done. eexists _, _. split; [reflexivity|].
  split; [|done]. apply handled_manager. by rewrite Er'.
Qed.

Lemma on_message_ok msg now s :
  om_ok s.(order_manager_) →
  ∃ s' calls, on_message msg.(message_type) msg.(msg_payload) now s = Done (s', calls) ∧ handled s s' ∧
    om_ok s'.(order_manager_) ∧ s'.(inbound_) = s.(inbound_) ∧
    s'.(shadow_order_book_) = book_message s.(shadow_order_book_) msg ∧
    s'.(state_) = state_message s.(state_) msg.
Proof.
  intros Hm. unfold on_message, book_message, state_message.
  destruct (MessageType_of_u8 (message_type msg));
    try (eexists _, _; split; [reflexivity|]; split; [by split | done]).
  - unfold OrderManager.on_insert_acknowledged. destruct (OrderManager.pending_inserts_ _ !! _) as [threshold|] eqn:Ep.
    + apply run_reschedule; [|done]. apply (acknowledged_ok _ _ threshold _ Hm Ep).
    + unfold run_manager. run_bind. eexists _, _. split; [reflexivity|]. split; [by split | done].
  - eexists _, _. split; [reflexivity|]. split; [apply handled_manager; unfold OrderManager.on_partial_fill; by destruct (_ <? _)|].
    split; [by apply partial_fill_ok | done].
Qed.

Lemma drain_inbound_ok n i clock s items :
  holds INBOUND_Q_LOG s.(inbound_) items → om_ok s.(order_manager_) →
  ∃ s' calls, drain_inbound_bounded n i clock s = Done (s', calls) ∧ handled s s' ∧ om_ok s'.(order_manager_) ∧
    holds INBOUND_Q_LOG s'.(inbound_) (drop n items) ∧
    s'.(shadow_order_book_) = foldl book_message s.(shadow_order_book_) (take n items) ∧
    s'.(state_) = foldl state_message s.(state_) (take n items).
Proof.
  revert i s items. induction n as [|n IH]; intros i s items HI Hm; cbn [drain_inbound_bounded].
  { exists s, []. split; [done|]. split; [by split|]. done. }
  destruct (try_pop_ok _ inbound_log _ _ HI) as (q' & -> & HI'). run_bind.
  destruct items as [|msg items]; cbn [head tail drop take foldl] in *.
  - eexists _, []. split; [reflexivity|]. split; [by split | done].
  - set (s0 := set_queues s q' _ _).
    destruct (on_message_ok msg (clock i) s0) as (s1 & calls1 & -> & Hh1 & Hm1 & Hin1 & Hb1 & Hs1); [done|]. run_bind.
    destruct (IH (S i) s1 items) as (s2 & calls2 & -> & Hh2 & Hm2 & Hin2 & Hb2 & Hs2); [by rewrite Hin1 | done |].
    run_bind. eexists _, _. split; [reflexivity|].
    split; [eapply handled_trans; [|exact Hh2]; eapply handled_trans; [|exact Hh1]; by split|].
    split; [done|]. split; [done|]. by rewrite Hb2, Hb1, Hs2, Hs1.
Qed.

(** The posted drain. *)
Lemma run_drain_ok s items clock :
  holds INBOUND_Q_LOG s.(inbound_) items → om_ok s.(order_manager_) →
  ∃ s' calls, run_inbound_drain clock s = Done (s', calls) ∧
    holds INBOUND_Q_LOG s'.(inbound_) (drop 2000 items) ∧
    s'.(shadow_order_book_) = foldl book_message s.(shadow_order_book_) (take 2000 items) ∧
    s'.(state_) = foldl state_message s.(state_) (take 2000 items) ∧
    s'.(outbound_) = s.(outbound_) ∧ s'.(connection_) = s.(connection_) ∧ om_ok s'.(order_manager_) ∧
    s'.(inbound_drain_scheduled_) = s.(running_) && (2000 <? Z.of_nat (length items)) ∧
    (s'.(inbound_drain_scheduled_) = true → last calls = Some post_inbound_drain).
Proof.
  intros HI Hm. unfold run_inbound_drain.
  destruct (drain_inbound_ok MESSAGES_PER_DRAIN 0 clock (set_flags s (running_ s) false (outbound_paused_ s)) items HI Hm)
    as (s' & calls & -> & HH & Hm' & HI' & Hb & Hst). run_bind.
  rewrite (holds_size _ inbound_log _ _ HI').
  destruct HH as [_ Ho Hc _ _ (Er & Es & Ep) _]. cbn in Er, Es, Ep, Ho, Hc.
  change MESSAGES_PER_DRAIN with 2000%nat in *. rewrite length_drop, Er.
  destruct (running_ s) eqn:Erun; cbn [andb].
  - destruct (Z.eqb_spec (Z.of_nat (length items - 2000)) 0) as [E|E]; cbn [negb].
    + exists s', calls. repeat (split; [done|]). split; [rewrite Es; symmetry; apply Z.ltb_ge; lia|].
      rewrite Es. discriminate.
    + unfold schedule_inbound_drain_. rewrite Es. eexists _, _. split; [reflexivity|]. cbn.
      repeat (split; [done|]). split; [symmetry; apply Z.ltb_lt; lia|]. intros _. apply last_snoc.
  - exists s', calls. repeat (split; [done|]). rewrite Es. discriminate.
Qed.

(** ** Ticks *)

Lemma paused_spec paused out_depth :
  paused_next paused out_depth = (HIGH_OUTBOUND_Q_SIZE <=? out_depth) || (paused && (LOW_OUTBOUND_Q_SIZE <? out_depth)).
Proof.
  assert (LOW_OUTBOUND_Q_SIZE < HIGH_OUTBOUND_Q_SIZE) by (vm_compute; reflexivity).
  unfold paused_next. destruct paused; cbn [negb andb].
  - destruct (out_depth <=? LOW_OUTBOUND_Q_SIZE) eqn:E1, (HIGH_OUTBOUND_Q_SIZE <=? out_depth) eqn:E2,
      (LOW_OUTBOUND_Q_SIZE <? out_depth) eqn:E3; cbn; lia.
  - destruct (HIGH_OUTBOUND_Q_SIZE <=? out_depth) eqn:E2; [|done].
    destruct (out_depth <=? LOW_OUTBOUND_Q_SIZE) eqn:E1; cbn; [lia | done].
Qed.

(** What a sequence of insertions leaves alone, and the ids it uses. *)
Lemma send_keeps type payload s s' calls :
  send type payload s = Done (s', calls) →
  s'.(order_manager_) = s.(order_manager_) ∧ s'.(outbound_paused_) = s.(outbound_paused_) ∧
  s'.(lambda_insert_) = s.(lambda_insert_).
Proof.
  unfold send. destruct (Connection.send_message _ _ _ _) as [[[c q] effs]| |]; [|done..]. run_bind. by intros [= <- _].
Qed.

Lemma generate_insert_keeps s s' calls :
  generate_insert s = Done (s', calls) →
  s'.(order_manager_).(OrderManager.client_request_id_) = u32 (s.(order_manager_).(OrderManager.client_request_id_) + 1) ∧
  s'.(outbound_paused_) = s.(outbound_paused_) ∧ s'.(lambda_insert_) = s.(lambda_insert_).
Proof.
  unfold generate_insert. cbv zeta.
  destruct (MarketDynamics.decide_insert _ _ _) as [[d rng]| |]; [|done..]. run_bind. intros E.
  apply send_keeps in E as (E1 & E2 & E3). by rewrite E1, E2, E3.
Qed.

Lemma generate_inserts_keeps k s s' calls :
  is_u32 s.(order_manager_).(OrderManager.client_request_id_) →
  generate_inserts k s = Done (s', calls) →
  s'.(order_manager_).(OrderManager.client_request_id_) =
    u32 (s.(order_manager_).(OrderManager.client_request_id_) + Z.of_nat k) ∧
  s'.(outbound_paused_) = s.(outbound_paused_) ∧ s'.(lambda_insert_) = s.(lambda_insert_).
Proof.
  revert s calls. induction k as [|k IH]; intros s calls Hr; cbn [generate_inserts].
  { intros [= <- _]. by rewrite Z.add_0_r, u32_small. }
  destruct (generate_insert s) as [[s1 calls1]| |] eqn:E1; [|done..]. run_bind.
  apply generate_insert_keeps in E1 as (Er & Ep & El).
  destruct (generate_inserts k s1) as [[s2 calls2]| |] eqn:E2; [|done..]. run_bind. intros [= <- _].
  apply IH in E2 as (Er2 & Ep2 & El2); [|rewrite Er; auto with machine]. rewrite Er2, Ep2, El2, Er, Ep, El, u32_add_l.
  split; [f_equal; lia | done].
Qed.

Lemma update_rate_ok lambda now now' s :
  om_ok s.(order_manager_) →
  ∃ s' calls, run_manager (OrderManager.update_cancel_rate lambda now now' s.(order_manager_)) s = Done (s', calls) ∧
    handled s s' ∧ om_ok s'.(order_manager_) ∧ s'.(inbound_) = s.(inbound_) ∧
    s'.(shadow_order_book_) = s.(shadow_order_book_) ∧ s'.(state_) = s.(state_).
Proof. intros Hm. unfold OrderManager.update_cancel_rate. apply run_reschedule; [by destruct Hm | done]. Qed.

Lemma state_messages_bounds st msgs :
  (foldl state_message st msgs).(SimulationState.liq_state_) = st.(SimulationState.liq_state_).
Proof.
  revert st. induction msgs as [|msg msgs IH]; intros st; [done|]. cbn [foldl]. rewrite IH. unfold state_message.
  destruct (MessageType_of_u8 _); try done. unfold SimulationState.on_trade.
  destruct (_ =? 0); [done|]. by destruct (fle _ _).
Qed.

(** The first part of a tick: the messages are drained if there are any. *)
Lemma tick_drain_ok clock s items :
  holds INBOUND_Q_LOG s.(inbound_) items → om_ok s.(order_manager_) →
  ∃ s' calls, (if negb (size_approx s.(inbound_) =? 0)
               then drain_inbound_bounded MESSAGES_PER_DRAIN 0 clock s else Done (s, [])) = Done (s', calls) ∧
    handled s s' ∧ om_ok s'.(order_manager_) ∧
    s'.(shadow_order_book_) = foldl book_message s.(shadow_order_book_) (take MESSAGES_PER_DRAIN items) ∧
    s'.(state_) = foldl state_message s.(state_) (take MESSAGES_PER_DRAIN items).
Proof.
  intros HI Hm. rewrite (holds_size _ inbound_log _ _ HI). destruct (negb _) eqn:E.
  - destruct (drain_inbound_ok MESSAGES_PER_DRAIN 0 clock s items HI Hm) as (s' & calls & -> & H3 & H4 & _ & H5 & H6).
    by exists s', calls.
  - apply negb_false_iff, Z.eqb_eq in E. destruct items; [|done].
    exists s, []. split; [done|]. split; [by split|]. done.
Qed.

(** The part of a tick between the state and the intensities. *)
Lemma tick_rate_ok s s1 t0 now now' :
  handled s s1 → om_ok s1.(order_manager_) →
  ∀ state, ∃ s2 calls,
    run_manager (OrderManager.update_cancel_rate s1.(lambda_cancel_) now now' s1.(order_manager_))
      (set_model (set_last_tick s1 t0) s1.(shadow_order_book_) state) = Done (s2, calls) ∧
    s2.(outbound_) = s.(outbound_) ∧ s2.(outbound_paused_) = s.(outbound_paused_) ∧
    s2.(order_manager_).(OrderManager.client_request_id_) = s.(order_manager_).(OrderManager.client_request_id_) ∧
    s2.(state_) = state ∧ s2.(rng_) = s.(rng_).
Proof.
  intros [Eg1 Ho1 _ _ _ (_ & _ & Ep1) Er1] Hm state. set (s1' := set_model _ _ state).
  destruct (update_rate_ok (lambda_cancel_ s1) now now' s1' Hm) as (s2 & calls & E & HH2 & _ & _ & _ & Est).
  exists s2, calls. split; [exact E|]. destruct HH2 as [Eg2 Ho2 _ _ _ (_ & _ & Ep2) Er2].
  rewrite Ho2, Ep2, Er2, Est, Eg2. cbn. by rewrite Ho1, Ep1, Er1, Eg1.
Qed.

Lemma intensity_total st n :
  st.(SimulationState.liq_state_).(LiquidityState.bid_volumes) ≠ [] →
  st.(SimulationState.liq_state_).(LiquidityState.ask_volumes) ≠ [] →
  ∃ insert cancel, MarketDynamics.update_intensity st n = Done (insert, cancel).
Proof.
  intros Hb Ha. unfold MarketDynamics.update_intensity. cbv zeta.
  destruct (_ && _); [|by run_bind; eexists _, _].
  unfold MarketDynamics.near_volume, MarketDynamics.front.
  destruct (LiquidityState.bid_volumes _) as [|b bs]; [done|].
  destruct (LiquidityState.ask_volumes _) as [|a as_]; [done|]. cbn [head deref]. run_bind. by eexists _, _.
Qed.
End simulator.

(** ** Guarantees *)

(** The simulator reads its messages in order and leaves none behind.  Whatever
    bytes the queued messages hold, a drain ends; it handles exactly the oldest
    messages, at most 2000, in the order of the queue, each by its type, and the
    others stay queued; the shadow book and the derived state are what these
    messages make of them; and another drain is posted when messages remain and
    the simulator runs. *)
Theorem inbound_drained_in_order `{Libm, Distributions} {G : Type} `{RNG G} {Q : Type} `{LawfulQueue Q}
    (s : MarketSimulator.t G Q) items clock :
  holds INBOUND_Q_LOG s.(inbound_) items → om_ok s.(order_manager_) →
  ∃ s' calls, run_inbound_drain clock s = Done (s', calls) ∧
    holds INBOUND_Q_LOG s'.(inbound_) (drop 2000 items) ∧
    s'.(shadow_order_book_) = foldl book_message s.(shadow_order_book_) (take 2000 items) ∧
    s'.(state_) = foldl state_message s.(state_) (take 2000 items) ∧
    s'.(outbound_) = s.(outbound_) ∧ om_ok s'.(order_manager_) ∧
    s'.(inbound_drain_scheduled_) = s.(running_) && (2000 <? Z.of_nat (length items)) ∧
    (s'.(inbound_drain_scheduled_) = true → last calls = Some post_inbound_drain).
Proof.
  intros HI Hm. destruct (run_drain_ok s items clock HI Hm) as (s' & calls & E & HI' & Hb & Hst & Ho & _ & Hm' & Hs & Hc).
  by exists s', calls.
Qed.

(** C36: insertion follows the depth of the outbound queue.  A tick of a running
    simulator that returns stops inserting when the queue holds at least 85 % of
    its capacity, goes on stopping until it holds at most 70 %, and otherwise
    inserts; while stopped it sends nothing and uses no request id; an inserting
    tick uses as many request ids as it draws orders, at the rate the tick computed
    over the time since the last tick.  A stopped tick
    does return, when the book has prices of the exchange.  Every tick that returns
    arms the timer again. *)
Theorem tick_backpressure `{Libm, Distributions} {G : Type} `{RNG G} {Q : Type} `{LawfulQueue Q}
    (s : MarketSimulator.t G Q) items clock t0 now now' :
  holds INBOUND_Q_LOG s.(inbound_) items → om_ok s.(order_manager_) → s.(running_) = true →
  let depth := size_approx s.(outbound_) in
  let stopped := (HIGH_OUTBOUND_Q_SIZE <=? depth) || (s.(outbound_paused_) && (LOW_OUTBOUND_Q_SIZE <? depth)) in
  let id := s.(order_manager_).(OrderManager.client_request_id_) in
  (∀ s' calls, tick false clock t0 now now' s = Done (s', calls) →
     s'.(outbound_paused_) = stopped ∧ last calls = Some event_timer_wait ∧
     if stopped then s'.(outbound_) = s.(outbound_) ∧ s'.(order_manager_).(OrderManager.client_request_id_) = id
     else let orders := fst (poisson (s'.(lambda_insert_) * tick_length s t0)%double s.(rng_)) in
          s'.(order_manager_).(OrderManager.client_request_id_) = u32 (id + Z.max 0 orders)) ∧
  (stopped = true →
   feeding_ok (Synced (foldl book_message s.(shadow_order_book_) (take 2000 items)) fzero) →
   Forall exact_int s.(state_).(SimulationState.liq_state_).(LiquidityState.bucket_bounds) →
   s.(state_).(SimulationState.liq_state_).(LiquidityState.bucket_bounds) ≠ [] →
   ∃ s' calls, tick false clock t0 now now' s = Done (s', calls)).
Proof.
  intros HI Hm Hrun depth stopped id. unfold tick. rewrite Hrun. cbn [orb negb].
  destruct (tick_drain_ok clock s items HI Hm) as (s1 & calls1 & -> & HH1 & Hm1 & Hb1 & Hs1). run_bind.
  cbn [shadow_order_book_ set_last_tick state_ order_manager_ lambda_cancel_ set_model].
  set (dt := tick_length s1 t0).
  set (state1 := SimulationState.sync_with_book (shadow_order_book_ s1) dt (state_ s1)).
  assert (Hmgr := tick_rate_ok s s1 t0 now now' HH1 Hm1).
  assert (tick_length s1 t0 = tick_length s t0) as Hdt by (unfold tick_length; by rewrite (hd_tick _ _ HH1)).
  split.
  - intros s' calls. destruct state1 as [state| |]; [|done..]. run_bind.
    destruct (Hmgr state) as (s2 & calls2 & -> & Ho & Ep & Er & Est & Eg). run_bind.
    destruct (MarketDynamics.update_intensity _ _) as [[ins can]| |]; [|done..]. run_bind.
    cbn [outbound_paused_ set_flags set_rates outbound_ rng_ lambda_insert_ running_ inbound_drain_scheduled_].
    rewrite Ho, Ep, Eg, paused_spec. fold depth. change (_ || _) with stopped. destruct stopped eqn:Estop.
    + intros [= <- <-]. split; [done|]. split; [by rewrite app_assoc, last_snoc|]. by split.
    + destruct (poisson _ _) as [k rng] eqn:Epo.
      destruct (generate_inserts (Z.to_nat k) _) as [[s3 calls3]| |] eqn:E3; [|done..]. run_bind.
      intros [= <- <-]. apply generate_inserts_keeps in E3 as (E1 & E2 & E4); [|cbn; rewrite Er; apply Hm].
      rewrite E1, E2, E4. cbn. rewrite Er. split; [done|]. split; [by rewrite !app_assoc, last_snoc|].
      unfold dt in Epo. rewrite Hdt in Epo. rewrite Epo. cbn. do 2 f_equal. lia.
  - intros Hstop Hbook Hbounds Hne. unfold state1.
    change 2000%nat with MESSAGES_PER_DRAIN in Hbook. rewrite <- Hb1 in Hbook.
    assert ((state_ s1).(SimulationState.liq_state_) = (state_ s).(SimulationState.liq_state_)) as Hliq
      by (rewrite Hs1; apply state_messages_bounds).
    destruct (sync_ok (shadow_order_book_ s1) dt (state_ s1) Hbook) as (state & -> & _ & _ & _ & [Hl1 _] & [Hl2 _] & _);
      [by rewrite Hliq|]. run_bind.
    destruct (Hmgr state) as (s2 & calls2 & -> & Ho & Ep & Er & Est & _). run_bind.
    rewrite Hliq in Hl1, Hl2.
    destruct (intensity_total (state_ s2) (OrderManager.open_order_count (order_manager_ s2))) as (ins & can & ->).
    { rewrite Est. intros E. rewrite E in Hl1. by destruct (LiquidityState.bucket_bounds _). }
    { rewrite Est. intros E. rewrite E in Hl2. by destruct (LiquidityState.bucket_bounds _). }
    run_bind. cbn [outbound_paused_ set_flags set_rates outbound_].
    rewrite Ho, Ep, paused_spec. fold depth. change (_ || _) with stopped. rewrite Hstop. by eexists _, _.
Qed.

(** ** Witnesses *)

#[local] Existing Instances some_libm some_distributions some_rng.

(** A running simulator whose queue holds [items]. *)
Definition some_simulator (inbound : Queue) (paused : bool) : MarketSimulator.t pcg32.t (list HazardEntry) :=
  let s := MarketSimulator.MarketSimulator (Q := list HazardEntry) (PCGRNG.PCGRNG 42 54) some_start in
  set_flags (set_queues s inbound s.(outbound_) s.(connection_)) true true paused.

Definition some_update : QueuedMessage :=
  queued 0 (MessageType_to_u8 PRICE_LEVEL_UPDATE)
    (payload_bytes (PPriceLevelUpdate (make_price_level_update 1 SELL 104 7 1))).

Lemma some_simulator_ok inbound paused : om_ok (some_simulator inbound paused).(order_manager_).
Proof. apply new_manager_ok. unfold is_u32. lia. Qed.

Lemma one_message : ∃ q, holds INBOUND_Q_LOG q [some_update].
Proof.
  destruct (try_push_ok _ inbound_log _ [] some_update (new_queue_holds _ inbound_log no_message)) as (q & _ & Hq).
  by exists q.
Qed.

Lemma inbound_drained_in_order_witness :
  ∃ inbound s' calls, run_inbound_drain (λ _, 0) (some_simulator inbound false) = Done (s', calls) ∧
    holds INBOUND_Q_LOG s'.(inbound_) [] ∧ s'.(shadow_order_book_).(ShadowOrderBook.asks_) = {[ 104 := 7 ]} ∧
    s'.(inbound_drain_scheduled_) = false.
Proof.
  destruct one_message as [inbound HI].
  destruct (inbound_drained_in_order (some_simulator inbound false) [some_update] (λ _, 0) HI
    (some_simulator_ok inbound false)) as (s' & calls & E & HI' & Hb & _ & _ & _ & Hs & _).
  exists inbound, s', calls. split; [exact E|]. split; [exact HI'|].
  split; [rewrite Hb; vm_compute; reflexivity | rewrite Hs; reflexivity].
Defined.

(** An outbound queue of which nothing was popped yet. *)
Definition full_queue : Queue := MkSPSCQueue OUTBOUND_Q_CAP 0 (new_queue OUTBOUND_Q_LOG no_message).(buffer_).

Lemma some_update_ok :
  feeding_ok (Synced (foldl book_message ShadowOrderBook.ShadowOrderBook (take 2000 [some_update])) fzero).
Proof.
  assert (foldl book_message ShadowOrderBook.ShadowOrderBook (take 2000 [some_update]) =
    ShadowOrderBook.Make ∅ {[ 104 := 7 ]}) as -> by (vm_compute; reflexivity).
  intros [] price volume; cbn; [|by intros ?%lookup_empty_Some].
  intros [<- _]%lookup_singleton_Some. unfold MINIMUM_BID, MAXIMUM_ASK. lia.
Qed.

Lemma tick_backpressure_witness :
  ∃ inbound s' calls,
    let s := some_simulator inbound false in
    let s := set_queues s inbound full_queue s.(connection_) in
    tick false (λ _, 0) 1000000 2000000 3000000 s = Done (s', calls) ∧
    s'.(outbound_paused_) = true ∧ s'.(outbound_) = full_queue.
Proof.
  destruct one_message as [inbound HI]. exists inbound.
  set (s := set_queues (some_simulator inbound false) inbound full_queue (connection_ (some_simulator inbound false))).
  destruct (tick_backpressure s [some_update] (λ _, 0) 1000000 2000000 3000000 HI (some_simulator_ok inbound false) eq_refl)
    as [Hret Htot].
  destruct Htot as (s' & calls & E); [vm_compute; reflexivity | apply some_update_ok | apply some_bounds_ok | discriminate |].
  exists s', calls. split; [exact E|]. destruct (Hret s' calls E) as (Ep & _ & F).
  assert ((HIGH_OUTBOUND_Q_SIZE <=? size_approx s.(outbound_)) = true) as Hd by (vm_compute; reflexivity).
  rewrite Hd in Ep, F. destruct F as [Eo _]. split; [exact Ep | exact Eo].
Defined.
