(* ===== verification/MarketFeed.v ===== *)
(** The market data from the exchange to the simulator: what the exchange sends a
    subscriber goes through its connection, the byte stream between the two ends
    and the connection and queue of the simulator into the shadow book. *)

From S2P Require Import Prelude Types OrderBook BookSpec BookRep BookRefinement Codec Payloads Protocol SpscQueue Connection ConnectionRead ConnectionWrite ConnectionBytes Exchange ExchangeCalls ExchangeSession ExchangeFeed ExchangeTheorems ExchangeLife Doubles Pcg32 ShadowBook ShadowTheorems OrderManager OrderManagerTheorems MarketState MarketDynamics MarketTheorems Simulator SimulatorTheorems.

(** ** What the exchange sends *)

Section sent.
Import Exchange.

Lemma publication_sendable seq trade e m : publication seq trade e = Some m → sendable m.
Proof.
  destruct e; intros [= <-]; (split; [split; cbn; lia|]); split; by apply Nat.leb_le.
Qed.

Lemma private_sendable trade e : Forall (λ x, sendable x.2) (private trade e).
Proof.
  pose proof (private_sized trade e) as Hs.
  assert (Forall (λ x : Id_t * Message, is_byte x.2.1 ∧
    (payload_size_for_type (MessageType_of_u8 x.2.1) <= MAX_PAYLOAD_SIZE_BUFFER)%nat) (private trade e)) as Hb.
  { destruct e; cbn [private]; repeat (apply Forall_cons_2; [|]); try apply Forall_nil_2;
      (split; [split; cbn; lia | by apply Nat.leb_le]). }
  rewrite Forall_forall in *. intros x Hx. destruct (Hb x Hx). split; [done|]. split; [done | by apply Hs].
Qed.

Lemma sent_to_elem c calls m :
  m ∈ sent_to c calls → ∃ d, call_send_message d m.1 m.2 ∈ calls.
Proof.
  unfold sent_to. rewrite list_elem_of_omap. intros (call & Hin & E). destruct call; try done.
  destruct (_ =? _); [|done]. injection E as <-. by eexists.
Qed.

Lemma calls_of_sendable x evs d type payload :
  call_send_message d type payload ∈ calls_of x evs → sendable (type, payload).
Proof.
  revert x. induction evs as [|e evs IH]; intros x; [by intros ?%elem_of_nil|]. cbn [calls_of].
  rewrite !elem_of_app. intros [[Hin|Hin]|Hin]; [| |by eapply IH].
  - unfold send_private in Hin. apply list_elem_of_In, in_concat in Hin as (l & Hl & Hin).
    apply in_map_iff in Hl as ([client [type' payload']] & <- & Hm). apply list_elem_of_In in Hm.
    destruct (connected x client); [|done]. destruct Hin as [[= _ <- <-]|[]].
    pose proof (private_sendable x.(trade_id_) e) as H. rewrite Forall_forall in H. apply (H _ Hm).
  - destruct (publication _ _ e) as [[type' payload']|] eqn:E; [|by apply elem_of_nil in Hin].
    cbn [send_public] in Hin. apply elem_of_app in Hin as [Hin|Hin%list_elem_of_singleton]; [|done].
    apply list_elem_of_fmap in Hin as (d' & [= _ <- <-] & _). by eapply publication_sendable.
Qed.

Lemma run_inputs_sendable x A ins x' calls c :
  exchange_ok x A → Forall valid_input ins → A.(a_next_id) + Z.of_nat (length ins) < 2 ^ 32 →
  run_inputs x ins = Done (x', calls) → Forall sendable (sent_to c calls).
Proof.
  intros HE Hv. revert x A calls HE. induction Hv as [|i ins Hi _ IH]; intros x A calls HE Hid;
    cbn [run_inputs length] in *; [by intros [= _ <-]|].
  assert (∃ x1 calls1 A1, handle_input x i = Done (x1, calls1) ∧ exchange_ok x1 A1 ∧
    A1.(a_next_id) <= A.(a_next_id) + 1 ∧ ∀ d type payload, call_send_message d type payload ∈ calls1 →
    sendable (type, payload)) as (x1 & calls1 & A1 & -> & HE1 & Hn1 & Hs1).
  { destruct i as [|msg times]; cbn [handle_input].
    - destruct (accept_ok x A HE) as (x1 & -> & HE1 & _). exists x1, [], A.
      split; [done|]. split; [done|]. split; [lia | by intros ??? ?%elem_of_nil].
    - destruct Hi as [Hw _]. destruct (dispatch_ok x A msg times HE Hw) as (x1 & calls1 & A1 & -> & HE1 & Hd & Hn);
        [lia|]. exists x1, calls1, A1. split; [done|]. split; [done|]. split; [done|]. intros d type payload Hin.
      destruct Hd; [by eapply calls_of_sendable | destruct (connected _ _) in Hin |
        | |]; try by apply elem_of_nil in Hin.
      all: by apply list_elem_of_singleton in Hin. }
  run_bind. destruct (run_inputs x1 ins) as [[x2 calls2]| |] eqn:E2; [|done..]. run_bind. intros [= -> <-].
  rewrite sent_to_app. apply Forall_app. split; [|eapply (IH x1 A1); [done | lia | exact E2]].
  apply Forall_forall. intros [type payload] (d & Hd)%sent_to_elem. by eapply Hs1.
Qed.

End sent.

(** ** The simulator's end *)

(** A read that completes, and a drain that runs. *)
Inductive Delivery :=
  | Read (data : bytes)
  | Drain (clock : nat → Z).

Definition read_bytes (ds : list Delivery) : bytes :=
  concat (omap (λ d, match d with Read data => Some data | Drain _ => None end) ds).

Definition short_reads (d : Delivery) : Prop :=
  match d with Read data => Z.of_nat (length data) <= READ_SIZE | Drain _ => True end.

Section simulator.
Import MarketSimulator.
Context `{Libm, Distributions} {G : Type} `{RNG G} {Q : Type} `{LawfulQueue Q}.
Implicit Types (s : MarketSimulator.t G Q).

(** [handle_read_] of the simulator's connection, and the drain it posts. *)
Definition deliver s (d : Delivery) : outcome (MarketSimulator.t G Q) :=
  match d with
  | Read data =>
      '(conn, inbound, _) ← Connection.handle_read_ s.(connection_) s.(inbound_) (Some data);
      Done (set_queues s inbound s.(outbound_) conn)
  | Drain clock =>
      '(s, _) ← run_inbound_drain clock s;
      Done s
  end.

Fixpoint deliver_all s (ds : list Delivery) : outcome (MarketSimulator.t G Q) :=
  match ds with
  | [] => Done s
  | d :: ds => s ← deliver s d; deliver_all s ds
  end.

Lemma deliver_app s ds ds' :
  deliver_all s (ds ++ ds') = (s' ← deliver_all s ds; deliver_all s' ds').
Proof.
  revert s. induction ds as [|d ds IH]; intros s; [done|]. cbn [app deliver_all].
  destruct (deliver s d); run_bind; [apply IH | done | done].
Qed.

(** The messages of the bytes [D]. *)
Definition arrived (D : bytes) : list QueuedMessage := map (delivered 0) (frames D).1.

(** After the bytes [D], of which [k] messages are handled. *)
Record receiving (b0 : ShadowOrderBook.t) s (D : bytes) (k : nat) : Prop := MkReceiving {
  rc_idle : idle s.(connection_);
  rc_id : s.(connection_).(Connection.id_) = 0;
  rc_rest : s.(connection_).(Connection.in_accum_) = (frames D).2;
  rc_handled : (k <= length (arrived D))%nat;
  rc_queue : holds INBOUND_Q_LOG s.(inbound_) (drop k (arrived D));
  rc_book : s.(shadow_order_book_) = foldl book_message b0 (take k (arrived D));
  rc_manager : om_ok s.(order_manager_)
}.

Lemma arrived_app D data :
  arrived (D ++ data) = arrived D ++ map (delivered 0) (frames ((frames D).2 ++ data)).1.
Proof.
  unfold arrived. rewrite frames_app. destruct (frames D) as [fs lft]. cbn [snd fst].
  destruct (frames (lft ++ data)). cbn [fst]. by rewrite map_app.
Qed.

Lemma read_ok b0 s D k data :
  receiving b0 s D k → Z.of_nat (length data) <= READ_SIZE →
  Forall bufferable (frames (D ++ data)).1 →
  Z.of_nat (length (arrived (D ++ data))) <= CapacityPow2 INBOUND_Q_LOG →
  ∃ s', deliver s (Read data) = Done s' ∧ receiving b0 s' (D ++ data) k.
Proof.
  intros [Hi Hid Hr Hk HQ Hb Hm] Hd Hf Hl. cbn [deliver].
  pose proof (handle_read_ok s.(connection_) s.(inbound_) _ data Hi HQ Hd) as HR.
  rewrite Hr in HR. rewrite arrived_app in *. rewrite frames_app in Hf.
  assert ((frames (D ++ data)).2 = (frames ((frames D).2 ++ data)).2) as Hrest
    by (rewrite frames_app; destruct (frames D) as [? l]; cbn [snd]; by destruct (frames (l ++ data))).
  destruct (frames D) as [fs0 lft0] eqn:ED. cbn [snd] in *. destruct (frames (lft0 ++ data)) as [fs lft] eqn:Efs.
  cbn [fst snd] in *. apply Forall_app in Hf as [_ Hf].
  rewrite length_app, length_map in Hl.
  rewrite taken_all in HR by (done || (unfold room_left; rewrite length_drop; lia)).
  destruct HR as (c' & inbox' & effs & -> & HQ' & Hid' & _ & _ & _ & Ho & _). destruct (Ho eq_refl) as [Hi' Hr'].
  run_bind. eexists. split; [reflexivity|]. rewrite Hid in HQ', Hid'.
  split; cbn; try done; rewrite ?arrived_app, ?ED; cbn [snd]; rewrite ?Efs; cbn [fst].
  - by rewrite Hrest.
  - rewrite length_app. lia.
  - by rewrite drop_app_le by lia.
  - by rewrite take_app_le by lia.
Qed.

Lemma drain_arrived_ok b0 s D k clock :
  receiving b0 s D k →
  ∃ s', deliver s (Drain clock) = Done s' ∧ receiving b0 s' D (Nat.min (k + 2000) (length (arrived D))).
Proof.
  intros [Hi Hid Hr Hk HQ Hb Hm]. cbn [deliver].
  destruct (run_drain_ok s _ clock HQ Hm) as (s' & calls & -> & HQ' & Hb' & _ & _ & Hc & Hm' & _). run_bind.
  exists s'. split; [done|]. rewrite drop_drop in HQ'. rewrite Hb, <- foldl_app, take_take_drop in Hb'.
  destruct (decide (k + 2000 <= length (arrived D))%nat) as [Hle|Hgt].
  - rewrite Nat.min_l by done. split; rewrite ?Hc; done.
  - rewrite Nat.min_r by lia. rewrite drop_ge in HQ' by lia. rewrite take_ge in Hb' by lia.
    split; rewrite ?Hc, ?drop_all, ?firstn_all; done.
Qed.

Lemma deliver_all_ok b0 s D k ds :
  receiving b0 s D k → Forall short_reads ds →
  Forall bufferable (frames (D ++ read_bytes ds)).1 →
  Z.of_nat (length (arrived (D ++ read_bytes ds))) <= CapacityPow2 INBOUND_Q_LOG →
  ∃ s' k', deliver_all s ds = Done s' ∧ receiving b0 s' (D ++ read_bytes ds) k' ∧ (k <= k')%nat.
Proof.
  intros HR Hs. revert s D k HR. induction Hs as [|d ds Hd _ IH]; intros s D k HR; cbn [deliver_all].
  { unfold read_bytes. cbn. rewrite app_nil_r. intros _ _. by exists s, k. }
  destruct d as [data|clock].
  - change (read_bytes (Read data :: ds)) with (data ++ read_bytes ds). rewrite app_assoc. intros Hf Hl.
    destruct (read_ok b0 s D k data HR Hd) as (s1 & -> & HR1).
    + rewrite frames_app in Hf. destruct (frames (D ++ data)) as [fs lft].
      destruct (frames (lft ++ read_bytes ds)). by apply Forall_app in Hf as [? _].
    + rewrite arrived_app, length_app in Hl. lia.
    + run_bind. by apply (IH s1 (D ++ data) k).
  - change (read_bytes (Drain clock :: ds)) with (read_bytes ds). intros Hf Hl.
    destruct (drain_arrived_ok b0 s D k clock HR) as (s1 & -> & HR1). run_bind.
    destruct (IH s1 D _ HR1 Hf Hl) as (s2 & k2 & -> & HR2 & Hk2). exists s2, k2. split; [done|]. split; [done|].
    pose proof (rc_handled _ _ _ _ HR). lia.
Qed.

(** Enough drains handle all that arrived. *)
Lemma drains_ok b0 s D k clocks :
  receiving b0 s D k → (length (arrived D) <= k + 2000 * length clocks)%nat →
  ∃ s', deliver_all s (map Drain clocks) = Done s' ∧ receiving b0 s' D (length (arrived D)).
Proof.
  revert s k. induction clocks as [|clock clocks IH]; intros s k HR Hl; cbn [map deliver_all length] in *.
  { exists s. split; [done|]. pose proof (rc_handled _ _ _ _ HR).
    by replace (length (arrived D)) with k by lia. }
  destruct (drain_arrived_ok b0 s D k clock HR) as (s1 & -> & HR1). run_bind.
  apply (IH s1 _ HR1). lia.
Qed.
End simulator.

(** ** What the shadow book makes of it *)

Lemma plu_prefixed : Prefixed PayloadPriceLevelUpdate.layout.
Proof. apply struct_prefixed, _. Qed.

Lemma delivered_receive b m : sendable m → book_message b (delivered 0 (on_wire m)) = receive b m.
Proof.
  intros (_ & Hq & Hl). unfold book_message, receive, delivered, on_wire, queued. cbn [fst snd message_type msg_payload].
  destruct (MessageType_of_u8 m.1) eqn:E; try done.
  - exfalso. apply Nat.leb_le in Hq. discriminate Hq.
  - f_equal. assert (length (take (payload_size_for_type PRICE_LEVEL_UPDATE) m.2) = size_of PayloadPriceLevelUpdate.layout)
      as Hlen by (rewrite length_take; change (payload_size_for_type PRICE_LEVEL_UPDATE)
                  with (size_of PayloadPriceLevelUpdate.layout) in *; lia).
    rewrite (decode_app (Prefixed := plu_prefixed)) by lia.
    rewrite <- (take_drop (payload_size_for_type PRICE_LEVEL_UPDATE) m.2) at 2.
    by rewrite (decode_app (Prefixed := plu_prefixed)) by lia.
Qed.

Lemma received_all b ms :
  Forall sendable ms → foldl book_message b (map (delivered 0) (map on_wire ms)) = foldl receive b ms.
Proof.
  intros H. revert b. induction H as [|m ms Hm _ IH]; intros b; [done|]. cbn [map foldl].
  by rewrite delivered_receive, IH.
Qed.

(** Answers to the client's own requests do not concern the book. *)
Lemma receive_feed b c calls :
  Forall sendable (sent_to c calls) → foldl receive b (sent_to c calls) = foldl receive b (feed_to c calls).
Proof.
  unfold feed_to. generalize (sent_to c calls) as ms. intros ms H. revert b.
  induction H as [|m ms (_ & Hq & _) _ IH]; intros b; [done|]. rewrite filter_cons. cbn [foldl].
  destruct (decide (is_public m = true)) as [Hp|Hp]; [apply IH|]. rewrite <- IH. f_equal.
  unfold receive, is_public in *. destruct (MessageType_of_u8 m.1); try done. exfalso. apply Nat.leb_le in Hq. discriminate Hq.
Qed.

(** ** Guarantees *)

(** C10: the simulator sees the exchange's book.  Take a client that is connected
    and subscribed once, and a simulator whose shadow book holds the levels of the
    exchange's book.  When the client's connection accepts what the exchange sends
    it during a session and has written it out, and the simulator's connection
    reads those bytes, cut into reads in any way and with drains of its queue in
    between, then after enough drains the shadow book holds exactly the levels with
    volume of the exchange's book and its best prices are the exchange's; as long
    as the messages fit the simulator's queue. *)
Theorem market_data_arrives `{Libm, Distributions} {G : Type} `{RNG G} {Q : Type} `{LawfulQueue Q}
    (before ins : list Input) (c : Id_t) x calls0 x' calls hooks zero (w : System)
    (s : MarketSimulator.t G Q) hooks' (ds : list Delivery) clocks :
  Forall valid_input (before ++ ins) → Z.of_nat (length (before ++ ins)) < 2 ^ 32 → is_u32 c →
  run_inputs Exchange.Exchange before = Done (x, calls0) → listening x c = true → forallb (stays c) ins = true →
  run_inputs x ins = Done (x', calls) →
  write_reachable c hooks zero w → quiet w → w.(accepted) = map (as_queued c) (sent_to c calls) →
  s.(MarketSimulator.connection_) = Connection.Connection 0 hooks' →
  holds INBOUND_Q_LOG s.(MarketSimulator.inbound_) [] → om_ok s.(MarketSimulator.order_manager_) →
  mirrors s.(MarketSimulator.shadow_order_book_) x.(Exchange.order_book_) →
  Forall short_reads ds → read_bytes ds = w.(wire) →
  Z.of_nat (length (sent_to c calls)) <= CapacityPow2 INBOUND_Q_LOG →
  (length (sent_to c calls) <= 2000 * length clocks)%nat →
  ∃ s', deliver_all s (ds ++ map Drain clocks) = Done s' ∧
    let b := s'.(MarketSimulator.shadow_order_book_) in
    mirrors b x'.(Exchange.order_book_) ∧
    (∀ p, ShadowOrderBook.best_bid_price b = Some p ↔ is_best x'.(Exchange.order_book_) true p) ∧
    (∀ p, ShadowOrderBook.best_ask_price b = Some p ↔ is_best x'.(Exchange.order_book_) false p).
Proof.
  intros [Hv1 Hv2]%Forall_app Hl Hc E Hlis Hst E' HW Hquiet Hacc Hconn HQ Hm Hb Hds Hwire Hcap Hclocks.
  rewrite length_app in Hl. destruct (session_ok before Hv1) as (y & calls1 & A & E1 & HE & Hn); [lia|].
  rewrite E in E1. injection E1 as <- <-.
  destruct (session_fed x A c ins HE Hc Hv2) as (x1 & calls1 & A' & E1 & HE' & _ & HF); [lia | done | done |].
  rewrite E' in E1. injection E1 as <- <-.
  assert (Forall sendable (sent_to c calls)) as Hsend by (apply (run_inputs_sendable x A ins x' calls c HE Hv2); [lia | done]).
  destruct (write_reachable_inv _ _ _ _ HW) as [items HI].
  assert (frames (read_bytes ds) = (map on_wire (sent_to c calls), [])) as Hfr
    by (rewrite Hwire, (quiet_wire w items HI Hquiet), Hacc; by apply stream_frames).
  assert (arrived (read_bytes ds) = map (delivered 0) (map on_wire (sent_to c calls))) as Harr
    by (unfold arrived; by rewrite Hfr).
  assert (receiving s.(MarketSimulator.shadow_order_book_) s [] 0) as HR0
    by (split; rewrite ?Hconn; try done; by split; [|left|]).
  destruct (deliver_all_ok _ s [] 0 ds HR0 Hds) as (s1 & k & E1 & HR1 & _); cbn [app];
    [rewrite Hfr; apply Forall_map; eapply Forall_impl; [exact Hsend|]; intros m Hs;
       unfold bufferable; rewrite on_wire_length by done; apply Hs
    | rewrite Harr, !length_map; done |].
  destruct (drains_ok _ s1 _ k clocks HR1) as (s2 & E2 & HR2); [cbn [app]; rewrite Harr, !length_map; lia|].
  exists s2. rewrite deliver_app, E1. split; [exact E2|]. cbv zeta.
  pose proof (rc_book _ _ _ _ HR2) as Hbook. cbn [app] in Hbook. rewrite firstn_all, Harr, received_all in Hbook by done.
  assert (mirrors s2.(MarketSimulator.shadow_order_book_) x'.(Exchange.order_book_)) as HM; [|split; [done | by apply mirrors_best]].
  apply (mirrors_holds _ _ _ (eo_book _ _ HE')). rewrite Hbook.
  apply (mirrors_holds _ _ _ (eo_book _ _ HE)), (fed_holds _ _ _ _ _ _ _ HF) in Hb.
  by rewrite <- receive_feed in Hb.
Qed.

#[local] Existing Instances some_libm some_distributions some_rng.

Definition new_simulator : MarketSimulator.t pcg32.t (list HazardEntry) :=
  MarketSimulator.MarketSimulator (PCGRNG.PCGRNG 42 54) some_start.

Definition traded : Exchange.t * list Call := result_of (run_inputs opened.1 trading).

Lemma traded_run : run_inputs opened.1 trading = Done (traded.1, traded.2).
Proof.
  assert (match run_inputs opened.1 trading with Done _ => true | _ => false end = true) as H
    by (vm_compute; reflexivity).
  unfold traded. by destruct (run_inputs opened.1 trading) as [[x calls]| |].
Qed.

(** The connection of client 1 when all it was sent is written. *)
Lemma traded_written :
  ∃ w, write_reachable 1 (MkHooks true false true) (queued 0 0 []) w ∧ quiet w ∧
    w.(accepted) = map (as_queued 1) (sent_to 1 traded.2).
Proof.
  apply all_written; [|vm_compute; congruence].
  destruct (session_ok opening) as (x & calls & A & E & HE & Hn); [apply check_input_ok; vm_compute; reflexivity | vm_compute; reflexivity |].
  rewrite opened_run in E. apply Done_pair in E as [<- <-].
  eapply Forall_impl; [apply (run_inputs_sendable opened.1 A trading traded.1 traded.2 1 HE)|].
  - apply check_input_ok. vm_compute. reflexivity.
  - cbn [length opening trading] in *. lia.
  - apply traded_run.
  - by intros m [_ ?].
Qed.

(** The bytes arrive in two parts, with a drain in between. *)
Lemma market_data_arrives_witness :
  ∃ w s', w.(accepted) = map (as_queued 1) (sent_to 1 traded.2) ∧
    deliver_all new_simulator [Read (take 5 w.(wire)); Drain (λ _, 0); Read (drop 5 w.(wire)); Drain (λ _, 0)] = Done s' ∧
    mirrors s'.(MarketSimulator.shadow_order_book_) traded.1.(Exchange.order_book_).
Proof.
  destruct traded_written as (w & HW & Hq & Ha).
  assert (length (stream w.(accepted)) <= 1000)%nat as Hlen by (rewrite Ha; apply Nat.leb_le; vm_compute; reflexivity).
  destruct (write_reachable_inv _ _ _ _ HW) as [items HI].
  assert (length w.(wire) <= 1000)%nat as Hw by (rewrite (quiet_wire w items HI Hq); exact Hlen).
  destruct (market_data_arrives opening trading 1 opened.1 opened.2 traded.1 traded.2 (MkHooks true false true)
    (queued 0 0 []) w new_simulator (MkHooks true true true)
    [Read (take 5 w.(wire)); Drain (λ _, 0); Read (drop 5 w.(wire))] [λ _, 0]) as (s' & E & M & _).
  - apply check_input_ok. vm_compute. reflexivity.
  - vm_compute. reflexivity.
  - vm_compute. split; congruence.
  - exact opened_run.
  - vm_compute. reflexivity.
  - vm_compute. reflexivity.
  - exact traded_run.
  - exact HW.
  - exact Hq.
  - exact Ha.
  - reflexivity.
  - apply new_queue_holds. apply inbound_log.
  - apply new_manager_ok. unfold is_u32. lia.
  - rewrite opened_book. apply empty_mirrors.
  - unfold READ_SIZE. repeat constructor; cbn [short_reads]; unfold READ_SIZE; rewrite ?length_take, ?length_drop; lia.
  - cbn. rewrite app_nil_r. apply take_drop.
  - vm_compute. congruence.
  - apply Nat.leb_le. vm_compute. reflexivity.
  - exists w, s'. split; [exact Ha|]. split; [exact E | exact M].
Defined.
