(* ===== verification/Trader.v ===== *)
(** The simulator with its connection and its socket: the reads that complete, the
    tasks and timers that run, and the writes, as steps in any order.

    A step is one handler of [simulator.hpp], or one of [connectivity.cpp] with
    what its hooks do.  [simulator.hpp] shares its order manager and its
    connection between them; the bytes it writes are what the exchange reads. *)

From Stdlib Require Import SpecFloat.
From S2P Require Import Prelude Types Codec Payloads Protocol SpscQueue Connection ConnectionWrite Doubles Pcg32 ShadowBook OrderManager MarketState MarketDynamics Simulator.
Import MarketSimulator.

Module Trader.
Section trader.
Context `{Libm, Distributions} {G : Type} `{RNG G} {Q : Type} `{PriorityQueue Q}.

(** [drains] drains of the writing side are posted, [inflight] is what the socket
    was given and has not completed, [wire] what it has written. *)
Record t := Make {
  sim : MarketSimulator.t G Q;
  drains : nat;
  inflight : option bytes;
  wire : bytes
}.

(** The constructed simulator. *)
Definition fresh (rng : G) (state : SimulationState.t) : t :=
  Make (MarketSimulator.MarketSimulator rng state) 0 None [].

Inductive Event :=
  | Reads (data : bytes)
  | ReadFails
  | RunReady
  | InboundDrain (clock : nat → Z)
  | Tick (ec : bool) (clock : nat → Z) (t0 now now' : Z)
  | Expiry (aborted : bool) (now now' : Z)
  | Start
  | FirstTick (now : Z)
  | Stop
  | RunDrain
  | Wrote (n : nat).

(** What the calls of a handler ask of the connection. *)
Definition effects_of (calls : list SimCall) : list Effect :=
  omap (λ call, match call with on_connection e => Some e | _ => None end) calls.

(** The delays a handler gave the timer of the order manager: converting one that
    is too long is undefined. *)
Fixpoint delays (calls : list SimCall) : outcome (list Z) :=
  match calls with
  | [] => Done []
  | order_timer (timer_async_wait delay) :: calls =>
      ns ← delay;
      ds ← delays calls;
      Done (ns :: ds)
  | _ :: calls => delays calls
  end.

Definition post (w : t) (res : outcome (MarketSimulator.t G Q * list SimCall)) : outcome t :=
  '(s, calls) ← res;
  _ ← delays calls;
  let '(drains, inflight) := foldl absorb (w.(drains), w.(inflight)) (effects_of calls) in
  Done (Make s drains inflight w.(wire)).

(** The hooks, and the buffer of a large message.  A disconnection also stops the
    event loop, after which no step happens. *)
Definition hook (s : MarketSimulator.t G Q) (e : Effect) : MarketSimulator.t G Q :=
  match e with
  | call_large_message type payload => on_large_message type payload s
  | call_disconnected => (disconnected s).1
  | call_inbound_ready => (inbound_ready s).1
  | _ => s
  end.

Definition reading (w : t) (res : outcome (Connection.t * Queue * list Effect)) : outcome t :=
  '(conn, inbound, effs) ← res;
  Done (Make (foldl hook (set_queues w.(sim) inbound w.(sim).(outbound_) conn) effs) w.(drains) w.(inflight) w.(wire)).

(** A handler of the writing side: [n] drains are posted and [data] is in flight
    before it. *)
Definition writing (w : t) (n : nat) (data : option bytes) (written : bytes)
    (res : outcome (Connection.t * Queue * list Effect)) : outcome t :=
  '(conn, outbound, effs) ← res;
  let '(drains, inflight) := foldl absorb (n, data) effs in
  Done (Make (set_queues w.(sim) w.(sim).(inbound_) outbound conn) drains inflight (w.(wire) ++ written)).

Definition step (w : t) (e : Event) : outcome t :=
  let s := w.(sim) in
  let conn := s.(connection_) in
  match e with
  | Reads data => reading w (Connection.handle_read_ conn s.(inbound_) (Some data))
  | ReadFails => reading w (Connection.handle_read_ conn s.(inbound_) None)
  | RunReady =>
      let '(conn, effs) := Connection.run_inbound_ready conn in reading w (Done (conn, s.(inbound_), effs))
  | InboundDrain clock => post w (run_inbound_drain clock s)
  | Tick ec clock t0 now now' => post w (tick ec clock t0 now now' s)
  | Expiry aborted now now' =>
      post w (run_manager (OrderManager.fire_next_expiry aborted now now' s.(order_manager_)) s)
  | Start => post w (Done (start s))
  | FirstTick now => post w (Done (first_tick now s))
  | Stop => post w (Done (stop s))
  | RunDrain => writing w (w.(drains) - 1) w.(inflight) [] (Connection.drain_writes_ conn s.(outbound_))
  | Wrote n =>
      writing w w.(drains) None (take n (default [] w.(inflight)))
        (Connection.handle_write_ conn s.(outbound_) (Some n))
  end.

(** A drain that is posted runs, a write that is in flight makes progress. *)
Definition enabled (w : t) (e : Event) : bool :=
  match e with
  | RunDrain => (0 <? w.(drains))%nat
  | Wrote n => match w.(inflight) with Some data => (0 <? n)%nat && (n <=? length data)%nat | None => false end
  | _ => true
  end.

Fixpoint run (w : t) (es : list Event) : outcome t :=
  match es with
  | [] => Done w
  | e :: es => w ← step w e; run w es
  end.

Fixpoint possible (w : t) (es : list Event) : bool :=
  match es with
  | [] => true
  | e :: es => enabled w e && match step w e with Done w => possible w es | _ => true end
  end.

(** The socket has been given everything and has written it. *)
Definition written_out (w : t) : bool :=
  (w.(drains) =? 0)%nat && match w.(inflight) with None => true | Some _ => false end.

(** Bytes are bytes. *)
Definition valid_event (e : Event) : Prop :=
  match e with Reads data => Forall is_byte data | _ => True end.
End trader.
Arguments t : clear implicits.
End Trader.
