(* ===== verification/TraderTheorems.v ===== *)
(** What the simulator sends is what the exchange can execute: every byte it
    writes belongs to the frame of a typed request, and the engine executes these
    requests. *)

From Stdlib Require Import SpecFloat.
From S2P Require Import Prelude Types OrderBook BookSpec BookRep Codec Payloads Protocol SpscQueue Connection ConnectionRead ConnectionWrite ConnectionBytes Exchange ExchangeCalls ExchangeEvents ExchangeSession ExchangeTheorems Server ServerTheorems OrderFlow Doubles Pcg32 ShadowBook ShadowTheorems OrderManager OrderManagerTheorems MarketState MarketDynamics MarketTheorems DynamicsTheorems Simulator SimulatorTheorems Trader.
Import MarketSimulator.

(** ** Orders that are decided *)

Lemma in_i64_range z z' : in_i64 z = Done z' → z' = z ∧ is_i64 z.
Proof. unfold in_i64. destruct (_ && _) eqn:E; [|done]. intros [= <-]. split; [done | unfold is_i64; lia]. Qed.

(** The best prices of the view are 64-bit prices. *)
Definition view_typed (ps : PriceState.t) : Prop :=
  (∀ p, ps.(PriceState.best_bid) = Some p → is_i64 p) ∧ (∀ p, ps.(PriceState.best_ask) = Some p → is_i64 p).

(** What the simulator asks for: orders that are good for the day, and cancels. *)
Definition simulated (r : ClientRequest) : Prop :=
  typed_request r ∧
  match r with
  | Place p => p.(PayloadInsertOrder.lifespan) = Lifespan_to_u8 GOOD_FOR_DAY
  | Withdraw _ => True
  | Resize _ => False
  end.

Section decisions.
Context `{Libm} {G : Type} `{RNG G}.
Import MarketDynamics.

Lemma marketable_typed ps side anchor price dist :
  view_typed ps → marketable_price ps side anchor = Done (price, dist) → is_i64 price.
Proof.
  intros [Hb Ha] E. unfold marketable_price, gap in E.
  assert (∀ z p, in_i64 z = Done p → is_i64 (Z.min MAXIMUM_ASK p) ∧ is_i64 (Z.max MINIMUM_BID p)) as Hclip.
  { intros z p [-> Hz]%in_i64_range. unfold is_i64, MAXIMUM_ASK, MINIMUM_BID in *. lia. }
  destruct side, (PriceState.best_bid ps) as [bid|], (PriceState.best_ask ps) as [ask|];
    try (destruct (in_i64 _) as [p| |] eqn:Ep; [|discriminate E..]; apply Hclip in Ep as [? ?]); run_bind in *;
    injection E as <- _; auto.
Qed.

Lemma improve_typed side bid ask price dist :
  improve_price side bid ask = Done (price, dist) → is_i64 price.
Proof.
  unfold improve_price. destruct (in_i64 (ask - 1)) as [below| |] eqn:E1; [|done..]. run_bind.
  destruct (in_i64 (bid + 1)) as [above| |] eqn:E2; [|done..]. run_bind. intros [= <- _].
  apply in_i64_range in E1 as [-> ?], E2 as [-> ?]. unfold is_i64 in *. destruct side; lia.
Qed.

Lemma stochastic_typed x (rng rng' : G) p : stochastic_round x rng = Done (p, rng') → is_i64 p.
Proof.
  unfold stochastic_round. destruct (standard_uniform rng) as [u r]. unfold to_i64.
  destruct (trunc _) as [z|]; [|done]. destruct (in_i64 z) as [z'| |] eqn:E; [|done..]. run_bind. intros [= <- _].
  by apply in_i64_range in E as [-> ?].
Qed.

Lemma passive_typed ps vs agent side anchor (rng rng' : G) price dist :
  passive_price ps vs agent side anchor rng = Done (price, dist, rng') → is_i64 price.
Proof.
  unfold passive_price. destruct (exponential _ rng) as [d r].
  destruct side; (destruct (stochastic_round _ r) as [[p r']| |] eqn:E; [|done..]); run_bind; intros [= <- _ _];
    apply stochastic_typed in E; unfold is_i64, MINIMUM_BID, MAXIMUM_ASK in *; lia.
Qed.

Lemma choose_typed ps vs agent side drawn anchor (rng rng' : G) regime price dist :
  view_typed ps → choose_price ps vs agent side drawn anchor rng = Done (regime, price, dist, rng') → is_i64 price.
Proof.
  intros Hv. unfold choose_price.
  assert (∀ r, ('(price, dist, rng) ← passive_price ps vs agent side anchor rng; Done (r, price, dist, rng)) =
    Done (regime, price, dist, rng') → is_i64 price) as Hp.
  { intros r. destruct (passive_price _ _ _ _ _ _) as [[[p d] g]| |] eqn:E; [|done..]. run_bind.
    intros [= _ <- _ _]. by eapply passive_typed. }
  destruct drawn; [| |apply Hp].
  - destruct (marketable_price _ _ _) as [[p d]| |] eqn:E; [|done..]. run_bind. intros [= _ <- _ _].
    by eapply marketable_typed.
  - destruct (PriceState.best_bid ps) as [bid|]; [|apply Hp]. destruct (PriceState.best_ask ps) as [ask|]; [|apply Hp].
    destruct (improve_price _ _ _) as [[p d]| |] eqn:E; [|done..]. run_bind. intros [= _ <- _ _].
    by eapply improve_typed.
Qed.

Lemma quantity_typed ln_mu urgency (rng rng' : G) qty :
  draw_quantity ln_mu urgency rng = Done (qty, rng') → is_u32 qty.
Proof.
  unfold draw_quantity. destruct (bernoulli _ rng) as [large r1]. destruct (standard_normal r1) as [z r2].
  destruct (llround _) as [q| |]; [|done..]. run_bind. unfold apply_lot_clustering_.
  destruct (standard_uniform r2) as [u r3]. destruct (flt u _); intros [= <- _]; [auto with machine|].
  destruct (nearest_lot_ok (u32 q)) as [Hin _]. unfold lots in Hin.
  repeat (apply elem_of_cons in Hin as [->|Hin]; [unfold is_u32; lia|]). by apply elem_of_nil in Hin.
Qed.

(** An order that is decided fits the members of its message. *)
Lemma decision_typed state hazard (rng rng' : G) d id :
  view_typed state.(SimulationState.price_state_) → is_u32 id →
  decide_insert state hazard rng = Done (d, rng') →
  simulated (Place (make_insert_order id d.(InsertDecision.side) d.(InsertDecision.price)
                      d.(InsertDecision.quantity) d.(InsertDecision.lifespan))).
Proof.
  intros Hv Hid E. apply decide_stages in E as (? & ? & ? & ? & ? & ? & ? & ? & ? & ? & ? & ? & _ & Hp & Hq & -> & _).
  apply choose_typed in Hp; [|done]. apply quantity_typed in Hq.
  unfold is_i64, is_u32 in *. split; [|done]. cbn. destruct (InsertDecision.side d); cbn; lia.
Qed.
End decisions.

(** ** The order manager *)

Section manager.
Context {Q : Type} `{HQ : LawfulQueue Q}.
Import OrderManager.
Implicit Types (m : OrderManager.t Q).

(** The ids it holds are 32-bit. *)
Definition ids_ok m : Prop :=
  is_u32 m.(client_request_id_) ∧ ∀ e, e ∈ pq_elements m.(expiry_queue_) → is_u32 e.(exchange_order_id).

(** The cancels among its actions are typed requests. *)
Definition typed_cancels (acts : list Action) : Prop := Forall (λ p, simulated (Withdraw p)) (cancels acts).

Lemma prune_loop_sub fuel active (q q' : Q) e :
  prune_loop fuel active q = Done q' → e ∈ pq_elements q' → e ∈ pq_elements q.
Proof.
  revert q. induction fuel as [|fuel IH]; intros q; cbn [prune_loop];
    (destruct (pq_top q) as [top|] eqn:Et; [|by intros [= ->]]); (destruct (decide _); [by intros [= ->]|]); [done|].
  intros E He. eapply pop_in; [exact Et|]. by apply IH.
Qed.

Lemma prune_ids m m' : prune_top_ m = Done m' → ids_ok m → ids_ok m'.
Proof.
  unfold prune_top_. destruct (prune_loop _ _ _) as [q| |] eqn:E; [|done..]. run_bind. intros [= <-] [H1 H2].
  split; [done|]. intros e He. apply H2. by eapply prune_loop_sub.
Qed.

Lemma reschedule_ids now m m' acts :
  reschedule_next_expiry now m = Done (m', acts) → ids_ok m → ids_ok m' ∧ cancels acts = [].
Proof.
  unfold reschedule_next_expiry. intros E Hm. assert (ids_ok (advance_hazard_to_now now m)) as Ha by exact Hm.
  revert E. destruct (fle _ fzero); [intros [= <- <-]; by split|].
  destruct (prune_top_ _) as [m1| |] eqn:E1; [|done..]. run_bind. apply prune_ids in E1; [|done].
  destruct (pq_top _) as [next|]; [|by intros [= <- <-]].
  destruct (fle _ fzero); by intros [= <- <-].
Qed.

Lemma popped_ids m (top : HazardEntry) active :
  pq_top m.(expiry_queue_) = Some top → ids_ok m →
  ids_ok (set_orders m (pq_pop m.(expiry_queue_)) active) ∧ is_u32 top.(exchange_order_id).
Proof.
  intros Et [H1 H2]. split; [split; [done|]|].
  - intros e He. apply H2. by eapply pop_in.
  - apply H2. by apply top_in.
Qed.

Lemma fire_loop_ids fuel m m' acts :
  fire_loop fuel m = Done (m', acts) → ids_ok m → ids_ok m' ∧ typed_cancels acts.
Proof.
  revert m acts. induction fuel as [|fuel IH]; intros m acts; cbn [fire_loop];
    (destruct (pq_top _) as [top|] eqn:Et; [|intros [= <- <-] ?; split; [done | constructor]]);
    (destruct (flt _ _); [intros [= <- <-] ?; split; [done | constructor]|]); [done|].
  intros E Hm. destruct (decide _).
  - set (m1 := set_request m (u32 (client_request_id_ m + 1))) in *.
    assert (ids_ok m1) as Hm1 by (split; [apply is_u32_u32 | apply Hm]).
    destruct (popped_ids m1 top (active_orders_ m1 ∖ {[exchange_order_id top]}) Et Hm1) as [Hm2 Hid].
    destruct (prune_top_ _) as [m3| |] eqn:E3 in E; [|done..]. run_bind in *. apply prune_ids in E3; [|done].
    destruct (fire_loop fuel m3) as [[m4 acts4]| |] eqn:E4; [|done..]. run_bind in *. injection E as <- <-.
    destruct (IH _ _ E4 E3) as [H1 H2]. split; [done|]. unfold typed_cancels. rewrite cancels_send.
    constructor; [|done]. destruct Hm as [Hr _]. unfold is_u32 in *. split; [|done]. cbn. lia.
  - destruct (popped_ids m top (active_orders_ m) Et Hm) as [Hm2 _].
    destruct (prune_top_ _) as [m3| |] eqn:E3 in E; [|done..]. run_bind in *. apply prune_ids in E3; [|done].
    by eapply IH.
Qed.

Lemma fire_ids aborted now now' m m' acts :
  fire_next_expiry aborted now now' m = Done (m', acts) → ids_ok m → ids_ok m' ∧ typed_cancels acts.
Proof.
  unfold fire_next_expiry. destruct aborted; [intros [= <- <-] ?; split; [done | constructor]|]. intros E Hm.
  assert (ids_ok (advance_hazard_to_now now m)) as Ha by exact Hm. revert E.
  destruct (fle _ fzero); [intros [= <- <-]; split; [done | constructor]|].
  destruct (prune_top_ _) as [m1| |] eqn:E1; [|done..]. run_bind. apply prune_ids in E1; [|done].
  destruct (fire_loop _ _) as [[m2 acts2]| |] eqn:E2; [|done..]. run_bind. apply fire_loop_ids in E2 as [H1 H2]; [|done].
  destruct (reschedule_next_expiry _ _) as [[m3 acts3]| |] eqn:E3; [|done..]. run_bind. intros [= <- <-].
  apply reschedule_ids in E3 as [H3 H4]; [|done]. split; [done|]. unfold typed_cancels. by rewrite cancels_app, H4, app_nil_r.
Qed.

Lemma acknowledged_ids msg now m m' acts :
  on_insert_acknowledged msg now m = Done (m', acts) → is_u32 msg.(PayloadConfirmOrderInserted.exchange_order_id) →
  ids_ok m → ids_ok m' ∧ cancels acts = [].
Proof.
  intros E Hid Hm. unfold on_insert_acknowledged in E. destruct (_ !! _) as [threshold|]; [|injection E as <- <-; by split].
  apply reschedule_ids in E; [done|]. destruct Hm as [H1 H2]. split; [done|]. intros e. cbn [expiry_queue_ set_orders].
  rewrite push_elements. intros [->|He]%elem_of_cons; [done | by apply H2].
Qed.
End manager.

(** ** Reads *)

Section reads.
Import Connection.

(** A connection that differs from [c] in its reading half only. *)
Record same_writing (c c' : t) : Prop := MkSameWriting {
  sw_id : c'.(id_) = c.(id_);
  sw_batch : c'.(out_batch_) = c.(out_batch_);
  sw_sent : c'.(out_batch_sent_) = c.(out_batch_sent_);
  sw_progress : c'.(write_in_progress_) = c.(write_in_progress_);
  sw_pending : c'.(write_wakeup_pending_) = c.(write_wakeup_pending_)
}.

Lemma same_writing_refl c : same_writing c c.
Proof. by split. Qed.

Lemma same_writing_trans c1 c2 c3 : same_writing c1 c2 → same_writing c2 c3 → same_writing c1 c3.
Proof. intros [] []. split; congruence. Qed.

Lemma same_writing_inv c c' q n fl wr acc items :
  same_writing c c' → out_inv c q n fl wr acc false items → out_inv c' q n fl wr acc false items.
Proof. intros [_ Eb Es Ep Ew] []. split; rewrite ?Eb, ?Es, ?Ep, ?Ew; done. Qed.

Lemma disconnect_keeps c c' effs :
  notify_disconnect_once_ c = (c', effs) →
  same_writing c c' ∧ c'.(in_accum_) = c.(in_accum_) ∧ Forall (λ e, is_large e = false) effs.
Proof.
  unfold notify_disconnect_once_. destruct (disconnect_notified_ c); intros [= <- <-]; (split; [by split|]; split; [done|]).
  - constructor.
  - by destruct c.(hooks) as [[] ? ?]; repeat constructor.
Qed.

Lemma ready_keeps c c' effs :
  notify_inbound_ready_ c = (c', effs) →
  same_writing c c' ∧ c'.(in_accum_) = c.(in_accum_) ∧ Forall (λ e, is_large e = false) effs.
Proof.
  unfold notify_inbound_ready_. destruct (negb _); [|destruct (inbound_ready_pending_ c)]; intros [= <- <-];
    (split; [by split|]; split; [done|]); by repeat constructor.
Qed.

(** The buffer of a large message holds bytes. *)
Definition large_bytes (e : Effect) : Prop :=
  match e with call_large_message _ payload => Forall is_byte payload | _ => True end.

Lemma not_large effs : Forall (λ e, is_large e = false) effs → Forall large_bytes effs.
Proof. intros Hl. eapply Forall_impl; [exact Hl|]. by intros []. Qed.

Lemma parse_loop_keeps fuel c inbox buf items c' inbox' effs lft :
  parse_loop fuel c inbox buf = Done (c', inbox', effs, lft) →
  holds INBOUND_Q_LOG inbox items → Forall well_formed items → is_u32 c.(id_) → Forall is_byte buf →
  same_writing c c' ∧ c'.(in_accum_) = c.(in_accum_) ∧
  (∃ items', holds INBOUND_Q_LOG inbox' items' ∧ Forall well_formed items') ∧
  Forall large_bytes effs ∧ ∀ rest, lft = Some rest → Forall is_byte rest.
Proof.
  revert c inbox buf items c' inbox' effs lft.
  assert (∀ c (inbox : Queue) items buf, holds INBOUND_Q_LOG inbox items → Forall well_formed items → Forall is_byte buf →
    same_writing c c ∧ c.(in_accum_) = c.(in_accum_) ∧
    (∃ items', holds INBOUND_Q_LOG inbox items' ∧ Forall well_formed items') ∧
    Forall large_bytes [] ∧ ∀ rest, Some buf = Some rest → Forall is_byte rest) as Hstop.
  { intros c inbox items buf HI Hit Hb. split; [by split|]. split; [done|]. split; [by exists items|].
    split; [constructor | by intros rest [= <-]]. }
  assert (∀ c (inbox : Queue) items c' effs, notify_disconnect_once_ c = (c', effs) →
    holds INBOUND_Q_LOG inbox items → Forall well_formed items →
    same_writing c c' ∧ c'.(in_accum_) = c.(in_accum_) ∧
    (∃ items', holds INBOUND_Q_LOG inbox items' ∧ Forall well_formed items') ∧
    Forall large_bytes effs ∧ ∀ rest, None = Some rest → Forall is_byte rest) as Hclose.
  { intros c inbox items c' effs (H1 & H2 & H3)%disconnect_keeps HI Hit. split; [done|]. split; [done|].
    split; [by exists items|]. split; [by apply not_large | done]. }
  induction fuel as [|fuel IH]; intros c inbox buf items c' inbox' effs lft E HI Hit Hid Hb;
    (destruct buf as [|ty [|b0 [|b1 r]]]; cbn [parse_loop] in E; try (injection E as <- <- <- <-; by eapply Hstop));
    (destruct (_ <? _)%nat in E; [injection E as <- <- <- <-; by eapply Hstop|]);
    (destruct (MAX_PAYLOAD_SIZE <? _)%nat in E;
       [destruct (notify_disconnect_once_ c) as [c1 effs1] eqn:En; injection E as <- <- <- <-; by eapply Hclose|]); [done|].
  assert (∀ k, Forall is_byte (take k r)) as Htake.
  { intros k. apply Forall_take. by apply Forall_cons in Hb as [_ [_ [_ Hb]%Forall_cons]%Forall_cons]. }
  pose proof (λ k, Forall_drop _ k _ Hb) as Hdrop.
  destruct (_ <=? _)%nat eqn:Es in E.
  - apply Nat.leb_le in Es.
    set (m := queued (id_ c) ty _) in E. destruct (try_push_ok _ inbound_log inbox items m HI) as (q1 & E1 & HI1).
    rewrite E1 in E. run_bind in *. destruct (bool_decide _).
    + destruct (notify_inbound_ready_ c) as [c1 effs1] eqn:Er. apply ready_keeps in Er as (W1 & A1 & L1).
      destruct (parse_loop fuel c1 q1 _) as [[[[c2 q2] effs2] lft2]| |] eqn:E2 in E; [|discriminate E..]. run_bind in *.
      injection E as <- <- <- <-. eapply IH in E2 as (W2 & A2 & H2 & L2 & R2).
      * split; [by eapply same_writing_trans|]. split; [congruence|]. split; [done|].
        split; [apply Forall_app; split; [by apply not_large | done] | done].
      * exact HI1.
      * apply Forall_app. split; [done|]. apply Forall_singleton. apply queued_well_formed; [done | | done].
        rewrite length_take. lia.
      * by rewrite (sw_id _ _ W1).
      * done.
    + destruct (notify_disconnect_once_ c) as [c1 effs1] eqn:En. injection E as <- <- <- <-. by eapply Hclose.
  - destruct (parse_loop fuel c inbox _) as [[[[c2 q2] effs2] lft2]| |] eqn:E2 in E; [|discriminate E..]. run_bind in *.
    injection E as <- <- <- <-. eapply IH in E2 as (W2 & A2 & H2 & L2 & R2); [|done..].
    split; [done|]. split; [done|]. split; [done|]. split; [|done]. apply Forall_app. split; [|done].
    destruct (large_message_received _); repeat constructor. apply Htake.
Qed.

Lemma handle_read_keeps c inbox read items c' inbox' effs :
  handle_read_ c inbox read = Done (c', inbox', effs) →
  holds INBOUND_Q_LOG inbox items → Forall well_formed items → is_u32 c.(id_) →
  Forall is_byte c.(in_accum_) → Forall is_byte (default [] read) →
  same_writing c c' ∧ Forall is_byte c'.(in_accum_) ∧
  (∃ items', holds INBOUND_Q_LOG inbox' items' ∧ Forall well_formed items') ∧ Forall large_bytes effs.
Proof.
  intros E HI Hit Hid Ha Hd. unfold handle_read_ in E. destruct read as [data|].
  - destruct (if _ <? _ then _ else _) as [cap| |]; [|discriminate E..]. run_bind in *.
    set (c1 := set_in c _ cap) in E. unfold parse_accumulator_ in E.
    destruct (parse_loop _ c1 inbox _) as [[[[c2 q2] effs2] lft]| |] eqn:Ep in E; [|discriminate E..]. run_bind in *.
    assert (Forall is_byte (in_accum_ c1)) as Hb by (by apply Forall_app).
    eapply parse_loop_keeps in Ep as ([] & A2 & H2 & L2 & R2); [|done..].
    destruct lft as [rest|]; run_bind in *; injection E as <- <- <-.
    + split; [by split|]. split; [by apply R2|]. split; [done|]. apply Forall_app. split; [done|].
      destruct (disconnect_notified_ _); by repeat constructor.
    + split; [by split|]. split; [by rewrite A2|]. split; [done|]. apply Forall_app. split; [done|].
      destruct (disconnect_notified_ _); by repeat constructor.
  - destruct (notify_disconnect_once_ c) as [c1 effs1] eqn:En. injection E as <- <- <-.
    apply disconnect_keeps in En as (W & A & L). split; [done|]. split; [by rewrite A|]. split; [by exists items|].
    by apply not_large.
Qed.
End reads.

(** ** Handlers *)

Section handlers.
Context `{Libm, Distributions} {G : Type} `{RNG G} {Q : Type} `{HQ : LawfulQueue Q}.
Implicit Types (s : MarketSimulator.t G Q).

(** What the simulator holds has the types of its members, and what it has not
    handled yet is bytes. *)
Record speaks s : Prop := MkSpeaks {
  sp_ids : ids_ok s.(order_manager_);
  sp_book : all_entries typed_entry s.(shadow_order_book_);
  sp_view : view_typed s.(state_).(SimulationState.price_state_);
  sp_inbound : ∃ items, holds INBOUND_Q_LOG s.(inbound_) items ∧ Forall well_formed items;
  sp_accum : Forall is_byte s.(connection_).(Connection.in_accum_);
  sp_id : s.(connection_).(Connection.id_) = 0
}.

Definition accepted_requests (rs : list ClientRequest) : list QueuedMessage :=
  map (as_queued 0) (map request_message rs).

(** The writing side has accepted the requests [rs]: [n] drains are posted, [fl] is
    in flight, [wr] is written. *)
Definition sent_out s (n : nat) (fl : option bytes) (wr : bytes) (rs : list ClientRequest) : Prop :=
  Forall simulated rs ∧
  ∃ items, out_inv s.(connection_) s.(outbound_) n fl wr (accepted_requests rs) false items.

(** A handler that makes the calls [calls] sends typed requests and nothing else. *)
Definition sends s s' (calls : list SimCall) : Prop :=
  speaks s' ∧ ∀ n fl wr rs, sent_out s n fl wr rs →
    let st := foldl absorb (n, fl) (Trader.effects_of calls) in
    ∃ rs', sent_out s' st.1 st.2 wr (rs ++ rs').

Lemma sends_trans s1 s2 s3 calls calls' :
  sends s1 s2 calls → (speaks s2 → sends s2 s3 calls') → sends s1 s3 (calls ++ calls').
Proof.
  intros [Hs2 H12] H23. destruct (H23 Hs2) as [Hs3 H23']. split; [done|]. intros n fl wr rs HS. cbv zeta.
  destruct (H12 n fl wr rs HS) as (rs1 & HS1). destruct (foldl absorb (n, fl) (Trader.effects_of calls)) as [n1 fl1] eqn:E.
  destruct (H23' _ _ _ _ HS1) as (rs2 & HS2). exists (rs1 ++ rs2). rewrite app_assoc.
  unfold Trader.effects_of in *. by rewrite omap_app, foldl_app, E.
Qed.

(** A handler that leaves the writing side alone. *)
Lemma sends_nothing s s' calls :
  speaks s' → s'.(connection_) = s.(connection_) → s'.(outbound_) = s.(outbound_) →
  Trader.effects_of calls = [] → sends s s' calls.
Proof.
  intros Hs Ec Eo Ee. split; [done|]. intros n fl wr rs [Hrs HI]. rewrite Ee. cbn. exists [].
  rewrite app_nil_r. split; [done|]. by rewrite Ec, Eo.
Qed.

Lemma effects_on_connection effs : Trader.effects_of (map on_connection effs) = effs.
Proof. induction effs as [|e effs IH]; [done|]. cbn. by f_equal. Qed.

Lemma effects_timer acts : Trader.effects_of (map order_timer acts) = [].
Proof. by induction acts. Qed.

Lemma send_request r type payload s s' calls :
  speaks s → simulated r → (MessageType_to_u8 type, payload) = request_message r →
  send type payload s = Done (s', calls) → sends s s' calls.
Proof.
  intros [Hi Hb Hv Hq Ha Hid] Hr Em. unfold send, Connection.send_message.
  destruct (Connection.push_message _ _ _ _) as [[pushed q]| |] eqn:Ep; [|done..]. run_bind.
  assert (∀ n fl wr rs items, out_inv (connection_ s) (outbound_ s) n fl wr (accepted_requests rs) false items →
    ∃ rs' items', out_inv (connection_ s) q n fl wr (accepted_requests (rs ++ rs')) pushed items' ∧
      (Forall simulated rs → Forall simulated (rs ++ rs'))) as Hpush.
  { intros n fl wr rs items HI. pose proof (push_inv _ _ _ _ _ _ _ _ _ _ _ HI Ep) as HP.
    rewrite Hid in HP. cbv zeta in HP. destruct pushed.
    - exists [r], (items ++ [as_queued 0 (request_message r)]). unfold accepted_requests. rewrite !map_app. cbn [map].
      rewrite <- Em. split; [exact HP|]. intros Hrs.
      apply Forall_app. split; [done|]. by apply Forall_singleton.
    - exists [], items. by rewrite app_nil_r. }
  destruct pushed.
  - destruct (Connection.schedule_drain_writes_ _) as [c effs] eqn:Es. run_bind. intros [= <- <-].
    assert (c.(Connection.id_) = 0 ∧ c.(Connection.in_accum_) = (connection_ s).(Connection.in_accum_)) as [Hid' Ha'].
    { unfold Connection.schedule_drain_writes_ in Es. destruct (Connection.write_wakeup_pending_ _); by injection Es as <- _. }
    split; [split; cbn; rewrite ?Ha'; done|]. intros n fl wr rs [Hrs [items HI]]. rewrite effects_on_connection.
    destruct (Hpush _ _ _ _ _ HI) as (rs' & items' & HI' & Hrs'). exists rs'. split; [auto|]. exists items'.
    destruct (foldl absorb (n, fl) effs) as [n' fl'] eqn:Ef. by eapply schedule_inv.
  - run_bind. intros [= <- <-]. split; [by split|]. intros n fl wr rs [Hrs [items HI]].
    destruct (Hpush _ _ _ _ _ HI) as (rs' & items' & HI' & Hrs'). exists rs'. cbn. split; [auto|]. by exists items'.
Qed.

Lemma perform_sends acts s s' calls :
  typed_cancels acts → speaks s → perform acts s = Done (s', calls) → sends s s' calls.
Proof.
  revert s calls. induction acts as [|a acts IH]; intros s calls Ht Hs; cbn [perform].
  { intros [= <- <-]. by apply sends_nothing. }
  assert (typed_cancels acts → ∀ a',
    ('(s, calls) ← perform acts s; Done (s, order_timer a' :: calls)) = Done (s', calls) → sends s s' calls) as Hother.
  { intros Ht' a'. destruct (perform acts s) as [[s1 calls1]| |] eqn:E; [|done..]. run_bind. intros [= <- <-].
    exact (IH _ _ Ht' Hs E). }
  destruct a as [|d| |payload]; [exact (Hother Ht timer_cancel) | exact (Hother Ht (timer_async_wait d)) | exact (Hother Ht post_fire) |].
  unfold typed_cancels in Ht. rewrite cancels_send in Ht. apply Forall_cons in Ht as [Hp Ht].
  destruct (send _ _ s) as [[s1 calls1]| |] eqn:E1; [|done..]. run_bind.
  destruct (perform acts s1) as [[s2 calls2]| |] eqn:E2; [|done..]. run_bind. intros [= <- <-].
  eapply sends_trans; [by eapply (send_request (Withdraw payload))|]. intros Hs1. by apply IH.
Qed.

Lemma run_manager_sends res s s' calls :
  speaks s → (∀ m acts, res = Done (m, acts) → ids_ok m ∧ typed_cancels acts) →
  run_manager res s = Done (s', calls) → sends s s' calls.
Proof.
  intros Hs Hres. unfold run_manager. destruct res as [[m acts]| |]; [|done..]. run_bind. intros E.
  destruct (Hres m acts eq_refl) as [Hm Ht]. destruct Hs.
  apply (perform_sends acts (set_manager s m)) in E; [exact E | exact Ht | by split].
Qed.

Lemma no_cancels acts : cancels acts = [] → typed_cancels acts.
Proof. intros E. unfold typed_cancels. by rewrite E. Qed.

Lemma speaks_model s book state :
  speaks s → all_entries typed_entry book → view_typed state.(SimulationState.price_state_) → speaks (set_model s book state).
Proof. intros [] ? ?. by split. Qed.

Lemma speaks_flags s running scheduled paused : speaks s → speaks (set_flags s running scheduled paused).
Proof. intros []. by split. Qed.

(** Reading a member of a payload that was received. *)
Lemma received_range {A} (c : codec A) `{!Lawful c} msg :
  well_formed msg → (size_of c <= MAX_PAYLOAD_SIZE_BUFFER)%nat → in_range c (decode c msg.(msg_payload)).
Proof. intros (Hl & Hb & _) Hs. apply decode_range; [by rewrite Hl | done]. Qed.

Lemma on_trade_view trade state :
  (SimulationState.on_trade trade state).(SimulationState.price_state_) = state.(SimulationState.price_state_).
Proof. unfold SimulationState.on_trade. destruct (_ =? 0); [done|]. by destruct (fle _ _). Qed.

Lemma update_typed book u :
  all_entries typed_entry book → in_range PayloadPriceLevelUpdate.layout u →
  all_entries typed_entry (ShadowOrderBook.on_price_level_update book u).
Proof.
  intros Hb [[[[_ _] Hp] Hvol] _]. cbn in Hp, Hvol. apply update_entries; [done|]. intros Hne. split; [done | lia].
Qed.

Lemma on_message_sends msg now s s' calls :
  well_formed msg → speaks s →
  on_message msg.(message_type) msg.(msg_payload) now s = Done (s', calls) → sends s s' calls.
Proof.
  intros Hmsg Hs. pose proof Hs as [Hi Hb Hv _ _ _]. unfold on_message.
  destruct (MessageType_of_u8 _); try (intros [= <- <-]; by apply sends_nothing).
  - apply run_manager_sends; [done|]. intros m acts E. eapply acknowledged_ids in E as [H3 H4]; [|clear E|exact Hi].
    { split; [done | by apply no_cancels]. }
    pose proof (received_range PayloadConfirmOrderInserted.layout msg Hmsg ltac:(by apply Nat.leb_le)) as HR.
    cbn [in_range PayloadConfirmOrderInserted.layout struct pair_codec unsigned fst snd] in HR. unfold is_u32. naive_solver lia.
  - intros [= <- <-]. apply sends_nothing; try done. destruct Hs. split; try done. cbn [order_manager_ set_manager].
    unfold OrderManager.on_partial_fill. by destruct (_ <? _).
  - intros [= <- <-]. apply sends_nothing; try done. apply speaks_model; [done..|]. by rewrite on_trade_view.
  - intros [= <- <-]. apply sends_nothing; try done. apply speaks_model; [done| |done].
    exact (update_typed _ _ Hb (received_range PayloadPriceLevelUpdate.layout msg Hmsg ltac:(by apply Nat.leb_le))).
Qed.

Lemma drain_sends n i clock s s' calls :
  speaks s → drain_inbound_bounded n i clock s = Done (s', calls) → sends s s' calls.
Proof.
  revert i s calls. induction n as [|n IH]; intros i s calls Hs; cbn [drain_inbound_bounded].
  { intros [= <- <-]. by apply sends_nothing. }
  pose proof Hs as [Hi Hb Hv (items & HI & Hit) Ha Hid].
  destruct (try_pop_ok _ inbound_log _ _ HI) as (q' & -> & HI'). run_bind. set (s0 := set_queues s q' _ _).
  assert (speaks s0) as Hs0 by (split; try done; exists (tail items); split; [done | by destruct Hit]).
  destruct items as [|msg items]; cbn [head].
  { intros [= <- <-]. by apply sends_nothing. }
  apply Forall_cons in Hit as [Hmsg _].
  destruct (on_message _ _ _ s0) as [[s1 calls1]| |] eqn:E1; [|done..]. run_bind.
  destruct (drain_inbound_bounded n (S i) clock s1) as [[s2 calls2]| |] eqn:E2; [|done..]. run_bind. intros [= <- <-].
  eapply (sends_trans s s1); [exact (on_message_sends msg _ s0 s1 calls1 Hmsg Hs0 E1)|]. intros Hs1. by eapply IH.
Qed.

Lemma run_drain_sends clock s s' calls :
  speaks s → run_inbound_drain clock s = Done (s', calls) → sends s s' calls.
Proof.
  intros Hs. unfold run_inbound_drain. set (s0 := set_flags s _ _ _).
  destruct (drain_inbound_bounded _ _ _ s0) as [[s1 calls1]| |] eqn:E1; [|done..]. run_bind.
  assert (sends s s1 calls1) as Hd by exact (drain_sends _ _ _ s0 _ _ (speaks_flags _ _ _ _ Hs) E1).
  destruct (_ && _); [|by intros [= <- <-]]. unfold schedule_inbound_drain_.
  destruct (inbound_drain_scheduled_ s1); intros [= <- <-]; (eapply sends_trans; [exact Hd|]); intros Hs1;
    apply sends_nothing; try done. by apply speaks_flags.
Qed.

Lemma sends_from s s0 s' calls :
  s0.(connection_) = s.(connection_) → s0.(outbound_) = s.(outbound_) → sends s0 s' calls → sends s s' calls.
Proof.
  intros Ec Eo [Hs' Hsend]. split; [done|]. intros n fl wr rs HS. apply Hsend. unfold sent_out in *. by rewrite Ec, Eo.
Qed.

Lemma sync_view book dt state state' :
  all_entries typed_entry book → SimulationState.sync_with_book book dt state = Done state' →
  view_typed state'.(SimulationState.price_state_).
Proof.
  intros Hb. unfold SimulationState.sync_with_book.
  destruct (SimulationState.update_price_state _ _) as [ps| |] eqn:E; [|done..]. run_bind.
  destruct (SimulationState.update_liq_state _ _) as [liq| |]; [|done..]. run_bind.
  destruct (SimulationState.update_latent_state _ _ _) as [ls rng]. intros [= <-]. cbn [SimulationState.price_state_].
  assert (∀ p, ShadowOrderBook.best_bid_price book = Some p → is_i64 p) as H3
    by (intros p [[v Hv] _]%best_bid_price_spec; apply (Hb BUY p v Hv)).
  assert (∀ p, ShadowOrderBook.best_ask_price book = Some p → is_i64 p) as H4
    by (intros p [[v Hv] _]%best_ask_price_spec; apply (Hb SELL p v Hv)).
  unfold SimulationState.update_price_state in E. cbv zeta in E.
  destruct (ShadowOrderBook.best_bid_price book) as [bid|] eqn:Eb, (ShadowOrderBook.best_ask_price book) as [ask|] eqn:Ea;
    try (destruct (in_i64 _) as [d| |] in E; [|discriminate E..]; run_bind in *); injection E as <-; by split.
Qed.

Lemma insert_sends s s' calls : speaks s → generate_insert s = Done (s', calls) → sends s s' calls.
Proof.
  intros [[Hr He] Hb Hv Hq Ha Hid]. unfold generate_insert. cbv zeta.
  destruct (MarketDynamics.decide_insert _ _ _) as [[d rng]| |] eqn:Ed; [|done..]. run_bind. intros E.
  eapply decision_typed in Ed; [|exact Hv | exact Hr].
  eapply send_request in E; [eapply sends_from; [..|exact E]; done | | exact Ed | done].
  split; try done. split; [apply is_u32_u32 | exact He].
Qed.

Lemma inserts_send k s s' calls : speaks s → generate_inserts k s = Done (s', calls) → sends s s' calls.
Proof.
  revert s calls. induction k as [|k IH]; intros s calls Hs; cbn [generate_inserts].
  { intros [= <- <-]. by apply sends_nothing. }
  destruct (generate_insert s) as [[s1 calls1]| |] eqn:E1; [|done..]. run_bind.
  destruct (generate_inserts k s1) as [[s2 calls2]| |] eqn:E2; [|done..]. run_bind. intros [= <- <-].
  eapply sends_trans; [by apply insert_sends|]. intros Hs1. by apply IH.
Qed.

Lemma sends_quietly s s' calls call : sends s s' calls → Trader.effects_of [call] = [] → sends s s' (calls ++ [call]).
Proof. intros Hs Hc. eapply sends_trans; [exact Hs|]. intros Hs'. by apply sends_nothing. Qed.

Lemma tick_sends ec clock t0 now now' s s' calls :
  speaks s → tick ec clock t0 now now' s = Done (s', calls) → sends s s' calls.
Proof.
  intros Hs. unfold tick. destruct (_ || _); [intros [= <- <-]; by apply sends_nothing|].
  match goal with |- context [mbind _ ?m = _] => destruct m as [[s1 calls1]| |] eqn:E1; [|done..] end. run_bind.
  assert (sends s s1 calls1) as Hd.
  { destruct (negb _); [by eapply drain_sends | injection E1 as <- <-; by apply sends_nothing]. }
  clear E1. cbv zeta. cbn [shadow_order_book_ set_last_tick state_].
  destruct (SimulationState.sync_with_book _ _ _) as [state| |] eqn:Es; [|done..]. run_bind.
  set (s1' := set_model (set_last_tick s1 t0) _ state).
  destruct (run_manager _ s1') as [[s2 calls2]| |] eqn:Em; [|done..]. run_bind.
  destruct (MarketDynamics.update_intensity _ _) as [[ins can]| |]; [|done..]. run_bind.
  assert (sends s s2 (calls1 ++ calls2)) as Hm.
  { eapply sends_trans; [exact Hd|]. intros Hs1. assert (speaks s1') as Hs1'.
    { apply speaks_model; [by destruct Hs1 | by destruct Hs1 |]. eapply sync_view; [|exact Es]. by destruct Hs1. }
    eapply (sends_from s1 s1'); [done..|]. eapply run_manager_sends; [exact Hs1' | | exact Em].
    intros m acts E. apply reschedule_ids in E as [? ?]; [split; [done | by apply no_cancels]|].
    split; apply (sp_ids _ Hs1'). }
  set (s3 := set_flags _ _ _ _).
  assert (speaks s2 → speaks s3) as Hs3 by (intros []; by split).
  destruct (outbound_paused_ s3).
  - intros [= <- <-]. rewrite app_assoc. apply sends_quietly; [|done].
    destruct Hm as [Hs2 Hm]. split; [by apply Hs3 | exact Hm].
  - destruct (poisson _ _) as [k rng]. destruct (generate_inserts _ _) as [[s4 calls3]| |] eqn:Ei; [|done..]. run_bind.
    intros [= <- <-]. rewrite !app_assoc. apply sends_quietly; [|done]. eapply sends_trans; [exact Hm|]. intros Hs2.
    eapply (sends_from s2 (set_rng s3 rng)); [done..|]. eapply inserts_send; [|exact Ei].
    destruct (Hs3 Hs2). by split.
Qed.
End handlers.

(** ** Writes *)

(** A connection that differs from [c] in its writing half only. *)
Record same_reading (c c' : Connection.t) : Prop := MkSameReading {
  sr_accum : c'.(Connection.in_accum_) = c.(Connection.in_accum_);
  sr_capacity : c'.(Connection.in_capacity_) = c.(Connection.in_capacity_);
  sr_notified : c'.(Connection.disconnect_notified_) = c.(Connection.disconnect_notified_)
}.

Lemma schedule_reading c c' effs : Connection.schedule_drain_writes_ c = (c', effs) → same_reading c c'.
Proof. unfold Connection.schedule_drain_writes_. destruct (Connection.write_wakeup_pending_ c); by intros [= <- _]. Qed.

Lemma drain_reading c q c' q' effs : Connection.drain_writes_ c q = Done (c', q', effs) → same_reading c c'.
Proof.
  unfold Connection.drain_writes_. cbn [Connection.write_in_progress_ Connection.set_out].
  destruct (Connection.write_in_progress_ c); [by intros [= <- _ _]|].
  destruct (Connection.drain_loop _ _ _) as [[b q1]| |]; run_bind; [|done..]. destruct (_ =? _)%nat; by intros [= <- _ _].
Qed.

Lemma write_reading c q n c' q' effs : Connection.handle_write_ c q (Some n) = Done (c', q', effs) → same_reading c c'.
Proof.
  unfold Connection.handle_write_. cbn [Connection.out_batch_ Connection.set_out].
  destruct (_ <? _)%nat; [by intros [= <- _ _]|].
  destruct (peek _ _) as [[m|]| |]; run_bind; [by intros []%drain_reading| |done..].
  destruct (Connection.write_wakeup_pending_ _); [by intros []%drain_reading | by intros [= <- _ _]].
Qed.

(** ** Steps *)

Section steps.
Context `{Libm, Distributions} {G : Type} `{RNG G} {Q : Type} `{HQ : LawfulQueue Q}.
Import Trader.
Implicit Types (s : MarketSimulator.t G Q) (w : Trader.t G Q).

(** The simulator, and the requests its connection has accepted. *)
Definition trading w (rs : list ClientRequest) : Prop :=
  speaks w.(sim) ∧ sent_out w.(sim) w.(drains) w.(inflight) w.(wire) rs.

(** A handler whose calls are typed requests. *)
Lemma handler_trading w rs res w' :
  trading w rs → (∀ s calls, res = Done (s, calls) → sends w.(sim) s calls) →
  post w res = Done w' → ∃ rs', trading w' (rs ++ rs').
Proof.
  intros [Hs HO] Hres. unfold post. destruct res as [[s calls]| |]; [|done..]. run_bind.
  destruct (Hres s calls eq_refl) as [Hs' Hsend]. destruct (Hsend _ _ _ _ HO) as (rs' & HO').
  destruct (delays calls); [|done..]. run_bind. destruct (foldl absorb _ _) as [n fl]. intros [= <-].
  exists rs'. by split.
Qed.

Lemma hook_speaks s e :
  speaks s → large_bytes e →
  speaks (hook s e) ∧ (hook s e).(connection_) = s.(connection_) ∧ (hook s e).(outbound_) = s.(outbound_).
Proof.
  intros Hs Hl. destruct e; try done; cbn [hook].
  - split; [|done]. by apply speaks_flags.
  - unfold inbound_ready, schedule_inbound_drain_.
    destruct (negb _); [done|]. destruct (inbound_drain_scheduled_ s); [done|]. split; [|done]. by apply speaks_flags.
  - unfold on_large_message. destruct (MessageType_of_u8 _); try done. destruct (negb _) eqn:E; [done|].
    apply negb_false_iff, Nat.eqb_eq in E. split; [|done]. apply speaks_model; [done| |by destruct Hs].
    apply snapshot_entries, decode_range; [by rewrite E | done].
Qed.

Lemma hooks_speak s effs :
  speaks s → Forall large_bytes effs →
  speaks (foldl hook s effs) ∧ (foldl hook s effs).(connection_) = s.(connection_) ∧
  (foldl hook s effs).(outbound_) = s.(outbound_).
Proof.
  intros Hs Hl. revert s Hs. induction Hl as [|e effs He _ IH]; intros s Hs; [done|]. cbn [foldl].
  destruct (hook_speaks s e Hs He) as (Hs1 & Ec & Eo). destruct (IH _ Hs1) as (Hs2 & Ec2 & Eo2).
  split; [done|]. by rewrite Ec2, Eo2.
Qed.

Lemma reading_trading w rs read conn inbound effs :
  trading w rs → Forall is_byte (default [] read) →
  Connection.handle_read_ w.(sim).(connection_) w.(sim).(inbound_) read = Done (conn, inbound, effs) →
  ∃ w', reading w (Done (conn, inbound, effs)) = Done w' ∧ trading w' rs.
Proof.
  intros [[Hi Hb Hv (items & HI & Hit) Ha Hid] [Hrs [its HO]]] Hd E.
  eapply handle_read_keeps in E as (W & Ha' & (items' & HI' & Hit') & Hl); [|done..| |done|done]; [|by rewrite Hid].
  unfold reading. run_bind. eexists. split; [reflexivity|]. set (s0 := set_queues _ _ _ _).
  assert (speaks s0) as Hs0.
  { split; try done; [by exists items'|]. cbn. by rewrite (sw_id _ _ W). }
  destruct (hooks_speak s0 effs Hs0 Hl) as (Hs & Ec & Eo). split; [exact Hs|]. split; [done|]. exists its.
  cbn [sim drains inflight wire]. rewrite Ec, Eo. by eapply same_writing_inv.
Qed.

Lemma writing_trading w rs n data written conn q effs n' fl' its :
  trading w rs → foldl absorb (n, data) effs = (n', fl') →
  out_inv conn q n' fl' (w.(wire) ++ written) (accepted_requests rs) false its →
  same_reading w.(sim).(connection_) conn → conn.(Connection.id_) = w.(sim).(connection_).(Connection.id_) →
  ∃ w', writing w n data written (Done (conn, q, effs)) = Done w' ∧ trading w' rs.
Proof.
  intros [[Hi Hb Hv Hq Ha Hid] [Hrs _]] Ef HO [Ea _ _] Eid. unfold writing. run_bind. rewrite Ef.
  eexists. split; [reflexivity|]. split; [split; cbn; rewrite ?Ea, ?Eid; done|]. split; [done|]. by exists its.
Qed.

Lemma step_trading w rs e w' :
  trading w rs → enabled w e = true → valid_event e → step w e = Done w' → ∃ rs', trading w' (rs ++ rs').
Proof.
  intros HT Hen Hv E. pose proof HT as [Hs [Hrs [its HO]]].
  assert (∀ read, Forall is_byte (default [] read) →
    reading w (Connection.handle_read_ w.(sim).(connection_) w.(sim).(inbound_) read) = Done w' →
    ∃ rs', trading w' (rs ++ rs')) as Hread.
  { intros read Hd Er. destruct (Connection.handle_read_ _ _ read) as [[[conn inbound] effs]| |] eqn:Eh; [|done..].
    destruct (reading_trading w rs read _ _ _ HT Hd Eh) as (w1 & E1 & HT'). rewrite Er in E1. injection E1 as <-.
    exists []. by rewrite app_nil_r. }
  destruct e as [data| | |clock|ec clock t0 now now'|aborted now now'| |now| | |n]; cbn [step enabled] in *.
  - by apply (Hread (Some data)).
  - by apply (Hread None).
  - unfold Connection.run_inbound_ready in E. unfold reading in E. run_bind in *. injection E as <-.
    exists []. rewrite app_nil_r. set (effs := if _ && _ then _ else _). set (s0 := set_queues _ _ _ _).
    destruct (hooks_speak s0 effs) as (Hs1 & Ec & Eo).
    + destruct Hs. by split.
    + unfold effs. destruct (_ && _); by repeat constructor.
    + split; [exact Hs1|]. split; [done|]. exists its. cbn [sim drains inflight wire]. rewrite Ec, Eo.
      eapply same_writing_inv; [|exact HO]. by split.
  - eapply handler_trading; [exact HT | | exact E]. intros s calls. by apply run_drain_sends.
  - eapply handler_trading; [exact HT | | exact E]. intros s calls. by apply tick_sends.
  - eapply handler_trading; [exact HT | | exact E]. intros s calls. apply run_manager_sends; [done|].
    intros m acts Ef. apply fire_ids in Ef; [done | apply Hs].
  - eapply handler_trading; [exact HT | | exact E]. intros s calls [= <- <-]. apply sends_nothing; try done. by apply speaks_flags.
  - eapply handler_trading; [exact HT | | exact E]. intros s calls [= <- <-]. apply sends_nothing; try done. destruct Hs. by split.
  - eapply handler_trading; [exact HT | | exact E]. intros s calls [= <- <-]. apply sends_nothing; try done. by apply speaks_flags.
  - pose proof HO as [HQo Hwq Hst Hpr Hba _ _].
    destruct (drain_ok (connection_ (sim w)) _ (drains w - 1) (inflight w) (wire w) _ false its HQo Hwq Hst Hpr Hba)
      as (c' & q' & effs & n' & fl' & tk & its' & Ed & Ef & HO' & _ & _ & Hid').
    rewrite Ed in E. destruct (writing_trading w rs (drains w - 1) (inflight w) [] c' q' effs n' fl' its' HT Ef) as (w1 & E1 & HT');
      [by rewrite app_nil_r | by eapply drain_reading | done |].
    rewrite E in E1. injection E1 as <-. exists []. by rewrite app_nil_r.
  - destruct (inflight w) as [data|] eqn:Efl; [|done]. apply andb_true_iff in Hen as [H3%Nat.ltb_lt H4%Nat.leb_le].
    destruct (wrote_ok (connection_ (sim w)) _ (drains w) data (wire w) _ false its n HO (conj H3 H4))
      as (c' & q' & effs & n' & fl' & tk & its' & Ed & Ef & HO' & _ & _ & Hid').
    rewrite Ed in E. change (take n (default [] (Some data))) with (take n data) in E.
    destruct (writing_trading w rs (drains w) None (take n data) c' q' effs n' fl' its' HT Ef HO') as (w1 & E1 & HT');
      [by eapply write_reading | done |].
    rewrite E in E1. injection E1 as <-. exists []. by rewrite app_nil_r.
Qed.

Lemma run_trading w rs es w' :
  trading w rs → possible w es = true → Forall valid_event es → run w es = Done w' → ∃ rs', trading w' (rs ++ rs').
Proof.
  intros HT Hp Hv. revert w rs HT Hp. induction Hv as [|e es He _ IH]; intros w rs HT; cbn [possible run].
  { intros _ [= <-]. exists []. by rewrite app_nil_r. }
  intros [Hen Hp]%andb_true_iff E. destruct (step w e) as [w1| |] eqn:E1; [|done..]. run_bind in *.
  destruct (step_trading w rs e w1 HT Hen He E1) as (rs1 & HT1). destruct (IH _ _ HT1 Hp E) as (rs2 & HT2).
  exists (rs1 ++ rs2). by rewrite app_assoc.
Qed.

Lemma fresh_trading rng memory_time memory_price memory_liq bounds :
  trading (fresh (Q := Q) rng (SimulationState.SimulationState memory_time memory_price memory_liq bounds)) [].
Proof.
  split.
  - split; try done.
    + split; [done|]. intros e. cbn. rewrite empty_elements. by intros ?%elem_of_nil.
    + intros [] price volume E; cbn in E; by rewrite lookup_empty in E.
    + exists []. split; [apply new_queue_holds, inbound_log | constructor].
  - split; [constructor|]. exists []. split; cbn; try done. apply new_queue_holds, outbound_log.
Qed.

(** What is written when nothing is left to write. *)
Lemma trading_wire w rs :
  trading w rs → written_out w = true → w.(wire) = ConnectionWrite.stream (accepted_requests rs).
Proof.
  intros [_ [_ [its [_ _ Hst _ _ _ Hw]]]] [Hd%Nat.eqb_eq Hf]%andb_true_iff. rewrite <- Hst.
  destruct (inflight w); [done|]. cbn. destruct its as [|m its]; [by rewrite app_nil_r|].
  destruct Hw as [?|[?|?]]; [done | done | lia | done].
Qed.
End steps.

(** ** Guarantees *)

(** C6: the exchange executes what the simulator sends.  Whatever bytes the
    simulator receives, whatever is drawn and whatever its clocks show, and in
    whatever order its reads, drains, ticks, expiries and writes happen: when its
    output is written, it is the frames of requests, each an order that is good
    for the day or a cancel, with members of their types.  When the exchange's
    connection reads these bytes, cut in any way and among whatever other clients
    do, as long as the inbox has room, at most three more posted tasks make the
    book execute, for this client, exactly these requests in order. *)
Theorem simulator_orders_execute `{Libm, Distributions} {G : Type} `{RNG G} {Q : Type} `{LawfulQueue Q}
    (rng : G) memory_time memory_price memory_liq bounds (events : list Trader.Event) (w : Trader.t G Q)
    (id : Id_t) (steps : list Server.Step) s clock :
  let w0 := Trader.fresh rng (SimulationState.SimulationState memory_time memory_price memory_liq bounds) in
  Trader.possible w0 events = true → Forall Trader.valid_event events →
  Trader.run w0 events = Done w → Trader.written_out w = true →
  orderly Server.started steps = true → Forall well_typed steps → Server.run Server.started steps = Done s →
  stream id steps = w.(Trader.wire) → existsb (fails id) steps = false →
  roomy s (Server.Drain clock) = true → (∀ n, well_timed (clock n)) →
  ∃ rs tasks s' y ins, Forall simulated rs ∧ frames w.(Trader.wire) = (map request_message rs, []) ∧
    (length tasks <= 3)%nat ∧ Server.possible s tasks = true ∧ Server.run s tasks = Done s' ∧
    run_inputs Exchange.Exchange ins = Done (y, s'.(Server.sent)) ∧
    y.(Exchange.order_book_) = s'.(Server.ex).(Exchange.order_book_) ∧
    omap request_of (from id (inbound ins)) = map (book_request id) rs.
Proof.
  intros w0 Hp Hv Ew Hw Ho Hty Er Hst Hf Hroom Ht.
  destruct (run_trading w0 [] events w (fresh_trading _ _ _ _ _) Hp Hv Ew) as (rs & HT). cbn [app] in HT.
  assert (Forall simulated rs) as Hsim by apply HT. pose proof (trading_wire w rs HT Hw) as Hwire. rewrite Hwire in Hst.
  assert (Forall typed_request rs) as Hrs by (eapply Forall_impl; [exact Hsim|]; by intros r []).
  destruct (requests_executed rs 0 id steps s clock Hrs Ho Hty Er Hst Hf Hroom Ht)
    as (tasks & s' & y & ins & Hn & _ & Hpos & Er' & Ei & Hbook & Hreq).
  exists rs, tasks, s', y, ins. split; [done|]. split; [|done]. rewrite Hwire. unfold accepted_requests.
  rewrite stream_frames by (apply Forall_map; eapply Forall_impl; [exact Hrs|]; apply request_sendable).
  f_equal. rewrite map_map. apply map_ext_in. intros r Hr%list_elem_of_In. apply request_on_wire.
  rewrite Forall_forall in Hrs. by apply Hrs.
Qed.

#[local] Existing Instances some_libm some_distributions some_rng.

(** A simulator that starts, ticks, and writes what it drew in two pieces, while a
    message arrives in part. *)
Definition trading_events : list Trader.Event :=
  [Trader.Start; Trader.FirstTick 0; Trader.Tick false (λ _, 0) 1000000 0 0; Trader.RunDrain; Trader.Wrote 20;
   Trader.Reads (take 5 bid_frame); Trader.Wrote 43].

Lemma trading_events_valid : Forall Trader.valid_event trading_events.
Proof.
  assert (Forall is_byte (take 5 bid_frame)) as Hb by (apply (Forall_inv (check_bytes_ok [Server.Received 0 (take 5 bid_frame)] eq_refl))).
  unfold trading_events. repeat apply Forall_cons_2; try apply Forall_nil_2; cbn [Trader.valid_event]; done.
Qed.

Definition fresh_trader : Trader.t pcg32.t (list HazardEntry) :=
  Trader.fresh (PCGRNG.PCGRNG 42 54) (SimulationState.SimulationState (TimeState.Make fzero fzero) 0 no_liquidity [1; 5; 10]).

Definition traded_bytes : bytes :=
  match Trader.run fresh_trader trading_events with Done w => w.(Trader.wire) | _ => [] end.

Definition trading_steps : list Server.Step :=
  [Server.Connect; Server.Received 0 (take 30 traded_bytes); Server.Ready 0; Server.Received 0 (drop 30 traded_bytes)].

Lemma simulator_orders_execute_witness :
  ∃ rs tasks s s' y ins, length rs = 3%nat ∧ Forall simulated rs ∧
    Server.run Server.started trading_steps = Done s ∧ Server.run s tasks = Done s' ∧
    run_inputs Exchange.Exchange ins = Done (y, s'.(Server.sent)) ∧
    omap request_of (from 0 (inbound ins)) = map (book_request 0) rs.
Proof.
  assert (match Trader.run fresh_trader trading_events with
          | Done w => Trader.written_out w && (length (frames w.(Trader.wire)).1 =? 3)%nat | _ => false end = true) as Hw
    by (vm_compute; reflexivity).
  assert (match Server.run Server.started trading_steps with
          | Done s => roomy s (Server.Drain some_clock) | _ => false end = true) as Hroom by (vm_compute; reflexivity).
  assert (traded_bytes = match Trader.run fresh_trader trading_events with Done w => w.(Trader.wire) | _ => [] end) as Hb
    by reflexivity.
  destruct (Trader.run fresh_trader trading_events) as [w| |] eqn:Ew; [|discriminate Hw..].
  destruct (Server.run Server.started trading_steps) as [s| |] eqn:E; [|discriminate Hroom..].
  apply andb_true_iff in Hw as [Hw Hlen%Nat.eqb_eq].
  destruct (simulator_orders_execute (PCGRNG.PCGRNG 42 54) (TimeState.Make fzero fzero) 0 no_liquidity [1; 5; 10]
    trading_events w 0 trading_steps s some_clock) as (rs & tasks & s' & y & ins & Hsim & Hfr & _ & _ & Er & Ei & _ & Hm).
  - vm_compute. reflexivity.
  - apply trading_events_valid.
  - exact Ew.
  - exact Hw.
  - vm_compute. reflexivity.
  - apply check_bytes_ok. vm_compute. reflexivity.
  - exact E.
  - rewrite <- Hb. vm_compute. reflexivity.
  - reflexivity.
  - exact Hroom.
  - exact some_clock_timed.
  - exists rs, tasks, s, s', y, ins. split; [|auto]. rewrite Hfr in Hlen. cbn [fst] in Hlen. by rewrite length_map in Hlen.
Defined.
