(* ===== verification/SimulatorRange.v ===== *)
(** The handlers of the simulator return: with messages whose prices are those of
    the exchange, no handler of [simulator.hpp] meets an undefined conversion or
    access, and the numbers it keeps stay in their ranges. *)

From Stdlib Require Import SpecFloat QArith Qabs Lqa.
From S2P Require Import Prelude Types Codec Payloads Protocol SpscQueue Connection ConnectionRead ConnectionWrite ConnectionBytes ExchangeSession ServerTheorems OrderFlow Doubles DoublesExact DoublesValue DoublesRound DoublesRange DoublesInterval Pcg32 Pcg32Theorems CmathRange Pcg32Range ShadowBook ShadowTheorems OrderManager OrderManagerTheorems MarketState MarketDynamics MarketTheorems MarketRange DynamicsTheorems DynamicsRange OrderManagerRange Simulator SimulatorTheorems Trader TraderTheorems.
Import MarketSimulator.

(** ** The fair value *)

(** What the random walk keeps; the logarithm can go anywhere. *)
Definition latent_ok (ls : LatentState.t) : Prop :=
  in_range 0 (p2 50) ls.(LatentState.fair_value) ∧ finite ls.(LatentState.log_fair_value) = true ∧
  in_range 0 (val (dec 1 2)) ls.(LatentState.time_since_update).

(** The logarithm of the fair value is from -34.5 to 34.5. *)
Definition calm (st : SimulationState.t) : bool :=
  fle (fabs st.(SimulationState.latent_state_).(LatentState.log_fair_value)) (dec 345 1).

Section latent.
Context `{LibmRanges}.
Import SimulationState.

(** The step of the random walk. *)
Lemma walk_range dt z : in_range 0 (9 # 32) dt → in_range (- inject_Z 8) (inject_Z 8) z →
  in_range (- (3 # 64)) (3 # 64)
    (fadd (fmul (fsub fzero (fmul (fmul (dec 5 1) (dec 1 2)) (dec 1 2))) dt) (fmul (fmul (dec 1 2) (fsqrt dt)) z)).
Proof.
  intros Hdt Hz. range_over [(0, 9 * 2 ^ 25); (- 8 * 2 ^ 30, 8 * 2 ^ 30)] [dt; z]; [inside_by Hdt | inside_by Hz].
Qed.

Lemma calm_range st : calm st = true → finite st.(latent_state_).(LatentState.log_fair_value) = true →
  in_range (- (69 # 2)) (69 # 2) st.(latent_state_).(LatentState.log_fair_value).
Proof.
  unfold calm. set (x := LatentState.log_fair_value _). intros Hx Hf.
  apply fle_val in Hx; [|by apply finite_abs | exact eq_refl]. rewrite val_abs in Hx.
  assert ((val (dec 345 1) == 69 # 2)%Q) as E by reflexivity. rewrite E in Hx.
  split; [done|]. apply Qabs_Qle_condition in Hx as [H1 H2]. by split.
Qed.

Lemma latent_range st dt : calm st = true → latent_ok st.(latent_state_) → in_range 0 (1 # 4) dt → pcg_ok st.(rng_) →
  latent_ok (update_latent_state dt st.(latent_state_) st.(rng_)).1 ∧
  pcg_ok (update_latent_state dt st.(latent_state_) st.(rng_)).2.
Proof.
  intros Hc (Hf & Hl & Ht) Hdt Hrng. apply calm_range in Hc; [|done]. set (ls := latent_state_ st) in *.
  unfold update_latent_state. cbv zeta. unfold latent_model.
  set (t := LatentState.time_since_update ls) in *. set (l := LatentState.log_fair_value ls) in *.
  assert (in_range 0 (9 # 32) (fadd t dt)) as Hd.
  { range_over [(0, 2 ^ 24); (0, 2 ^ 28)] [t; dt]; [inside_by Ht | inside_by Hdt]. }
  set (d := fadd t dt) in *. clearbody d. destruct (fle (dec 1 2) d) eqn:E.
  - unfold PCGRNG.standard_normal. destruct (uniform_range (rng_ st) Hrng) as [Hu Hg].
    destruct (pcg32.uniform (rng_ st)) as [u g]. cbn [fst snd] in Hu, Hg. apply inverse_normal_range in Hu.
    cbn [fst snd]. split; [|done]. pose proof (walk_range d _ Hd Hu) as Hw.
    set (w := fadd _ (fmul _ (inverse_normal_cdf u))) in *. clearbody w.
    assert (in_range (- (553 # 16)) (553 # 16) (fadd l w)) as [Hfin [L1 L2]].
    { range_over [(- 69 * 2 ^ 29, 69 * 2 ^ 29); (- 3 * 2 ^ 24, 3 * 2 ^ 24)] [l; w]; [inside_by Hc | inside_by Hw]. }
    split; [|split; [exact Hfin | evaluate]]. apply exp_range; [lia | exact Hfin |].
    eapply Qle_trans; [exact L2 | evaluate].
  - cbn [fst snd]. split; [|done]. split; [done|]. split; [done|]. destruct Hd as [Fd [D1 D2]].
    split; [done|]. split; [done|]. apply Qnot_lt_le. intros Hlt.
    rewrite (proj2 (fle_val (dec 1 2) d eq_refl Fd) (Qlt_le_weak _ _ Hlt)) in E. discriminate E.
Qed.
End latent.

(** ** The derived state *)

(** The levels of the shadow book are levels of the exchange. *)
Definition in_book (book : ShadowOrderBook.t) : Prop := all_entries (λ price _, price_ok price) book.

Record state_ok `{Libm} (st : SimulationState.t) : Prop := MkStateOk {
  st_range : state_range st;
  st_bounds : Forall exact_int st.(SimulationState.liq_state_).(LiquidityState.bucket_bounds);
  st_buckets : st.(SimulationState.liq_state_).(LiquidityState.bucket_bounds) ≠ [];
  st_latent : latent_ok st.(SimulationState.latent_state_);
  st_rng : pcg_ok st.(SimulationState.rng_)
}.

Section state.
Context `{LibmRanges}.
Import SimulationState.

Lemma trade_state_ok trade st :
  price_ok trade.(PayloadTradeEvent.price) → is_u32 trade.(PayloadTradeEvent.quantity) → state_ok st →
  state_ok (on_trade trade st).
Proof.
  intros Hp Hq [HR Hb Hn Hl Hg]. pose proof (on_trade_range trade st (conj Hp Hq) HR) as HR'.
  split; [exact HR'|..]; unfold on_trade; (destruct (Z.eqb _ _); [done|]); by destruct (fle _ _).
Qed.

Lemma sync_state_ok book dt st :
  in_book book → in_range 0 (1 # 4) dt → calm st = true → state_ok st →
  ∃ st', sync_with_book book dt st = Done st' ∧ state_ok st' ∧ ready st' ∧ fair_value_ok st'.
Proof.
  intros Hbook Hdt Hc [HR Hb Hn Hl Hg].
  assert (feeding_ok (Synced book dt)) as Hok by exact Hbook.
  assert (feeding_range (Synced book dt)) as Hr by (by exists (1 # 4)%Q).
  destruct (sync_ok book dt st Hok Hb) as (st' & E & Eb & _). exists st'. split; [done|].
  pose proof (sync_range _ _ _ _ Hr HR E) as HR'. pose proof (sync_ready _ _ _ _ Hok Hr HR Hb Hn E) as Hready.
  destruct (latent_range st dt Hc Hl Hdt Hg) as [Hl' Hg'].
  assert (latent_ok (latent_state_ st') ∧ pcg_ok (rng_ st')) as [Hl1 Hg1].
  { unfold sync_with_book in E. destruct (update_price_state _ _); [|done..]. run_bind in *.
    destruct (update_liq_state _ _); [|done..]. run_bind in *.
    destruct (update_latent_state _ _ _) as [ls rng]. by injection E as <-. }
  split; [split; rewrite ?Eb; done|]. split; [done|]. apply Hl1.
Qed.
End state.

(** ** Open orders *)

(** Fewer orders are open than there are ids. *)
Lemma bounded_size (X : gset Z) n : 0 <= n → (∀ x, x ∈ X → 0 <= x < n) → Z.of_nat (size X) <= n.
Proof.
  intros Hn HX. assert (size X <= size (list_to_set (C := gset Z) (seqZ 0 n)))%nat as Hs.
  { apply subseteq_size. intros x Hx. apply elem_of_list_to_set, elem_of_seqZ. specialize (HX x Hx). lia. }
  rewrite size_list_to_set in Hs by apply NoDup_seqZ. rewrite length_seqZ in Hs. lia.
Qed.

Lemma open_orders_bounded {Q} `{LawfulQueue Q} (m : OrderManager.t Q) :
  om_ok m → ids_ok m → 0 <= OrderManager.open_order_count m <= 2 ^ 32.
Proof.
  intros Hm [_ Hids]. unfold OrderManager.open_order_count. split; [lia|]. apply bounded_size; [lia|].
  intros id Hid. destruct (om_covered m Hm id Hid) as (e & He & <-). by apply Hids.
Qed.

(** ** Messages *)

Definition price_okb (price : Price_t) : bool := (MINIMUM_BID <=? price) && (price <=? MAXIMUM_ASK).

Lemma price_okb_spec price : price_okb price = true → price_ok price.
Proof. unfold price_okb, price_ok. lia. Qed.

(** The entries of a snapshot that have volume. *)
Definition entries_ok (prices volumes : list Z) : bool :=
  forallb (λ '(price, volume), (volume <=? 0) || price_okb price) (zip prices volumes).

(** What the simulator relies on of a message: its prices are those of the
    exchange. *)
Definition fair (type : Message_t) (payload : bytes) : bool :=
  match MessageType_of_u8 type with
  | PRICE_LEVEL_UPDATE =>
      price_okb (decode PayloadPriceLevelUpdate.layout payload).(PayloadPriceLevelUpdate.price)
  | TRADE_EVENT => price_okb (decode PayloadTradeEvent.layout payload).(PayloadTradeEvent.price)
  | ORDER_BOOK_SNAPSHOT =>
      let snap := decode PayloadOrderBookSnapshot.layout payload in
      entries_ok snap.(PayloadOrderBookSnapshot.bid_prices) snap.(PayloadOrderBookSnapshot.bid_volumes) &&
      entries_ok snap.(PayloadOrderBookSnapshot.ask_prices) snap.(PayloadOrderBookSnapshot.ask_volumes)
  | _ => true
  end.

Definition fair_item (msg : QueuedMessage) : Prop := fair msg.(message_type) msg.(msg_payload) = true.

Lemma entries_in_book m prices volumes price volume :
  (∀ price volume, m !! price = Some volume → price_ok price) → entries_ok prices volumes = true →
  foldl put_entry m (zip prices volumes) !! price = Some volume → price_ok price.
Proof.
  intros Hm Hok. unfold entries_ok in Hok. rewrite forallb_forall in Hok.
  intros [E|[Hin%list_elem_of_In Hv]]%put_entries; [by eapply Hm|]. specialize (Hok _ Hin). cbn in Hok.
  apply orb_true_iff in Hok as [Hok|Hok]; [lia | by apply price_okb_spec].
Qed.

Lemma snapshot_in_book book type buf :
  MessageType_of_u8 type = ORDER_BOOK_SNAPSHOT → fair type buf = true → Forall is_byte buf →
  length buf = size_of PayloadOrderBookSnapshot.layout →
  in_book (ShadowOrderBook.on_order_book_snapshot book (decode PayloadOrderBookSnapshot.layout buf)).
Proof.
  intros Ety Hf Hb Hl. unfold fair in Hf. rewrite Ety in Hf. apply andb_true_iff in Hf as [H1 H2].
  rewrite snapshot_put by (apply decode_range; [by rewrite Hl | done]).
  assert (∀ price volume, (∅ : Levels) !! price = Some volume → price_ok price) as He
    by (intros price volume E; by rewrite lookup_empty in E).
  intros [] price volume; cbn [ShadowOrderBook.levels ShadowOrderBook.bids_ ShadowOrderBook.asks_];
    by apply entries_in_book.
Qed.

(** ** Handlers *)

Section handlers.
Context `{LibmRanges, Distributions} {G : Type} `{RNG G} {ok : G → Prop} `{!LawfulRNG G ok} {Q : Type} `{HQ : LawfulQueue Q}.
Implicit Types (s : MarketSimulator.t G Q).

(** At the time [t] the numbers of the simulator are in their ranges, and so are
    those it has not read yet. *)
Record numbers (t : Z) s : Prop := MkNumbers {
  nu_manager : manager_ok t s.(order_manager_);
  nu_rate : rate_ok s.(lambda_cancel_);
  nu_tick : 0 <= s.(last_tick_) <= t;
  nu_rng : ok s.(rng_);
  nu_state : state_ok s.(state_);
  nu_book : in_book s.(shadow_order_book_);
  nu_inbound : ∃ items, holds INBOUND_Q_LOG s.(inbound_) items ∧ Forall fair_item items;
  nu_outbound : ∃ items, holds OUTBOUND_Q_LOG s.(outbound_) items;
  nu_reads : s.(connection_).(Connection.disconnect_notified_) = false → idle s.(connection_)
}.

Lemma numbers_later t t' s : t <= t' → numbers t s → numbers t' s.
Proof. intros Ht []. split; try done; [by eapply manager_later | lia]. Qed.

(** The delays that were asked for fit. *)
Definition armed_calls (calls : list SimCall) : Prop :=
  ∀ delay, order_timer (timer_async_wait delay) ∈ calls → ∃ ns, delay = Done ns ∧ - 2 ^ 41 <= ns <= 2 ^ 41.

(** A handler returns, it was given its delays, and the simulator can go on. *)
Definition completes (t : Z) (res : outcome (MarketSimulator.t G Q * list SimCall)) (P : MarketSimulator.t G Q → Prop) : Prop :=
  ∃ s calls, res = Done (s, calls) ∧ numbers t s ∧ armed_calls calls ∧ P s.

Lemma armed_calls_app calls calls' : armed_calls calls → armed_calls calls' → armed_calls (calls ++ calls').
Proof. intros Hc Hc' delay [Hd|Hd]%elem_of_app; [by apply Hc | by apply Hc']. Qed.

Lemma armed_calls_nil : armed_calls [].
Proof. by intros delay ?%elem_of_nil. Qed.

Lemma armed_connection effs : armed_calls (map on_connection effs).
Proof. by intros delay (e & ? & _)%list_elem_of_fmap. Qed.

Lemma armed_single call : (∀ a, call ≠ order_timer a) → armed_calls [call].
Proof. intros Hne delay Hd%list_elem_of_singleton. by destruct (Hne (timer_async_wait delay)). Qed.

Lemma completes_later t t' res P : t <= t' → completes t res P → completes t' res P.
Proof. intros Ht (s & calls & E & Hs & H'). exists s, calls. split; [done|]. split; [by eapply numbers_later | done]. Qed.

(** Nothing to do. *)
Lemma completes_now t s P : numbers t s → P s → completes t (Done (s, [])) P.
Proof. intros Hs HP. exists s, []. auto using armed_calls_nil. Qed.

Lemma same_reading_idle c c' : same_reading c c' → idle c → idle c'.
Proof. intros [E1 E2 E3] []. split; by rewrite ?E1, ?E2, ?E3. Qed.

(** Sending changes the writing half only. *)
Definition sending s s' : Prop :=
  ∃ q c, s' = set_queues s s.(inbound_) q c ∧ same_reading s.(connection_) c ∧ ∃ items, holds OUTBOUND_Q_LOG q items.

Lemma sending_numbers t s s' : sending s s' → numbers t s → numbers t s'.
Proof.
  intros (q & c & -> & Hc & Hq) []. split; try done. cbn. rewrite (sr_notified _ _ Hc). intros Hn.
  eapply same_reading_idle; [exact Hc | auto].
Qed.

Lemma send_total r type payload s :
  simulated r → (MessageType_to_u8 type, payload) = request_message r → (∃ items, holds OUTBOUND_Q_LOG s.(outbound_) items) →
  ∃ s' calls, send type payload s = Done (s', calls) ∧ sending s s' ∧ armed_calls calls.
Proof.
  intros [Hr _] Em [items HO]. destruct (request_sendable _ Hr) as [_ [Hsize Hlen]]. rewrite <- Em in Hsize, Hlen.
  cbn [fst snd] in Hsize, Hlen. unfold send, Connection.send_message, Connection.push_message.
  rewrite (proj2 (Nat.ltb_ge _ _) Hsize), (proj2 (Nat.ltb_ge _ _) Hlen).
  set (m := queued _ _ _). destruct (try_push_ok _ outbound_log _ items m HO) as (q & -> & HO'). run_bind.
  destruct (bool_decide _).
  - destruct (Connection.schedule_drain_writes_ _) as [c effs] eqn:Es. run_bind. apply schedule_reading in Es.
    eexists _, _. split; [reflexivity|]. split; [|apply armed_connection]. exists q, c. split; [done|]. split; [done|]. by eexists.
  - eexists _, _. split; [reflexivity|]. split; [|apply armed_connection].
    exists q, (connection_ s). split; [done|]. split; [done|]. by eexists.
Qed.

Lemma sending_trans s1 s2 s3 : sending s1 s2 → sending s2 s3 → sending s1 s3.
Proof.
  intros (q1 & c1 & -> & [] & _) (q2 & c2 & -> & [] & Hq). exists q2, c2. split; [done|]. split; [|done].
  split; cbn in *; congruence.
Qed.

Lemma armed_tail a acts : armed (a :: acts) → armed acts.
Proof. intros HA delay Hd. apply HA. by right. Qed.

Lemma armed_head a acts calls : armed (a :: acts) → armed_calls calls → armed_calls (order_timer a :: calls).
Proof. intros HA Hc delay [[= <-]|Hd]%elem_of_cons; [apply HA; left | by apply Hc]. Qed.

Lemma perform_total t acts s : typed_cancels acts → armed acts → numbers t s →
  ∃ s' calls, perform acts s = Done (s', calls) ∧ sending s s' ∧ armed_calls calls.
Proof.
  intros Ht HA Hs. assert (sending s s) as Hrefl by (exists (outbound_ s), (connection_ s); split; [by destruct s | split; [done | apply Hs]]).
  revert s Hs Hrefl. induction acts as [|a acts IH]; intros s Hs Hrefl; cbn [perform].
  { exists s, []. auto using armed_calls_nil. }
  pose proof (armed_tail _ _ HA) as HA'.
  destruct a as [|d| |payload].
  1-3: destruct (IH Ht HA' s Hs Hrefl) as (s' & calls & -> & Hs' & Hc); run_bind; eexists _, _;
    (split; [reflexivity|]); (split; [done | by eapply armed_head]).
  unfold typed_cancels in Ht. rewrite cancels_send in Ht. apply Forall_cons in Ht as [Hp Ht].
  destruct (send_total (Withdraw payload) CANCEL_ORDER (payload_bytes (PCancelOrder payload)) s Hp eq_refl (nu_outbound _ _ Hs))
    as (s1 & calls1 & -> & Hs1 & Hc1). run_bind.
  destruct (IH Ht HA' s1 (sending_numbers _ _ _ Hs1 Hs)) as (s2 & calls2 & -> & Hs2 & Hc2).
  { destruct Hs1 as (q & c & -> & _ & Hq). by exists q, c. }
  run_bind. eexists _, _. split; [reflexivity|]. split; [by eapply sending_trans | by apply armed_calls_app].
Qed.

Lemma run_manager_total t m acts s : manager_ok t m → typed_cancels acts → armed acts → numbers t s →
  completes t (run_manager (Done (m, acts)) s) (λ s', s'.(inbound_) = s.(inbound_) ∧ s'.(state_) = s.(state_) ∧
    s'.(shadow_order_book_) = s.(shadow_order_book_)).
Proof.
  intros Hm Ht HA Hs. assert (numbers t (set_manager s m)) as Hs' by (destruct Hs; by split).
  destruct (perform_total t acts _ Ht HA Hs') as (s' & calls & E & Hsend & Hc). exists s', calls. split; [exact E|].
  split; [by eapply sending_numbers|]. split; [done|]. destruct Hsend as (q & c & -> & _). done.
Qed.

(** *** Messages *)

Lemma fair_update msg book :
  MessageType_of_u8 msg.(message_type) = PRICE_LEVEL_UPDATE → fair_item msg → in_book book →
  in_book (ShadowOrderBook.on_price_level_update book (decode PayloadPriceLevelUpdate.layout msg.(msg_payload))).
Proof.
  intros Ety Hf Hb. unfold fair_item, fair in Hf. rewrite Ety in Hf. apply price_okb_spec in Hf.
  by apply update_entries.
Qed.

(** What a message leaves alone. *)
Definition undrawn s s' : Prop :=
  s'.(inbound_) = s.(inbound_) ∧
  s'.(state_).(SimulationState.latent_state_) = s.(state_).(SimulationState.latent_state_).

Lemma acknowledgement_total t msg now s :
  t <= now → now < 2 ^ 63 → well_formed msg → speaks s → numbers t s →
  completes now (run_manager (OrderManager.on_insert_acknowledged
    (decode PayloadConfirmOrderInserted.layout msg.(msg_payload)) now s.(order_manager_)) s) (undrawn s).
Proof.
  intros Hnow Hmax Hmsg Hsp Hs. unfold run_manager.
  destruct (acknowledge_manager_ok t (decode PayloadConfirmOrderInserted.layout (msg_payload msg))
    now (order_manager_ s) Hnow Hmax (nu_manager _ _ Hs)) as (m & acts & E & Hm' & HA). rewrite E.
  assert (typed_cancels acts) as Hta.
  { apply no_cancels. eapply acknowledged_ids in E as [_ Ea]; [exact Ea | | exact (sp_ids _ Hsp)].
    pose proof (received_range PayloadConfirmOrderInserted.layout msg Hmsg ltac:(by apply Nat.leb_le)) as HR.
    cbn [Codec.in_range PayloadConfirmOrderInserted.layout struct pair_codec unsigned fst snd] in HR. unfold is_u32. naive_solver lia. }
  destruct (run_manager_total now m acts s Hm' Hta HA (numbers_later _ _ _ Hnow Hs)) as (s' & calls & E' & Hs' & Hc & Ein & Est & _).
  exists s', calls. split; [exact E'|]. split; [exact Hs'|]. split; [done|]. split; [done|]. by rewrite Est.
Qed.

Lemma on_message_total t msg now s :
  t <= now → now < 2 ^ 63 → well_formed msg → fair_item msg → speaks s → numbers t s →
  completes now (on_message msg.(message_type) msg.(msg_payload) now s) (undrawn s).
Proof.
  intros Hnow Hmax Hmsg Hf Hsp Hs. unfold on_message.
  pose proof (numbers_later _ _ _ Hnow Hs) as [Hm Hr Ht Hg Hst Hb Hi Ho Hc].
  destruct (MessageType_of_u8 _) eqn:Ety; try (apply completes_now; [by split | done]).
  - by apply acknowledgement_total with t.
  - apply completes_now; [|done]. split; try done. by apply fill_manager_ok.
  - pose proof Hf as Hp. unfold fair_item, fair in Hp. rewrite Ety in Hp. apply price_okb_spec in Hp.
    pose proof (received_range PayloadTradeEvent.layout msg Hmsg ltac:(by apply Nat.leb_le)) as HR.
    assert (is_u32 (decode PayloadTradeEvent.layout (msg_payload msg)).(PayloadTradeEvent.quantity)) as Hq.
    { cbn [Codec.in_range PayloadTradeEvent.layout struct pair_codec unsigned signed64 fst snd] in HR. unfold is_u32. naive_solver lia. }
    apply completes_now.
    + split; try done. cbn [state_ set_model]. by apply trade_state_ok.
    + split; [done|]. cbn [state_ set_model]. unfold SimulationState.on_trade. destruct (_ =? 0); [done|]. by destruct (fle _ _).
  - apply completes_now; [|done]. split; try done. cbn [shadow_order_book_ set_model]. by apply fair_update.
Qed.

(** The simulator between two handlers, at the time [t]. *)
Definition sound (t : Z) s : Prop := speaks s ∧ numbers t s.

(** Taking the oldest message. *)
Lemma pop_sound t s : sound t s →
  ∃ msg q, try_pop INBOUND_Q_LOG s.(inbound_) = Done (msg, q) ∧
    sound t (set_queues s q s.(outbound_) s.(connection_)) ∧ ∀ m, msg = Some m → well_formed m ∧ fair_item m.
Proof.
  intros [[Hi Hb Hv (items & HI & Hit) Ha Hid] [? ? ? ? ? ? (items' & HI' & Hf) ? ?]].
  rewrite <- (holds_unique _ inbound_log _ _ _ HI HI') in Hf. destruct (try_pop_ok _ inbound_log _ _ HI) as (q & E & Hq).
  exists (head items), q. split; [done|]. split.
  - split; (split; try done; exists (list.tail items); split; [done|]); [by destruct Hit | by destruct Hf].
  - intros m Em. destruct items as [|m0 items]; [done|]. injection Em as ->.
    apply Forall_cons in Hit as [? _]. by apply Forall_cons in Hf as [? _].
Qed.

(** The readings of a drain are in order, between [t] and [t']. *)
Definition ticking (t : Z) (clock : nat → Z) (t' : Z) : Prop :=
  t <= clock 0%nat ∧ ∀ j, clock j <= clock (S j) ∧ clock j <= t'.

Lemma drain_total n i clock t t' s :
  t <= t' → t <= clock i → (∀ j, clock j <= clock (S j) ∧ clock j <= t') → t' < 2 ^ 63 → sound t s →
  completes t' (drain_inbound_bounded n i clock s)
    (λ s', speaks s' ∧ s'.(state_).(SimulationState.latent_state_) = s.(state_).(SimulationState.latent_state_)).
Proof.
  intros Ht Hi Hclock Hmax. revert i t s Ht Hi. induction n as [|n IH]; intros i t s Ht Hi Hs; cbn [drain_inbound_bounded].
  { apply completes_now; [by eapply numbers_later, Hs | split; [apply Hs | done]]. }
  destruct (pop_sound t s Hs) as (msg & q & -> & Hs0 & Hmsg). run_bind.
  set (s0 := set_queues s q _ _) in *. destruct msg as [msg|].
  2:{ apply completes_now; [by eapply numbers_later, Hs0 | split; [apply Hs0 | done]]. }
  destruct (Hmsg msg eq_refl) as [Hw Hf]. destruct Hs0 as [Hsp0 Hn0]. destruct (Hclock i) as [Hi1 Hi2].
  destruct (on_message_total t msg (clock i) s0 Hi ltac:(lia) Hw Hf Hsp0 Hn0) as (s1 & calls1 & E1 & Hn1 & Hc1 & _ & El1).
  pose proof (on_message_sends msg _ _ _ _ Hw Hsp0 E1) as [Hsp1 _]. rewrite E1. run_bind.
  destruct (IH (S i) (clock i) s1 Hi2 Hi1 (conj Hsp1 Hn1)) as (s2 & calls2 & -> & Hn2 & Hc2 & Hsp2 & El2). run_bind.
  eexists _, _. split; [reflexivity|]. split; [done|]. split; [by apply armed_calls_app|]. split; [done|]. by rewrite El2, El1.
Qed.

Lemma drain_keeps_tick n i clock t s s' calls :
  sound t s → drain_inbound_bounded n i clock s = Done (s', calls) → s'.(last_tick_) = s.(last_tick_).
Proof.
  intros [_ [[Hm _] _ _ _ _ _ (items & HI & _) _ _]] E.
  destruct (drain_inbound_ok n i clock s items HI Hm) as (s1 & calls1 & E1 & HH & _). rewrite E in E1. injection E1 as <- _.
  apply HH.
Qed.

Lemma flags_numbers t s running scheduled paused : numbers t s → numbers t (set_flags s running scheduled paused).
Proof. intros []. by split. Qed.

Lemma run_drain_total clock t t' s :
  ticking t clock t' → t' < 2 ^ 63 → sound t s → completes t' (run_inbound_drain clock s) speaks.
Proof.
  intros [Hfirst Hclock] Hmax [Hsp Hn]. unfold run_inbound_drain. pose proof (Hclock 0%nat) as [_ Hc0].
  destruct (drain_total MESSAGES_PER_DRAIN 0 clock t t' (set_flags s (running_ s) false (outbound_paused_ s)))
    as (s1 & calls1 & -> & Hn1 & Hc1 & Hsp1 & _); [lia | done | done | done | |].
  { split; [by apply speaks_flags | by apply flags_numbers]. }
  run_bind. destruct (_ && _); [|by exists s1, calls1]. unfold schedule_inbound_drain_.
  destruct (inbound_drain_scheduled_ s1); eexists _, _; (split; [reflexivity|]).
  - split; [done|]. split; [by apply armed_calls_app, armed_calls_nil | done].
  - split; [by apply flags_numbers|]. split; [by apply armed_calls_app, armed_single | by apply speaks_flags].
Qed.

(** *** Orders *)

(** Ready to decide on orders. *)
Definition deciding s : Prop := ready s.(state_) ∧ fair_value_ok s.(state_).

Lemma generate_insert_total t s : t < 2 ^ 63 → sound t s → deciding s →
  completes t (generate_insert s) (λ s', speaks s' ∧ s'.(state_) = s.(state_)).
Proof.
  intros Hmax [Hsp Hn] [Hready Hfv]. pose proof Hn as [Hm Hr Ht Hg Hst Hb Hi Ho Hc].
  unfold generate_insert. cbv zeta.
  set (id := OrderManager.client_request_id_ _). set (hazard := OrderManager.cumulative_hazard _). cbn [state_ rng_ set_manager].
  destruct (decide_returns (state_ s) hazard (rng_ s) Hready Hfv Hg) as (d & rng & E & Hg' & Hp & Hlife & inc & Einc & Hinc).
  rewrite E. run_bind. set (s1 := set_manager (set_rng _ _) _).
  pose proof (decision_typed _ _ _ _ _ id (sp_view _ Hsp) (proj1 (sp_ids _ Hsp)) E) as Hreq.
  assert (numbers t s1) as Hn1.
  { split; try done. cbn [order_manager_ set_manager s1]. rewrite Einc. apply register_manager_ok; [done | |].
    - eapply in_range_le; [exact Hinc | evaluate | evaluate].
    - apply set_request_manager_ok; [apply is_u32_u32 | done]. }
  destruct (send_total _ INSERT_ORDER _ s1 Hreq eq_refl Ho) as (s2 & calls & E2 & Hs2 & Hc2).
  exists s2, calls. split; [exact E2|]. split; [by eapply sending_numbers|]. split; [done|].
  split; [|by destruct Hs2 as (q & c & -> & _)]. eapply send_request in E2; [apply E2 | | exact Hreq | done].
  destruct Hsp as [[Hid0 He] ? ? ? ? ?]. split; try done. split; [apply is_u32_u32 | exact He].
Qed.

Lemma generate_inserts_total k t s : t < 2 ^ 63 → sound t s → deciding s →
  completes t (generate_inserts k s) (λ s', speaks s' ∧ s'.(state_) = s.(state_)).
Proof.
  intros Hmax. revert s. induction k as [|k IH]; intros s Hs Hd; cbn [generate_inserts].
  { apply completes_now; [apply Hs | split; [apply Hs | done]]. }
  destruct (generate_insert_total t s Hmax Hs Hd) as (s1 & calls1 & -> & Hn1 & Hc1 & Hsp1 & E1). run_bind.
  destruct (IH s1 (conj Hsp1 Hn1)) as (s2 & calls2 & -> & Hn2 & Hc2 & Hsp2 & E2); [unfold deciding; by rewrite E1|]. run_bind.
  eexists _, _. split; [reflexivity|]. split; [done|]. split; [by apply armed_calls_app|]. split; [done|]. congruence.
Qed.

(** *** Ticks *)

(** The time since the last tick is positive, on a clock that has moved on. *)
Lemma tick_length_range s t0 : 0 <= s.(last_tick_) < t0 → t0 < 2 ^ 63 → in_range (p2 (-30)) (1 # 4) (tick_length s t0).
Proof.
  intros Hl Hmax. unfold tick_length. cbv zeta. destruct (seconds_log (t0 - last_tick_ s) ltac:(lia)) as [Fd [D1 D2]].
  set (dt := OrderManager.seconds _) in *. clearbody dt. pose proof (p2_pos (-30)).
  destruct (flt dt fzero) eqn:E.
  { apply flt_val in E; [|done..]. change (val fzero) with 0%Q in E. lra. }
  destruct (flt (dec 25 2) dt) eqn:E2; [evaluate|]. split; [done|]. split; [done|].
  apply Qnot_lt_le. intros Hlt. assert ((val (dec 25 2) == 1 # 4)%Q) as Ec by reflexivity.
  rewrite (proj2 (flt_val (dec 25 2) dt eq_refl Fd)) in E2; [discriminate E2|]. by rewrite Ec.
Qed.

(** The mean number of orders is positive. *)
Lemma mean_positive rate dt :
  in_range (inject_Z 7499) (inject_Z 250000) rate → in_range (p2 (-30)) (1 # 4) dt → positive (fmul rate dt).
Proof.
  intros Hr Hd. assert (in_range (p2 (-30)) (p2 20) (fmul rate dt)) as [Hf [M1 _]].
  { range_over [(7499 * 2 ^ 30, 250000 * 2 ^ 30); (1, 2 ^ 28)] [rate; dt]; [inside_by Hr | inside_by Hd]. }
  split; [done|]. pose proof (p2_pos (-30)). lra.
Qed.

(** The middle of a tick: the state is synchronised, then the rate of the order
    manager is updated. *)
Lemma tick_middle_total s t0 now now' :
  0 <= s.(last_tick_) < t0 → t0 <= now → now <= now' → now' < 2 ^ 63 → sound t0 s → calm s.(state_) = true →
  ∃ state, SimulationState.sync_with_book s.(shadow_order_book_) (tick_length s t0) s.(state_) = Done state ∧
    let s2 := set_model (set_last_tick s t0) s.(shadow_order_book_) state in
    completes now' (run_manager (OrderManager.update_cancel_rate s2.(lambda_cancel_) now now' s2.(order_manager_)) s2)
      (λ s', speaks s' ∧ deciding s').
Proof.
  intros Ht0 Hnow Hnow' Hmax [Hsp Hn] Hcalm. pose proof Hn as [Hm Hr Ht Hg Hst Hb Hi Ho Hc].
  assert (in_range 0 (1 # 4) (tick_length s t0)) as Hdt.
  { eapply in_range_le; [apply tick_length_range; lia | apply Qlt_le_weak, p2_pos | lra]. }
  destruct (sync_state_ok _ _ _ Hb Hdt Hcalm Hst) as (state & E & Hst' & Hready & Hfv).
  exists state. split; [exact E|]. intros s2.
  assert (numbers t0 s2) as Hn2 by (split; try done; cbn; lia). assert (speaks s2) as Hsp2.
  { apply speaks_model; [by destruct Hsp | apply Hsp |]. eapply sync_view; [|exact E]. apply Hsp. }
  destruct (rate_manager_ok t0 (lambda_cancel_ s2) now now' (order_manager_ s2) Hnow Hnow' Hmax Hr Hm)
    as (m2 & acts & Em & Hm2 & HA). rewrite Em.
  assert (ids_ok m2 ∧ typed_cancels acts) as Hids.
  { unfold OrderManager.update_cancel_rate in Em.
    apply reschedule_ids in Em as [? Ec]; [split; [done | by apply no_cancels]|]. split; apply (sp_ids _ Hsp). }
  destruct (run_manager_total now' m2 acts s2 Hm2 (proj2 Hids) HA) as (s' & calls & E' & Hn' & Hcs & _ & Est & _).
  { eapply numbers_later; [|exact Hn2]. lia. }
  exists s', calls. split; [exact E'|]. split; [done|]. split; [done|]. split; [|by unfold deciding; rewrite Est].
  eapply run_manager_sends in E' as [Hsp' _]; [exact Hsp' | exact Hsp2 |]. by intros m a [= <- <-].
Qed.

(** The rest of a tick. *)
Lemma tick_orders_total t s dt calls calls' :
  t < 2 ^ 63 → sound t s → deciding s → in_range (inject_Z 7499) (inject_Z 250000) s.(lambda_insert_) →
  in_range (p2 (-30)) (1 # 4) dt → armed_calls calls → armed_calls calls' →
  completes t (let mean := fmul s.(lambda_insert_) dt in
               let '(k, rng) := poisson mean s.(rng_) in
               '(s, calls3) ← generate_inserts (Z.to_nat k) (set_rng s rng);
               Done (s, calls ++ calls' ++ calls3 ++ [event_timer_wait])) speaks.
Proof.
  intros Hmax [Hsp Hn] Hd Hins Hdt Hc Hc'. cbv zeta.
  pose proof (poisson_law (fmul (lambda_insert_ s) dt) (rng_ s) (nu_rng _ _ Hn) (mean_positive _ _ Hins Hdt)) as Hg.
  destruct (poisson _ (rng_ s)) as [k rng]. cbn [snd] in Hg.
  destruct (generate_inserts_total (Z.to_nat k) t (set_rng s rng)) as (s4 & calls4 & -> & Hn4 & Hc4 & Hsp4 & _); [done | | exact Hd |].
  { split; [by destruct Hsp; split | by destruct Hn; split]. }
  run_bind. eexists _, _. split; [reflexivity|]. split; [done|]. split; [|done].
  auto using armed_calls_app, armed_single.
Qed.

Lemma tick_total ec clock t t0 now now' s :
  ticking t clock t0 → t <= t0 → t0 <= now → now <= now' → now' < 2 ^ 63 →
  (ec || negb s.(running_) || (s.(last_tick_) <? t0)) = true → sound t s → calm s.(state_) = true →
  completes now' (tick ec clock t0 now now' s) speaks.
Proof.
  intros [Hfirst Hclock] Ht0 Hle Hnow Hnow' Hlast Hs Hcalm. unfold tick. destruct (_ || negb (running_ s)).
  { apply completes_now; [eapply numbers_later; [|apply Hs]; lia | apply Hs]. }
  cbn [orb] in Hlast. apply Z.ltb_lt in Hlast.
  assert (completes t0 (if negb (size_approx s.(inbound_) =? 0) then drain_inbound_bounded MESSAGES_PER_DRAIN 0 clock s else Done (s, []))
    (λ s', speaks s' ∧ s'.(state_).(SimulationState.latent_state_) = s.(state_).(SimulationState.latent_state_)))
    as (s1 & calls1 & E1 & Hn1 & Hc1 & Hsp1 & El).
  { destruct (negb _); [apply drain_total with t; (done || lia)|].
    apply completes_now; [eapply numbers_later, Hs; lia | split; [apply Hs | done]]. }
  rewrite E1. run_bind. cbv zeta. assert (calm s1.(state_) = true) as Hcalm1 by (unfold calm; by rewrite El).
  assert (last_tick_ s1 = last_tick_ s) as Elast.
  { destruct (negb _); [|by injection E1 as <- _]. by eapply drain_keeps_tick. }
  destruct (tick_middle_total s1 t0 now now') as (state & E & s2 & calls2 & E2 & Hn2 & Hc2 & Hsp2 & Hd2); try done.
  { rewrite Elast. pose proof (nu_tick _ _ (proj2 Hs)). lia. }
  cbn [shadow_order_book_ set_last_tick state_]. rewrite E. run_bind. rewrite E2. run_bind.
  destruct (update_intensity_ok (state_ s2) (OrderManager.open_order_count (order_manager_ s2)) (proj1 Hd2)) as (ins & can & -> & Hins & Hcan).
  { apply open_orders_bounded; [apply Hn2 | apply Hsp2]. }
  run_bind. set (s3 := set_flags _ _ _ _).
  assert (numbers now' s3) as Hn3.
  { destruct Hn2. split; try done. split; [eapply in_range_le; [exact Hcan | evaluate | evaluate]|]. intros _. apply Hcan. }
  assert (speaks s3) as Hsp3 by (destruct Hsp2; by split).
  destruct (outbound_paused_ s3).
  - eexists _, _. split; [reflexivity|]. split; [done|]. split; [|done]. auto using armed_calls_app, armed_single.
  - apply (tick_orders_total now' s3 (tick_length s1 t0)); try done.
    apply tick_length_range; [|lia]. rewrite Elast. pose proof (nu_tick _ _ (proj2 Hs)). lia.
Qed.

(** *** Expiries *)

Lemma expiry_total t aborted now now' s : t <= now → now <= now' → now' < 2 ^ 63 → sound t s →
  completes now' (run_manager (OrderManager.fire_next_expiry aborted now now' s.(order_manager_)) s) speaks.
Proof.
  intros Hnow Hnow' Hmax [Hsp Hn].
  destruct (fire_manager_ok t aborted now now' _ Hnow Hnow' Hmax (nu_manager _ _ Hn)) as (m & acts & E & Hm & HA). rewrite E.
  apply fire_ids in E as Hids; [|apply Hsp].
  destruct (run_manager_total now' m acts s Hm (proj2 Hids) HA) as (s' & calls & E' & Hn' & Hc & _).
  { eapply numbers_later; [|exact Hn]. lia. }
  exists s', calls. split; [exact E'|]. split; [done|]. split; [done|].
  eapply run_manager_sends in E' as [Hsp' _]; [exact Hsp' | exact Hsp |]. by intros m' a [= <- <-].
Qed.
End handlers.
