(* ===== verification/TraderRuns.v ===== *)
(** The simulator is never stuck: whatever order its reads, drains, ticks,
    expiries and writes happen in, every handler returns, as long as it is sent
    prices of the exchange. *)

From Stdlib Require Import SpecFloat QArith.
From S2P Require Import Prelude Types Codec Payloads Protocol SpscQueue Connection ConnectionRead ConnectionWrite ExchangeSession Server ServerTheorems Doubles DoublesExact DoublesValue DoublesRange Pcg32 Pcg32Theorems CmathRange Pcg32Range ShadowBook ShadowTheorems OrderManager OrderManagerTheorems MarketState MarketDynamics MarketTheorems MarketRange DynamicsRange OrderManagerRange Simulator SimulatorTheorems SimulatorRange Trader TraderTheorems.
Import MarketSimulator.

(** ** Reads *)

(** A frame with prices of the exchange: what is decoded of it is its bytes and
    the zeros after them in the buffer of the queue. *)
Definition fair_frame (f : Message_t * bytes) : bool :=
  fair f.1 (if (length f.2 <=? MAX_PAYLOAD_SIZE_BUFFER)%nat then (delivered 0 f).(msg_payload) else f.2).

(** A large message that is passed on is one of the frames. *)
Definition large_of (fs : list (Message_t * bytes)) (e : Effect) : Prop :=
  match e with
  | call_large_message type payload =>
      (type, payload) ∈ fs ∧ (MAX_PAYLOAD_SIZE_BUFFER < length payload)%nat
  | _ => True
  end.

Section reads.
Import Connection.

Lemma not_large_of fs effs : Forall (λ e, is_large e = false) effs → Forall (large_of fs) effs.
Proof. intros Hl. eapply Forall_impl; [exact Hl|]. by intros []. Qed.

Lemma large_of_tail f fs effs : Forall (large_of fs) effs → Forall (large_of (f :: fs)) effs.
Proof. intros Hl. eapply Forall_impl; [exact Hl|]. intros [] He; try done. destruct He. by split; [right|]. Qed.

Lemma parse_loop_large fuel c inbox buf c' inbox' effs lft :
  parse_loop fuel c inbox buf = Done (c', inbox', effs, lft) → Forall (large_of (frames buf).1) effs.
Proof.
  revert c inbox buf c' inbox' effs lft. induction fuel as [|fuel IH]; intros c inbox buf c' inbox' effs lft E;
    (destruct buf as [|ty [|b0 [|b1 r]]]; cbn [parse_loop] in E; try (injection E as <- <- <- <-; apply Forall_nil_2));
    (destruct (_ <? _)%nat eqn:El in E; [injection E as <- <- <- <-; apply Forall_nil_2|]);
    (destruct (MAX_PAYLOAD_SIZE <? _)%nat in E;
       [destruct (notify_disconnect_once_ c) as [c1 effs1] eqn:En; injection E as <- <- <- <-;
        apply disconnect_keeps in En as (_ & _ & L); by apply not_large_of|]); [done|].
  rewrite frames_unfold. unfold next_frame. unfold WIRE_HEADER_SIZE in *. cbn [length Nat.add drop] in E, El.
  apply Nat.ltb_ge in El. rewrite (proj2 (Nat.ltb_ge _ _)) by lia. cbn [fst].
  set (n := Z.to_nat _) in *. destruct (n <=? _)%nat eqn:Es in E.
  - destruct (try_push _ _ _) as [[pushed q1]| |]; [|discriminate E..]. run_bind in *. destruct pushed.
    + destruct (notify_inbound_ready_ c) as [c1 effs1] eqn:Er. apply ready_keeps in Er as (_ & _ & L1).
      destruct (parse_loop fuel c1 q1 _) as [[[[c2 q2] effs2] lft2]| |] eqn:E2 in E; [|discriminate E..]. run_bind in *.
      injection E as <- <- <- <-. apply Forall_app. split; [by apply not_large_of|]. eapply large_of_tail, IH, E2.
    + destruct (notify_disconnect_once_ c) as [c1 effs1] eqn:En. injection E as <- <- <- <-.
      apply disconnect_keeps in En as (_ & _ & L). by apply not_large_of.
  - destruct (parse_loop fuel c inbox _) as [[[[c2 q2] effs2] lft2]| |] eqn:E2 in E; [|discriminate E..]. run_bind in *.
    injection E as <- <- <- <-. apply Forall_app. split; [|eapply large_of_tail, IH, E2].
    apply Nat.leb_gt in Es. destruct (large_message_received _); repeat constructor. rewrite length_take. lia.
Qed.

(** A read does not ask for more. *)
Lemma handle_read_large c inbox data c' inbox' effs :
  handle_read_ c inbox (Some data) = Done (c', inbox', effs) → Forall (large_of (frames (c.(in_accum_) ++ data)).1) effs.
Proof.
  unfold handle_read_. destruct (if _ <? _ then _ else _) as [cap| |]; [|done..]. run_bind.
  set (c1 := set_in c _ cap). unfold parse_accumulator_. cbn [in_accum_ set_in c1].
  destruct (parse_loop _ c1 inbox _) as [[[[c2 q2] effs2] lft]| |] eqn:Ep; [|done..]. run_bind.
  apply parse_loop_large in Ep. destruct lft; run_bind; intros [= _ _ <-]; apply Forall_app; (split; [done|]);
    by destruct (disconnect_notified_ _); repeat constructor.
Qed.

(** The frames that are queued are frames that fit. *)
Lemma taken_fits room fs f : f ∈ (taken room fs).1 → f ∈ fs ∧ (length f.2 <= MAX_PAYLOAD_SIZE_BUFFER)%nat.
Proof.
  revert room. induction fs as [|f0 fs IH]; intros room; cbn [taken]; [by intros ?%elem_of_nil|].
  destruct (_ <? _)%nat; [by intros ?%elem_of_nil|]. destruct (_ <=? _)%nat eqn:E.
  - destruct room as [|room]; [by intros ?%elem_of_nil|]. specialize (IH room).
    destruct (taken room fs) as [fs' closed]. cbn [fst] in *. intros [->|Hf]%elem_of_cons.
    + apply Nat.leb_le in E. split; [left | done].
    + destruct (IH Hf). split; [by right | done].
  - intros Hf%IH. destruct Hf. split; [by right | done].
Qed.

Lemma fair_delivered id f : fair_frame f = true → (length f.2 <= MAX_PAYLOAD_SIZE_BUFFER)%nat → fair_item (delivered id f).
Proof. unfold fair_frame. intros Hf Hl. by rewrite (proj2 (Nat.leb_le _ _) Hl) in Hf. Qed.
End reads.

Section steps.
Context `{LibmRanges, Distributions} {G : Type} `{RNG G} {ok : G → Prop} `{!LawfulRNG G ok} {Q : Type} `{HQ : LawfulQueue Q}.
Import Trader.
Implicit Types (s : MarketSimulator.t G Q) (w : Trader.t G Q).
#[local] Notation numbers := (SimulatorRange.numbers (ok := ok)).

(** ** What is expected of a run *)

(** Data is read while the connection is open and at most a buffer at a time, and
    the frames it completes carry prices of the exchange; when a tick comes the
    fair value has not left its range, and the clock has moved on since the last
    tick. *)
Definition expected w (e : Event) : bool :=
  let conn := w.(sim).(connection_) in
  match e with
  | Reads data =>
      negb conn.(Connection.disconnect_notified_) && (Z.of_nat (length data) <=? READ_SIZE) &&
      forallb fair_frame (frames (conn.(Connection.in_accum_) ++ data)).1
  | Tick ec _ t0 _ _ =>
      calm w.(sim).(state_) && (ec || negb w.(sim).(running_) || (w.(sim).(last_tick_) <? t0))
  | _ => true
  end.

Fixpoint as_expected w (es : list Event) : bool :=
  match es with
  | [] => true
  | e :: es => expected w e && match step w e with Done w => as_expected w es | _ => true end
  end.

(** What an event reads on the steady clock: nothing earlier than [t], in order,
    and nothing later than [t']. *)
Definition timed (t : Z) (e : Event) (t' : Z) : Prop :=
  match e with
  | InboundDrain clock => ticking t clock t'
  | Tick _ clock t0 now now' => ticking t clock t0 ∧ t0 <= now ∧ now <= now' ∧ now' <= t'
  | Expiry _ now now' => t <= now ∧ now <= now' ∧ now' <= t'
  | FirstTick now => t <= now <= t'
  | _ => t <= t'
  end.

(** From the time [t] on the clock never goes back, and it counts up to 2{^63}
    nanoseconds. *)
Inductive steady : Z → list Event → Prop :=
  | steady_end t : steady t []
  | steady_step t e t' es : timed t e t' → t' < 2 ^ 63 → steady t' es → steady t (e :: es).

(** ** Steps *)

Lemma hook_numbers t s e fs :
  numbers t s → large_bytes e → large_of fs e → forallb fair_frame fs = true → numbers t (hook s e).
Proof.
  intros Hn Hb Hl Hf. destruct e; try done; cbn [hook].
  - by apply flags_numbers.
  - unfold inbound_ready, schedule_inbound_drain_.
    destruct (negb _); [done|]. destruct (inbound_drain_scheduled_ s); [done|]. by apply flags_numbers.
  - unfold on_large_message. destruct (MessageType_of_u8 _) eqn:Ety; try done. destruct (negb _) eqn:E; [done|].
    apply negb_false_iff, Nat.eqb_eq in E. destruct Hl as [Hin Hlen]. rewrite forallb_forall in Hf.
    apply list_elem_of_In in Hin. specialize (Hf _ Hin). unfold fair_frame in Hf. cbn [fst snd] in Hf.
    rewrite (proj2 (Nat.leb_gt _ _) Hlen) in Hf. destruct Hn. split; try done. by eapply snapshot_in_book.
Qed.

Lemma hooks_numbers t s effs fs :
  numbers t s → Forall large_bytes effs → Forall (large_of fs) effs → forallb fair_frame fs = true →
  numbers t (foldl hook s effs).
Proof.
  intros Hn Hb Hl Hf. revert s Hn Hb. induction Hl as [|e effs He _ IH]; intros s Hn Hb; [done|]. cbn [foldl].
  apply Forall_cons in Hb as [Hb1 Hb]. apply IH; [|done]. by eapply hook_numbers.
Qed.

(** A read that is expected, or that fails. *)
Lemma read_total t s data : speaks s → numbers t s → Forall is_byte data →
  s.(connection_).(Connection.disconnect_notified_) = false → Z.of_nat (length data) <= READ_SIZE →
  forallb fair_frame (frames (s.(connection_).(Connection.in_accum_) ++ data)).1 = true →
  ∃ conn inbound effs, Connection.handle_read_ s.(connection_) s.(inbound_) (Some data) = Done (conn, inbound, effs) ∧
    numbers t (foldl hook (set_queues s inbound s.(outbound_) conn) effs).
Proof.
  intros Hsp Hn Hd Hopen Hlen Hf. pose proof Hsp as [_ _ _ (items & HI & Hit) Ha Hid].
  pose proof (nu_reads _ _ Hn Hopen) as Hidle. pose proof (handle_read_ok _ _ items data Hidle HI Hlen) as HR.
  destruct (frames _) as [fs lft] eqn:Efs. cbn [fst] in Hf. destruct (taken _ fs) as [ms closed] eqn:Et.
  destruct HR as (conn & inbound & effs & E & HI' & _ & _ & _ & Hclosed & Ho & _). exists conn, inbound, effs. split; [exact E|].
  pose proof (handle_read_large _ _ _ _ _ _ E) as Hl. rewrite Efs in Hl.
  eapply handle_read_keeps in E as (_ & _ & _ & Hb); [|done..| |done|done]; [|by rewrite Hid].
  eapply hooks_numbers; [|exact Hb | exact Hl | exact Hf].
  destruct Hn as [? ? ? ? ? ? (items' & HI2 & Hfi) ? ?]. split; try done.
  - rewrite <- (holds_unique _ inbound_log _ _ _ HI HI2) in Hfi. eexists. split; [exact HI'|].
    apply Forall_app. split; [done|]. apply Forall_map, Forall_forall. intros f Hin.
    assert (f ∈ (taken (room_left items) fs).1) as [Hin' Hfit]%taken_fits by (by rewrite Et).
    apply fair_delivered; [|done]. rewrite forallb_forall in Hf. by apply Hf, list_elem_of_In.
  - cbn. rewrite Hclosed. intros ->. by apply Ho.
Qed.

Lemma read_fails_total t s : speaks s → numbers t s →
  ∃ conn inbound effs, Connection.handle_read_ s.(connection_) s.(inbound_) None = Done (conn, inbound, effs) ∧
    numbers t (foldl hook (set_queues s inbound s.(outbound_) conn) effs).
Proof.
  intros Hsp Hn. cbn. destruct (Connection.notify_disconnect_once_ _) as [c effs] eqn:E.
  exists c, (inbound_ s), effs. split; [done|]. apply disconnect_keeps in E as Hk. destruct Hk as (_ & _ & Hl).
  apply (hooks_numbers _ _ _ []); [|by apply not_large | by apply not_large_of | done].
  destruct Hn. split; try done. cbn. unfold Connection.notify_disconnect_once_ in E.
  destruct (Connection.disconnect_notified_ (connection_ s)) eqn:En; injection E as <- _; [by rewrite En | done].
Qed.

Lemma armed_delays calls : armed_calls calls → ∃ ds, delays calls = Done ds.
Proof.
  induction calls as [|call calls IH]; intros Hc; [by eexists|].
  destruct IH as [ds E]; [intros delay Hd; apply Hc; by right|].
  destruct call as [| [|delay| |] | | | | | | |]; cbn [delays]; rewrite ?E; try by eexists.
  destruct (Hc delay) as (ns & -> & _); [left|]. run_bind. by eexists.
Qed.

Lemma post_numbers t w res P : completes (ok := ok) t res P → ∃ w', post w res = Done w' ∧ numbers t w'.(sim).
Proof.
  intros (s & calls & -> & Hn & Hc & _). unfold post. run_bind.
  destruct (armed_delays calls Hc) as [ds ->]. run_bind. destruct (foldl absorb _ _) as [n fl].
  by eexists.
Qed.

Lemma writing_numbers t w n data written conn q effs items :
  numbers t w.(sim) → same_reading w.(sim).(connection_) conn → holds OUTBOUND_Q_LOG q items →
  ∃ w', writing w n data written (Done (conn, q, effs)) = Done w' ∧ numbers t w'.(sim).
Proof.
  intros Hn Hc Hq. unfold writing. run_bind. destruct (foldl absorb _ _) as [n' fl']. eexists. split; [reflexivity|].
  eapply sending_numbers; [|exact Hn]. exists q, conn. split; [done|]. split; [done | by exists items].
Qed.

Lemma ticking_order t clock t' : ticking t clock t' → t <= t'.
Proof. intros [Hf Hc]. pose proof (Hc 0%nat). lia. Qed.

Lemma timed_order t e t' : timed t e t' → t <= t'.
Proof.
  destruct e; cbn [timed]; try lia; [by apply ticking_order|].
  intros (Hc%ticking_order & ?). lia.
Qed.

Lemma step_total t t' w rs e :
  trading w rs → numbers t w.(sim) → enabled w e = true → valid_event e → timed t e t' → t' < 2 ^ 63 →
  expected w e = true → ∃ w', step w e = Done w' ∧ numbers t' w'.(sim).
Proof.
  intros [Hsp [Hrs [its HO]]] Hn Hen Hv Ht Hmax Hex. set (s := sim w) in *.
  assert (t <= t') as Hle by (by eapply timed_order).
  pose proof (numbers_later t t' s Hle Hn) as Hn1.
  destruct e as [data| | |clock|ec clock t0 now now'|aborted now now'| |now| | |n]; cbn [step enabled expected timed] in *; fold s.
  - apply andb_true_iff in Hex as [[Hc%negb_true_iff Hl%Z.leb_le]%andb_true_iff Hf].
    destruct (read_total t' s data Hsp Hn1 Hv Hc Hl Hf) as (conn & inbound & effs & -> & Hn'). unfold reading. run_bind.
    eexists. split; [reflexivity | exact Hn'].
  - destruct (read_fails_total t' s Hsp Hn1) as (conn & inbound & effs & -> & Hn'). unfold reading. run_bind.
    eexists. split; [reflexivity | exact Hn'].
  - unfold Connection.run_inbound_ready, reading. run_bind. eexists. split; [reflexivity|]. cbn [sim].
    apply (hooks_numbers _ _ _ []); [| | |done]; [|destruct (_ && _); by repeat constructor..].
    destruct Hn1. split; try done. cbn. intros Hopen. by apply (same_reading_idle (connection_ s)); [|auto].
  - eapply post_numbers. by apply run_drain_total with t.
  - destruct Ht as (Hc & ? & ? & ?). apply andb_true_iff in Hex as [Hcalm Hlast].
    eapply post_numbers, completes_later; [|apply tick_total with t; try done; apply ticking_order in Hc; lia]; done.
  - destruct Ht as (? & ? & ?). eapply post_numbers, completes_later; [|apply expiry_total with t; try done; lia]. done.
  - apply (post_numbers _ _ _ (λ _, True)). eexists _, _. split; [reflexivity|]. split; [by apply flags_numbers|].
    split; [|done]. by intros delay [?|[?|?%elem_of_nil]%elem_of_cons]%elem_of_cons.
  - apply (post_numbers _ _ _ (λ _, True)). eexists _, _. split; [reflexivity|].
    pose proof (nu_tick _ _ Hn). split; [destruct Hn1; split; try done; cbn; lia|]. split; [by apply armed_single | done].
  - apply (post_numbers _ _ _ (λ _, True)). eexists _, _. split; [reflexivity|]. split; [by apply flags_numbers|].
    split; [|done]. by intros delay [?|[?|?%elem_of_nil]%elem_of_cons]%elem_of_cons.
  - pose proof HO as [HQo Hwq Hst Hpr Hba _ _].
    destruct (drain_ok (connection_ s) _ (drains w - 1) (inflight w) (wire w) _ false its HQo Hwq Hst Hpr Hba)
      as (c' & q' & effs & n' & fl' & tk & its' & Ed & _ & HO' & _).
    rewrite Ed. eapply writing_numbers; [exact Hn1 | by eapply drain_reading | exact (oi_queue _ _ _ _ _ _ _ _ HO')].
  - destruct (inflight w) as [data|] eqn:Efl; [|done]. apply andb_true_iff in Hen as [Hlo%Nat.ltb_lt Hhi%Nat.leb_le].
    destruct (wrote_ok (connection_ s) _ (drains w) data (wire w) _ false its n HO (conj Hlo Hhi))
      as (c' & q' & effs & n' & fl' & tk & its' & Ed & _ & HO' & _).
    rewrite Ed. eapply writing_numbers; [exact Hn1 | by eapply write_reading | exact (oi_queue _ _ _ _ _ _ _ _ HO')].
Qed.

Lemma run_total t w rs es :
  trading w rs → numbers t w.(sim) → possible w es = true → Forall valid_event es → steady t es →
  as_expected w es = true → ∃ w' rs' t', run w es = Done w' ∧ trading w' rs' ∧ numbers t' w'.(sim).
Proof.
  intros HT Hn Hp Hv Ht. revert w rs HT Hn Hp Hv. induction Ht as [t|t e t' es He Hmax _ IH]; intros w rs HT Hn;
    cbn [possible as_expected run]; [by exists w, rs, t|].
  intros [Hen Hp]%andb_true_iff [Hv1 Hv]%Forall_cons [Hex Hes]%andb_true_iff.
  destruct (step_total t t' w rs e HT Hn Hen Hv1 He Hmax Hex) as (w1 & E1 & Hn1).
  destruct (step_trading w rs e w1 HT Hen Hv1 E1) as (rs1 & HT1). rewrite E1 in Hp, Hes |- *. run_bind. by eapply IH.
Qed.

Lemma fresh_numbers rng memory_time memory_price memory_liq bounds :
  ok rng → Forall exact_int bounds → bounds ≠ [] →
  numbers 0 (fresh (Q := Q) rng (SimulationState.SimulationState memory_time memory_price memory_liq bounds)).(sim).
Proof.
  intros Hrng Hb Hne. split.
  - by apply first_manager_ok.
  - split; [evaluate|]. intros _. evaluate.
  - done.
  - exact Hrng.
  - split; [apply start_range | exact Hb | exact Hne | | apply seed_rng_ok].
    split; [evaluate|]. split; [|evaluate].
    eapply in_range_finite, (log_range 9); [lia | exact eq_refl | evaluate | evaluate].
  - intros [] price volume E; cbn in E; by rewrite lookup_empty in E.
  - exists []. split; [apply new_queue_holds, inbound_log | constructor].
  - exists []. apply new_queue_holds, outbound_log.
  - intros _. split; [done | by left | done].
Qed.
End steps.

(** ** Guarantee *)

(** C7: the simulator is never stuck.  From its construction, with any generator
    that keeps to its ranges, whatever order its reads, drains, ticks, expiries and
    writes happen in: every handler returns, none meets an undefined conversion (the
    delays of its timers included), an access outside an array or a loop that does
    not end, and its numbers stay in their ranges.  This is as long as data is read
    while the connection is open, the prices in it are those of the exchange, the
    clock is steady, that is its 63-bit readings never go back, it has moved on
    between two ticks, and the logarithm of the fair value, a random walk, is at most
    34.5 in absolute value when a tick comes. *)
Theorem simulator_never_stuck `{LibmRanges} {G : Type} `{RNG G} {ok : G → Prop} `{!LawfulRNG G ok}
    {Q : Type} `{LawfulQueue Q} (rng : G) memory_time memory_price memory_liq bounds (events : list Trader.Event) :
  let w0 := Trader.fresh (Q := Q) rng (SimulationState.SimulationState memory_time memory_price memory_liq bounds) in
  ok rng → Forall exact_int bounds → bounds ≠ [] →
  Trader.possible w0 events = true → Forall Trader.valid_event events → steady 0 events →
  as_expected w0 events = true →
  ∃ w t, Trader.run w0 events = Done w ∧ sound (ok := ok) t w.(Trader.sim).
Proof.
  intros w0 Hrng Hb Hne Hp Hv Ht He.
  destruct (run_total (ok := ok) 0 w0 [] events (fresh_trading _ _ _ _ _) (fresh_numbers _ _ _ _ _ Hrng Hb Hne) Hp Hv Ht He)
    as (w & rs & t & E & [Hsp _] & Hn).
  exists w, t. split; [exact E|]. by split.
Qed.

(** A level update of the exchange, read in two pieces between two ticks. *)
Definition ask_frame : bytes :=
  Connection.frame (MessageType_to_u8 PRICE_LEVEL_UPDATE)
    (payload_bytes (PPriceLevelUpdate (make_price_level_update 1 SELL 1004 7 1))).

(** The client's order rests under the id 9 and is cancelled when its time has come. *)
Definition confirm_frame : bytes :=
  Connection.frame (MessageType_to_u8 CONFIRM_ORDER_INSERTED)
    (payload_bytes (PConfirmOrderInserted (make_confirm_order_inserted 0 9 BUY 1000 5 5 1))).

Definition fair_events : list Trader.Event :=
  [Trader.Start; Trader.FirstTick 1000; Trader.Tick false (λ _, 2000) 1000000 1000000 1000100;
   Trader.Reads (take 5 ask_frame); Trader.Reads (drop 5 ask_frame ++ confirm_frame); Trader.RunReady;
   Trader.InboundDrain (λ _, 1500000); Trader.RunDrain; Trader.Wrote 20;
   Trader.Tick false (λ _, 1600000) 2000000 2000000 2000000; Trader.Expiry false 3000000 3000000].

Definition ranged_trader : Trader.t pcg32.t (list HazardEntry) :=
  Trader.fresh (PCGRNG.PCGRNG 42 54)
    (@SimulationState.SimulationState ranged_libm (TimeState.Make fzero fzero) 0 no_liquidity [1; 5; 10]).

Lemma fair_events_valid : Forall Trader.valid_event fair_events.
Proof.
  assert (Forall is_byte (take 5 ask_frame) ∧ Forall is_byte (drop 5 ask_frame ++ confirm_frame)) as [Hb1 Hb2].
  { split; [apply (Forall_inv (check_bytes_ok [Server.Received 0 (take 5 ask_frame)] eq_refl)) |
            apply (Forall_inv (check_bytes_ok [Server.Received 0 (drop 5 ask_frame ++ confirm_frame)] eq_refl))]. }
  repeat (apply Forall_cons_2; [cbn [Trader.valid_event]; done|]); apply Forall_nil_2.
Qed.

Lemma fair_events_steady : steady 0 fair_events.
Proof.
  do 2 (apply steady_step with 1000; [cbn [timed]; lia | lia|]).
  apply steady_step with 1000100; [cbn [timed]; unfold ticking; repeat split; lia | lia|].
  do 3 (apply steady_step with 1000100; [cbn [timed]; lia | lia|]).
  apply steady_step with 1500000; [cbn [timed]; unfold ticking; repeat split; lia | lia|].
  do 2 (apply steady_step with 1500000; [cbn [timed]; lia | lia|]).
  apply steady_step with 2000000; [cbn [timed]; unfold ticking; repeat split; lia | lia|].
  apply steady_step with 3000000; [cbn [timed]; lia | lia|]. apply steady_end.
Qed.

Lemma simulator_never_stuck_witness :
  ∃ w t, @Trader.run ranged_libm _ ranged_rng _ _ ranged_trader fair_events = Done w ∧
    w.(Trader.sim).(shadow_order_book_).(ShadowOrderBook.asks_) = {[ 1004 := 7 ]} ∧
    w.(Trader.sim).(order_manager_).(OrderManager.active_orders_) = {[ 9 ]} ∧
    @sound ranged_libm _ pcg_ok _ _ t w.(Trader.sim).
Proof.
  destruct (@simulator_never_stuck ranged_libm ranged_libm_ok _ ranged_rng pcg_ok ranged_rng_ok
    (list HazardEntry) _ _ (PCGRNG.PCGRNG 42 54) (TimeState.Make fzero fzero) 0 no_liquidity [1; 5; 10] fair_events)
    as (w & t & E & Hs).
  - apply seed_rng_ok.
  - exact some_bounds_ok.
  - discriminate.
  - vm_compute. reflexivity.
  - exact fair_events_valid.
  - exact fair_events_steady.
  - vm_compute. reflexivity.
  - exists w, t. split; [exact E|].
    assert (match @Trader.run ranged_libm _ ranged_rng _ _ ranged_trader fair_events with
            | Done w => w.(Trader.sim).(shadow_order_book_).(ShadowOrderBook.asks_) = {[ 1004 := 7 ]} ∧
                w.(Trader.sim).(order_manager_).(OrderManager.active_orders_) = {[ 9 ]}
            | _ => False end) as Ea
      by (vm_compute; split; reflexivity).
    change (Trader.run _ fair_events) with (@Trader.run ranged_libm _ ranged_rng _ _ ranged_trader fair_events) in E.
    rewrite E in Ea. destruct Ea as [Ea Eo]. split; [exact Ea|]. split; [exact Eo | exact Hs].
Defined.
