(* ===== verification/FairFeed.v ===== *)
(** What the exchange sends is what the simulator relies on: every price in a
    level update or a trade event is the price of a level of the book. *)

From stdpp Require Import functions.
From S2P Require Import Prelude Types OrderBook BookSpec BookLinks BookView BookRep BookRefinement Codec Payloads Protocol SpscQueue Connection ConnectionRead ConnectionWrite ConnectionBytes Exchange ExchangeCalls ExchangeEvents ExchangeSession ExchangeTheorems ExchangeLife MarketFeed MarketRange SimulatorRange TraderRuns.
Import Exchange.

(** ** Events *)

Definition priced (o : OrderData) : Prop := price_ok (od_price o).

(** The prices of an event. *)
Definition event_priced (e : Event) : Prop :=
  match e with
  | OrderBook.on_trade _ _ _ price _ _ _ _ => price_ok price
  | OrderBook.on_level_update _ price _ _ => price_ok price
  | _ => True
  end.

Lemma fill_queue_priced incoming q ts q' rest :
  Forall priced q → fill_queue incoming q = (ts, q', rest) → Forall (λ t, priced t.(tr_maker)) ts ∧ Forall priced q'.
Proof.
  intros Hq. revert incoming ts. induction Hq as [|o q Ho Hq IH]; intros incoming ts; cbn [fill_queue].
  { intros [= <- <- _]. by split. }
  destruct (incoming <=? 0); [intros [= <- <- _]; split; [apply Forall_nil_2 | by apply Forall_cons]|].
  destruct (od_remaining o <=? incoming).
  - destruct (fill_queue _ q) as [[ts1 q1] rest1] eqn:E. intros [= <- <- <-].
    destruct (IH _ _ E) as [H1 H2]. split; [by constructor | done].
  - intros [= <- <- _]. split; [apply Forall_singleton, Ho | by apply Forall_cons].
Qed.

Lemma sweep_priced bid price total id client now path queue incoming evs queue' path' rest :
  (∀ k, Forall priced (queue k)) → (∀ k, k ∈ path → 0 <= k < NUM_BOOK_LEVELS) →
  sweep bid price total id client now path queue incoming = (evs, queue', path', rest) → Forall event_priced evs.
Proof.
  revert queue incoming evs. induction path as [|k path IH]; intros queue incoming evs Hq Hp; cbn [sweep];
    [by intros [= <- _ _ _]|].
  destruct (incoming <=? 0); [by intros [= <- _ _ _]|]. destruct (negb _); [by intros [= <- _ _ _]|].
  destruct (fill_queue incoming (queue k)) as [[ts q] lft] eqn:EF.
  destruct (fill_queue_priced _ _ _ _ _ (Hq k) EF) as [Hts Hq'].
  assert (Forall event_priced (map (trade_event total id client now) ts ++ [update_event bid now k q])) as Hev.
  { apply Forall_app. split; [by apply Forall_map|]. constructor; [|done]. apply level_price_range, Hp. left. }
  destruct q as [|o q]; [|by intros [= <- _ _ _]].
  destruct (sweep _ _ _ _ _ _ path _ lft) as [[[evs1 queue1] path1] rest1] eqn:ES. intros [= <- -> -> ->].
  apply Forall_app. split; [done|]. eapply (IH _ _ _); [| |exact ES].
  - intros j. unfold insert, fn_insert. case_decide; [done | apply Hq].
  - intros j Hj. apply Hp. by right.
Qed.

(** The orders of a book have the prices of their levels. *)
Lemma represents_priced b A bid k : represents b A → Forall priced ((a_side A bid).(a_queue) k).
Proof.
  intros (ls & fl & D & HR). pose proof (rb_side _ _ _ _ _ HR bid) as HS. rewrite (rp_queue _ _ _ _ _ _ HS).
  apply Forall_map, Forall_forall. intros i Hi. destruct (rp_good _ _ _ _ _ _ HS k i Hi) as [Hp _ _ _ _ _].
  destruct (shape_slot _ _ _ _ _ _ k i (sv_shape _ _ _ _ _ _ _ _ (rp_view _ _ _ _ _ _ HS)) Hi) as [_ Hk].
  unfold priced. cbn. rewrite Hp. by apply level_price_range.
Qed.

Lemma submit_priced b A price quantity is_bid client req now now_match now_add A' evs :
  represents b A → a_submit A price quantity is_bid client req now now_match now_add = (A', evs) → Forall event_priced evs.
Proof.
  intros HR. unfold a_submit. destruct (quantity =? 0); [intros [= _ <-]; by repeat constructor|].
  destruct (_ || _) eqn:Ep; [intros [= _ <-]; by repeat constructor|]. apply orb_false_iff in Ep as [Ep1 Ep2].
  destruct (a_match _ _ _ _ _ _ _) as [[evs1 maker] lft] eqn:EM. unfold a_match in EM.
  destruct (sweep _ _ _ _ _ _ _ _ _) as [[[evs2 queue] path] rest] eqn:ES. injection EM as -> _ _.
  apply sweep_priced in ES.
  2:{ intros k. by eapply represents_priced. }
  2:{ intros k. apply visible_range. by eapply represents_best_range. }
  destruct (lft <=? 0); [by intros [= _ <-]|].
  destruct (MAX_ORDERS <=? _); intros [= _ <-]; apply Forall_app; (split; [done|]); [by repeat constructor|].
  constructor; [|by repeat constructor]. cbn. unfold price_ok. lia.
Qed.

Lemma step_priced b A now now_match now_add r A' evs :
  represents b A → book_step A now now_match now_add r A' evs → Forall event_priced evs.
Proof.
  intros HR Hs.
  destruct Hs as [price quantity is_bid client req a' evs' E | | |
    client req id is_bid k before o after queue [Hk _] _ _ -> | | | | |
    client req id quantity is_bid k before o after queue [Hk _] _ _ _ -> |
    client req id is_bid k before o after queue [Hk _] _ _ ->]; [by eapply submit_priced|..].
  all: repeat apply Forall_cons_2; try apply Forall_nil_2; try exact I; by apply level_price_range.
Qed.

(** ** Messages *)

(** What the exchange sends reads as a fair frame at the other end. *)
Definition sends_fair (calls : list Call) : Prop :=
  ∀ d type payload, call_send_message d type payload ∈ calls → fair_frame (on_wire (type, payload)) = true.

Lemma price_okb_ok price : price_ok price → price_okb price = true.
Proof. unfold price_ok, price_okb. lia. Qed.

Lemma trade_price p rest :
  price_ok p.(PayloadTradeEvent.price) →
  (decode PayloadTradeEvent.layout (payload_bytes (PTradeEvent p) ++ rest)).(PayloadTradeEvent.price) = p.(PayloadTradeEvent.price).
Proof.
  intros Hp. transitivity (i64 (le_decode 8 (le_encode 8 (u64 p.(PayloadTradeEvent.price)) ++
    (le_encode 4 p.(PayloadTradeEvent.quantity) ++ le_encode 1 p.(PayloadTradeEvent.taker_side) ++
     le_encode 8 p.(PayloadTradeEvent.timestamp) ++ rest)))); [by destruct p|].
  rewrite le_decode_encode by apply u64_range. apply i64_u64. unfold price_ok, MINIMUM_BID, MAXIMUM_ASK in Hp. lia.
Qed.

Lemma update_price p rest :
  price_ok p.(PayloadPriceLevelUpdate.price) →
  (decode PayloadPriceLevelUpdate.layout (payload_bytes (PPriceLevelUpdate p) ++ rest)).(PayloadPriceLevelUpdate.price) =
    p.(PayloadPriceLevelUpdate.price).
Proof.
  intros Hp. transitivity (i64 (le_decode 8 (le_encode 8 (u64 p.(PayloadPriceLevelUpdate.price)) ++
    (le_encode 4 p.(PayloadPriceLevelUpdate.total_volume) ++ le_encode 8 p.(PayloadPriceLevelUpdate.timestamp) ++ rest))));
    [by destruct p|].
  rewrite le_decode_encode by apply u64_range. apply i64_u64. unfold price_ok, MINIMUM_BID, MAXIMUM_ASK in Hp. lia.
Qed.

(** A publication whose prices are those of the event. *)
Lemma publication_fair seq trade e m :
  event_priced e → publication seq trade e = Some m → fair_frame (on_wire m) = true.
Proof.
  destruct e as [maker taker order price total cumulative traded now| | | |side price total now|]; cbn [event_priced];
    intros Hp Em; unfold publication in Em; try discriminate Em; apply (inj Some) in Em as <-; try reflexivity.
  - set (p := make_trade_event _ _ _ _ _ _).
    change (price_okb (decode PayloadTradeEvent.layout (payload_bytes (PTradeEvent p) ++
      replicate (MAX_PAYLOAD_SIZE_BUFFER - 29) 0)).(PayloadTradeEvent.price) = true).
    rewrite trade_price by exact Hp. by apply price_okb_ok.
  - set (p := make_price_level_update _ _ _ _ _).
    change (price_okb (decode PayloadPriceLevelUpdate.layout (payload_bytes (PPriceLevelUpdate p) ++
      replicate (MAX_PAYLOAD_SIZE_BUFFER - 25) 0)).(PayloadPriceLevelUpdate.price) = true).
    rewrite update_price by exact Hp. by apply price_okb_ok.
Qed.

Lemma private_fair trade e : Forall (λ x, fair_frame (on_wire x.2) = true) (private trade e).
Proof. destruct e; cbn [private]; repeat (apply Forall_cons_2; [reflexivity|]); apply Forall_nil_2. Qed.

Lemma callback_fair x e : event_priced e →
  sends_fair (send_private x (private x.(trade_id_) e) ++ send_public x (publication x.(sequence_number_) x.(trade_id_) e)).
Proof.
  intros He d type payload [Hin|Hin]%elem_of_app.
  - unfold send_private in Hin. apply list_elem_of_In, in_concat in Hin as (l & Hl & Hin).
    apply in_map_iff in Hl as ([client [type' payload']] & <- & Hm). apply list_elem_of_In in Hm.
    destruct (connected x client); [|done]. destruct Hin as [[= _ <- <-]|[]].
    pose proof (private_fair x.(trade_id_) e) as H. rewrite Forall_forall in H. apply (H _ Hm).
  - destruct (publication _ _ e) as [[type' payload']|] eqn:E; [|by apply elem_of_nil in Hin].
    cbn [send_public] in Hin. apply elem_of_app in Hin as [Hin|Hin%list_elem_of_singleton]; [|done].
    apply list_elem_of_fmap in Hin as (d' & [= _ <- <-] & _). by eapply publication_fair.
Qed.

Lemma sends_fair_app calls calls' : sends_fair calls → sends_fair calls' → sends_fair (calls ++ calls').
Proof. intros H1 H2 d type payload [Hin|Hin]%elem_of_app; [by eapply H1 | by eapply H2]. Qed.

Lemma calls_of_fair x evs : Forall event_priced evs → sends_fair (calls_of x evs).
Proof.
  intros He. revert x. induction He as [|e evs He _ IH]; intros x; cbn [calls_of]; [by intros ??? ?%elem_of_nil|].
  apply sends_fair_app; [by apply callback_fair | apply IH].
Qed.

Lemma dispatched_fair x A msg times x' calls A' :
  represents x.(order_book_) A → dispatched x A msg times x' calls A' → sends_fair calls.
Proof.
  intros HR Hd. destruct Hd as [r book evs A' _ Hs| | | |]; [apply calls_of_fair; by eapply step_priced|..].
  all: intros d type payload Hin.
  - destruct (connected _ _); [by apply list_elem_of_singleton in Hin | by apply elem_of_nil in Hin].
  - by apply elem_of_nil in Hin.
  - by apply list_elem_of_singleton in Hin.
  - by apply elem_of_nil in Hin.
Qed.

Lemma run_inputs_fair x A ins x' calls :
  exchange_ok x A → Forall valid_input ins → A.(a_next_id) + Z.of_nat (length ins) < 2 ^ 32 →
  run_inputs x ins = Done (x', calls) → sends_fair calls.
Proof.
  intros HE Hv. revert x A calls HE. induction Hv as [|i ins Hi _ IH]; intros x A calls HE Hid;
    cbn [run_inputs length] in *; [intros [= _ <-]; by intros ??? ?%elem_of_nil|].
  assert (∃ x1 calls1 A1, handle_input x i = Done (x1, calls1) ∧ exchange_ok x1 A1 ∧
    A1.(a_next_id) <= A.(a_next_id) + 1 ∧ sends_fair calls1) as (x1 & calls1 & A1 & -> & HE1 & Hn1 & Hf1).
  { destruct i as [|msg times]; cbn [handle_input].
    - destruct (accept_ok x A HE) as (x1 & -> & HE1 & _). exists x1, [], A.
      split; [done|]. split; [done|]. split; [lia | by intros ??? ?%elem_of_nil].
    - destruct Hi as [Hw _]. destruct (dispatch_ok x A msg times HE Hw) as (x1 & calls1 & A1 & -> & HE1 & Hd & Hn); [lia|].
      exists x1, calls1, A1. split; [done|]. split; [done|]. split; [done|]. eapply dispatched_fair; [apply HE | exact Hd]. }
  run_bind. destruct (run_inputs x1 ins) as [[x2 calls2]| |] eqn:E2; [|done..]. run_bind. intros [= -> <-].
  apply sends_fair_app; [done|]. eapply (IH x1 A1); [done | lia | exact E2].
Qed.

(** ** Guarantee *)

(** C8: the exchange sends what the simulator relies on.  In every session of
    fewer than 2^32 inputs, whatever bytes the clients send and however its book was
    filled, the exchange returns, and each message it queues for a client, as the
    frame that the client's connection finds on the wire, has prices of the
    exchange: a level update names a level of the book, and a trade event the price
    of one.  This is the condition under which the simulator is never stuck. *)
Theorem exchange_is_fair (ins : list Input) :
  Forall valid_input ins → Z.of_nat (length ins) < 2 ^ 32 →
  ∃ x calls, run_inputs Exchange ins = Done (x, calls) ∧
    ∀ c, Forall (λ m, fair_frame (on_wire m) = true) (sent_to c calls).
Proof.
  intros Hv Hl. destruct (session_ok ins Hv Hl) as (x & calls & A & E & HE & _). exists x, calls. split; [exact E|].
  pose proof (run_inputs_fair Exchange empty_book ins x calls fresh_ok Hv ltac:(cbn; lia) E) as Hf.
  intros c. apply Forall_forall. intros [type payload] (d & Hin)%sent_to_elem. by eapply Hf.
Qed.

(** ** Witness *)

Lemma exchange_is_fair_witness :
  ∃ x calls, run_inputs Exchange (opening ++ trading) = Done (x, calls) ∧
    existsb (λ m, m.1 =? MessageType_to_u8 TRADE_EVENT) (sent_to 1 calls) = true ∧
    Forall (λ m, fair_frame (on_wire m) = true) (sent_to 1 calls).
Proof.
  destruct (exchange_is_fair (opening ++ trading)) as (x & calls & E & Hf).
  - apply check_input_ok. vm_compute. reflexivity.
  - reflexivity.
  - exists x, calls. split; [exact E|]. split; [|apply Hf].
    assert (existsb (λ m, m.1 =? MessageType_to_u8 TRADE_EVENT)
      (sent_to 1 (result_of (run_inputs Exchange (opening ++ trading))).2) = true) as Ht by (vm_compute; reflexivity).
    rewrite E in Ht. exact Ht.
Defined.
