(* ===== verification/Application.v ===== *)
(** The process around the exchange ([application.hpp], [application.cpp]) and the
    two programs ([apps/exchange/main.cpp], [apps/market_simulator/main.cpp]).

    A [std::thread] of the pool is joinable until it is joined; its index in
    [threads_] is its identity.  [join] returns when the thread has ended, makes it
    not joinable, and throws [std::system_error] when a thread joins itself. *)

From stdpp Require Import strings.
From Stdlib Require Import SpecFloat.
From S2P Require Import Prelude Types OrderBook BookSpec Codec Payloads Protocol SpscQueue Connection Exchange ExchangeCalls ExchangeSession Doubles Pcg32 ShadowBook OrderManager MarketState MarketDynamics Simulator Platform.

(** How a call ends: it returns, or an exception leaves it. *)
Inductive result (A : Type) := Returned (a : A) | Thrown (a : A).
Arguments Returned {A}.
Arguments Thrown {A}.

(** ** The application *)

Module Application.
(** [threads_] holds, per thread, whether it is joinable; [capacity] is that of
    the vector.  [main] is not a thread of the pool. *)
Record t := Make {
  exchange_ : Exchange.t;
  threads_ : list bool;
  capacity : nat;
  io_stopped : bool;
  work_guard_ : bool;
  running_ : bool
}.

(** The constructor: [reserve] gives a capacity that is at least [num_threads]. *)
Definition Application (reserve : nat → nat) (num_threads : nat) : t :=
  Make Exchange.Exchange [] (reserve num_threads) false true false.

(** [start] *)
Definition start (a : t) : t :=
  if a.(running_) then a
  else
    Make (Exchange.start a.(exchange_)) (a.(threads_) ++ replicate a.(capacity) true) a.(capacity)
      a.(io_stopped) a.(work_guard_) true.

(** [for (auto& t : threads_) if (t.joinable()) t.join();] on the thread [self].
    [None] says that a join threw; the threads joined before it stay joined. *)
Fixpoint join_all (self : option nat) (i : nat) (threads : list bool) : list bool * bool :=
  match threads with
  | [] => ([], false)
  | joinable :: threads =>
      if joinable && bool_decide (self = Some i) then (joinable :: threads, true)
      else let '(threads, thrown) := join_all self (S i) threads in (false :: threads, thrown)
  end.

(** [stop], on the thread [self]. *)
Definition stop (self : option nat) (a : t) : outcome (result t) :=
  if negb a.(running_) then Done (Returned a)
  else
    exchange ← Exchange.stop a.(exchange_);
    let '(threads, thrown) := join_all self 0 a.(threads_) in
    if thrown : bool then Done (Thrown (Make exchange threads a.(capacity) true false false))
    else Done (Returned (Make exchange [] a.(capacity) true false false)).

(** [wait], on the main thread. *)
Definition wait (a : t) : result t :=
  let '(threads, thrown) := join_all None 0 a.(threads_) in
  let a := Make a.(exchange_) threads a.(capacity) a.(io_stopped) a.(work_guard_) a.(running_) in
  if thrown : bool then Thrown a else Returned a.

(** How a thread of the pool goes on after a handler that it runs: with the next
    one, to the end of [run], or to [std::terminate], which [run_io_context] calls
    for an exception. *)
Inductive ThreadFate := keeps_running | ends | terminates.

Definition run_io_context (handler : result t) : ThreadFate :=
  match handler with
  | Thrown _ => terminates
  | Returned a => if a.(io_stopped) then ends else keeps_running
  end.

(** The handler of [SIGINT] and [SIGTERM], run by thread [self] of the pool. *)
Definition on_signal (self : nat) (a : t) : outcome ThreadFate :=
  r ← stop (Some self) a;
  Done (run_io_context r).
End Application.
Import Application.

(** ** The programs *)

(** [main] of the exchange: its arguments, if they are given, with whether a
    warning is printed. *)
Definition port_argument (arg : option string) : outcome (Z * bool) :=
  match arg with
  | None => Done (16000, false)
  | Some arg => p ← atoi arg; Done (if (0 <? p) && (p <=? 65535) then (u16 p, false) else (16000, true))
  end.

Definition threads_argument (arg : option string) : outcome (Z * bool) :=
  match arg with
  | None => Done (1, false)
  | Some arg => t ← atoi arg; Done (if 0 <? t then (u64 t, false) else (1, true))
  end.

Definition exchange_main (argv : list string) : outcome (Z * Z * (bool * bool)) :=
  '(port, bad_port) ← port_argument (argv !! 1%nat);
  '(io_threads, bad_threads) ← threads_argument (argv !! 2%nat);
  Done (port, io_threads, (bad_port, bad_threads)).

(** [main] of the simulator: the bounds of its liquidity buckets, and simulator [i]. *)
Definition bounds : list Price_t := [1; 5; 10].

Section simulator.
Context `{Libm, Distributions} {Q : Type} `{PriorityQueue Q}.

Definition simulator_main (i : Z) (memory_time : TimeState.t) (memory_price : Price_t) (memory_liq : LiquidityState.t)
    : MarketSimulator.t pcg32.t Q :=
  MarketSimulator.MarketSimulator (PCGRNG.PCGRNG (u64 i) 0)
    (SimulationState.SimulationState memory_time memory_price memory_liq bounds).
End simulator.

(** [on_shutdown]: the flag [shutdown_requested], and whether the event loop is stopped. *)
Definition on_shutdown (shutdown_requested : bool) : bool * bool := (true, negb shutdown_requested).

(** ** Guarantees *)

Lemma join_all_other self i threads :
  (∀ k, self = Some k → (k < i)%nat ∨ (i + length threads <= k)%nat) →
  join_all self i threads = (replicate (length threads) false, false).
Proof.
  revert i. induction threads as [|j threads IH]; intros i Hs; [done|]. cbn [join_all length replicate].
  rewrite bool_decide_false, andb_false_r.
  - rewrite IH; [done|]. intros k Hk. destruct (Hs k Hk); cbn in *; lia.
  - intros Hk. destruct (Hs i Hk); cbn in *; lia.
Qed.

Lemma join_all_self k i threads :
  threads !! k = Some true →
  join_all (Some (i + k)%nat) i threads = (replicate k false ++ drop k threads, true).
Proof.
  revert i threads. induction k as [|k IH]; intros i [|j threads] Hk; try done; cbn [join_all].
  - injection Hk as ->. by rewrite Nat.add_0_r, bool_decide_true.
  - rewrite bool_decide_false by (intros [=]; lia). rewrite andb_false_r.
    replace (i + S k)%nat with (S i + k)%nat by lia. by rewrite IH.
Qed.

Lemma clear_connections_ok n i (conns : array (option Id_t)) :
  0 <= i → i + Z.of_nat n <= arr_size conns →
  ∃ conns', Exchange.clear_connections n i conns = Done conns' ∧ arr_size conns' = arr_size conns.
Proof.
  revert i conns. induction n as [|n IH]; intros i conns Hi Hn; cbn [Exchange.clear_connections]; [by eexists|].
  rewrite arr_set_ok by lia. run_bind. destruct (IH (i + 1) (arr_put conns i None)) as (conns' & E & Hs);
    rewrite ?arr_size_put; try lia. exists conns'. rewrite Hs. by rewrite arr_size_put.
Qed.

Lemma exchange_stop_ok x A :
  exchange_ok x A → ∃ x', Exchange.stop x = Done x' ∧ x'.(Exchange.running_) = false ∧ x'.(Exchange.clients_) = ∅.
Proof.
  intros [[Hs _] _ _ _ _]. unfold Exchange.stop. cbn [Exchange.conn_by_id_ Exchange.set_engine].
  destruct (clear_connections_ok (Z.to_nat MAX_CONNECTIONS) 0 (Exchange.conn_by_id_ x)) as (conns & -> & _);
    [lia | rewrite Hs; vm_compute; congruence |]. run_bind. by eexists.
Qed.

(** C37: a signal terminates the process.  However many threads the exchange runs
    on, and whichever of them receives SIGINT or SIGTERM, the handler stops the
    exchange and the event loop and joins the threads before it, and then joins
    the thread it runs on: the exception this throws leaves the event loop, and
    [std::terminate] is called.  The same [stop] on any other thread joins all
    threads and returns. *)
Theorem signal_terminates (reserve : nat → nat) (num_threads : nat) (x : Exchange.t) A :
  exchange_ok x A → (num_threads <= reserve num_threads)%nat →
  let a := start (Application reserve num_threads) in
  let a := Make x a.(threads_) a.(capacity) a.(io_stopped) a.(work_guard_) a.(running_) in
  (∀ self, (self < reserve num_threads)%nat → on_signal self a = Done terminates) ∧
  ∃ a', stop None a = Done (Returned a') ∧ a'.(threads_) = [] ∧ a'.(io_stopped) = true ∧
    a'.(exchange_).(Exchange.running_) = false ∧ stop None a' = Done (Returned a').
Proof.
  intros HE Hr. cbn [start Application running_ threads_ capacity io_stopped work_guard_ app].
  destruct (exchange_stop_ok x A HE) as (x' & Ex & Hrun & _).
  set (a := Make x _ _ _ _ _). split.
  - intros self Hs. unfold on_signal, stop. cbn [a running_ negb exchange_ threads_]. rewrite Ex. run_bind.
    rewrite (join_all_self self 0) by (by apply lookup_replicate_2). done.
  - unfold stop at 1. cbn [a running_ negb exchange_ threads_]. rewrite Ex. run_bind.
    rewrite join_all_other by done. eexists. by repeat split.
Qed.

Lemma signal_terminates_witness :
  on_signal 1 (start (Application (λ n, n) 2)) = Done terminates.
Proof.
  destruct (signal_terminates (λ n, n) 2 (Exchange.start Exchange.Exchange) empty_book) as [H _].
  - destruct fresh_ok as [[] ? ? ? ?]. split; try assumption. split; assumption.
  - lia.
  - apply (H 1%nat). lia.
Defined.

(** A stopped application cannot be started again to any effect: threads are
    created, but the event loop they run stays stopped. *)
Theorem restart_runs_nothing (a : Application.t) :
  a.(io_stopped) = true → run_io_context (Returned (start a)) = ends.
Proof. intros Hs. unfold run_io_context, start. destruct (running_ a); cbn; by rewrite Hs. Qed.

(** Starting twice starts once. *)
Lemma start_idempotent a : start (start a) = start a.
Proof. unfold start at 1. by assert ((start a).(running_) = true) as -> by (unfold start; by destruct (running_ a) eqn:E). Qed.

Lemma atoi_range s n : atoi s = Done n → - 2 ^ 31 <= n < 2 ^ 31.
Proof.
  unfold atoi. destruct (match skip_spaces s with EmptyString => _ | _ => _ end) as [neg r].
  destruct ((_ <=? _) && _) eqn:E; [|done]. intros [= <-]. lia.
Qed.

Lemma port_range arg p b : port_argument arg = Done (p, b) → 0 < p <= 65535.
Proof.
  unfold port_argument. destruct arg as [arg|]; [|intros [= <- _]; lia]. destruct (atoi arg) as [n| |]; run_bind; [|done..].
  destruct ((0 <? n) && (n <=? 65535)) eqn:E; intros [= <- _]; [|lia].
  with_strategy transparent [u16] unfold u16. rewrite Z.mod_small; lia.
Qed.

Lemma threads_range arg n b : threads_argument arg = Done (n, b) → 0 < n < 2 ^ 31.
Proof.
  unfold threads_argument. destruct arg as [arg|]; [|intros [= <- _]; lia].
  destruct (atoi arg) as [m| |] eqn:Em; run_bind; [|done..]. apply atoi_range in Em.
  destruct (0 <? m) eqn:E; intros [= <- _]; [|lia]. rewrite u64_small; lia.
Qed.

(** Whatever the command line, the exchange listens on a port and has a thread. *)
Theorem configuration argv port io_threads warnings :
  exchange_main argv = Done (port, io_threads, warnings) → 0 < port <= 65535 ∧ 0 < io_threads < 2 ^ 31.
Proof.
  unfold exchange_main. destruct (port_argument _) as [[p bp]| |] eqn:Ep; run_bind; [|done..].
  destruct (threads_argument _) as [[n bn]| |] eqn:En; run_bind; [|done..].
  intros [= <- <- _]. split; [by eapply port_range | by eapply threads_range].
Qed.

Lemma configuration_witness : 0 < 8080 <= 65535 ∧ 0 < 4 < 2 ^ 31.
Proof. apply (configuration ["exchange"; "8080"; "4"]%string 8080 4 (false, false)). reflexivity. Defined.
